(** * furniture-bench: the vectorised RL simulation environment

    A shallow embedding of [furniture_bench/envs/furniture_rl_sim_env.py]
    (classes [FurnitureSimEnv] and [FurnitureRLSimEnv]).

    Conventions of the embedding.
    - A torch tensor of shape [(E,)] is a [list]; one of shape [(E, K)] is a
      list of [E] rows.  Operations check shapes where torch does and raise
      on a mismatch; the shapes [__init__] establishes are stated as
      well-formedness predicates on configurations, states and inputs.
    - Floating point tensors hold rationals [Q]: no rounding, no NaN, no
      infinity.  Comparisons and sign tests agree with IEEE on every input
      used below.
    - The [int32] step counter is a [Z] whose increment wraps.
    - Python exceptions are the [Raise] results of an error monad.
    - The physics engine (Isaac Gym) and the helper modules [C], [T] are
      external: what they compute is an input of a step or a section
      variable. *)

From Stdlib Require Import ZArith QArith Qabs Bool Lia Lqa String.
From stdpp Require Import base tactics option list strings.

Set Default Proof Using "Type*".

(** ** Python results *)

Inductive pyerr : Type :=
  | AssertionError
  | IndexError
  | ValueError
  | AttributeError
  | RuntimeError
  | LinAlgError.

Inductive result (A : Type) : Type :=
  | Ok (a : A)
  | Raise (e : pyerr).
Arguments Ok {A} a.
Arguments Raise {A} e.

#[global] Instance result_ret : MRet result := λ A a, Ok a.
#[global] Instance result_bind : MBind result := λ A B f m,
  match m with
  | Ok a => f a
  | Raise e => Raise e
  end.

#[global] Instance result_fmap : FMap result := λ A B f m,
  match m with
  | Ok a => Ok (f a)
  | Raise e => Raise e
  end.

(** [mapM] over a list, left to right, stopping at the first exception. *)
Fixpoint result_mapM {A B : Type} (f : A → result B) (l : list A) : result (list B) :=
  match l with
  | [] => Ok []
  | a :: l' => b ← f a; bs ← result_mapM f l'; Ok (b :: bs)
  end.

(** A [for] loop threading an accumulator, stopping at the first exception. *)
Fixpoint result_foldM {A S : Type} (f : S → A → result S) (l : list A) (s : S) : result S :=
  match l with
  | [] => Ok s
  | a :: l' => s' ← f s a; result_foldM f l' s'
  end.

(** ** Tensor indexing *)

(** [t[i]] for a Python [int]: out of range raises [IndexError]. *)
Definition index_get {A : Type} (l : list A) (i : nat) : result A :=
  match l !! i with
  | Some a => Ok a
  | None => Raise IndexError
  end.

(** An index held in an index tensor: negative values count from the end,
    anything outside [-n, n) raises. *)
Definition norm_index (n : nat) (i : Z) : result nat :=
  if bool_decide (0 ≤ i < Z.of_nat n)%Z then Ok (Z.to_nat i)
  else if bool_decide (- Z.of_nat n ≤ i < 0)%Z then Ok (Z.to_nat (i + Z.of_nat n))
  else Raise IndexError.

(** [t[idxs] = 0] for an index tensor [idxs]: every named item is overwritten,
    through [clear], by zeros of its own shape. *)
Definition index_assign {A : Type} (idxs : list Z) (clear : A → A) (t : list A)
    : result (list A) :=
  ks ← result_mapM (norm_index (length t)) idxs;
  Ok (foldl (λ acc k, alter clear k acc) t ks).

(** [t[:, i]]. *)
Definition get_col {A : Type} (i : nat) (t : list (list A)) : result (list A) :=
  result_mapM (λ row, index_get row i) t.

(** [t[:, i] = col]: the column must exist and [col] must have one entry per
    row. *)
Definition set_col {A : Type} (i : nat) (col : list A) (t : list (list A))
    : result (list (list A)) :=
  if negb (forallb (λ row, i <? length row) t) then Raise IndexError
  else if negb (length col =? length t) then Raise RuntimeError
  else Ok (zip_with (λ row x, <[i := x]> row) t col).

(** An elementwise operation on two vectors of the same shape.  Broadcasting
    of a one-item operand is not modelled: a length mismatch raises. *)
Definition tensor_zip {A B C : Type} (f : A → B → C) (a : list A) (b : list B)
    : result (list C) :=
  if length a =? length b then Ok (zip_with f a b) else Raise RuntimeError.

(** [t.view(n, ...)] and [t.reshape(n, ...)] of a tensor with [n] leading
    items. *)
Definition view_rows {A : Type} (n : nat) (t : list A) : result (list A) :=
  if length t =? n then Ok t else Raise RuntimeError.

(** [torch.where(mask)[0]]: the positions holding [True], ascending. *)
Fixpoint torch_where_from (k : nat) (mask : list bool) : list nat :=
  match mask with
  | [] => []
  | b :: mask' =>
      if b then k :: torch_where_from (S k) mask' else torch_where_from (S k) mask'
  end.
Definition torch_where (mask : list bool) : list nat := torch_where_from 0 mask.

(** [t.any()] and [t.sum()] of a boolean vector. *)
Definition tensor_any (t : list bool) : bool := existsb id t.
Definition tensor_sum (t : list bool) : nat := length (filter (λ b, b = true) t).

(** [int32] wrap-around. *)
Definition wrap32 (z : Z) : Z := ((z + 2 ^ 31) mod 2 ^ 32 - 2 ^ 31)%Z.

(** Boolean comparisons of floats. *)
Definition Qlt_bool (a b : Q) : bool := negb (Qle_bool b a).
(** [torch.sign]: -1, 0 or 1. *)
Definition torch_sign (x : Q) : Z := Z.sgn (Qnum x).
(** [torch.clamp(x, lo, hi)]. *)
Definition torch_clamp (lo hi x : Q) : Q :=
  let y := if Qlt_bool x lo then lo else x in
  if Qlt_bool hi y then hi else y.

(** [t[idxs] = vals] for an index tensor of valid positions given as [nat]
    (rigid body indices): every index is checked, then the rows are written in
    order. *)
Definition index_put {A : Type} (idxs : list nat) (vals : list A) (t : list A) : result (list A) :=
  if forallb (λ k, k <? length t) idxs
  then Ok (foldl (λ acc kv, <[kv.1 := kv.2]> acc) t (zip idxs vals))
  else Raise IndexError.

(** [t[mask]] for a boolean mask of the length of [t]. *)
Fixpoint mask_select {A : Type} (mask : list bool) (t : list A) : list A :=
  match mask, t with
  | b :: mask', a :: t' => if b then a :: mask_select mask' t' else mask_select mask' t'
  | _, _ => []
  end.

(** [t.view(E, P, 7)] of a row of [P * 7] numbers: [P] consecutive chunks. *)
Fixpoint view_chunks {A : Type} (w : nat) (p : nat) (row : list A) : list (list A) :=
  match p with
  | O => []
  | S p' => take w row :: view_chunks w p' (drop w row)
  end.

(** ** 4x4 homogeneous matrices *)

Open Scope Q_scope.

Inductive ix4 : Type := I0 | I1 | I2 | I3.

Definition mat4 : Type := ix4 → ix4 → Q.

Definition meq (A B : mat4) : Prop := ∀ i j, A i j == B i j.

Definition mid : mat4 := λ i j,
  match i, j with
  | I0, I0 | I1, I1 | I2, I2 | I3, I3 => 1
  | _, _ => 0
  end.

(** [A @ B]. *)
Definition mmul (A B : mat4) : mat4 := λ i j,
  A i I0 * B I0 j + A i I1 * B I1 j + A i I2 * B I2 j + A i I3 * B I3 j.

Definition det3 (a b c d e f g h k : Q) : Q :=
  a * (e * k - f * h) - b * (d * k - f * g) + c * (d * h - e * g).

(** The three indices left when one is deleted, in order. *)
Definition others (i : ix4) : ix4 * ix4 * ix4 :=
  match i with
  | I0 => (I1, I2, I3)
  | I1 => (I0, I2, I3)
  | I2 => (I0, I1, I3)
  | I3 => (I0, I1, I2)
  end.

Definition parity (i j : ix4) : Q :=
  match i, j with
  | I0, I0 | I0, I2 | I1, I1 | I1, I3
  | I2, I0 | I2, I2 | I3, I1 | I3, I3 => 1
  | _, _ => -1
  end.

Definition cofactor (M : mat4) (i j : ix4) : Q :=
  let '(r1, r2, r3) := others i in
  let '(c1, c2, c3) := others j in
  parity i j *
  det3 (M r1 c1) (M r1 c2) (M r1 c3)
       (M r2 c1) (M r2 c2) (M r2 c3)
       (M r3 c1) (M r3 c2) (M r3 c3).

Definition mdet (M : mat4) : Q :=
  M I0 I0 * cofactor M I0 I0 + M I0 I1 * cofactor M I0 I1
  + M I0 I2 * cofactor M I0 I2 + M I0 I3 * cofactor M I0 I3.

(** [np.linalg.inv]: the exact inverse, [LinAlgError] on a singular matrix. *)
Definition linalg_inv (M : mat4) : result mat4 :=
  if Qeq_bool (mdet M) 0 then Raise LinAlgError
  else Ok (λ i j, cofactor M j i / mdet M).

Close Scope Q_scope.

(** ** Values a Python function can hand back *)

Inductive pyvalue : Type :=
  | PyScalar (x : Q)
  | PyTensor1 (t : list Q)
  | PyTensor2 (t : list (list Q))
  | PyTuple2 (a b : pyvalue).

(** [a, b = v]: a tuple gives its components, a tensor is iterated along its
    first dimension and must hold exactly two items. *)
Definition unpack2 (v : pyvalue) : result (pyvalue * pyvalue) :=
  match v with
  | PyTuple2 a b => Ok (a, b)
  | PyTensor2 [r0; r1] => Ok (PyTensor1 r0, PyTensor1 r1)
  | PyTensor1 [x0; x1] => Ok (PyScalar x0, PyScalar x1)
  | _ => Raise ValueError
  end.

(** [v[i]] for a Python [int] [i]. *)
Definition py_getitem (v : pyvalue) (i : nat) : result pyvalue :=
  match v with
  | PyTensor2 t => PyTensor1 <$> index_get t i
  | PyTensor1 t => PyScalar <$> index_get t i
  | PyTuple2 a b => match i with 0 => Ok a | 1 => Ok b | _ => Raise IndexError end
  | PyScalar _ => Raise IndexError
  end.

(** ** Configuration, state and external helpers *)

(** What [__init__] fixes for the lifetime of an environment object. *)
Record Config {RelPose : Type} : Type := {
  num_envs : nat;
  furniture_name : string;
  max_env_steps : Z;
  manual_label : bool;
  manual_done : bool;
  np_step_out : bool;
  max_gripper_width : Q;          (* config["robot"]["max_gripper_width"][furniture] *)
  sim_steps : nat;                (* physics substeps per control step *)
  franka_from_origin_mat : mat4;
  base_tag_from_robot_mat : mat4; (* config["robot"]["tag_base_from_robot_base"] *)
  furniture_rb_indices : list (list nat);     (* (num_envs, num_parts) *)
  lamp_bulb_rb_indices : list nat;            (* one bulb per environment *)
  ee_idxs : list nat;
  (* FurnitureRLSimEnv *)
  pairs_to_assemble : list (nat * nat);
  position_only : list (nat * nat);           (* furniture.position_only *)
  assembled_rel_poses : list (list RelPose);  (* (num_pairs, num_poses) *)
  rigid_body_index_by_env : list (list nat);  (* (num_envs, num_parts) *)
  rigid_body_count : nat;
  force_multiplier : list Q;
  torque_multiplier : list Q;
}.
Arguments Config RelPose : clear implicits.

(** The attributes the methods below mutate. *)
Record State : Type := {
  rb_states : list (list Q);       (* engine tensor, as of the last refresh *)
  already_assembled : list (list bool);   (* (num_envs, num_pairs) *)
  env_steps : list Z;              (* int32 *)
  _moving_bulbs : option (list bool);     (* unset until the first lamp reset *)
  last_grasp : list Q;
  max_force_magnitude : Q;
  max_torque_magnitude : Q;
}.

Definition set_rb_states (v : list (list Q)) (s : State) : State :=
  {| rb_states := v; already_assembled := already_assembled s;
     env_steps := env_steps s; _moving_bulbs := _moving_bulbs s;
     last_grasp := last_grasp s; max_force_magnitude := max_force_magnitude s;
     max_torque_magnitude := max_torque_magnitude s |}.
Definition set_already_assembled (v : list (list bool)) (s : State) : State :=
  {| rb_states := rb_states s; already_assembled := v;
     env_steps := env_steps s; _moving_bulbs := _moving_bulbs s;
     last_grasp := last_grasp s; max_force_magnitude := max_force_magnitude s;
     max_torque_magnitude := max_torque_magnitude s |}.
Definition set_env_steps (v : list Z) (s : State) : State :=
  {| rb_states := rb_states s; already_assembled := already_assembled s;
     env_steps := v; _moving_bulbs := _moving_bulbs s;
     last_grasp := last_grasp s; max_force_magnitude := max_force_magnitude s;
     max_torque_magnitude := max_torque_magnitude s |}.
Definition set_moving_bulbs (v : option (list bool)) (s : State) : State :=
  {| rb_states := rb_states s; already_assembled := already_assembled s;
     env_steps := env_steps s; _moving_bulbs := v;
     last_grasp := last_grasp s; max_force_magnitude := max_force_magnitude s;
     max_torque_magnitude := max_torque_magnitude s |}.
Definition set_last_grasp (v : list Q) (s : State) : State :=
  {| rb_states := rb_states s; already_assembled := already_assembled s;
     env_steps := env_steps s; _moving_bulbs := _moving_bulbs s;
     last_grasp := v; max_force_magnitude := max_force_magnitude s;
     max_torque_magnitude := max_torque_magnitude s |}.
Definition set_magnitudes (f t : Q) (s : State) : State :=
  {| rb_states := rb_states s; already_assembled := already_assembled s;
     env_steps := env_steps s; _moving_bulbs := _moving_bulbs s;
     last_grasp := last_grasp s; max_force_magnitude := f;
     max_torque_magnitude := t |}.

(** The functions of [furniture_bench.controllers.control_utils] (imported as
    [C]), of [torch] and of the furniture catalogue that the environment calls
    and that are not part of this file.  Each acts on one batch element. *)
Class ControlUtils (RelPose : Type) : Type := {
  (* torch.matmul(torch.inverse(C.pose_from_vector(p1)), C.pose_from_vector(p2)) *)
  rel_pose : list Q → list Q → RelPose;
  (* C.is_similar_rot(rel[:3, :3], target[:3, :3], furniture.ori_bound) *)
  is_similar_rot : RelPose → RelPose → bool;
  (* C.is_similar_pos(rel[:3, 3], target[:3, 3], furniture.assembled_pos_threshold) *)
  is_similar_pos : RelPose → RelPose → bool;
  (* C.is_similar_pos(lb_pos, hand_pos, pos_threshold=hand_bulb_pos_thresh) *)
  hand_bulb_similar_pos : list Q → list Q → bool;
  (* C.pose2mat_batched(pos, quat) and C.mat2pose_batched(mat) *)
  pose2mat : list Q → list Q → mat4;
  mat2pose : mat4 → list Q * list Q;
  (* torch.cos(u * 2 * np.pi) and torch.sin(u * 2 * np.pi) *)
  cos_2pi : Q → Q;
  sin_2pi : Q → Q;
  (* furnitures[env_idx].compute_assemble(parts_poses, founds) *)
  compute_assemble : nat → pyvalue → pyvalue → result Q;
}.

(** [self.grasp_margin = 0.02 - 0.001]. *)
Definition grasp_margin : Q := 19 # 1000.

(** One iteration of the substep loop of [simulate_step]: the environments
    whose bulb root state was written and pushed before [simulate], if any. *)
Definition substep : Type := option (list nat).

(** [FurnitureRLSimEnv._set_bulb_poses], reached from [simulate_step] through
    [self]: an empty index tensor prints a warning and writes nothing,
    otherwise the rest pose of each named environment's bulb is written to the
    root state tensor and pushed to the engine. *)
Definition _set_bulb_poses (env_idxs : list nat) : substep :=
  if length env_idxs =? 0 then None else Some env_idxs.

(** ** class FurnitureSimEnv *)

Module FurnitureSimEnv.
Section WithUtils.
Context {RelPose : Type} `{!ControlUtils RelPose}.
Implicit Types (c : Config RelPose) (s : State).

(** *** Frame transforms *)

Definition april_to_sim_mat c : mat4 :=
  mmul (franka_from_origin_mat c) (base_tag_from_robot_mat c).

Definition sim_to_april_mat c : result mat4 :=
  bi ← linalg_inv (base_tag_from_robot_mat c);
  fi ← linalg_inv (franka_from_origin_mat c);
  Ok (mmul bi fi).

Definition sim_to_robot_mat c : mat4 := franka_from_origin_mat c.

Definition april_coord_to_sim_coord c (april_coord_mat : mat4) : mat4 :=
  mmul (april_to_sim_mat c) april_coord_mat.

Definition sim_coord_to_april_coord c (sim_coord_mat : mat4) : result mat4 :=
  m ← sim_to_april_mat c; Ok (mmul m sim_coord_mat).

Definition sim_coord_to_robot_coord c (sim_coord_mat : mat4) : mat4 :=
  mmul (sim_to_robot_mat c) sim_coord_mat.


(** The pose of one part, [pos ++ quat], pushed through a frame change. *)
Definition pose_through (f : mat4 → mat4) (pose : list Q) : list Q :=
  let '(pos, quat) := mat2pose (f (pose2mat (take 3 pose) (take 4 (drop 3 pose)))) in
  pos ++ quat.

Definition sim_pose_to_april_pose c (parts_poses : list (list (list Q)))
    : result (list (list (list Q))) :=
  m ← sim_to_april_mat c;
  Ok (map (map (pose_through (mmul m))) parts_poses).

Definition sim_pose_to_robot_pose c (parts_poses : list (list (list Q)))
    : list (list (list Q)) :=
  map (map (pose_through (sim_coord_to_robot_coord c))) parts_poses.

(** *** Part poses *)

(** [self.rb_states[self.furniture_rb_indices, :7]], shape
    [(num_envs, num_parts, 7)]. *)
Definition gather_poses (rb : list (list Q)) (idxs : list (list nat))
    : result (list (list (list Q))) :=
  result_mapM (result_mapM (λ k, take 7 <$> index_get rb k)) idxs.

(** [t.reshape(num_envs, -1)] of a [(num_envs, num_parts, 7)] tensor. *)
Definition reshape_rows c (t : list (list (list Q))) : result (list (list Q)) :=
  view_rows (num_envs c) (map (λ env_poses, concat env_poses) t).

Definition get_parts_poses c (rb : list (list Q)) (sim_coord robot_coord : bool)
    : result pyvalue :=
  parts_poses ← gather_poses rb (furniture_rb_indices c);
  if sim_coord then PyTensor2 <$> reshape_rows c parts_poses
  else if robot_coord then
    PyTensor2 <$> reshape_rows c (sim_pose_to_robot_pose c parts_poses)
  else
    april_coord_poses ← sim_pose_to_april_pose c parts_poses;
    PyTensor2 <$> reshape_rows c april_coord_poses.

(** *** Reward of the base class *)

Definition _reward c s : result (list Q) :=
  let rewards := replicate (num_envs c) 0%Q in
  if manual_label c then Ok rewards
  else
    v ← get_parts_poses c (rb_states s) true false;
    '(parts_poses, founds) ← unpack2 v;
    result_foldM
      (λ rewards env_idx,
         env_parts_poses ← py_getitem parts_poses env_idx;
         env_founds ← py_getitem founds env_idx;
         r ← compute_assemble env_idx env_parts_poses env_founds;
         if env_idx <? length rewards then Ok (<[env_idx := r]> rewards)
         else Raise IndexError)
      (seq 0 (num_envs c)) rewards.

(** *** One control step *)

(** The gripper width commanded for one environment. *)
Definition grip_sep_of c (grasp last : Q) : Q :=
  if negb (torch_sign grasp =? torch_sign last)%Z
     && Qlt_bool grasp_margin (Qabs grasp)
  then (if Qlt_bool grasp 0 then max_gripper_width c else 0%Q)
  else (if Qlt_bool last 0 then max_gripper_width c else 0%Q).

Definition _handle_bulb_rest_pose c s : result (bool * option (list nat) * State) :=
  if negb (String.eqb (furniture_name c) "lamp") then Ok (false, None, s)
  else if existsb (λ n, (max_env_steps c <? 2 * n)%Z) (env_steps s)
  then Ok (false, None, s)
  else
    let to_rest := replicate (num_envs c) true in
    moving ← match _moving_bulbs s with
              | Some m => Ok m
              | None => Raise AttributeError
              end;
    to_rest ← tensor_zip andb to_rest (negb <$> moving);
    lb_pos ← result_mapM (λ k, take 3 <$> index_get (rb_states s) k)
               (lamp_bulb_rb_indices c);
    lb_pos ← view_rows (num_envs c) lb_pos;
    hand_pos ← result_mapM (λ k, take 3 <$> index_get (rb_states s) k) (ee_idxs c);
    hand_pos ← view_rows (num_envs c) hand_pos;
    let hand_bulb_close := zip_with hand_bulb_similar_pos lb_pos hand_pos in
    to_rest ← tensor_zip andb to_rest (negb <$> hand_bulb_close);
    let env_idx_to_rest := torch_where to_rest in
    let released := torch_where (negb <$> to_rest) in
    moving' ← index_put released (replicate (length released) true) moving;
    let s' := set_moving_bulbs (Some moving') s in
    if 0 <? length env_idx_to_rest then Ok (true, Some env_idx_to_rest, s')
    else Ok (false, None, s').

(** What [simulate_step] sends to the engine, as far as the gripper and the
    bulbs go; the arm targets come from the differential IK controller. *)
Record SimOut : Type := {
  grip_sep : list Q;
  gripper_action_mask : list bool;
  substeps : list substep;
}.

(** [engine_rb] is the rigid body tensor the engine hands back when the
    substeps are done and the tensors are refreshed. *)
Definition simulate_step c s (action : list (list Q)) (engine_rb : list (list Q))
    : result (SimOut * State) :=
  action ← view_rows (num_envs c) (map (map (torch_clamp (-1) 1)) action);
  grasp ← result_mapM (λ row, match last row with
                              | Some g => Ok g
                              | None => Raise IndexError
                              end) action;
  grip ← tensor_zip (grip_sep_of c) grasp (last_grasp s);
  let s := set_last_grasp grasp s in
  let mask := (λ w, Qlt_bool 0 w) <$> grip in
  match _handle_bulb_rest_pose c s with
  | Raise e => Raise e
  | Ok (any_bulbs_unsettled, rest_bulb_env_idxs, s) =>
      let sub : substep :=
        if any_bulbs_unsettled : bool
        then _set_bulb_poses (default [] rest_bulb_env_idxs)
        else None in
      let s := set_rb_states engine_rb s in
      Ok ({| grip_sep := grip; gripper_action_mask := mask;
             substeps := replicate (sim_steps c) sub |}, s)
  end.

End WithUtils.
End FurnitureSimEnv.

(** ** class FurnitureRLSimEnv(FurnitureSimEnv) *)

Module FurnitureRLSimEnv.

Inductive Randomness : Type := LOW | MEDIUM | HIGH.

(** [max_force_magnitude] and [max_torque_magnitude] set by [__init__]. *)
Definition initial_magnitudes (r : Randomness) : Q * Q :=
  match r with
  | LOW => (2 # 10, 7 # 1000)%Q
  | MEDIUM => (5 # 10, 1 # 100)%Q
  | HIGH => (75 # 100, 15 # 1000)%Q
  end.

(** The per-part multipliers and the pairs to assemble that [__init__]
    looks up by furniture name. *)
Definition force_mul_of (name : string) : result (list Q) :=
  if String.eqb name "one_leg" then Ok [25; 1; 1; 1; 1]%Q
  else if String.eqb name "lamp" then Ok [8; 15; 30]%Q
  else if String.eqb name "round_table" then Ok [30; 4; 20]%Q
  else if String.eqb name "square_table" then Ok [25; 1; 1; 1; 1]%Q
  else if String.eqb name "mug_rack" then Ok [50; 20]%Q
  else if String.eqb name "factory_peg_hole" then Ok [1 # 1000; 1 # 1000]%Q
  else if String.eqb name "factory_nut_bolt" then Ok [1 # 1000; 1 # 1000]%Q
  else Raise ValueError.

Definition torque_mul_of (name : string) : result (list Q) :=
  if String.eqb name "one_leg" then Ok [70; 1; 1; 1; 1]%Q
  else if String.eqb name "lamp" then Ok [16; 20; 60]%Q
  else if String.eqb name "round_table" then Ok [60; 4; 10]%Q
  else if String.eqb name "square_table" then Ok [70; 1; 1; 1; 1]%Q
  else if String.eqb name "mug_rack" then Ok [150; 30]%Q
  else if String.eqb name "factory_peg_hole" then Ok [1 # 1000; 1 # 1000]%Q
  else if String.eqb name "factory_nut_bolt" then Ok [1 # 1000; 1 # 1000]%Q
  else Raise ValueError.

Definition pairs_to_assemble_of (name : string) : result (list (nat * nat)) :=
  if String.eqb name "one_leg" then Ok [(0, 4)]
  else if String.eqb name "lamp" then Ok [(0, 1); (0, 2)]
  else if String.eqb name "round_table" then Ok [(0, 1); (1, 2)]
  else if String.eqb name "square_table" then Ok [(0, 1); (0, 2); (0, 3); (0, 4)]
  else if String.eqb name "mug_rack" then Ok [(0, 1)]
  else if String.eqb name "factory_peg_hole" then Ok [(0, 1)]
  else if String.eqb name "factory_nut_bolt" then Ok [(0, 1)]
  else Raise ValueError.

(** The uniform draws of one call of the perturbation, by position:
    [torch.rand(shape)[k]] and [torch.rand(shape)[env, part]]. *)
Record Draws : Type := {
  u_mask : nat → Q;
  u_theta : nat → nat → Q;
  u_force : nat → nat → Q;
  u_torque : nat → nat → Q;
}.

(** What one call of [step] receives: the action batch, the rigid body
    tensor the engine hands back after the substeps, and the draws of the
    perturbation when [sample_perturbations] is set. *)
Record StepInput : Type := {
  action : list (list Q);
  engine_rb : list (list Q);
  sample_perturbations : option Draws;
}.

(** What [step] returns (the observation apart) and sends to the engine. *)
Record StepOutput : Type := {
  sim : FurnitureSimEnv.SimOut;
  reward : option (list Q);        (* [None] is Python's [None] *)
  terminated : list bool;
  truncated : list bool;
  applied : option (list (list Q) * list (list Q));
}.

(** A call made by the training loop. *)
Inductive call : Type :=
  | CallStep (inp : StepInput)
  | CallReset (env_idxs : option (list Z)) (engine_rb : list (list Q)).

Section WithUtils.
Context {RelPose : Type} `{!ControlUtils RelPose}.
Implicit Types (c : Config RelPose) (s : State).

(** The mutable attributes when [__init__] returns. *)
Definition init_state c (r : Randomness) (engine_rb : list (list Q)) : State :=
  {| rb_states := engine_rb;
     already_assembled :=
       replicate (num_envs c) (replicate (length (pairs_to_assemble c)) false);
     env_steps := replicate (num_envs c) 0%Z;
     _moving_bulbs := None;
     last_grasp := replicate (num_envs c) (-1)%Q;
     max_force_magnitude := (initial_magnitudes r).1;
     max_torque_magnitude := (initial_magnitudes r).2 |}.

Definition reset c s (env_idxs : option (list Z)) (engine_rb : list (list Q))
    : result State :=
  let env_idxs :=
    match env_idxs with
    | None => Z.of_nat <$> seq 0 (num_envs c)
    | Some idxs => idxs
    end in
  if length env_idxs =? 0 then Raise AssertionError
  else
    aa ← index_assign env_idxs (map (λ _, false)) (already_assembled s);
    (* _reset_frankas and _reset_parts_multiple write to the engine *)
    steps ← index_assign env_idxs (λ _, 0%Z) (env_steps s);
    let moving :=
      if String.eqb (furniture_name c) "lamp"
      then Some (replicate (num_envs c) false)
      else _moving_bulbs s in
    Ok (set_rb_states engine_rb
          (set_moving_bulbs moving
             (set_env_steps steps (set_already_assembled aa s)))).

Definition increment_randomness s : State :=
  let force_magnitude_limit := 1%Q in
  let torque_magnitude_limit := (5 # 100)%Q in
  let py_min (a b : Q) := if Qlt_bool b a then b else a in
  set_magnitudes
    (py_min (max_force_magnitude s + (1 # 100))%Q force_magnitude_limit)
    (py_min (max_torque_magnitude s + (5 # 10000))%Q torque_magnitude_limit) s.

(** [assembled_mask.any(dim=0)] for one environment and the pair of index
    [i]. *)
Definition assembled_any c (i : nat) (pr : nat * nat) (env_poses : list (list Q))
    : result bool :=
  p1 ← index_get env_poses pr.1;
  p2 ← index_get env_poses pr.2;
  targets ← index_get (assembled_rel_poses c) i;
  let rel := rel_pose p1 p2 in
  Ok (existsb
        (λ target,
           let similar_rot :=
             if bool_decide (pr ∈ position_only c) then true
             else is_similar_rot rel target in
           let similar_pos := is_similar_pos rel target in
           similar_rot && similar_pos)
        targets).

(** The body of the loop over the pairs to assemble. *)
Definition reward_pair c (parts_poses : list (list (list Q)))
    (acc : list (list bool) * list (list bool)) (ip : nat * (nat * nat))
    : result (list (list bool) * list (list bool)) :=
  let '(newly_assembled_mask, aa) := acc in
  let '(i, pr) := ip in
  any_match ← result_mapM (assembled_any c i pr) parts_poses;
  old ← get_col i aa;
  newly ← tensor_zip andb any_match (negb <$> old);
  newly_assembled_mask ← set_col i newly newly_assembled_mask;
  newly ← get_col i newly_assembled_mask;
  updated ← tensor_zip orb old newly;
  aa ← set_col i updated aa;
  Ok (newly_assembled_mask, aa).

Definition _reward c s : result (option (list Q) * State) :=
  v ← FurnitureSimEnv.get_parts_poses c (rb_states s) true false;
  rows ← match v with PyTensor2 rows => Ok rows | _ => Raise AttributeError end;
  let num_parts := (length (default [] (head rows)) / 7)%nat in
  parts_poses ←
    result_mapM (λ row, if length row =? num_parts * 7
                        then Ok (view_chunks 7 num_parts row)
                        else Raise RuntimeError) rows;
  let newly_assembled_mask :=
    replicate (num_envs c) (replicate (length (pairs_to_assemble c)) false) in
  acc ← result_foldM (reward_pair c parts_poses)
          (imap (λ i pr, (i, pr)) (pairs_to_assemble c))
          (newly_assembled_mask, already_assembled s);
  let s := set_already_assembled acc.2 s in
  let rewards := (λ row, if tensor_any row then 1%Q else 0%Q) <$> acc.1 in
  if manual_done c && existsb (λ r, Qeq_bool r 1) rewards
  then Ok (None, s)              (* return print("Part assembled!") *)
  else Ok (Some rewards, s).

Definition _done c s : list bool * list bool :=
  if manual_done c
  then (replicate (num_envs c) false, replicate (num_envs c) false)
  else
    let terminated :=
      (λ row, tensor_sum row =? length (pairs_to_assemble c)) <$> already_assembled s in
    let truncated := (λ n, (max_env_steps c - 1 <=? n)%Z) <$> env_steps s in
    (terminated, truncated).

Definition _random_perturbation_of_parts c
    (max_force_magnitude max_torque_magnitude : Q) (d : Draws)
    : result (list (list Q) * list (list Q)) :=
  let shape := rigid_body_index_by_env c in
  let part_rigid_body_idxs := concat shape in
  let total_parts := length part_rigid_body_idxs in
  let selected_part_mask :=
    (λ k, Qlt_bool (u_mask d k) (1 # 100)) <$> seq 0 total_parts in
  let forces :=
    imap (λ e row,
      imap (λ p (_ : nat),
        let force_theta := u_theta d e p in
        let force_magnitude := (u_force d e p * max_force_magnitude)%Q in
        [force_magnitude * cos_2pi force_theta;
         force_magnitude * sin_2pi force_theta;
         0]%Q) row) shape in
  forces ← result_mapM (λ env_forces,
               tensor_zip (λ f k, map (λ x, x * k)%Q f) env_forces (force_multiplier c))
             forces;
  let forces := concat forces in
  let z_torques :=
    imap (λ e row,
      imap (λ p (_ : nat), (max_torque_magnitude * (u_torque d e p * 2 - 1))%Q) row)
      shape in
  z_torques ← result_mapM (λ env_torques,
                  tensor_zip Qmult env_torques (torque_multiplier c))
                z_torques;
  let z_torques := concat z_torques in
  let torques := map (λ z, [0; 0; z]%Q) z_torques in
  let all_forces := replicate (rigid_body_count c) [0; 0; 0]%Q in
  let all_torques := replicate (rigid_body_count c) [0; 0; 0]%Q in
  all_forces ← index_put (mask_select selected_part_mask part_rigid_body_idxs)
                 (mask_select selected_part_mask forces) all_forces;
  all_torques ← index_put (mask_select selected_part_mask part_rigid_body_idxs)
                  (mask_select selected_part_mask torques) all_torques;
  Ok (all_forces, all_torques).

Definition step c s (inp : StepInput) : result (StepOutput * State) :=
  r ← FurnitureSimEnv.simulate_step c s (action inp) (engine_rb inp);
  (* obs = self.get_observation() reads the tensors *)
  r' ← _reward c r.2;
  let done := _done c r'.2 in
  let s := set_env_steps ((λ n, wrap32 (n + 1)) <$> env_steps r'.2) r'.2 in
  forces ← match sample_perturbations inp with
            | Some d =>
                Some <$> _random_perturbation_of_parts c
                           (max_force_magnitude s) (max_torque_magnitude s) d
            | None => Ok None
            end;
  Ok ({| sim := r.1; reward := r'.1; terminated := done.1; truncated := done.2;
         applied := forces |}, s).

(** A training loop: the calls in order, each on the state the previous one
    left, with the outputs of the steps. *)
Fixpoint run c s (calls : list call) : result (list StepOutput * State) :=
  match calls with
  | [] => Ok ([], s)
  | CallStep inp :: calls' =>
      r ← step c s inp;
      r' ← run c r.2 calls';
      Ok (r.1 :: r'.1, r'.2)
  | CallReset env_idxs rb :: calls' =>
      s' ← reset c s env_idxs rb;
      run c s' calls'
  end.

End WithUtils.
End FurnitureRLSimEnv.

(** ** A small concrete environment

    Two lamp environments with three parts each ([(0, 1)] and [(0, 2)] are the
    pairs to assemble) and four rigid bodies per environment: base, bulb, hood
    and end effector.  The external helpers are replaced by stand-ins that
    only look at the x coordinate: a pair matches when the x offset between
    its parts equals the target exactly, and the hand is close to the bulb
    when both have the same x. *)

Module Demo.
Import FurnitureSimEnv FurnitureRLSimEnv.

Definition coord (p : list Q) : Q := nth 0 p 0%Q.

#[global] Instance utils : ControlUtils Q := {|
  rel_pose p1 p2 := (coord p2 - coord p1)%Q;
  is_similar_rot _ _ := false;
  is_similar_pos rel target := Qeq_bool rel target;
  hand_bulb_similar_pos lb hand := Qeq_bool (coord lb) (coord hand);
  pose2mat _ _ := mid;
  mat2pose _ := ([0; 0; 0]%Q, [0; 0; 0; 1]%Q);
  cos_2pi _ := 1%Q;
  sin_2pi _ := 0%Q;
  compute_assemble _ _ _ := Ok 0%Q;
|}.

(** A translation, and a half turn about x followed by a translation. *)
Definition translation (x y z : Q) : mat4 := λ i j,
  match i, j with
  | I0, I3 => x | I1, I3 => y | I2, I3 => z
  | _, _ => mid i j
  end.
Definition half_turn_x (x y z : Q) : mat4 := λ i j,
  match i, j with
  | I0, I3 => x | I1, I3 => y | I2, I3 => z
  | I1, I1 | I2, I2 => (-1)%Q
  | _, _ => mid i j
  end.

Definition lamp (label done : bool) (horizon : Z) : Config Q := {|
  num_envs := 2;
  furniture_name := "lamp";
  max_env_steps := horizon;
  manual_label := label;
  manual_done := done;
  np_step_out := false;
  max_gripper_width := (65 # 1000)%Q;
  sim_steps := 2;
  franka_from_origin_mat := translation (- (3 # 10)) 0 (43 # 100);
  base_tag_from_robot_mat := half_turn_x (23 # 100) 0 (- (1 # 100));
  furniture_rb_indices := [[0; 1; 2]; [4; 5; 6]];
  lamp_bulb_rb_indices := [1; 5];
  ee_idxs := [3; 7];
  pairs_to_assemble := [(0, 1); (0, 2)];
  position_only := [(0, 1); (0, 2)];
  assembled_rel_poses := [[1%Q]; [2%Q]];
  rigid_body_index_by_env := [[0; 1; 2]; [4; 5; 6]];
  rigid_body_count := 8;
  force_multiplier := [8; 15; 30]%Q;
  torque_multiplier := [16; 20; 60]%Q;
|}.

(** The first of the two environments on its own. *)
Definition solo (label : bool) : Config Q := {|
  num_envs := 1;
  furniture_name := "lamp";
  max_env_steps := 10;
  manual_label := label;
  manual_done := false;
  np_step_out := false;
  max_gripper_width := (65 # 1000)%Q;
  sim_steps := 2;
  franka_from_origin_mat := translation (- (3 # 10)) 0 (43 # 100);
  base_tag_from_robot_mat := half_turn_x (23 # 100) 0 (- (1 # 100));
  furniture_rb_indices := [[0; 1; 2]];
  lamp_bulb_rb_indices := [1];
  ee_idxs := [3];
  pairs_to_assemble := [(0, 1); (0, 2)];
  position_only := [(0, 1); (0, 2)];
  assembled_rel_poses := [[1%Q]; [2%Q]];
  rigid_body_index_by_env := [[0; 1; 2]];
  rigid_body_count := 4;
  force_multiplier := [8; 15; 30]%Q;
  torque_multiplier := [16; 20; 60]%Q;
|}.

(** A rigid body at rest at [x] on the x axis: position, quaternion,
    velocities. *)
Definition body (x : Q) : list Q :=
  [x; 0; 0; 0; 0; 0; 1; 0; 0; 0; 0; 0; 0]%Q.

(** The rigid body tensor for given x coordinates of base, bulb, hood and
    hand in the two environments. *)
Definition bodies (env0 env1 : Q * Q * Q * Q) : list (list Q) :=
  let row '(base, bulb, hood, hand) := [body base; body bulb; body hood; body hand] in
  row env0 ++ row env1.

(** Everything apart, nothing assembled, hands away from the bulbs. *)
Definition apart : Q * Q * Q * Q := (0, 5, 7, 9)%Q.
(** Both pairs at their target offsets. *)
Definition joined : Q * Q * Q * Q := (0, 1, 2, 9)%Q.
(** Only the bulb at its target offset. *)
Definition bulb_in : Q * Q * Q * Q := (0, 1, 7, 9)%Q.
(** The hand on the bulb. *)
Definition touching : Q * Q * Q * Q := (0, 5, 7, 5)%Q.

(** An action batch with the given grasp commands, axis-angle layout. *)
Definition act (g0 g1 : Q) : list (list Q) :=
  [[0; 0; 0; 0; 0; 0; g0]; [0; 0; 0; 0; 0; 0; g1]]%Q.

Definition step_to (g0 g1 : Q) (env0 env1 : Q * Q * Q * Q) : StepInput :=
  {| action := act g0 g1; engine_rb := bodies env0 env1;
     sample_perturbations := None |}.

Definition start (c : Config Q) : State := init_state c LOW (bodies apart apart).

(** The state of the single environment when [__init__] returns. *)
Definition solo_start (c : Config Q) : State :=
  init_state c LOW (take 4 (bodies apart apart)).

(** The state after [__init__] and a first [reset()], and the same with the
    step counters advanced to [n]. *)
Definition ready (c : Config Q) : State :=
  match reset c (start c) None (bodies apart apart) with
  | Ok s => s
  | Raise _ => start c
  end.
Definition ready_at (c : Config Q) (n : Z) : State :=
  set_env_steps (replicate (num_envs c) n) (ready c).

(** The usual configuration: no manual override, a horizon of ten steps. *)
Definition plain : Config Q := lamp false false 10.

(** What a sequence of calls returns, and the state after the step that joins
    both pairs of the first environment. *)
Definition outcome (c : Config Q) (s : State) (calls : list call)
    : list StepOutput * State :=
  match run c s calls with
  | Ok r => r
  | Raise _ => ([], s)
  end.
Definition latched (c : Config Q) : State :=
  (outcome c (ready c) [CallStep (step_to (-1) (-1) joined apart)]).2.

Definition draws : Draws :=
  {| u_mask k := if (k =? 1)%nat then 0%Q else (1 # 2)%Q;
     u_theta _ _ := (1 # 4)%Q;
     u_force _ _ := (1 # 2)%Q;
     u_torque _ _ := (3 # 4)%Q |}.
End Demo.

(** ** Vocabulary of the statements *)

(** [t[e, k]] when both indices are in range. *)
Definition entry {A : Type} (t : list (list A)) (e k : nat) : option A :=
  row ← t !! e; row !! k.

(** [newly_assembled_mask.any(dim=1).float()]. *)
Definition rewards_of (newly : list (list bool)) : list Q :=
  (λ row, if tensor_any row then 1%Q else 0%Q) <$> newly.

(** Whether the index tensor handed to [reset] names environment [e]. *)
Definition names_env (n : nat) (env_idxs : option (list Z)) (e : nat) : Prop :=
  match env_idxs with
  | None => e < n
  | Some idxs => Exists (λ i, norm_index n i = Ok e) idxs
  end.

(** Whether an iteration of the substep loop rewrote the bulb pose of
    environment [e]. *)
Definition holds_bulb (sub : substep) (e : nat) : bool :=
  match sub with
  | Some idxs => bool_decide (e ∈ idxs)
  | None => false
  end.

(** What the substep loop does with the answer of [_handle_bulb_rest_pose]. *)
Definition bulb_substep (any_bulbs_unsettled : bool) (rest : option (list nat))
    : substep :=
  if any_bulbs_unsettled then _set_bulb_poses (default [] rest) else None.

Section Vocabulary.
Context {RelPose : Type} `{!ControlUtils RelPose}.
Implicit Types (c : Config RelPose) (s : State).

(** Whether the end effector of environment [e] is within the threshold of
    its bulb, on the rigid body state the call starts from. *)
Definition hand_bulb_close c s (e : nat) : option bool :=
  kb ← lamp_bulb_rb_indices c !! e;
  kh ← ee_idxs c !! e;
  lb ← rb_states s !! kb;
  hand ← rb_states s !! kh;
  Some (hand_bulb_similar_pos (take 3 lb) (take 3 hand)).

(** The rigid bodies the random mask of a perturbation selects. *)
Definition selected_bodies c (d : FurnitureRLSimEnv.Draws) : list nat :=
  let idxs := concat (rigid_body_index_by_env c) in
  mask_select
    ((λ k, Qlt_bool (FurnitureRLSimEnv.u_mask d k) (1 # 100)) <$> seq 0 (length idxs))
    idxs.

(** No environment is past half of the horizon. *)
Definition first_half c s : Prop :=
  Forall (λ n, 2 * n ≤ max_env_steps c)%Z (env_steps s).

(** [parts_poses.shape[1] // 7]. *)
Definition num_parts c : nat :=
  match furniture_rb_indices c with
  | row :: _ => length row
  | [] => 0
  end.

(** The index tables built by [create_envs] and [__init__] have one row per
    environment, one column per part, and hold rigid body indices of the
    simulation; the furniture catalogue covers the pairs to assemble. *)
Definition config_ok c : Prop :=
  length (furniture_rb_indices c) = num_envs c
  ∧ Forall (λ row, length row = num_parts c
                   ∧ Forall (λ k, k < rigid_body_count c) row)
      (furniture_rb_indices c)
  ∧ Forall (λ pr : nat * nat, pr.1 < num_parts c ∧ pr.2 < num_parts c)
      (pairs_to_assemble c)
  ∧ length (pairs_to_assemble c) ≤ length (assembled_rel_poses c)
  ∧ (furniture_name c = "lamp" →
       length (lamp_bulb_rb_indices c) = num_envs c
       ∧ Forall (λ k, k < rigid_body_count c) (lamp_bulb_rb_indices c)
       ∧ length (ee_idxs c) = num_envs c
       ∧ Forall (λ k, k < rigid_body_count c) (ee_idxs c))
  ∧ Forall (λ row, length row = length (force_multiplier c)
                   ∧ length row = length (torque_multiplier c)
                   ∧ Forall (λ k, k < rigid_body_count c) row)
      (rigid_body_index_by_env c).

(** The rigid body state tensor has 13 numbers per rigid body. *)
Definition rb_ok c (rb : list (list Q)) : Prop :=
  length rb = rigid_body_count c ∧ Forall (λ row, length row = 13) rb.

(** The shapes of the mutable tensors; a lamp environment has been reset. *)
Definition state_ok c s : Prop :=
  rb_ok c (rb_states s)
  ∧ length (already_assembled s) = num_envs c
  ∧ Forall (λ row, length row = length (pairs_to_assemble c)) (already_assembled s)
  ∧ length (env_steps s) = num_envs c
  ∧ length (last_grasp s) = num_envs c
  ∧ match _moving_bulbs s with
    | Some m => length m = num_envs c
    | None => furniture_name c ≠ "lamp"
    end.

(** One action row per environment, none empty; the engine answers with a
    well-shaped tensor. *)
Definition input_ok c (inp : FurnitureRLSimEnv.StepInput) : Prop :=
  length (FurnitureRLSimEnv.action inp) = num_envs c
  ∧ Forall (λ row, row ≠ []) (FurnitureRLSimEnv.action inp)
  ∧ rb_ok c (FurnitureRLSimEnv.engine_rb inp).

(** The bulb of environment [e] can no longer be held: the task has no
    bulb, some counter is past half of the horizon, the environment is
    recorded as moving, or there is no such environment. *)
Definition released c s (e : nat) : Prop :=
  furniture_name c ≠ "lamp"
  ∨ ¬ first_half c s
  ∨ (∃ m, _moving_bulbs s = Some m ∧ m !! e = Some true)
  ∨ num_envs c ≤ e.

(** Whether [simulate_step] is to hold the bulb of environment [e]: no
    counter is past half of the horizon, the environment is not recorded as
    moving, and its hand is away from the bulb. *)
Definition should_hold c s (e : nat) : bool :=
  bool_decide (first_half c s)
  && match _moving_bulbs s ≫= (.!! e), hand_bulb_close c s e with
     | Some mv, Some cl => negb mv && negb cl
     | _, _ => false
     end.

(** The bulb pose of environment [e] is rewritten in no substep of the call
    that returned [o]. *)
Definition not_held (o : FurnitureRLSimEnv.StepOutput) (e : nat) : Prop :=
  Forall (λ sub, holds_bulb sub e = false)
    (FurnitureSimEnv.substeps (FurnitureRLSimEnv.sim o)).

(** Pair [k] of environment [e] went from unassembled to assembled between
    the states [s] and [s']. *)
Definition newly_assembled s s' (e k : nat) : Prop :=
  entry (already_assembled s) e k = Some false
  ∧ entry (already_assembled s') e k = Some true.

(** The latches of environment [e] are all clear and its counter is zero. *)
Definition env_cleared s (e : nat) : Prop :=
  (∃ row, already_assembled s !! e = Some row ∧ Forall (λ b, b = false) row)
  ∧ env_steps s !! e = Some 0%Z.

(** The step counters stay within [int32] for [n] more increments. *)
Definition counters_fit s (n : nat) : Prop :=
  Forall (λ k, - 2 ^ 31 ≤ k ∧ k + Z.of_nat n < 2 ^ 31)%Z (env_steps s).

(** An index tensor [reset] accepts: absent (with at least one environment),
    or not empty and holding valid indices. *)
Definition idxs_ok (n : nat) (env_idxs : option (list Z)) : Prop :=
  match env_idxs with
  | None => 0 < n
  | Some idxs =>
      idxs ≠ [] ∧ Forall (λ i, - Z.of_nat n ≤ i < Z.of_nat n)%Z idxs
  end.

(** A call the training loop can make. *)
Definition call_ok c (cl : FurnitureRLSimEnv.call) : Prop :=
  match cl with
  | FurnitureRLSimEnv.CallStep inp => input_ok c inp
  | FurnitureRLSimEnv.CallReset env_idxs rb =>
      idxs_ok (num_envs c) env_idxs ∧ rb_ok c rb
  end.

(** A call of [reset] naming environment [e]. *)
Definition resets c (e : nat) (cl : FurnitureRLSimEnv.call) : Prop :=
  match cl with
  | FurnitureRLSimEnv.CallStep _ => False
  | FurnitureRLSimEnv.CallReset env_idxs _ => names_env (num_envs c) env_idxs e
  end.
End Vocabulary.

(** ** Vocabulary of the further properties *)

(** The number of latched pairs of environment [e]. *)
Definition latched_count (s : State) (e : nat) : nat :=
  tensor_sum (default [] (already_assembled s !! e)).

(** 1 when the call that returned [o] paid environment [e] a reward of 1,
    and 0 otherwise (also when the call returned [None] as reward). *)
Definition earned (o : FurnitureRLSimEnv.StepOutput) (e : nat) : nat :=
  match FurnitureRLSimEnv.reward o ≫= (.!! e) with
  | Some x => if Qeq_bool x 1 then 1 else 0
  | None => 0
  end.

(** ** The actor buffers and their reset

    What follows models the part of [reset] that the definitions above
    leave to the engine: the DoF and root state buffers that
    [_reset_frankas], [_reset_part_poses], [_set_bulb_poses] and
    [_apply_forces_to_parts] fill before they are pushed to the engine. *)

(** [needle in hay] for Python strings. *)
Fixpoint str_contains (needle hay : string) : bool :=
  String.prefix needle hay
  || match hay with
     | EmptyString => false
     | String _ hay' => str_contains needle hay'
     end.

(** [t[idxs.unsqueeze(1), cols] = vals] for normalised row indices [ks]: for
    the i-th index, row [ks[i]] of [t] gets [vals[i][j]] at column [cols[j]].
    The values have one row per index and one item per column (a leading
    dimension of 1 is expanded by the caller). *)
Definition index_assign_grid {A : Type} (ks cols : list nat) (vals : list (list A))
    (t : list (list A)) : result (list (list A)) :=
  if negb (length vals =? length ks) then Raise RuntimeError
  else
    rows ← result_mapM
              (λ kv : nat * list A,
                 row ← index_get t kv.1;
                 if negb (length kv.2 =? length cols) then Raise RuntimeError
                 else index_put cols kv.2 row)
              (zip ks vals);
    index_put ks rows t.

(** [t[idxs, 0:w] = vals] for normalised row indices [ks]: the first [w]
    columns of row [ks[i]] are replaced by [vals[i]]. *)
Definition index_assign_cols {A : Type} (ks : list nat) (w : nat) (vals : list (list A))
    (t : list (list A)) : result (list (list A)) :=
  if negb (length vals =? length ks) then Raise RuntimeError
  else
    rows ← result_mapM
              (λ kv : nat * list A,
                 row ← index_get t kv.1;
                 if negb (length kv.2 =? Nat.min w (length row)) then Raise RuntimeError
                 else Ok (kv.2 ++ drop w row))
              (zip ks vals);
    index_put ks rows t.

(** More of what [create_envs] and [FurnitureRLSimEnv.__init__] fix. *)
Record Actors : Type := {
  franka_num_dofs : nat;
  default_dof_pos : list Q;
  franka_joint_rand_lim_deg : Q;        (* np.radians(5), (10) or (13) *)
  max_obstacle_offset : Q;
  furniture_num_parts : nat;            (* self.furniture.num_parts *)
  parts_idx_list : list nat;            (* actor index of each part in its env *)
  obstacles_idx_list : list nat;        (* front, right, left *)
  bulb_idx_list : list nat;
  parts_initial_pos : list (list Q);    (* (1, num_parts, 3) *)
  parts_initial_ori : list (list Q);    (* (1, num_parts, 4) *)
  obstacle_initial_pos : list (list Q); (* (3, 3) *)
  franka_actor_idxs_all_t : list nat;   (* (num_envs,) *)
  actor_idx_by_env : list (list nat);   (* obstacles, then parts *)
  bulb_actor_idx_by_env : list (list nat);
}.

(** The tensors wrapped around the engine's DoF and root state, and the
    rest poses of the bulbs once a lamp [reset] has stored them. *)
Record Buffers : Type := {
  dof_pos : list (list Q);              (* (num_envs, 9) *)
  dof_vel : list (list Q);
  root_pos : list (list (list Q));      (* (num_envs, actors, 3) *)
  root_quat : list (list (list Q));     (* (num_envs, actors, 4) *)
  lb_rest_poses : option (list (list Q));
}.

(** The quaternion helpers of [C] used on the factory tasks, and
    [np.deg2rad(45)]. *)
Class QuatUtils : Type := {
  quaternion_multiply : list Q → list Q → list Q;
  axis_angle_to_quaternion : list Q → list Q;
  deg2rad_45 : Q;
}.

(** A Python call that can also end in a failed dictionary lookup. *)
Inductive fallible (A : Type) : Type :=
  | Return (a : A)
  | Throw (e : pyerr)
  | ThrowKeyError (key : string).
Arguments Return {A} a.
Arguments Throw {A} e.
Arguments ThrowKeyError {A} key.

#[global] Instance fallible_ret : MRet fallible := λ A a, Return a.
#[global] Instance fallible_bind : MBind fallible := λ A B f m,
  match m with
  | Return a => f a
  | Throw e => Throw e
  | ThrowKeyError k => ThrowKeyError k
  end.

Definition lift {A : Type} (r : result A) : fallible A :=
  match r with
  | Ok a => Return a
  | Raise e => Throw e
  end.

(** A Python [dict] with string keys, in insertion order. *)
Definition dict (V : Type) : Type := list (string * V).

(** [d[k]]. *)
Fixpoint dict_get {V : Type} (d : dict V) (k : string) : fallible V :=
  match d with
  | [] => ThrowKeyError k
  | (k', v) :: d' => if String.eqb k' k then Return v else dict_get d' k
  end.

(** [k in d]. *)
Definition dict_mem {V : Type} (d : dict V) (k : string) : bool :=
  existsb (λ kv : string * V, String.eqb kv.1 k) d.

(** [d[k] = v]: a present key keeps its place, a new one goes last. *)
Fixpoint dict_set {V : Type} (k : string) (v : V) (d : dict V) : dict V :=
  match d with
  | [] => [(k, v)]
  | (k', v') :: d' =>
      if String.eqb k' k then (k, v) :: d' else (k', v') :: dict_set k v d'
  end.


(** [t[:, 0:w] = v] for a vector [v]: the first [w] columns of every row; a
    vector of one item is broadcast. *)
Definition fill_cols {A : Type} (w : nat) (v : list A) (t : list (list A))
    : result (list (list A)) :=
  result_mapM (λ row,
                 let m := Nat.min w (length row) in
                 if length v =? m then Ok (v ++ drop w row)
                 else match v with
                      | [x] => Ok (replicate m x ++ drop w row)
                      | _ => Raise RuntimeError
                      end) t.

(** What [_read_robot_state] needs on top of [Config]. *)
Record ObsConfig : Type := {
  base_idxs : list nat;
  robot_state_keys : list string;
}.

(** The keys of the dictionary [_read_robot_state] selects from. *)
Definition robot_state_dict_keys : list string :=
  ["joint_positions"; "joint_velocities"; "joint_torques"; "ee_pos"; "ee_quat";
   "ee_pos_vel"; "ee_ori_vel"; "gripper_width"; "gripper_finger_1_pos";
   "gripper_finger_2_pos"].

(** ** class FurnitureSimEnv: DoF buffers and robot state *)

Module FurnitureSimEnvBuffers.
Section WithUtils.
Context {RelPose : Type} `{!ControlUtils RelPose}.
Implicit Types (c : Config RelPose) (a : Actors) (b : Buffers) (oc : ObsConfig).

(** [from_skill] is 0: [__init__] sets it and nothing assigns it again, so
    the inverse kinematics branch is not taken. *)
Definition _update_franka_dof_state_buffer a b (dof_pos_arg : option (list Q))
    : result Buffers :=
  let dof_pos_v := match dof_pos_arg with
                   | None => default_dof_pos a
                   | Some p => p
                   end in
  pos ← fill_cols (franka_num_dofs a) dof_pos_v (dof_pos b);
  vel ← fill_cols (franka_num_dofs a)
          (replicate (length (default_dof_pos a)) 0%Q) (dof_vel b);
  Ok {| dof_pos := pos; dof_vel := vel; root_pos := root_pos b;
        root_quat := root_quat b; lb_rest_poses := lb_rest_poses b |}.

(** The buffers, and the actors handed to
    [set_dof_state_tensor_indexed]. *)
Definition _reset_franka a b (env_idx : Z) (dof_pos_arg : option (list Q))
    : result (Buffers * list nat) :=
  b' ← _update_franka_dof_state_buffer a b dof_pos_arg;
  k ← norm_index (length (franka_actor_idxs_all_t a)) env_idx;
  actor_idx ← index_get (franka_actor_idxs_all_t a) k;
  Ok (b', [actor_idx]).

Definition _reset_franka_all a b (dof_pos_arg : option (list Q))
    : result (Buffers * list nat) :=
  b' ← _update_franka_dof_state_buffer a b dof_pos_arg;
  Ok (b', franka_actor_idxs_all_t a).

Definition get_ee_pose c oc (rb : list (list Q))
    : result (list (list Q) * list (list Q)) :=
  hand ← result_mapM (index_get rb) (ee_idxs c);
  let hand_pos := take 3 <$> hand in
  let hand_quat := (λ r, take 4 (drop 3 r)) <$> hand in
  base ← result_mapM (index_get rb) (base_idxs oc);
  let base_pos := take 3 <$> base in
  pos ← tensor_zip (zip_with Qminus) hand_pos base_pos;
  Ok (pos, hand_quat).

Definition gripper_width b : list (list Q) :=
  (λ row, zip_with Qplus (take 1 (drop 7 row)) (take 1 (drop 8 row))) <$> dof_pos b.

(** [forces] is the DoF force tensor of the engine, shape [(num_envs, 9)]. *)
Definition robot_state_dict c oc b (forces rb : list (list Q))
    : result (dict (list (list Q))) :=
  let joint_positions := take 7 <$> dof_pos b in
  let joint_velocities := take 7 <$> dof_vel b in
  let joint_torques := forces in
  ee ← get_ee_pose c oc rb;
  let ee_pos := ee.1 in
  (* Make sure the real part of the quaternion is positive. *)
  negative_mask ← result_mapM (λ q, (λ w, Qlt_bool w 0) <$> index_get q 3) ee.2;
  let ee_quat :=
    zip_with (λ (neg : bool) q, if neg then map (λ x, x * -1)%Q q else q)
      negative_mask ee.2 in
  hand ← result_mapM (index_get rb) (ee_idxs c);
  let ee_pos_vel := (λ r, take 3 (drop 7 r)) <$> hand in
  let ee_ori_vel := drop 10 <$> hand in
  Ok [("joint_positions", joint_positions);
      ("joint_velocities", joint_velocities);
      ("joint_torques", joint_torques);
      ("ee_pos", ee_pos);
      ("ee_quat", ee_quat);
      ("ee_pos_vel", ee_pos_vel);
      ("ee_ori_vel", ee_ori_vel);
      ("gripper_width", gripper_width b);
      ("gripper_finger_1_pos", (λ row, take 1 (drop 7 row)) <$> dof_pos b);
      ("gripper_finger_2_pos", (λ row, take 1 (drop 8 row)) <$> dof_pos b)].

Definition _read_robot_state c oc b (forces rb : list (list Q))
    : fallible (dict (list (list Q))) :=
  d ← lift (robot_state_dict c oc b forces rb);
  foldl (λ acc k, out ← acc; v ← dict_get d k; Return (dict_set k v out))
    (Return []) (robot_state_keys oc).


End WithUtils.
End FurnitureSimEnvBuffers.

(** ** class FurnitureRLSimEnv: resetting the actors *)

Module FurnitureRLSimEnvReset.
Import FurnitureRLSimEnv.

(** [self.max_obstacle_offset] as [__init__] leaves it. *)
Definition max_obstacle_offset_of (r : Randomness) (randomize_obstacle : bool) : Q :=
  (match r with
   | LOW => 2 # 100
   | MEDIUM => 4 # 100
   | HIGH => 6 # 100
   end * (if randomize_obstacle then 1 else 0))%Q.

(** [self.default_dof_pos] as [create_envs] builds it: zeros, the first
    seven entries from [config["robot"]["reset_joints"]], the rest at half
    of the gripper width. *)
Definition default_dof_pos_of (franka_num_dofs : nat) (reset_joints : list Q)
    (max_gripper_width : Q) : result (list Q) :=
  let zeros := replicate franka_num_dofs 0%Q in
  let m := Nat.min 7 franka_num_dofs in
  first7 ← (if length reset_joints =? m then Ok reset_joints
            else match reset_joints with
                 | [x] => Ok (replicate m x)      (* one item is broadcast *)
                 | _ => Raise ValueError
                 end);
  Ok (first7 ++ ((λ _, max_gripper_width / 2)%Q <$> drop 7 zeros)).

(** The three obstacle positions [create_envs] sets up from the position of
    the front obstacle and [__init__] stores in [obstacle_initial_pos]: front,
    right, left. *)
Definition obstacle_initial_pos_of (x y z : Q) : list (list Q) :=
  [[x; y; z];
   [x - (75 # 1000); y - (175 # 1000); z];
   [x - (75 # 1000); y + (175 # 1000); z]]%Q.

(** The draws of [_reset_frankas] and [_reset_part_poses], by position. *)
Record ResetDraws : Type := {
  u_joint : nat → nat → Q;              (* torch.rand((n, 7)) *)
  u_obstacle : nat → nat → Q;           (* torch.rand((n, 1, 3)) *)
  u_part_pos : nat → nat → nat → Q;     (* torch.rand((n, num_parts, 3)) *)
  u_part_yaw : nat → nat → nat → Q;
}.

(** What is handed to the engine together with a buffer: the actors whose
    state it is to take over. *)
Definition Pushed : Type := list nat.

Section WithUtils.
Context {RelPose : Type} `{!ControlUtils RelPose} `{!QuatUtils}.
Implicit Types (c : Config RelPose) (a : Actors) (b : Buffers).

Definition set_dof (pos vel : list (list Q)) b : Buffers :=
  {| dof_pos := pos; dof_vel := vel; root_pos := root_pos b;
     root_quat := root_quat b; lb_rest_poses := lb_rest_poses b |}.
Definition set_root (pos quat : list (list (list Q))) b : Buffers :=
  {| dof_pos := dof_pos b; dof_vel := dof_vel b; root_pos := pos;
     root_quat := quat; lb_rest_poses := lb_rest_poses b |}.
Definition set_lb_rest_poses (v : option (list (list Q))) b : Buffers :=
  {| dof_pos := dof_pos b; dof_vel := dof_vel b; root_pos := root_pos b;
     root_quat := root_quat b; lb_rest_poses := v |}.

(** [success1] and [success2] are the answers of the engine to
    [set_dof_state_tensor_indexed] and
    [set_dof_position_target_tensor_indexed]. *)
Definition _reset_frankas c a b (env_idxs : list Z) (d : ResetDraws)
    (success1 success2 : bool) : result (Buffers * Pushed) :=
  let joint_range := franka_joint_rand_lim_deg a in
  let n := length env_idxs in
  let joint_offsets :=
    (λ i, (λ j, u_joint d i j * 2 * joint_range - joint_range)%Q <$> seq 0 7)
      <$> seq 0 n in
  let dof_pos0 := replicate n (default_dof_pos a) in
  (* dof_pos[:, :7] += joint_offsets *)
  new_pos ← result_mapM
               (λ ro : list Q * list Q,
                  first7 ← tensor_zip Qplus (take 7 ro.1) ro.2;
                  Ok (first7 ++ drop 7 ro.1))
               (zip dof_pos0 joint_offsets);
  ks ← result_mapM (norm_index (length (dof_pos b))) env_idxs;
  pos ← index_assign_cols ks (franka_num_dofs a) new_pos (dof_pos b);
  ks' ← result_mapM (norm_index (length (dof_vel b))) env_idxs;
  vel ← index_assign_cols ks' (franka_num_dofs a)
          (replicate n (replicate (length (default_dof_pos a)) 0%Q)) (dof_vel b);
  ka ← result_mapM (norm_index (length (franka_actor_idxs_all_t a))) env_idxs;
  actor_idx ← result_mapM (index_get (franka_actor_idxs_all_t a)) ka;
  if negb success1 then Raise AssertionError
  else if negb success2 then Raise AssertionError
  else Ok (set_dof pos vel b, actor_idx).

Definition _reset_part_poses c a b (env_idxs : list Z) (d : ResetDraws)
    : result (Buffers * Pushed) :=
  let n := length env_idxs in
  let obstacle_pos_offsets :=
    (λ i, [(u_obstacle d i 0 * 2 - 1) * max_obstacle_offset a;
           (u_obstacle d i 1 * 2 - 1) * max_obstacle_offset a;
           0]%Q) <$> seq 0 n in
  let reset_pos := replicate n (parts_initial_pos a) in
  let reset_ori := replicate n (parts_initial_ori a) in
  poses ←
    (if str_contains "factory" (furniture_name c) then
       let part_pos_offsets :=
         (λ i, (λ p, [(u_part_pos d i p 0 * 2 - 1) * (1 # 100);
                      (u_part_pos d i p 1 * 2 - 1) * (1 # 100);
                      0]%Q) <$> seq 0 (furniture_num_parts a)) <$> seq 0 n in
       let part_yaw_offsets :=
         (λ i, (λ p, [0; 0; (u_part_yaw d i p 2 * 2 - 1) * deg2rad_45]%Q)
                 <$> seq 0 (furniture_num_parts a)) <$> seq 0 n in
       pos ← result_mapM
                (λ ro : list (list Q) * list (list Q),
                   tensor_zip (λ p o, zip_with Qplus p o) ro.1 ro.2)
                (zip reset_pos part_pos_offsets);
       ori ← result_mapM
                (λ ro : list (list Q) * list (list Q),
                   tensor_zip (λ q y, quaternion_multiply q (axis_angle_to_quaternion y))
                     ro.1 ro.2)
                (zip reset_ori part_yaw_offsets);
       Ok (pos, ori)
     else Ok (reset_pos, reset_ori));
  ks ← result_mapM (norm_index (length (root_pos b))) env_idxs;
  rp ← index_assign_grid ks (parts_idx_list a) poses.1 (root_pos b);
  kq ← result_mapM (norm_index (length (root_quat b))) env_idxs;
  rq ← index_assign_grid kq (parts_idx_list a) poses.2 (root_quat b);
  let obstacles :=
    (λ off, (λ p, zip_with Qplus p off) <$> obstacle_initial_pos a)
      <$> obstacle_pos_offsets in
  rp ← index_assign_grid ks (obstacles_idx_list a) obstacles rp;
  ka ← result_mapM (norm_index (length (actor_idx_by_env a))) env_idxs;
  actor_idxs ← result_mapM (index_get (actor_idx_by_env a)) ka;
  Ok (set_root rp rq b, concat actor_idxs).

Definition _set_bulb_poses c a b (env_idxs : list Z) : result (Buffers * option Pushed) :=
  if length env_idxs =? 0 then Ok (b, None)     (* prints a warning *)
  else
    rest ← match lb_rest_poses b with
            | Some rest => Ok rest
            | None => Raise AttributeError
            end;
    kr ← result_mapM (norm_index (length rest)) env_idxs;
    poses ← result_mapM (index_get rest) kr;
    let n_bulbs := length (bulb_idx_list a) in
    ks ← result_mapM (norm_index (length (root_pos b))) env_idxs;
    rp ← index_assign_grid ks (bulb_idx_list a)
           ((λ pose, replicate n_bulbs (take 3 pose)) <$> poses) (root_pos b);
    kq ← result_mapM (norm_index (length (root_quat b))) env_idxs;
    rq ← index_assign_grid kq (bulb_idx_list a)
           ((λ pose, replicate n_bulbs (take 4 (drop 3 pose))) <$> poses) (root_quat b);
    ka ← result_mapM (norm_index (length (bulb_actor_idx_by_env a))) env_idxs;
    actor_idxs ← result_mapM (index_get (bulb_actor_idx_by_env a)) ka;
    Ok (set_root rp rq b, Some (concat actor_idxs)).

Definition _apply_forces_to_parts c (env_idxs : list Z)
    (max_force_magnitude max_torque_magnitude : Q) (d : Draws)
    : result (list (list Q) * list (list Q)) :=
  ks ← result_mapM (norm_index (length (rigid_body_index_by_env c))) env_idxs;
  part_rigid_body_idxs ← result_mapM (index_get (rigid_body_index_by_env c)) ks;
  let forces :=
    imap (λ i row,
      imap (λ p (_ : nat),
        let force_theta := u_theta d i p in
        let force_magnitude := (u_force d i p * max_force_magnitude)%Q in
        [force_magnitude * cos_2pi force_theta;
         force_magnitude * sin_2pi force_theta;
         0]%Q) row) part_rigid_body_idxs in
  forces ← result_mapM (λ env_forces,
               tensor_zip (λ f k, map (λ x, x * k)%Q f) env_forces (force_multiplier c))
             forces;
  let forces := concat forces in
  let z_torques :=
    imap (λ i row,
      imap (λ p (_ : nat), (max_torque_magnitude * (u_torque d i p * 2 - 1))%Q) row)
      part_rigid_body_idxs in
  z_torques ← result_mapM (λ env_torques,
                  tensor_zip Qmult env_torques (torque_multiplier c))
                z_torques;
  let torques := map (λ z, [0; 0; z]%Q) (concat z_torques) in
  let all_forces := replicate (rigid_body_count c) [0; 0; 0]%Q in
  let all_torques := replicate (rigid_body_count c) [0; 0; 0]%Q in
  let part_rigid_body_idxs := concat part_rigid_body_idxs in
  all_torques ← index_put part_rigid_body_idxs torques all_torques;
  all_forces ← index_put part_rigid_body_idxs forces all_forces;
  Ok (all_forces, all_torques).

(** [_reset_parts_multiple]: the poses, then one random push on every part
    of the named environments. *)
Definition _reset_parts_multiple c a s b (env_idxs : list Z) (d : ResetDraws)
    (f : Draws)
    : result (Buffers * Pushed * (list (list Q) * list (list Q))) :=
  r ← _reset_part_poses c a b env_idxs d;
  forces ← _apply_forces_to_parts c env_idxs
             (max_force_magnitude s) (max_torque_magnitude s) f;
  Ok (r.1, r.2, forces).

(** What a call of [reset] draws and gets back from the engine: the rigid
    body tensor once the ten refreshes of a lamp reset are done, and the rigid
    body and DoF state tensors after the last refresh ([refresh] does not
    reload the root state tensor). *)
Record ResetInput : Type := {
  draws : ResetDraws;
  push : Draws;
  success1 : bool;
  success2 : bool;
  rb_settled : list (list Q);
  rb_final : list (list Q);
  dof_final : list (list Q) * list (list Q);   (* dof_pos, dof_vel *)
}.

(** The actors and forces a call of [reset] hands to the engine. *)
Record ResetOutput : Type := {
  frankas_pushed : Pushed;
  parts_pushed : Pushed;
  forces_applied : list (list Q) * list (list Q);
  bulbs_pushed : option Pushed;
}.

(** [reset] with the buffer work spelled out. *)
Definition reset c a s b (env_idxs : option (list Z)) (inp : ResetInput)
    : result (State * Buffers * ResetOutput) :=
  let env_idxs :=
    match env_idxs with
    | None => Z.of_nat <$> seq 0 (num_envs c)
    | Some idxs => idxs
    end in
  if length env_idxs =? 0 then Raise AssertionError
  else
    aa ← index_assign env_idxs (map (λ _, false)) (already_assembled s);
    f ← _reset_frankas c a b env_idxs (draws inp) (success1 inp) (success2 inp);
    p ← _reset_parts_multiple c a s f.1 env_idxs (draws inp) (push inp);
    steps ← index_assign env_idxs (λ _, 0%Z) (env_steps s);
    lamp ←
      (if String.eqb (furniture_name c) "lamp" then
         lb_poses ← result_mapM (λ k, take 7 <$> index_get (rb_settled inp) k)
                      (lamp_bulb_rb_indices c);
         rest ← view_rows (num_envs c) lb_poses;
         r ← _set_bulb_poses c a (set_lb_rest_poses (Some rest) p.1.1) env_idxs;
         Ok (r.1, r.2, Some (replicate (num_envs c) false))
       else Ok (p.1.1, None, _moving_bulbs s));
    Ok (set_rb_states (rb_final inp)
          (set_moving_bulbs lamp.2
             (set_env_steps steps (set_already_assembled aa s))),
        set_dof (dof_final inp).1 (dof_final inp).2 lamp.1.1,
        {| frankas_pushed := f.2; parts_pushed := p.1.2; forces_applied := p.2;
           bulbs_pushed := lamp.1.2 |}).

End WithUtils.
End FurnitureRLSimEnvReset.

(** ** Shapes of the actor tables and buffers *)

Section BufferVocabulary.
Context {RelPose : Type} `{!ControlUtils RelPose}.
Implicit Types (c : Config RelPose) (a : Actors) (b : Buffers).

(** The tables [create_envs] and [__init__] build: nine DoFs per robot,
    one row of initial pose per part, three obstacles, one table row per
    environment. *)
Definition actors_ok c a : Prop :=
  franka_num_dofs a = 9
  ∧ length (default_dof_pos a) = 9
  ∧ furniture_num_parts a = length (parts_idx_list a)
  ∧ length (parts_initial_pos a) = length (parts_idx_list a)
  ∧ length (parts_initial_ori a) = length (parts_idx_list a)
  ∧ length (obstacle_initial_pos a) = 3
  ∧ length (obstacles_idx_list a) = 3
  ∧ length (franka_actor_idxs_all_t a) = num_envs c
  ∧ length (actor_idx_by_env a) = num_envs c
  ∧ length (bulb_actor_idx_by_env a) = num_envs c
  ∧ length (rigid_body_index_by_env c) = num_envs c.

(** The buffers have one row per environment; the DoF rows hold nine
    numbers, and every actor index of the tables is within each environment's
    row of the root buffers. *)
Definition buffers_ok c a b : Prop :=
  length (dof_pos b) = num_envs c
  ∧ Forall (λ row, length row = 9) (dof_pos b)
  ∧ length (dof_vel b) = num_envs c
  ∧ Forall (λ row, length row = 9) (dof_vel b)
  ∧ length (root_pos b) = num_envs c
  ∧ length (root_quat b) = num_envs c
  ∧ Forall (λ env : list (list Q),
              Forall (λ j, j < length env)
                (parts_idx_list a ++ obstacles_idx_list a ++ bulb_idx_list a))
      (root_pos b ++ root_quat b).

(** The index tensor holds valid environment indices. *)
Definition env_idxs_ok (n : nat) (env_idxs : list Z) : Prop :=
  Forall (λ i, - Z.of_nat n ≤ i < Z.of_nat n)%Z env_idxs.

(** Every draw of [torch.rand] lies in [[0, 1]]. *)
Definition draws_ok (d : FurnitureRLSimEnvReset.ResetDraws) : Prop :=
  (∀ i j, 0 <= FurnitureRLSimEnvReset.u_joint d i j
          ∧ FurnitureRLSimEnvReset.u_joint d i j <= 1)%Q
  ∧ (∀ i j, 0 <= FurnitureRLSimEnvReset.u_obstacle d i j
            ∧ FurnitureRLSimEnvReset.u_obstacle d i j <= 1)%Q.

(** Every draw for the parts of a factory task lies in [[0, 1]]. *)
Definition part_draws_ok (d : FurnitureRLSimEnvReset.ResetDraws) : Prop :=
  (∀ i p j, 0 <= FurnitureRLSimEnvReset.u_part_pos d i p j
            ∧ FurnitureRLSimEnvReset.u_part_pos d i p j <= 1)%Q
  ∧ (∀ i p j, 0 <= FurnitureRLSimEnvReset.u_part_yaw d i p j
              ∧ FurnitureRLSimEnvReset.u_part_yaw d i p j <= 1)%Q.

(** The offset [_reset_part_poses] draws for the obstacles of the i-th named
    environment. *)
Definition obstacle_offset a (d : FurnitureRLSimEnvReset.ResetDraws) (i : nat) : list Q :=
  [(FurnitureRLSimEnvReset.u_obstacle d i 0 * 2 - 1) * max_obstacle_offset a;
   (FurnitureRLSimEnvReset.u_obstacle d i 1 * 2 - 1) * max_obstacle_offset a;
   0]%Q.

(** The rigid body indices of hands and bases are those of the simulation. *)
Definition robot_idxs_ok c (oc : ObsConfig) : Prop :=
  length (ee_idxs c) = length (base_idxs oc)
  ∧ Forall (λ k, k < rigid_body_count c) (ee_idxs c)
  ∧ Forall (λ k, k < rigid_body_count c) (base_idxs oc).

(** The quaternion [_read_robot_state] reports for a hand whose rigid body
    row is [row]. *)
Definition canonical_quat (row : list Q) : list Q :=
  let q := take 4 (drop 3 row) in
  match q !! 3 with
  | Some w => if Qlt_bool w 0 then map (λ x, x * -1)%Q q else q
  | None => q
  end.

(** The index tensor a call of [reset] works on. *)
Definition reset_idxs c (env_idxs : option (list Z)) : list Z :=
  match env_idxs with
  | None => Z.of_nat <$> seq 0 (num_envs c)
  | Some idxs => idxs
  end.

End BufferVocabulary.

(** ** Concrete actors and buffers for the two-environment lamp *)

Module DemoReset.
Import FurnitureRLSimEnvReset.

#[global] Instance quat_utils : QuatUtils := {|
  quaternion_multiply q _ := q;
  axis_angle_to_quaternion _ := [0; 0; 0; 1]%Q;
  deg2rad_45 := (785 # 1000)%Q;
|}.

Definition reset_joints : list Q :=
  [0; 1 # 10; 0; - (2 # 1); 0; 2 # 1; 8 # 10]%Q.

(** Ten actors per environment: table, base tag, background, the three
    obstacles, the robot and three parts, the second of which is the bulb. *)
Definition actors : Actors := {|
  franka_num_dofs := 9;
  default_dof_pos := reset_joints ++ [(65 # 1000) / 2; (65 # 1000) / 2]%Q;
  franka_joint_rand_lim_deg := (87 # 1000)%Q;
  max_obstacle_offset := max_obstacle_offset_of FurnitureRLSimEnv.LOW true;
  furniture_num_parts := 3;
  parts_idx_list := [7; 8; 9];
  obstacles_idx_list := [3; 4; 5];
  bulb_idx_list := [8];
  parts_initial_pos := [[1 # 10; 2 # 10; 4 # 10]; [0; 2 # 10; 4 # 10];
                        [- (1 # 10); 2 # 10; 4 # 10]]%Q;
  parts_initial_ori := [[0; 0; 0; 1]; [1; 0; 0; 0]; [0; 1; 0; 0]]%Q;
  obstacle_initial_pos := obstacle_initial_pos_of (1 # 10) 0 (4 # 10);
  franka_actor_idxs_all_t := [6; 16];
  actor_idx_by_env := [[3; 4; 5; 7; 8; 9]; [13; 14; 15; 17; 18; 19]];
  bulb_actor_idx_by_env := [[8]; [18]];
|}.

Definition buffers : Buffers := {|
  dof_pos := replicate 2 (replicate 9 (1 # 10)%Q);
  dof_vel := replicate 2 (replicate 9 (1 # 100)%Q);
  root_pos := replicate 2 (replicate 10 [0; 0; 0]%Q);
  root_quat := replicate 2 (replicate 10 [0; 0; 0; 1]%Q);
  lb_rest_poses := None;
|}.

(** The bulbs have come to rest. *)
Definition rest_poses : list (list Q) :=
  [[5 # 100; 2 # 10; 42 # 100; 0; 0; 0; 1];
   [6 # 100; 2 # 10; 42 # 100; 0; 0; 1; 0]]%Q.
Definition rested : Buffers := set_lb_rest_poses (Some rest_poses) buffers.

Definition reset_draws : ResetDraws := {|
  u_joint _ _ := (3 # 4)%Q;
  u_obstacle _ j := if (j =? 0)%nat then (1 # 4)%Q else 1%Q;
  u_part_pos _ _ _ := (1 # 2)%Q;
  u_part_yaw _ _ _ := (1 # 2)%Q;
|}.

Definition reset_input : ResetInput := {|
  draws := reset_draws;
  push := Demo.draws;
  success1 := true;
  success2 := true;
  rb_settled := Demo.bodies Demo.bulb_in Demo.apart;
  rb_final := Demo.bodies Demo.apart Demo.apart;
  dof_final := (dof_pos buffers, dof_vel buffers);
|}.

(** The hand of the second environment turned by more than half a turn. *)
Definition turned : list (list Q) :=
  <[7 := [9; 0; 0; 0; 1; 0; - (1 # 2); 0; 0; 0; 0; 0; 0]%Q]>
    (Demo.bodies Demo.apart Demo.apart).

Definition obs : ObsConfig := {|
  base_idxs := [0; 4];
  robot_state_keys := ["ee_pos"; "ee_quat"; "gripper_width"];
|}.

Definition dof_forces : list (list Q) := replicate 2 (replicate 9 0%Q).

(** The same two environments set up for a factory task. *)
Definition factory : Config Q := {|
  num_envs := 2;
  furniture_name := "factory_peg_hole";
  max_env_steps := 10;
  manual_label := false;
  manual_done := false;
  np_step_out := false;
  max_gripper_width := (65 # 1000)%Q;
  sim_steps := 2;
  franka_from_origin_mat := franka_from_origin_mat Demo.plain;
  base_tag_from_robot_mat := base_tag_from_robot_mat Demo.plain;
  furniture_rb_indices := [[0; 1; 2]; [4; 5; 6]];
  lamp_bulb_rb_indices := [];
  ee_idxs := [3; 7];
  pairs_to_assemble := [(0, 1)];
  position_only := [];
  assembled_rel_poses := [[1%Q]];
  rigid_body_index_by_env := [[0; 1; 2]; [4; 5; 6]];
  rigid_body_count := 8;
  force_multiplier := [1 # 1000; 1 # 1000; 1 # 1000]%Q;
  torque_multiplier := [1 # 1000; 1 # 1000; 1 # 1000]%Q;
|}.


End DemoReset.

(** * Proofs *)

(** ** The error monad *)

Lemma bind_Ok {A B : Type} (m : result A) (f : A → result B) (b : B) :
  m ≫= f = Ok b ↔ ∃ a, m = Ok a ∧ f a = Ok b.
Proof.
  destruct m as [a|e]; simpl; split.
  - intros H. exists a. split; [reflexivity | exact H].
  - intros (a' & Ha & H). injection Ha as ->. exact H.
  - discriminate.
  - intros (a' & Ha & _). discriminate.
Qed.

Lemma fmap_Ok {A B : Type} (m : result A) (f : A → B) (b : B) :
  f <$> m = Ok b ↔ ∃ a, m = Ok a ∧ b = f a.
Proof.
  destruct m as [a|e]; simpl; split.
  - intros [= <-]. eauto.
  - intros (a' & [= <-] & ->). reflexivity.
  - discriminate.
  - intros (a' & Ha & _). discriminate.
Qed.

(** Peel the binds of a hypothesis [m ≫= f = Ok b]. *)
Ltac inv_ok H :=
  repeat (
    let a := fresh "a" in
    let Ha := fresh "Ha" in
    first
      [ apply bind_Ok in H; destruct H as (a & Ha & H)
      | apply fmap_Ok in H; destruct H as (a & Ha & H) ]).

Lemma result_mapM_Ok {A B : Type} (f : A → result B) (l : list A) (bs : list B) :
  result_mapM f l = Ok bs ↔ Forall2 (λ a b, f a = Ok b) l bs.
Proof.
  revert bs. induction l as [|a l IH]; intros bs; simpl.
  - split.
    + intros [= <-]. constructor.
    + intros H. inversion H. reflexivity.
  - split.
    + intros H. apply bind_Ok in H as (b & Hb & H).
      apply bind_Ok in H as (bs' & Hbs & H). injection H as <-.
      constructor; [exact Hb | by apply IH].
    + intros H. inversion H as [|? b ? bs' Hb Hbs]; subst.
      apply bind_Ok. exists b. split; [exact Hb|].
      apply bind_Ok. exists bs'. split; [by apply IH | reflexivity].
Qed.

Lemma result_mapM_total {A B : Type} (f : A → result B) (l : list A) :
  Forall (λ a, ∃ b, f a = Ok b) l → ∃ bs, result_mapM f l = Ok bs.
Proof.
  induction 1 as [|a l [b Hb] _ [bs Hbs]]; simpl.
  - eauto.
  - rewrite Hb. simpl. rewrite Hbs. simpl. eauto.
Qed.

Lemma result_mapM_length {A B : Type} (f : A → result B) (l : list A) (bs : list B) :
  result_mapM f l = Ok bs → length bs = length l.
Proof. intros H%result_mapM_Ok. symmetry. by eapply Forall2_length. Qed.

Lemma result_mapM_lookup {A B : Type} (f : A → result B) (l : list A) (bs : list B)
    (i : nat) (a : A) :
  result_mapM f l = Ok bs → l !! i = Some a → ∃ b, bs !! i = Some b ∧ f a = Ok b.
Proof.
  intros H%result_mapM_Ok Hi.
  destruct (Forall2_lookup_l _ _ _ _ _ H Hi) as (b & Hb & Hf). eauto.
Qed.

(** ** Tensor indexing *)

Lemma index_get_Ok {A : Type} (l : list A) (i : nat) (a : A) :
  index_get l i = Ok a ↔ l !! i = Some a.
Proof.
  unfold index_get. destruct (l !! i); split; intros H; congruence.
Qed.

Lemma index_get_total {A : Type} (l : list A) (i : nat) :
  i < length l → ∃ a, index_get l i = Ok a.
Proof.
  intros H. destruct (lookup_lt_is_Some_2 l i H) as [a Ha].
  exists a. by apply index_get_Ok.
Qed.

Lemma tensor_zip_Ok {A B C : Type} (f : A → B → C) (a : list A) (b : list B) (l : list C) :
  tensor_zip f a b = Ok l ↔ length a = length b ∧ l = zip_with f a b.
Proof.
  unfold tensor_zip. destruct (Nat.eqb_spec (length a) (length b)); split.
  - intros [= <-]. done.
  - intros [_ ->]. done.
  - discriminate.
  - intros [? _]. done.
Qed.

Lemma view_rows_Ok {A : Type} (n : nat) (t t' : list A) :
  view_rows n t = Ok t' ↔ length t = n ∧ t' = t.
Proof.
  unfold view_rows. destruct (Nat.eqb_spec (length t) n); split.
  - intros [= <-]. done.
  - intros [_ ->]. done.
  - discriminate.
  - intros [? _]. done.
Qed.

Lemma tensor_zip_total {A B C : Type} (f : A → B → C) (a : list A) (b : list B) :
  length a = length b → tensor_zip f a b = Ok (zip_with f a b).
Proof. intros H. apply tensor_zip_Ok. done. Qed.

Lemma view_rows_total {A : Type} (n : nat) (t : list A) :
  length t = n → view_rows n t = Ok t.
Proof. intros H. apply view_rows_Ok. done. Qed.

Lemma get_col_lookup {A : Type} (i : nat) (t : list (list A)) (col : list A) :
  get_col i t = Ok col → length col = length t ∧ ∀ e, col !! e = entry t e i.
Proof.
  unfold get_col. intros H. split; [by eapply result_mapM_length|].
  apply result_mapM_Ok in H. intros e. unfold entry.
  destruct (t !! e) as [row|] eqn:Hrow; simpl.
  - destruct (Forall2_lookup_l _ _ _ _ _ H Hrow) as (x & Hx & Hget).
    apply index_get_Ok in Hget. congruence.
  - apply lookup_ge_None. apply lookup_ge_None in Hrow.
    apply Forall2_length in H. lia.
Qed.

Lemma get_col_total {A : Type} (i : nat) (t : list (list A)) :
  Forall (λ row, i < length row) t → ∃ col, get_col i t = Ok col.
Proof.
  intros H. apply result_mapM_total.
  eapply Forall_impl; [exact H|]. intros row Hrow. by apply index_get_total.
Qed.

Lemma set_col_Ok {A : Type} (i : nat) (col : list A) (t t' : list (list A)) :
  set_col i col t = Ok t' ↔
  Forall (λ row, i < length row) t ∧ length col = length t
  ∧ t' = zip_with (λ row x, <[i := x]> row) t col.
Proof.
  unfold set_col.
  destruct (forallb (λ row, i <? length row) t) eqn:Hall; simpl.
  - assert (Forall (λ row, i < length row) t) as HF.
    { apply Forall_forall. intros row Hin.
      rewrite forallb_forall in Hall. apply Nat.ltb_lt, Hall.
      by apply list_elem_of_In. }
    destruct (Nat.eqb_spec (length col) (length t)); simpl; split.
    + intros [= <-]. done.
    + intros (_ & _ & ->). done.
    + discriminate.
    + intros (_ & ? & _). done.
  - split; [discriminate|]. intros (HF & _ & _). exfalso.
    assert (forallb (λ row, i <? length row) t = true) as Hall'; [|congruence].
    apply forallb_forall. intros row Hin. apply Nat.ltb_lt.
    rewrite Forall_forall in HF. apply HF. by apply list_elem_of_In.
Qed.

Lemma set_col_entry {A : Type} (i : nat) (col : list A) (t t' : list (list A)) :
  set_col i col t = Ok t' →
  length t' = length t
  ∧ ∀ e k, entry t' e k = if decide (k = i) then col !! e else entry t e k.
Proof.
  intros (HF & Hlen & ->)%set_col_Ok. split.
  { rewrite length_zip_with. lia. }
  intros e k. unfold entry. rewrite lookup_zip_with.
  destruct (t !! e) as [row|] eqn:Hrow; simpl.
  - assert (e < length col) as He.
    { rewrite Hlen. by eapply lookup_lt_Some. }
    destruct (lookup_lt_is_Some_2 col e He) as [x Hx]. rewrite Hx. simpl.
    assert (i < length row) as Hi by (eapply Forall_lookup_1 in HF; eauto).
    destruct (decide (k = i)) as [->|Hne].
    + by rewrite list_lookup_insert_eq.
    + by rewrite list_lookup_insert_ne.
  - destruct (decide (k = i)); [|done].
    symmetry. apply lookup_ge_None. apply lookup_ge_None in Hrow. lia.
Qed.

Lemma set_col_row_length {A : Type} (i : nat) (col : list A) (t t' : list (list A)) (n : nat) :
  set_col i col t = Ok t' → Forall (λ row, length row = n) t →
  Forall (λ row, length row = n) t'.
Proof.
  intros (HF & Hlen & ->)%set_col_Ok Hrows.
  apply Forall_lookup_2. intros e row' Hrow'.
  apply lookup_zip_with_Some in Hrow' as (row & x & -> & Hrow & Hx).
  rewrite length_insert. by eapply Forall_lookup_1 in Hrows.
Qed.

(** ** Assignment through an index tensor *)

Lemma norm_index_bound (n : nat) (i : Z) (e : nat) : norm_index n i = Ok e → e < n.
Proof.
  unfold norm_index. repeat case_bool_decide; intros [= <-]; lia.
Qed.

Lemma norm_index_total (n : nat) (i : Z) :
  (- Z.of_nat n ≤ i < Z.of_nat n)%Z → ∃ e, norm_index n i = Ok e.
Proof.
  intros Hi. unfold norm_index. repeat case_bool_decide; eauto. lia.
Qed.

Lemma norm_index_nat (n e : nat) : e < n → norm_index n (Z.of_nat e) = Ok e.
Proof.
  intros He. unfold norm_index. rewrite bool_decide_eq_true_2 by lia.
  by rewrite Nat2Z.id.
Qed.

Lemma foldl_alter_lookup {A : Type} (clear : A → A) (ks : list nat) :
  (∀ x, clear (clear x) = clear x) →
  ∀ (t : list A) (e : nat),
    foldl (λ acc k, alter clear k acc) t ks !! e
    = if decide (e ∈ ks) then clear <$> t !! e else t !! e.
Proof.
  intros Hidem. induction ks as [|k ks IH]; intros t e.
  - simpl. destruct (decide (e ∈ [])) as [Hin|_]; [|done].
    by apply elem_of_nil in Hin.
  - cbn [foldl]. rewrite IH. destruct (decide (e = k)) as [->|Hne].
    + rewrite list_lookup_alter_eq.
      destruct (decide (k ∈ k :: ks)) as [_|Hn];
        [|exfalso; apply Hn, elem_of_cons; by left].
      destruct (decide (k ∈ ks)); [|done].
      destruct (t !! k); simpl; [|done]. by rewrite Hidem.
    + rewrite list_lookup_alter_ne by done.
      destruct (decide (e ∈ ks)) as [Hin|Hin];
        destruct (decide (e ∈ k :: ks)) as [Hin'|Hin']; try done.
      * exfalso. apply Hin', elem_of_cons. by right.
      * exfalso. apply elem_of_cons in Hin' as [?|?]; done.
Qed.

Lemma foldl_alter_length {A : Type} (clear : A → A) (ks : list nat) : ∀ t : list A,
  length (foldl (λ acc k, alter clear k acc) t ks) = length t.
Proof.
  induction ks as [|k ks IH]; intros t; simpl; [done|].
  by rewrite IH, length_alter.
Qed.

(** The named items are cleared, the others are untouched. *)
Lemma index_assign_spec {A : Type} (clear : A → A) (idxs : list Z) (t t' : list A) :
  (∀ x, clear (clear x) = clear x) →
  index_assign idxs clear t = Ok t' →
  length t' = length t
  ∧ ∀ e, (Exists (λ i, norm_index (length t) i = Ok e) idxs →
          t' !! e = clear <$> t !! e)
         ∧ (¬ Exists (λ i, norm_index (length t) i = Ok e) idxs → t' !! e = t !! e).
Proof.
  intros Hidem. unfold index_assign. intros H.
  apply bind_Ok in H as (ks & Hks & H). injection H as <-.
  split; [apply foldl_alter_length|].
  apply result_mapM_Ok in Hks.
  assert (∀ e, e ∈ ks ↔ Exists (λ i, norm_index (length t) i = Ok e) idxs) as Hin.
  { intros e. rewrite Exists_exists. split.
    - intros (j & Hj)%list_elem_of_lookup.
      destruct (Forall2_lookup_r _ _ _ _ _ Hks Hj) as (i & Hi & Hnorm).
      exists i. split; [|done]. apply list_elem_of_lookup. eauto.
    - intros (i & (j & Hj)%list_elem_of_lookup & Hnorm).
      destruct (Forall2_lookup_l _ _ _ _ _ Hks Hj) as (e' & He' & Hnorm').
      rewrite Hnorm in Hnorm'. injection Hnorm' as <-.
      apply list_elem_of_lookup. eauto. }
  intros e. rewrite (foldl_alter_lookup clear ks Hidem). split; intros He.
  - rewrite decide_True; [done|]. by apply Hin.
  - rewrite decide_False; [done|]. by rewrite Hin.
Qed.

Lemma index_assign_total {A : Type} (clear : A → A) (idxs : list Z) (t : list A) :
  Forall (λ i, - Z.of_nat (length t) ≤ i < Z.of_nat (length t))%Z idxs →
  ∃ t', index_assign idxs clear t = Ok t'.
Proof.
  intros H. unfold index_assign.
  destruct (result_mapM_total (norm_index (length t)) idxs) as [ks ->].
  { eapply Forall_impl; [exact H|]. intros i Hi. by apply norm_index_total. }
  simpl. eauto.
Qed.

Lemma index_assign_Forall {A : Type} (P : A → Prop) (clear : A → A)
    (idxs : list Z) (t t' : list A) :
  (∀ x, P x → P (clear x)) → Forall P t →
  index_assign idxs clear t = Ok t' → Forall P t'.
Proof.
  intros Hclear HP. unfold index_assign. intros H.
  apply bind_Ok in H as (ks & _ & H). injection H as <-.
  revert t HP. induction ks as [|k ks IH]; intros t HP; simpl; [done|].
  apply IH. apply Forall_alter; auto.
Qed.

Lemma arange_names (n e : nat) :
  Exists (λ i, norm_index n i = Ok e) (Z.of_nat <$> seq 0 n) ↔ e < n.
Proof.
  rewrite Exists_exists. split.
  - intros (i & _ & Hi). by eapply norm_index_bound.
  - intros He. exists (Z.of_nat e). split; [|by apply norm_index_nat].
    apply list_elem_of_fmap. exists e. split; [done|].
    apply elem_of_seq. lia.
Qed.

(** ** The loop of [_reward] over the pairs to assemble *)

Lemma imap_pairs_from {A : Type} (l : list A) (j : nat) :
  imap (λ i p, (j + i, p)) l = zip (seq j (length l)) l.
Proof.
  revert j. induction l as [|a l IH]; intros j; [reflexivity|].
  rewrite imap_cons. simpl. f_equal; [f_equal; lia|].
  rewrite <- IH. apply imap_ext. intros i x _. simpl. f_equal. lia.
Qed.

Lemma imap_pairs {A : Type} (l : list A) :
  imap (λ i p, (i, p)) l = zip (seq 0 (length l)) l.
Proof. exact (imap_pairs_from l 0). Qed.

Section RewardLoop.
Context {RelPose : Type} `{!ControlUtils RelPose}.
Import FurnitureRLSimEnv.
Implicit Types (c : Config RelPose) (s : State).

(** One pair: the other columns are untouched, and in column [i] the new
    bit is [match && ~old] and the latch becomes [old || new]. *)
Lemma reward_pair_spec c pp newly aa i pr newly' aa' :
  reward_pair c pp (newly, aa) (i, pr) = Ok (newly', aa') →
  length newly' = length newly ∧ length aa' = length aa
  ∧ (∀ n, Forall (λ row, length row = n) aa → Forall (λ row, length row = n) aa')
  ∧ (∀ n, Forall (λ row, length row = n) newly →
          Forall (λ row, length row = n) newly')
  ∧ ∀ e k,
      if decide (k = i) then
        match entry aa e i with
        | Some old => ∃ m, entry newly' e i = Some (m && negb old)
                           ∧ entry aa' e i = Some (old || m && negb old)
        | None => entry newly' e i = None ∧ entry aa' e i = None
        end
      else entry newly' e k = entry newly e k ∧ entry aa' e k = entry aa e k.
Proof.
  unfold reward_pair. intros H.
  apply bind_Ok in H as (any_match & Hm & H).
  apply bind_Ok in H as (old & Hold & H).
  apply bind_Ok in H as (new & Hnew & H).
  apply bind_Ok in H as (newly1 & Hset1 & H).
  apply bind_Ok in H as (new' & Hnew' & H).
  apply bind_Ok in H as (upd & Hupd & H).
  apply bind_Ok in H as (aa1 & Hset2 & H).
  injection H as <- <-.
  apply get_col_lookup in Hold as [Hlen_old Hold].
  apply tensor_zip_Ok in Hnew as [Hlen_m ->].
  pose proof (λ n, set_col_row_length _ _ _ _ n Hset2) as Hrows.
  pose proof (λ n, set_col_row_length _ _ _ _ n Hset1) as Hrows'.
  apply set_col_entry in Hset1 as [Hlen1 Hent1].
  apply get_col_lookup in Hnew' as [Hlen_new' Hnew'].
  apply tensor_zip_Ok in Hupd as [Hlen_u ->].
  apply set_col_entry in Hset2 as [Hlen2 Hent2].
  split; [exact Hlen1|]. split; [exact Hlen2|]. split; [exact Hrows|].
  split; [exact Hrows'|].
  intros e k. destruct (decide (k = i)) as [->|Hne].
  - rewrite Hent1, Hent2. rewrite !decide_True by reflexivity.
    destruct (entry aa e i) as [o|] eqn:Ho.
    + assert (old !! e = Some o) as Holde by (rewrite Hold; exact Ho).
      assert (e < length any_match) as He.
      { rewrite Hlen_m, length_fmap. by eapply lookup_lt_Some. }
      destruct (lookup_lt_is_Some_2 _ _ He) as [m Hmm].
      assert ((any_match &&* (negb <$> old)) !! e = Some (m && negb o)) as Hn.
      { apply lookup_zip_with_Some. exists m, (negb o).
        rewrite list_lookup_fmap, Holde. done. }
      exists m. split; [exact Hn|].
      apply lookup_zip_with_Some. exists o, (m && negb o).
      rewrite Hnew', Hent1, decide_True by reflexivity. done.
    + assert (old !! e = None) as Holde by (rewrite Hold; exact Ho).
      split.
      * apply lookup_zip_with_None. right.
        rewrite list_lookup_fmap, Holde. done.
      * apply lookup_zip_with_None. by left.
  - rewrite Hent1, Hent2. rewrite !decide_False by exact Hne. done.
Qed.

Lemma reward_loop_spec c pp pairs : ∀ j newly0 aa0 newly aa,
  result_foldM (reward_pair c pp) (zip (seq j (length pairs)) pairs) (newly0, aa0)
    = Ok (newly, aa) →
  length newly = length newly0 ∧ length aa = length aa0
  ∧ (∀ n, Forall (λ row, length row = n) aa0 → Forall (λ row, length row = n) aa)
  ∧ (∀ n, Forall (λ row, length row = n) newly0 →
          Forall (λ row, length row = n) newly)
  ∧ ∀ e k,
      if decide (j ≤ k < j + length pairs) then
        match entry aa0 e k with
        | Some old => ∃ m, entry newly e k = Some (m && negb old)
                           ∧ entry aa e k = Some (old || m && negb old)
        | None => entry newly e k = None ∧ entry aa e k = None
        end
      else entry newly e k = entry newly0 e k ∧ entry aa e k = entry aa0 e k.
Proof.
  induction pairs as [|pr pairs IH]; intros j newly0 aa0 newly aa H.
  - simpl in H. injection H as <- <-.
    split; [done|]. split; [done|]. split; [done|]. split; [done|].
    intros e k. rewrite decide_False by (simpl; lia). done.
  - simpl in H. apply bind_Ok in H as ([newly1 aa1] & Hbody & H).
    apply reward_pair_spec in Hbody as (Hl1 & Hl2 & Hr1 & Hr1' & Hbody).
    apply IH in H as (Hl3 & Hl4 & Hr2 & Hr2' & Hrest).
    split; [congruence|]. split; [congruence|]. split; [by auto|].
    split; [by auto|].
    intros e k. specialize (Hbody e k). specialize (Hrest e k). simpl.
    destruct (decide (k = j)) as [->|Hne].
    + rewrite decide_True by lia.
      rewrite decide_False in Hrest by lia. destruct Hrest as [-> ->].
      exact Hbody.
    + destruct Hbody as [Hn Ha].
      destruct (decide (S j ≤ k < S j + length pairs)).
      * rewrite decide_True by lia. rewrite <- Ha. exact Hrest.
      * rewrite decide_False by lia. destruct Hrest as [-> ->]. done.
Qed.

(** A fresh mask holds no [True]. *)
Lemma entry_zeros (n m e k : nat) :
  entry (replicate n (replicate m false)) e k ≠ Some true.
Proof.
  unfold entry. intros H.
  destruct (replicate n (replicate m false) !! e) as [row|] eqn:Hrow;
    simpl in H; [|done].
  apply lookup_replicate in Hrow as [-> _].
  apply lookup_replicate in H as [? _]. done.
Qed.
End RewardLoop.

Section Reward.
Context {RelPose : Type} `{!ControlUtils RelPose}.
Import FurnitureRLSimEnv.
Implicit Types (c : Config RelPose) (s : State).

(** What a returning call of [_reward] did: only the latch tensor changed,
    no bit was cleared, the mask of new bits holds exactly the bits that
    went from [False] to [True], and the rewards are read off that mask. *)
Lemma _reward_spec c s r s' :
  _reward c s = Ok (r, s') →
  ∃ newly,
    s' = set_already_assembled (already_assembled s') s
    ∧ length (already_assembled s') = length (already_assembled s)
    ∧ (∀ n, Forall (λ row, length row = n) (already_assembled s) →
            Forall (λ row, length row = n) (already_assembled s'))
    ∧ length newly = num_envs c
    ∧ (∀ e k, entry (already_assembled s) e k = Some true →
              entry (already_assembled s') e k = Some true)
    ∧ (∀ e k, entry newly e k = Some true ↔
              entry (already_assembled s) e k = Some false
              ∧ entry (already_assembled s') e k = Some true)
    ∧ r = if manual_done c && existsb (λ x, Qeq_bool x 1) (rewards_of newly)
          then None else Some (rewards_of newly).
Proof.
  unfold _reward. intros H.
  apply bind_Ok in H as (v & _ & H).
  apply bind_Ok in H as (rows & _ & H).
  apply bind_Ok in H as (pp & _ & H).
  apply bind_Ok in H as ([newly aa] & Hloop & H).
  rewrite imap_pairs in Hloop.
  apply reward_loop_spec in Hloop as (Hl1 & Hl2 & Hrows & _ & Hent).
  rewrite length_replicate in Hl1.
  exists newly. simpl in H.
  assert (s' = set_already_assembled aa s
          ∧ r = if manual_done c && existsb (λ x, Qeq_bool x 1) (rewards_of newly)
                then None else Some (rewards_of newly)) as [-> ->].
  { unfold rewards_of.
    destruct (manual_done c && existsb _ _); injection H as <- <-; done. }
  simpl. split; [done|]. split; [done|]. split; [done|]. split; [done|].
  split; [|split; [|done]].
  - intros e k Hbit. specialize (Hent e k). rewrite Hbit in Hent.
    destruct (decide (0 ≤ k < 0 + length (pairs_to_assemble c))).
    + destruct Hent as (m & _ & ->). done.
    + destruct Hent as [_ ->]. done.
  - intros e k. specialize (Hent e k).
    destruct (decide (0 ≤ k < 0 + length (pairs_to_assemble c))).
    + destruct (entry (already_assembled s) e k) as [old|].
      * destruct Hent as (m & -> & ->).
        destruct old, m; simpl; intuition congruence.
      * destruct Hent as [-> ->]. intuition congruence.
    + destruct Hent as [-> ->]. split.
      * intros H0. by apply entry_zeros in H0.
      * intros [? ?]. congruence.
Qed.

(** The reward of environment [e] is 1 exactly when its row of the mask
    holds a [True], and 0 otherwise. *)
Lemma rewards_of_lookup (newly : list (list bool)) (e : nat) :
  e < length newly →
  ∃ x, rewards_of newly !! e = Some x
       ∧ (x = 1%Q ↔ ∃ k, entry newly e k = Some true)
       ∧ (x = 0%Q ↔ ¬ ∃ k, entry newly e k = Some true).
Proof.
  intros He. destruct (lookup_lt_is_Some_2 _ _ He) as [row Hrow].
  unfold rewards_of. rewrite list_lookup_fmap, Hrow. simpl.
  assert (tensor_any row = true ↔ ∃ k, entry newly e k = Some true) as Hany.
  { unfold tensor_any, entry. rewrite Hrow. simpl. rewrite existsb_exists. split.
    - intros (b & Hin & Hb). unfold id in Hb. subst b.
      apply list_elem_of_In, list_elem_of_lookup in Hin. exact Hin.
    - intros [k Hk]. exists true. split; [|done].
      apply list_elem_of_In, list_elem_of_lookup. eauto. }
  destruct (tensor_any row).
  - exists 1%Q. split; [reflexivity|]. split; split.
    + intros _. apply Hany. reflexivity.
    + reflexivity.
    + discriminate.
    + intros Hn. exfalso. apply Hn, Hany. reflexivity.
  - exists 0%Q. split; [reflexivity|]. split; split.
    + discriminate.
    + intros Hex. apply Hany in Hex. discriminate.
    + intros _ Hex. apply Hany in Hex. discriminate.
    + reflexivity.
Qed.
End Reward.

(** ** Index lists and scattered writes *)

Lemma torch_where_from_elem (mask : list bool) : ∀ k x,
  x ∈ torch_where_from k mask ↔ ∃ e, x = k + e ∧ mask !! e = Some true.
Proof.
  induction mask as [|b mask IH]; intros k x; simpl.
  - split; [by intros ?%elem_of_nil | by intros (e & _ & ?)].
  - assert (x ∈ torch_where_from (S k) mask ↔
            ∃ e, x = k + S e ∧ mask !! e = Some true) as IH'.
    { rewrite IH. split; intros (e & -> & He); exists e; split; [lia|done|lia|done]. }
    destruct b.
    + rewrite elem_of_cons, IH'. split.
      * intros [->|(e & -> & He)]; [exists 0 | exists (S e)]; split;
          [lia|done|lia|done].
      * intros ([|e] & -> & He); [left; lia|right; eauto].
    + rewrite IH'. split.
      * intros (e & -> & He). exists (S e). done.
      * intros ([|e] & -> & He); [done|eauto].
Qed.

Lemma torch_where_elem (mask : list bool) (e : nat) :
  e ∈ torch_where mask ↔ mask !! e = Some true.
Proof.
  unfold torch_where. rewrite torch_where_from_elem. split.
  - intros (e' & -> & He). exact He.
  - intros He. exists e. done.
Qed.

Lemma foldl_insert_spec {A : Type} (kvs : list (nat * A)) : ∀ (t : list A) (b : nat),
  let t' := foldl (λ acc kv, <[kv.1 := kv.2]> acc) t kvs in
  length t' = length t
  ∧ (b ∉ kvs.*1 → t' !! b = t !! b)
  ∧ (b ∈ kvs.*1 → b < length t → ∃ x, x ∈ kvs.*2 ∧ t' !! b = Some x).
Proof.
  induction kvs as [|[k v] kvs IH]; intros t b; simpl.
  - split; [done|]. split; [done|]. by intros ?%elem_of_nil.
  - destruct (IH (<[k := v]> t) b) as (Hlen & Hout & Hin).
    rewrite length_insert in Hlen, Hin.
    split; [exact Hlen|]. split.
    + intros Hb. rewrite not_elem_of_cons in Hb. destruct Hb as [Hne Hb].
      rewrite Hout by exact Hb. by rewrite list_lookup_insert_ne.
    + intros Hb Hlt. destruct (decide (b ∈ kvs.*1)) as [Hb'|Hb'].
      * destruct (Hin Hb' Hlt) as (x & Hx & Hl). exists x.
        split; [by apply elem_of_cons; right | exact Hl].
      * apply elem_of_cons in Hb as [->|Hb]; [|done].
        exists v. split; [by apply elem_of_cons; left|].
        rewrite Hout by exact Hb'. by rewrite list_lookup_insert_eq.
Qed.

Lemma index_put_spec {A : Type} (idxs : list nat) (vals : list A) (t t' : list A) :
  index_put idxs vals t = Ok t' →
  length t' = length t
  ∧ (∀ b, b ∉ idxs → t' !! b = t !! b)
  ∧ (∀ b x, t' !! b = Some x → t !! b = Some x ∨ x ∈ vals)
  ∧ (length idxs ≤ length vals →
     ∀ b, b ∈ idxs → ∃ x, x ∈ vals ∧ t' !! b = Some x).
Proof.
  unfold index_put. destruct (forallb _ idxs) eqn:Hall; [|discriminate].
  intros [= <-].
  assert (∀ b, b ∈ (zip idxs vals).*1 → b ∈ idxs) as Hfst.
  { intros b (kv & -> & Hin)%list_elem_of_fmap. destruct kv as [k v].
    by eapply elem_of_zip_l. }
  assert (∀ x, x ∈ (zip idxs vals).*2 → x ∈ vals) as Hsnd.
  { intros x (kv & -> & Hin)%list_elem_of_fmap. destruct kv as [k v].
    by eapply elem_of_zip_r. }
  split; [apply (foldl_insert_spec (zip idxs vals) t 0)|].
  split; [|split].
  - intros b Hb. apply (foldl_insert_spec (zip idxs vals) t b). auto.
  - intros b x Hx.
    destruct (foldl_insert_spec (zip idxs vals) t b) as (Hlen & Hout & Hin).
    destruct (decide (b ∈ (zip idxs vals).*1)) as [Hb|Hb].
    + assert (b < length t) as Hlt.
      { rewrite <- Hlen. by eapply lookup_lt_Some. }
      destruct (Hin Hb Hlt) as (y & Hy & Hl). right.
      rewrite Hl in Hx. injection Hx as <-. auto.
    + left. rewrite <- Hout by exact Hb. exact Hx.
  - intros Hlen b Hb.
    destruct (foldl_insert_spec (zip idxs vals) t b) as (_ & _ & Hin).
    rewrite fst_zip in Hin by exact Hlen.
    destruct (Hin Hb) as (x & Hx & Hl).
    + rewrite forallb_forall in Hall. apply Nat.ltb_lt, Hall.
      by apply list_elem_of_In.
    + eauto.
Qed.

Lemma index_put_total {A : Type} (idxs : list nat) (vals : list A) (t : list A) :
  Forall (λ k, k < length t) idxs → ∃ t', index_put idxs vals t = Ok t'.
Proof.
  intros H. unfold index_put.
  assert (forallb (λ k, k <? length t) idxs = true) as ->; [|eauto].
  apply forallb_forall. intros k Hk. apply Nat.ltb_lt.
  rewrite Forall_forall in H. apply H. by apply list_elem_of_In.
Qed.

(** ** The bulb rest pose *)

Section Bulbs.
Context {RelPose : Type} `{!ControlUtils RelPose}.
Import FurnitureSimEnv.
Implicit Types (c : Config RelPose) (s : State).

Lemma existsb_past_half c s :
  existsb (λ n, (max_env_steps c <? 2 * n)%Z) (env_steps s) = false ↔ first_half c s.
Proof.
  unfold first_half. rewrite Forall_forall. split.
  - intros H n Hn. apply list_elem_of_In in Hn.
    destruct (Z.ltb_spec (max_env_steps c) (2 * n)) as [Hlt|Hle]; [|lia].
    assert (existsb (λ n, (max_env_steps c <? 2 * n)%Z) (env_steps s) = true)
      as Hex; [|congruence].
    apply existsb_exists. exists n. split; [done|]. by apply Z.ltb_lt.
  - intros H. apply not_true_is_false. intros (n & Hn & Hlt)%existsb_exists.
    apply Z.ltb_lt in Hlt. apply list_elem_of_In, H in Hn. lia.
Qed.

(** Outside the lamp task, or once some counter is past half of the
    horizon, nothing is held and nothing is recorded. *)
Lemma handle_bulb_closed c s :
  furniture_name c ≠ "lamp" ∨ ¬ first_half c s →
  _handle_bulb_rest_pose c s = Ok (false, None, s).
Proof.
  intros H. unfold _handle_bulb_rest_pose.
  destruct (String.eqb_spec (furniture_name c) "lamp") as [Heq|Hne]; simpl;
    [|reflexivity].
  destruct H as [H|H]; [done|].
  destruct (existsb _ (env_steps s)) eqn:Hex; [reflexivity|].
  apply existsb_past_half in Hex. done.
Qed.

Lemma gather3_lookup (rb : list (list Q)) (idxs : list nat) (ps : list (list Q)) e :
  result_mapM (λ k, take 3 <$> index_get rb k) idxs = Ok ps →
  e < length idxs →
  ∃ k row, idxs !! e = Some k ∧ rb !! k = Some row ∧ ps !! e = Some (take 3 row).
Proof.
  intros H He. destruct (lookup_lt_is_Some_2 _ _ He) as [k Hk].
  destruct (result_mapM_lookup _ _ _ _ _ H Hk) as (p & Hp & Hget).
  apply fmap_Ok in Hget as (row & Hrow%index_get_Ok & ->). eauto.
Qed.

(** In the lamp task, while no counter is past half of the horizon: an
    environment is held exactly when it was not released before and its hand
    is away from the bulb, and it is recorded as released otherwise. *)
Lemma handle_bulb_open c s any_unsettled rest s1 :
  furniture_name c = "lamp" → first_half c s →
  _handle_bulb_rest_pose c s = Ok (any_unsettled, rest, s1) →
  ∃ m m',
    _moving_bulbs s = Some m ∧ s1 = set_moving_bulbs (Some m') s
    ∧ length m = num_envs c ∧ length m' = num_envs c
    ∧ (∀ e, e < num_envs c →
         ∃ mv cl, m !! e = Some mv ∧ hand_bulb_close c s e = Some cl
                  ∧ m' !! e = Some (mv || cl)
                  ∧ holds_bulb (bulb_substep any_unsettled rest) e
                    = negb mv && negb cl)
    ∧ (∀ e, num_envs c ≤ e → holds_bulb (bulb_substep any_unsettled rest) e = false).
Proof.
  intros Hlamp Hhalf. unfold _handle_bulb_rest_pose.
  rewrite Hlamp. simpl.
  apply existsb_past_half in Hhalf. rewrite Hhalf.
  destruct (_moving_bulbs s) as [m|] eqn:Hm; [|discriminate]. simpl.
  intros H.
  apply bind_Ok in H as (tr1 & Htr1 & H).
  apply bind_Ok in H as (lb0 & Hlb0 & H).
  apply bind_Ok in H as (lb & Hlb & H).
  apply bind_Ok in H as (hp0 & Hhp0 & H).
  apply bind_Ok in H as (hp & Hhp & H).
  apply bind_Ok in H as (tr & Htr & H).
  apply bind_Ok in H as (m' & Hput & H).
  apply tensor_zip_Ok in Htr1 as [Hlen1 ->].
  rewrite length_replicate, length_fmap in Hlen1.
  apply view_rows_Ok in Hlb as [Hlen_lb ->].
  apply view_rows_Ok in Hhp as [Hlen_hp ->].
  apply tensor_zip_Ok in Htr as [Hlen2 ->].
  apply index_put_spec in Hput as (Hlen_m' & Hout & _ & Hin).
  rewrite length_replicate in Hin. specialize (Hin (Nat.le_refl _)).
  set (close := zip_with hand_bulb_similar_pos lb0 hp0) in *.
  set (to_rest := zip_with andb (zip_with andb (replicate (num_envs c) true)
                                   (negb <$> m)) (negb <$> close)) in *.
  assert (Hsub : ∀ e, holds_bulb (bulb_substep any_unsettled rest) e
                      = bool_decide (to_rest !! e = Some true)).
  { intros e.
    destruct (0 <? length (torch_where to_rest)) eqn:Hne;
      injection H as <- <- <-; unfold bulb_substep, _set_bulb_poses; simpl.
    - apply Nat.ltb_lt in Hne.
      destruct (Nat.eqb_spec (length (torch_where to_rest)) 0); [lia|]. simpl.
      apply bool_decide_ext, torch_where_elem.
    - apply Nat.ltb_ge in Hne. symmetry. apply bool_decide_eq_false.
      intros He%torch_where_elem.
      destruct (torch_where to_rest); [by apply elem_of_nil in He|simpl in Hne; lia]. }
  assert (Hs1 : s1 = set_moving_bulbs (Some m') s).
  { destruct (0 <? length (torch_where to_rest)); injection H as <- <- <-; done. }
  exists m, m'. split; [done|]. split; [done|]. split; [lia|]. split; [lia|].
  split.
  - intros e He.
    assert (e < length m) as Hem by lia.
    destruct (lookup_lt_is_Some_2 _ _ Hem) as [mv Hmv].
    pose proof (result_mapM_length _ _ _ Hlb0) as Hl1.
    pose proof (result_mapM_length _ _ _ Hhp0) as Hl2.
    destruct (gather3_lookup _ _ _ e Hlb0) as (kb & rowb & Hkb & Hrowb & Hlbe);
      [lia|].
    destruct (gather3_lookup _ _ _ e Hhp0) as (kh & rowh & Hkh & Hrowh & Hhpe);
      [lia|].
    set (cl := hand_bulb_similar_pos (take 3 rowb) (take 3 rowh)).
    assert (close !! e = Some cl) as Hcl.
    { apply lookup_zip_with_Some. eauto. }
    assert (to_rest !! e = Some (negb mv && negb cl)) as Htre.
    { apply lookup_zip_with_Some. exists (negb mv), (negb cl).
      split; [done|]. split; [|by rewrite list_lookup_fmap, Hcl].
      apply lookup_zip_with_Some. exists true, (negb mv).
      split; [done|]. split; [|by rewrite list_lookup_fmap, Hmv].
      apply lookup_replicate. done. }
    exists mv, cl. split; [done|]. split.
    { unfold hand_bulb_close. rewrite Hkb, Hkh. simpl. rewrite Hrowb, Hrowh. done. }
    split.
    + destruct (negb mv && negb cl) eqn:Hb.
      * rewrite Hout, Hmv.
        -- destruct mv, cl; done.
        -- intros Hin'%torch_where_elem.
           rewrite list_lookup_fmap, Htre in Hin'. simpl in Hin'. congruence.
      * destruct (Hin e) as (x & Hx & ->).
        -- apply torch_where_elem. rewrite list_lookup_fmap, Htre. done.
        -- apply elem_of_replicate in Hx as [-> _]. destruct mv, cl; done.
    + rewrite Hsub, Htre. destruct (negb mv && negb cl).
      * by apply bool_decide_eq_true.
      * by apply bool_decide_eq_false.
  - intros e He. rewrite Hsub. apply bool_decide_eq_false.
    intros Hl%lookup_lt_Some. unfold to_rest in Hl.
    rewrite !length_zip_with, length_replicate in Hl. lia.
Qed.
End Bulbs.

(** ** The calls return *)

Section Totality.
Context {RelPose : Type} `{!ControlUtils RelPose}.
Import FurnitureSimEnv FurnitureRLSimEnv.
Implicit Types (c : Config RelPose) (s : State).

Lemma reward_pair_total c pp newly aa i pr (np nk : nat) :
  Forall (λ env_poses : list (list Q), length env_poses = np) pp →
  pr.1 < np → pr.2 < np → i < length (assembled_rel_poses c) →
  length aa = length pp → length newly = length pp →
  Forall (λ row, length row = nk) aa → Forall (λ row, length row = nk) newly →
  i < nk →
  ∃ r, reward_pair c pp (newly, aa) (i, pr) = Ok r.
Proof.
  intros Hpp H1 H2 Hi Hlaa Hlnew Hraa Hrnew Hik. unfold reward_pair.
  destruct (result_mapM_total (assembled_any c i pr) pp) as [any_match Hm].
  { eapply Forall_impl; [exact Hpp|]. intros env_poses Hlen. simpl in Hlen.
    unfold assembled_any.
    destruct (index_get_total env_poses pr.1) as [p1 ->]; [lia|].
    destruct (index_get_total env_poses pr.2) as [p2 ->]; [lia|].
    destruct (index_get_total (assembled_rel_poses c) i) as [t ->]; [lia|].
    simpl. eauto. }
  rewrite Hm. simpl.
  destruct (get_col_total i aa) as [old Hold].
  { eapply Forall_impl; [exact Hraa|]. simpl. lia. }
  rewrite Hold. simpl.
  pose proof (result_mapM_length _ _ _ Hm) as Hlm.
  apply get_col_lookup in Hold as [Hlold _].
  destruct (tensor_zip andb any_match (negb <$> old)) as [new|] eqn:Hnew.
  2:{ unfold tensor_zip in Hnew. rewrite length_fmap in Hnew.
      destruct (Nat.eqb_spec (length any_match) (length old)); [done|lia]. }
  simpl. pose proof Hnew as Hnew'. apply tensor_zip_Ok in Hnew' as [Hl1 ->].
  rewrite length_fmap in Hl1.
  destruct (set_col i (zip_with andb any_match (negb <$> old)) newly)
    as [newly1|] eqn:Hset1.
  2:{ exfalso. assert (is_Ok : ∃ t', set_col i (zip_with andb any_match
                                                  (negb <$> old)) newly = Ok t').
      { eexists. apply set_col_Ok. split; [|split; [|reflexivity]].
        - eapply Forall_impl; [exact Hrnew|]. simpl. lia.
        - rewrite length_zip_with, length_fmap. lia. }
      destruct is_Ok as [t' Ht']. congruence. }
  simpl. pose proof (set_col_row_length _ _ _ _ nk Hset1 Hrnew) as Hr1.
  pose proof Hset1 as Hset1'. apply set_col_entry in Hset1' as [Hl2 _].
  destruct (get_col_total i newly1) as [new' Hn'].
  { eapply Forall_impl; [exact Hr1|]. simpl. lia. }
  rewrite Hn'. simpl. apply get_col_lookup in Hn' as [Hl3 _].
  destruct (tensor_zip orb old new') as [upd|] eqn:Hupd.
  2:{ unfold tensor_zip in Hupd.
      destruct (Nat.eqb_spec (length old) (length new')); [done|lia]. }
  simpl. apply tensor_zip_Ok in Hupd as [Hl4 ->].
  destruct (set_col i (zip_with orb old new') aa) as [aa1|] eqn:Hset2; [eauto|].
  exfalso. assert (is_Ok : ∃ t', set_col i (zip_with orb old new') aa = Ok t').
  { eexists. apply set_col_Ok. split; [|split; [|reflexivity]].
    - eapply Forall_impl; [exact Hraa|]. simpl. lia.
    - rewrite length_zip_with. lia. }
  destruct is_Ok as [t' Ht']. congruence.
Qed.

Lemma reward_loop_total c pp (np nk : nat) pairs : ∀ j newly aa,
  Forall (λ env_poses : list (list Q), length env_poses = np) pp →
  Forall (λ pr : nat * nat, pr.1 < np ∧ pr.2 < np) pairs →
  j + length pairs ≤ length (assembled_rel_poses c) →
  j + length pairs ≤ nk →
  length aa = length pp → length newly = length pp →
  Forall (λ row, length row = nk) aa → Forall (λ row, length row = nk) newly →
  ∃ r, result_foldM (reward_pair c pp) (zip (seq j (length pairs)) pairs) (newly, aa)
       = Ok r.
Proof.
  induction pairs as [|pr pairs IH]; intros j newly aa Hpp Hprs Hj Hk Hlaa Hln Hraa Hrn.
  - simpl. eauto.
  - cbn [length] in *. inversion Hprs as [|? ? [Hp1 Hp2] Hprs']; subst.
    destruct (reward_pair_total c pp newly aa j pr np nk) as [[newly1 aa1] Hbody];
      try done; try lia.
    change (zip (seq j (S (length pairs))) (pr :: pairs))
      with ((j, pr) :: zip (seq (S j) (length pairs)) pairs).
    cbn [result_foldM]. rewrite Hbody. cbn [mbind result_bind].
    apply reward_pair_spec in Hbody as (Hl1 & Hl2 & Hr1 & Hr1' & _).
    apply IH; try done; try lia; auto.
Qed.

Lemma view_chunks_length {A : Type} (w p : nat) (row : list A) :
  length (view_chunks w p row) = p.
Proof. revert row. induction p as [|p IH]; intros row; simpl; [done|]. by rewrite IH. Qed.

Lemma gather_poses_shape (rb : list (list Q)) (idxs : list (list nat)) pp (np : nat) :
  gather_poses rb idxs = Ok pp →
  Forall (λ row, length row = 13) rb →
  Forall (λ row : list nat, length row = np) idxs →
  length pp = length idxs
  ∧ Forall (λ env_poses, length env_poses = np
                         ∧ Forall (λ pose : list Q, length pose = 7) env_poses) pp.
Proof.
  unfold gather_poses. intros H Hrb Hidx. split; [by eapply result_mapM_length|].
  apply result_mapM_Ok in H. apply Forall_lookup_2. intros e env_poses He.
  destruct (Forall2_lookup_r _ _ _ _ _ H He) as (row & Hrow & Hrowm).
  split.
  - apply result_mapM_length in Hrowm. rewrite Hrowm.
    by eapply Forall_lookup_1 in Hidx.
  - apply result_mapM_Ok in Hrowm. apply Forall_lookup_2. intros p pose Hp.
    destruct (Forall2_lookup_r _ _ _ _ _ Hrowm Hp) as (k & _ & Hget).
    apply fmap_Ok in Hget as (r & Hr%index_get_Ok & ->).
    eapply Forall_lookup_1 in Hrb; [|exact Hr]. simpl in Hrb.
    rewrite length_take. lia.
Qed.

Lemma gather_poses_total (rb : list (list Q)) (idxs : list (list nat)) :
  Forall (Forall (λ k, k < length rb)) idxs → ∃ pp, gather_poses rb idxs = Ok pp.
Proof.
  intros H. apply result_mapM_total. eapply Forall_impl; [exact H|].
  intros row Hrow. apply result_mapM_total. eapply Forall_impl; [exact Hrow|].
  intros k Hk. simpl in Hk. destruct (index_get_total rb k Hk) as [r ->].
  simpl. eauto.
Qed.

Lemma concat_length_uniform {A : Type} (w : nat) (l : list (list A)) :
  Forall (λ x, length x = w) l → length (concat l) = length l * w.
Proof.
  induction 1 as [|x l Hx _ IH]; simpl; [done|].
  rewrite length_app, IH, Hx. lia.
Qed.
End Totality.

Section TotalityStep.
Context {RelPose : Type} `{!ControlUtils RelPose}.
Import FurnitureSimEnv FurnitureRLSimEnv.
Implicit Types (c : Config RelPose) (s : State).

(** In simulator coordinates [get_parts_poses] returns one tensor:
    [num_envs] rows of [num_parts * 7] numbers. *)
Lemma get_parts_poses_sim c rb robot_coord :
  config_ok c → rb_ok c rb →
  ∃ rows, get_parts_poses c rb true robot_coord = Ok (PyTensor2 rows)
          ∧ length rows = num_envs c
          ∧ Forall (λ row, length row = num_parts c * 7) rows.
Proof.
  intros (Hlen & Hrows & _) [Hrb Hrb13]. unfold get_parts_poses.
  destruct (gather_poses_total rb (furniture_rb_indices c)) as [pp Hpp].
  { eapply Forall_impl; [exact Hrows|]. intros row [_ Hrow]. by rewrite Hrb. }
  rewrite Hpp. cbn [mbind result_bind].
  destruct (gather_poses_shape rb _ pp (num_parts c) Hpp Hrb13) as [Hl Hshape].
  { eapply Forall_impl; [exact Hrows|]. by intros row [? _]. }
  unfold reshape_rows, view_rows. rewrite length_map, Hl, Hlen, Nat.eqb_refl.
  eexists. split; [reflexivity|]. split; [by rewrite length_map, Hl|].
  apply Forall_fmap. eapply Forall_impl; [exact Hshape|].
  intros env_poses [Hn H7]. simpl.
  rewrite (concat_length_uniform 7) by exact H7. by rewrite Hn.
Qed.

Lemma view_mapM_total (n : nat) (rows : list (list Q)) :
  Forall (λ row, length row = n * 7) rows →
  result_mapM (λ row, if length row =? n * 7
                      then Ok (view_chunks 7 n row)
                      else Raise RuntimeError) rows
  = Ok (map (view_chunks 7 n) rows).
Proof.
  induction 1 as [|row rows Hrow _ IH]; simpl; [done|].
  rewrite Hrow, Nat.eqb_refl. simpl. rewrite IH. done.
Qed.

Lemma _reward_total c s :
  config_ok c → state_ok c s → ∃ r s', _reward c s = Ok (r, s').
Proof.
  intros Hc (Hrb & Hlaa & Hraa & _). unfold _reward.
  destruct (get_parts_poses_sim c (rb_states s) false Hc Hrb)
    as (rows & -> & Hlrows & Hrows).
  cbn [mbind result_bind].
  set (np := length (default [] (head rows)) / 7).
  assert (rows = [] ∨ np = num_parts c) as Hnp.
  { destruct rows as [|row0 rows]; [by left|right].
    unfold np. change (default [] (head (row0 :: rows))) with row0.
    inversion Hrows as [|? ? H0 _]; subst.
    rewrite H0. apply Nat.div_mul. done. }
  assert (Forall (λ row, length row = np * 7) rows) as Hrows'.
  { destruct Hnp as [->| ->]; [constructor|exact Hrows]. }
  rewrite (view_mapM_total np rows Hrows'). cbn [mbind result_bind].
  rewrite imap_pairs.
  destruct Hc as (_ & _ & Hpairs & Htargets & _).
  destruct (reward_loop_total c (map (view_chunks 7 np) rows) (num_parts c)
              (length (pairs_to_assemble c)) (pairs_to_assemble c) 0
              (replicate (num_envs c) (replicate (length (pairs_to_assemble c)) false))
              (already_assembled s)) as [[newly aa] Hloop].
  - destruct Hnp as [->| ->]; [constructor|].
    apply Forall_fmap, Forall_true. intros row. simpl. apply view_chunks_length.
  - exact Hpairs.
  - simpl. exact Htargets.
  - simpl. lia.
  - rewrite length_map. lia.
  - rewrite length_replicate, length_map. lia.
  - exact Hraa.
  - apply Forall_replicate. apply length_replicate.
  - rewrite Hloop. cbn [mbind result_bind].
    destruct (manual_done c && _); eauto.
Qed.

Lemma torch_where_bound (mask : list bool) :
  Forall (λ k, k < length mask) (torch_where mask).
Proof.
  apply Forall_forall. intros k Hk%torch_where_elem. by eapply lookup_lt_Some.
Qed.

Lemma gather3_total (rb : list (list Q)) (idxs : list nat) :
  Forall (λ k, k < length rb) idxs →
  ∃ ps, result_mapM (λ k, take 3 <$> index_get rb k) idxs = Ok ps.
Proof.
  intros H. apply result_mapM_total. eapply Forall_impl; [exact H|].
  intros k Hk. simpl in Hk. destruct (index_get_total rb k Hk) as [r ->].
  simpl. eauto.
Qed.

Lemma handle_bulb_total c s :
  config_ok c → state_ok c s → ∃ r, _handle_bulb_rest_pose c s = Ok r.
Proof.
  intros Hc (Hrb & _ & _ & _ & _ & Hm).
  destruct (decide (furniture_name c = "lamp")) as [Hlamp|Hlamp].
  2:{ rewrite handle_bulb_closed by auto. eauto. }
  destruct (decide (first_half c s)) as [Hhalf|Hhalf].
  2:{ rewrite handle_bulb_closed by auto. eauto. }
  unfold _handle_bulb_rest_pose. rewrite Hlamp. simpl.
  apply existsb_past_half in Hhalf. rewrite Hhalf.
  destruct (_moving_bulbs s) as [m|]; [|done]. simpl.
  destruct Hc as (_ & _ & _ & _ & Hbulb & _).
  destruct (Hbulb Hlamp) as (Hlb & Hlbk & Hee & Heek).
  destruct Hrb as [Hrb _].
  rewrite tensor_zip_total by (rewrite length_replicate, length_fmap; lia).
  cbn [mbind result_bind].
  destruct (gather3_total (rb_states s) (lamp_bulb_rb_indices c)) as [lb Hlbm].
  { by rewrite Hrb. }
  rewrite Hlbm. cbn [mbind result_bind].
  pose proof (result_mapM_length _ _ _ Hlbm) as Hl1.
  rewrite view_rows_total by lia. cbn [mbind result_bind].
  destruct (gather3_total (rb_states s) (ee_idxs c)) as [hp Hhpm].
  { by rewrite Hrb. }
  rewrite Hhpm. cbn [mbind result_bind].
  pose proof (result_mapM_length _ _ _ Hhpm) as Hl2.
  rewrite view_rows_total by lia. cbn [mbind result_bind].
  rewrite tensor_zip_total
    by (rewrite length_fmap, !length_zip_with, length_replicate, length_fmap; lia).
  cbn [mbind result_bind].
  match goal with |- context [index_put ?i ?v ?t] =>
    destruct (index_put_total i v t) as [m' Hput] end.
  { eapply Forall_impl; [apply torch_where_bound|]. intros k Hk. simpl in Hk.
    rewrite length_fmap, !length_zip_with, length_replicate, !length_fmap,
      length_zip_with in Hk. lia. }
  rewrite Hput. cbn [mbind result_bind]. destruct (0 <? _); eauto.
Qed.
End TotalityStep.

(** ** One call of [step] *)

Section Step.
Context {RelPose : Type} `{!ControlUtils RelPose}.
Import FurnitureSimEnv FurnitureRLSimEnv.
Implicit Types (c : Config RelPose) (s : State).

Lemma handle_bulb_frame c s any_unsettled rest s1 :
  _handle_bulb_rest_pose c s = Ok (any_unsettled, rest, s1) →
  ∃ mb, s1 = set_moving_bulbs mb s.
Proof.
  intros H.
  destruct (decide (furniture_name c = "lamp")) as [Hlamp|Hlamp].
  2:{ rewrite handle_bulb_closed in H by auto. injection H as <- <- <-.
      exists (_moving_bulbs s). by destruct s. }
  destruct (decide (first_half c s)) as [Hhalf|Hhalf].
  2:{ rewrite handle_bulb_closed in H by auto. injection H as <- <- <-.
      exists (_moving_bulbs s). by destruct s. }
  destruct (handle_bulb_open c s _ _ _ Hlamp Hhalf H) as (m & m' & _ & -> & _).
  eauto.
Qed.

Lemma handle_bulb_moving_ok c s any_unsettled rest s1 :
  _handle_bulb_rest_pose c s = Ok (any_unsettled, rest, s1) →
  match _moving_bulbs s with
  | Some m => length m = num_envs c
  | None => furniture_name c ≠ "lamp"
  end →
  match _moving_bulbs s1 with
  | Some m => length m = num_envs c
  | None => furniture_name c ≠ "lamp"
  end.
Proof.
  intros H Hm.
  destruct (decide (furniture_name c = "lamp")) as [Hlamp|Hlamp].
  2:{ rewrite handle_bulb_closed in H by auto. by injection H as <- <- <-. }
  destruct (decide (first_half c s)) as [Hhalf|Hhalf].
  2:{ rewrite handle_bulb_closed in H by auto. by injection H as <- <- <-. }
  destruct (handle_bulb_open c s _ _ _ Hlamp Hhalf H) as (m & m' & _ & -> & _ & ? & _).
  done.
Qed.

(** [simulate_step] reads the grasp column, commands the gripper from it and
    from the previous grasp, stores it, and holds the bulbs that
    [_handle_bulb_rest_pose] names in every substep. *)
Lemma simulate_step_spec c s a rb o s1 :
  simulate_step c s a rb = Ok (o, s1) →
  ∃ grasp any_unsettled rest s0,
    length grasp = num_envs c
    ∧ tensor_zip (grip_sep_of c) grasp (last_grasp s) = Ok (grip_sep o)
    ∧ _handle_bulb_rest_pose c (set_last_grasp grasp s) = Ok (any_unsettled, rest, s0)
    ∧ s1 = set_rb_states rb s0
    ∧ substeps o = replicate (sim_steps c) (bulb_substep any_unsettled rest).
Proof.
  unfold simulate_step. intros H.
  apply bind_Ok in H as (act & Hact & H).
  apply bind_Ok in H as (grasp & Hgrasp & H).
  apply bind_Ok in H as (grip & Hgrip & H).
  destruct (_handle_bulb_rest_pose c (set_last_grasp grasp s))
    as [[[any_unsettled rest] s0]|] eqn:Hb; [|discriminate].
  injection H as <- <-.
  exists grasp, any_unsettled, rest, s0.
  apply view_rows_Ok in Hact as [Hlen ->].
  apply result_mapM_length in Hgrasp. rewrite Hlen in Hgrasp.
  done.
Qed.

Lemma simulate_step_total c s a rb :
  config_ok c → state_ok c s →
  length a = num_envs c → Forall (λ row, row ≠ []) a →
  ∃ o s1, simulate_step c s a rb = Ok (o, s1).
Proof.
  intros Hc Hs Hla Hrows. unfold simulate_step.
  rewrite view_rows_total by (by rewrite length_map).
  cbn [mbind result_bind].
  match goal with |- context [result_mapM ?f ?l] =>
    destruct (result_mapM_total f l) as [grasp Hgrasp] end.
  { apply Forall_fmap. eapply Forall_impl; [exact Hrows|].
    intros row Hrow. simpl.
    destruct (last (map (torch_clamp (-1) 1) row)) as [g|] eqn:Hlast; [eauto|].
    apply last_None in Hlast. by destruct row. }
  rewrite Hgrasp. cbn [mbind result_bind].
  apply result_mapM_length in Hgrasp. rewrite length_map in Hgrasp.
  destruct Hs as (Hrb & Haa & Hraa & Hsteps & Hlg & Hm).
  rewrite tensor_zip_total by lia. cbn [mbind result_bind].
  destruct (handle_bulb_total c (set_last_grasp grasp s) Hc) as [[[x y] s0] ->].
  { unfold state_ok. simpl. destruct Hrb.
    split; [done|]. split; [done|]. split; [done|]. split; [done|].
    split; [lia|done]. }
  eauto.
Qed.

(** [step] is [simulate_step], then [_reward], then [_done] on the counters
    before they are incremented. *)
Lemma step_spec c s inp o s' :
  step c s inp = Ok (o, s') →
  ∃ s1 s2,
    simulate_step c s (action inp) (engine_rb inp) = Ok (sim o, s1)
    ∧ _reward c s1 = Ok (reward o, s2)
    ∧ (terminated o, truncated o) = _done c s2
    ∧ s' = set_env_steps ((λ n, wrap32 (n + 1)) <$> env_steps s2) s2.
Proof.
  unfold step. intros H.
  apply bind_Ok in H as ([so s1] & Hsim & H).
  apply bind_Ok in H as ([r s2] & Hr & H).
  apply bind_Ok in H as (f & _ & H).
  injection H as <- <-. simpl.
  exists s1, s2. repeat split; try done. by destruct (_done c s2).
Qed.

(** What a returning [step] leaves of the state it started from. *)
Lemma step_frame c s inp o s' :
  step c s inp = Ok (o, s') →
  ∃ s1 s2,
    simulate_step c s (action inp) (engine_rb inp) = Ok (sim o, s1)
    ∧ _reward c s1 = Ok (reward o, s2)
    ∧ (terminated o, truncated o) = _done c s2
    ∧ already_assembled s1 = already_assembled s
    ∧ already_assembled s' = already_assembled s2
    ∧ env_steps s2 = env_steps s
    ∧ env_steps s' = (λ n, wrap32 (n + 1)) <$> env_steps s
    ∧ _moving_bulbs s' = _moving_bulbs s1.
Proof.
  intros (s1 & s2 & Hsim & Hr & Hd & ->)%step_spec.
  exists s1, s2. split; [done|]. split; [done|]. split; [done|].
  destruct (simulate_step_spec _ _ _ _ _ _ Hsim)
    as (grasp & any_unsettled & rest & s0 & _ & _ & Hb & -> & _).
  apply handle_bulb_frame in Hb as [mb ->].
  apply _reward_spec in Hr as (newly & Hs2 & _).
  rewrite Hs2. simpl. done.
Qed.
End Step.

(** ** The perturbation *)

Lemma Forall_mask_select {A : Type} (P : A → Prop) (mask : list bool) (t : list A) :
  Forall P t → Forall P (mask_select mask t).
Proof.
  intros H. revert mask. induction H as [|a t Ha _ IH]; intros [|b mask]; simpl;
    try constructor.
  destruct b; [constructor|]; auto.
Qed.

Section Perturbation.
Context {RelPose : Type} `{!ControlUtils RelPose}.
Import FurnitureRLSimEnv.
Implicit Types (c : Config RelPose) (s : State).

(** The tensors sent to the engine have one row per rigid body; a body the
    mask does not select keeps its zero row; any other row is a planar force,
    or a torque about z, scaled by a multiplier. *)
Lemma perturbation_spec c maxf maxt d forces torques :
  _random_perturbation_of_parts c maxf maxt d = Ok (forces, torques) →
  length forces = rigid_body_count c ∧ length torques = rigid_body_count c
  ∧ (∀ b, b ∉ selected_bodies c d →
          forces !! b = replicate (rigid_body_count c) [0; 0; 0]%Q !! b
          ∧ torques !! b = replicate (rigid_body_count c) [0; 0; 0]%Q !! b)
  ∧ (∀ b row, forces !! b = Some row →
       row = [0; 0; 0]%Q
       ∨ ∃ e p k, row = [u_force d e p * maxf * cos_2pi (u_theta d e p) * k;
                         u_force d e p * maxf * sin_2pi (u_theta d e p) * k;
                         0 * k]%Q)
  ∧ (∀ b row, torques !! b = Some row →
       row = [0; 0; 0]%Q
       ∨ ∃ e p k, row = [0; 0; maxt * (u_torque d e p * 2 - 1) * k]%Q).
Proof.
  unfold _random_perturbation_of_parts. intros H.
  apply bind_Ok in H as (fz & Hfz & H).
  apply bind_Ok in H as (tz & Htz & H).
  apply bind_Ok in H as (af & Haf & H).
  apply bind_Ok in H as (at' & Hat & H).
  injection H as <- <-.
  apply index_put_spec in Haf as (Hlf & Hfout & Hfin & _).
  apply index_put_spec in Hat as (Hlt & Htout & Htin & _).
  rewrite length_replicate in Hlf, Hlt.
  split; [done|]. split; [done|]. split; [|split].
  - intros b Hb. split; [apply Hfout | apply Htout]; exact Hb.
  - intros b row Hrow. apply Hfin in Hrow as [Hrow|Hrow].
    { left. by apply lookup_replicate in Hrow as [-> _]. }
    right. revert row Hrow. apply Forall_forall, Forall_mask_select.
    apply Forall_concat. apply result_mapM_Ok in Hfz.
    apply Forall_lookup_2. intros e zrow Hz.
    destruct (Forall2_lookup_r _ _ _ _ _ Hfz Hz) as (frow & Hfrow & Hzip).
    apply tensor_zip_Ok in Hzip as [_ ->].
    apply list_lookup_imap_Some in Hfrow as (irow & Hirow & ->).
    apply Forall_lookup_2. intros p row Hp.
    apply lookup_zip_with_Some in Hp as (f & k & -> & Hf & Hk).
    apply list_lookup_imap_Some in Hf as (x & _ & ->).
    exists e, p, k. reflexivity.
  - intros b row Hrow. apply Htin in Hrow as [Hrow|Hrow].
    { left. by apply lookup_replicate in Hrow as [-> _]. }
    right. revert row Hrow. apply Forall_forall, Forall_mask_select.
    apply Forall_fmap, Forall_concat. apply result_mapM_Ok in Htz.
    apply Forall_lookup_2. intros e zrow Hz.
    destruct (Forall2_lookup_r _ _ _ _ _ Htz Hz) as (trow & Htrow & Hzip).
    apply tensor_zip_Ok in Hzip as [_ ->].
    apply list_lookup_imap_Some in Htrow as (irow & Hirow & ->).
    apply Forall_lookup_2. intros p z Hp.
    apply lookup_zip_with_Some in Hp as (t & k & -> & Ht & Hk).
    apply list_lookup_imap_Some in Ht as (x & _ & ->).
    exists e, p, k. reflexivity.
Qed.

Lemma perturbation_total c maxf maxt d :
  config_ok c → ∃ r, _random_perturbation_of_parts c maxf maxt d = Ok r.
Proof.
  intros (_ & _ & _ & _ & _ & Hshape). unfold _random_perturbation_of_parts.
  match goal with |- context [result_mapM ?f ?l ≫= _] =>
    destruct (result_mapM_total f l) as [fz Hfz] end.
  { apply Forall_lookup_2. intros e frow Hfrow.
    apply list_lookup_imap_Some in Hfrow as (irow & Hirow & ->).
    eapply Forall_lookup_1 in Hshape as (Hlf & _ & _); [|exact Hirow].
    rewrite tensor_zip_total by (by rewrite length_imap). eauto. }
  rewrite Hfz. cbn [mbind result_bind].
  match goal with |- context [result_mapM ?f ?l ≫= _] =>
    destruct (result_mapM_total f l) as [tz Htz] end.
  { apply Forall_lookup_2. intros e trow Htrow.
    apply list_lookup_imap_Some in Htrow as (irow & Hirow & ->).
    eapply Forall_lookup_1 in Hshape as (_ & Hlt & _); [|exact Hirow].
    rewrite tensor_zip_total by (by rewrite length_imap). eauto. }
  rewrite Htz. cbn [mbind result_bind].
  assert (Forall (λ k, k < rigid_body_count c)
            (concat (rigid_body_index_by_env c))) as Hidx.
  { apply Forall_concat. eapply Forall_impl; [exact Hshape|]. by intros row (_ & _ & ?). }
  match goal with |- context [index_put ?i ?v ?t ≫= _] =>
    destruct (index_put_total i v t) as [af Haf] end.
  { apply Forall_mask_select. by rewrite length_replicate. }
  rewrite Haf. cbn [mbind result_bind].
  match goal with |- context [index_put ?i ?v ?t ≫= _] =>
    destruct (index_put_total i v t) as [at' Hat] end.
  { apply Forall_mask_select. by rewrite length_replicate. }
  rewrite Hat. cbn [mbind result_bind]. eauto.
Qed.
End Perturbation.

Section StepTotal.
Context {RelPose : Type} `{!ControlUtils RelPose}.
Import FurnitureSimEnv FurnitureRLSimEnv.
Implicit Types (c : Config RelPose) (s : State).

Lemma step_total c s inp :
  config_ok c → state_ok c s → input_ok c inp → ∃ o s', step c s inp = Ok (o, s').
Proof.
  intros Hc Hs (Hla & Hrows & Hrb). unfold step.
  destruct (simulate_step_total c s (action inp) (engine_rb inp) Hc Hs Hla Hrows)
    as (so & s1 & Hsim).
  rewrite Hsim. cbn [mbind result_bind fst snd].
  assert (state_ok c s1) as Hs1.
  { destruct (simulate_step_spec _ _ _ _ _ _ Hsim)
      as (grasp & any_unsettled & rest & s0 & Hlg & _ & Hb & -> & _).
    pose proof (handle_bulb_moving_ok _ _ _ _ _ Hb) as Hm0.
    apply handle_bulb_frame in Hb as [mb ->].
    destruct Hs as (_ & Haa & Hraa & Hsteps & _ & Hm).
    unfold state_ok. simpl in *.
    split; [done|]. split; [done|]. split; [done|]. split; [done|].
    split; [done|]. by apply Hm0. }
  destruct (_reward_total c s1 Hc Hs1) as (r & s2 & Hr).
  rewrite Hr. cbn [mbind result_bind fst snd].
  destruct (sample_perturbations inp) as [d|]; [|eauto].
  match goal with |- context [_random_perturbation_of_parts c ?f ?t d] =>
    destruct (perturbation_total c f t d Hc) as [x ->] end.
  simpl. eauto.
Qed.
End StepTotal.

(** ** Shapes of the concrete environment *)

Ltac solve_shape :=
  repeat first
    [ progress (cbn -[Z.mul Z.add Z.sub Z.le Z.lt])
    | split
    | apply Forall_cons
    | apply Forall_nil
    | reflexivity
    | discriminate
    | intros _
    | lia ].

(** ** Facts about the done flags, reset, the gripper and manual override *)

Section Support.
Context {RelPose : Type} `{!ControlUtils RelPose}.
Import FurnitureSimEnv FurnitureRLSimEnv.
Implicit Types (c : Config RelPose) (s : State).

Lemma tensor_sum_full (row : list bool) :
  tensor_sum row = length row ↔ ∀ k, k < length row → row !! k = Some true.
Proof.
  unfold tensor_sum. induction row as [|b row IH].
  - simpl. split; [intros _ k Hk; lia | done].
  - destruct b.
    + rewrite filter_cons_True by done. cbn [length]. split.
      * intros Hs k Hk. destruct k as [|k]; [done|]. simpl.
        apply IH; lia.
      * intros Hall. f_equal. apply IH. intros k Hk. apply (Hall (S k)). lia.
    + rewrite filter_cons_False by done. cbn [length]. split.
      * intros Hs. pose proof (length_filter (λ b, b = true) row). lia.
      * intros Hall. specialize (Hall 0 ltac:(lia)). done.
Qed.

Lemma names_env_dec (n : nat) (env_idxs : option (list Z)) (e : nat) :
  names_env n env_idxs e ∨ ¬ names_env n env_idxs e.
Proof.
  destruct env_idxs as [idxs|]; simpl.
  - induction idxs as [|i idxs IH].
    + right. by intros ?%Exists_nil.
    + destruct IH as [IH|IH]; [left; by apply Exists_cons_tl|].
      destruct (norm_index n i) as [e'|err] eqn:Hi.
      * destruct (decide (e' = e)) as [->|Hne].
        -- left. by apply Exists_cons_hd.
        -- right. intros [H|H]%Exists_cons; [congruence|done].
      * right. intros [H|H]%Exists_cons; [congruence|done].
  - destruct (decide (e < n)); auto.
Qed.

(** What a returning [reset] did to the latches and to the step counters. *)
Lemma reset_spec c s env_idxs rb s' :
  reset c s env_idxs rb = Ok s' →
  length (already_assembled s) = num_envs c →
  length (env_steps s) = num_envs c →
  length (already_assembled s') = num_envs c
  ∧ length (env_steps s') = num_envs c
  ∧ ∀ e,
      (names_env (num_envs c) env_idxs e →
         already_assembled s' !! e = map (λ _, false) <$> already_assembled s !! e
         ∧ env_steps s' !! e = (λ _, 0%Z) <$> env_steps s !! e)
      ∧ (¬ names_env (num_envs c) env_idxs e →
         already_assembled s' !! e = already_assembled s !! e
         ∧ env_steps s' !! e = env_steps s !! e).
Proof.
  unfold reset. intros H Hlaa Hlsteps.
  set (idxs := match env_idxs with
               | Some idxs => idxs
               | None => Z.of_nat <$> seq 0 (num_envs c)
               end) in *.
  destruct (length idxs =? 0); [discriminate|].
  apply bind_Ok in H as (aa & Haa & H).
  apply bind_Ok in H as (steps & Hsteps & H).
  injection H as <-. simpl.
  apply index_assign_spec in Haa as [Hl1 Haa].
  2:{ intros row. rewrite map_map. done. }
  apply index_assign_spec in Hsteps as [Hl2 Hsteps]; [|done].
  rewrite Hlaa in Haa. rewrite Hlsteps in Hsteps.
  split; [lia|]. split; [lia|].
  assert (∀ e, names_env (num_envs c) env_idxs e ↔
               Exists (λ i, norm_index (num_envs c) i = Ok e) idxs) as Hnames.
  { intros e. unfold idxs. destruct env_idxs; simpl; [done|].
    by rewrite arange_names. }
  intros e. rewrite Hnames. split; intros He.
  - split; [by apply Haa | by apply Hsteps].
  - split; [by apply Haa | by apply Hsteps].
Qed.


Lemma reset_total c s env_idxs rb :
  length (already_assembled s) = num_envs c →
  length (env_steps s) = num_envs c →
  idxs_ok (num_envs c) env_idxs →
  ∃ s', reset c s env_idxs rb = Ok s'.
Proof.
  intros Hlaa Hlsteps Hok. unfold reset.
  set (idxs := match env_idxs with
               | Some idxs => idxs
               | None => Z.of_nat <$> seq 0 (num_envs c)
               end).
  assert (idxs ≠ []
          ∧ Forall (λ i, - Z.of_nat (num_envs c) ≤ i < Z.of_nat (num_envs c))%Z idxs)
    as [Hne Hvalid].
  { unfold idxs. destruct env_idxs as [l|]; simpl in Hok; [exact Hok|]. split.
    - destruct (num_envs c); [lia|discriminate].
    - apply Forall_fmap, Forall_forall. intros e He%elem_of_seq. simpl. lia. }
  destruct (Nat.eqb_spec (length idxs) 0) as [H0|_].
  { destruct idxs; [done|discriminate]. }
  destruct (index_assign_total (map (λ _, false)) idxs (already_assembled s))
    as [aa ->]; [by rewrite Hlaa|].
  destruct (index_assign_total (λ _, 0%Z) idxs (env_steps s))
    as [steps ->]; [by rewrite Hlsteps|].
  simpl. eauto.
Qed.

Lemma reset_state_ok c s env_idxs rb s' :
  state_ok c s → rb_ok c rb → reset c s env_idxs rb = Ok s' → state_ok c s'.
Proof.
  intros (_ & Hlaa & Hraa & Hlsteps & Hlg & Hm) Hrb Hreset.
  destruct (reset_spec _ _ _ _ _ Hreset Hlaa Hlsteps) as (Hl1 & Hl2 & _).
  unfold reset in Hreset.
  destruct (length _ =? 0); [discriminate|].
  apply bind_Ok in Hreset as (aa & Haa & Hreset).
  apply bind_Ok in Hreset as (steps & Hsteps & Hreset).
  injection Hreset as <-. simpl in *. unfold state_ok. simpl.
  split; [exact Hrb|]. split; [exact Hl1|]. split.
  { eapply index_assign_Forall; [|exact Hraa|exact Haa].
    intros row Hrow. by rewrite length_map. }
  split; [exact Hl2|]. split; [exact Hlg|].
  destruct (String.eqb_spec (furniture_name c) "lamp") as [Hlamp|Hlamp].
  - apply length_replicate.
  - destruct (_moving_bulbs s); done.
Qed.

Lemma step_state_ok c s inp o s' :
  state_ok c s → input_ok c inp → step c s inp = Ok (o, s') → state_ok c s'.
Proof.
  intros (_ & Hlaa & Hraa & Hlsteps & Hlg & Hm) (_ & _ & Hrb) Hstep.
  destruct (step_spec _ _ _ _ _ Hstep) as (s1 & s2 & Hsim & Hr & _ & ->).
  destruct (simulate_step_spec _ _ _ _ _ _ Hsim)
    as (grasp & any_unsettled & rest & s0 & Hlgrasp & _ & Hb & -> & _).
  pose proof (handle_bulb_moving_ok _ _ _ _ _ Hb Hm) as Hm0.
  apply handle_bulb_frame in Hb as [mb ->].
  apply _reward_spec in Hr as (newly & -> & Hl & Hrows & _).
  simpl in *. unfold state_ok. simpl.
  split; [exact Hrb|]. split; [lia|]. split; [by apply Hrows|].
  split; [by rewrite length_fmap|]. split; [exact Hlgrasp|exact Hm0].
Qed.

(** A training loop of well-formed calls returns. *)
Lemma run_total c : ∀ calls s,
  config_ok c → state_ok c s → Forall (call_ok c) calls →
  ∃ outs s', run c s calls = Ok (outs, s').
Proof.
  induction calls as [|cl calls IH]; intros s Hc Hs Hcalls.
  - simpl. eauto.
  - inversion Hcalls as [|? ? Hcl Hcalls']; subst.
    destruct cl as [inp|env_idxs rb]; simpl in Hcl |- *.
    + destruct (step_total c s inp Hc Hs Hcl) as (o & s1 & Hstep).
      rewrite Hstep. cbn [mbind result_bind snd fst].
      destruct (IH s1 Hc) as (outs & s' & ->); [|exact Hcalls'|simpl; eauto].
      by eapply step_state_ok.
    + destruct Hcl as [Hidx Hrb].
      destruct Hs as (Hrb0 & Hlaa & Hraa & Hlsteps & Hrest).
      destruct (reset_total c s env_idxs rb Hlaa Hlsteps Hidx) as [s1 Hreset].
      rewrite Hreset. cbn [mbind result_bind].
      apply IH; [exact Hc| |exact Hcalls'].
      eapply reset_state_ok; [|exact Hrb|exact Hreset].
      unfold state_ok. done.
Qed.

(** On a grasp scalar within the margin the commanded width only depends on
    the sign of the grasp scalar of the previous call, whatever its size. *)
Lemma grip_sep_of_small c (grasp last : Q) :
  (Qabs grasp <= grasp_margin)%Q →
  FurnitureSimEnv.grip_sep_of c grasp last
  = if Qlt_bool last 0 then max_gripper_width c else 0%Q.
Proof.
  intros Hsmall. unfold FurnitureSimEnv.grip_sep_of.
  assert (Qlt_bool grasp_margin (Qabs grasp) = false) as ->.
  { unfold Qlt_bool. apply negb_false_iff, Qle_bool_iff. exact Hsmall. }
  by rewrite andb_false_r.
Qed.


(** With [manual_done] set, a returning [step] reports nothing terminated or
    truncated and hands back either Python's [None] or rewards that are all
    zero; its latches are those of [_reward]. *)
Lemma manual_done_step c s inp o s' :
  manual_done c = true → step c s inp = Ok (o, s') →
  terminated o = replicate (num_envs c) false
  ∧ truncated o = replicate (num_envs c) false
  ∧ (reward o = None ∨ ∃ rewards, reward o = Some rewards ∧ Forall (λ x, x = 0%Q) rewards).
Proof.
  intros Hmanual Hstep.
  destruct (step_frame _ _ _ _ _ Hstep) as (s1 & s2 & _ & Hr & Hd & _).
  unfold _done in Hd. rewrite Hmanual in Hd. injection Hd as -> ->.
  split; [done|]. split; [done|].
  apply _reward_spec in Hr as (newly & _ & _ & _ & _ & _ & _ & ->).
  rewrite Hmanual. simpl.
  destruct (existsb (λ x, Qeq_bool x 1) (rewards_of newly)) eqn:Hex; [by left|].
  right. eexists. split; [done|]. apply Forall_forall. intros x Hx.
  assert (Qeq_bool x 1 = false) as Hx1.
  { destruct (Qeq_bool x 1) eqn:Hq; [|done].
    assert (existsb (λ x, Qeq_bool x 1) (rewards_of newly) = true) as Ht; [|congruence].
    apply existsb_exists. exists x. split; [by apply list_elem_of_In|done]. }
  unfold rewards_of in Hx. apply list_elem_of_fmap in Hx as (row & -> & _).
  destruct (tensor_any row); [discriminate|done].
Qed.
End Support.

(** ** Frame transforms *)

Lemma meq_refl (A : mat4) : meq A A.
Proof. intros i j. reflexivity. Qed.

Lemma meq_sym (A B : mat4) : meq A B → meq B A.
Proof. intros H i j. symmetry. apply H. Qed.

Lemma meq_trans (A B C : mat4) : meq A B → meq B C → meq A C.
Proof. intros H1 H2 i j. rewrite (H1 i j). apply H2. Qed.

Lemma mmul_meq (A A' B B' : mat4) : meq A A' → meq B B' → meq (mmul A B) (mmul A' B').
Proof.
  intros HA HB i j. unfold mmul.
  rewrite !(HA i), !(λ k, HB k j). reflexivity.
Qed.

Lemma mmul_assoc (A B C : mat4) : meq (mmul (mmul A B) C) (mmul A (mmul B C)).
Proof. intros i j. unfold mmul. ring. Qed.

Lemma mmul_id_l (A : mat4) : meq (mmul mid A) A.
Proof. intros i j. unfold mmul. destruct i; simpl; ring. Qed.

Lemma mmul_id_r (A : mat4) : meq (mmul A mid) A.
Proof. intros i j. unfold mmul. destruct j; simpl; ring. Qed.

(** The adjugate: transposed cofactors times the matrix give the determinant
    on the diagonal, on either side. *)
Lemma adjugate_left (M : mat4) (i j : ix4) :
  (cofactor M I0 i * M I0 j + cofactor M I1 i * M I1 j
   + cofactor M I2 i * M I2 j + cofactor M I3 i * M I3 j == mid i j * mdet M)%Q.
Proof. destruct i, j; unfold mdet, cofactor, others, parity, det3, mid; ring. Qed.

Lemma adjugate_right (M : mat4) (i j : ix4) :
  (M i I0 * cofactor M j I0 + M i I1 * cofactor M j I1
   + M i I2 * cofactor M j I2 + M i I3 * cofactor M j I3 == mid i j * mdet M)%Q.
Proof. destruct i, j; unfold mdet, cofactor, others, parity, det3, mid; ring. Qed.

Lemma linalg_inv_Ok (M Mi : mat4) :
  linalg_inv M = Ok Mi → ¬ (mdet M == 0)%Q ∧ Mi = λ i j, (cofactor M j i / mdet M)%Q.
Proof.
  unfold linalg_inv. destruct (Qeq_bool (mdet M) 0) eqn:Hd; [discriminate|].
  intros [= <-]. split; [|done]. by apply Qeq_bool_neq.
Qed.

Lemma linalg_inv_total (M : mat4) :
  ¬ (mdet M == 0)%Q → ∃ Mi, linalg_inv M = Ok Mi.
Proof.
  intros Hd. unfold linalg_inv. destruct (Qeq_bool (mdet M) 0) eqn:Hq; [|eauto].
  apply Qeq_bool_iff in Hq. done.
Qed.

Lemma linalg_inv_left (M Mi : mat4) : linalg_inv M = Ok Mi → meq (mmul Mi M) mid.
Proof.
  intros [Hd ->]%linalg_inv_Ok i j. unfold mmul.
  transitivity ((cofactor M I0 i * M I0 j + cofactor M I1 i * M I1 j
                 + cofactor M I2 i * M I2 j + cofactor M I3 i * M I3 j) / mdet M)%Q.
  - field. exact Hd.
  - rewrite adjugate_left. field. exact Hd.
Qed.

Lemma linalg_inv_right (M Mi : mat4) : linalg_inv M = Ok Mi → meq (mmul M Mi) mid.
Proof.
  intros [Hd ->]%linalg_inv_Ok i j. unfold mmul.
  transitivity ((M i I0 * cofactor M j I0 + M i I1 * cofactor M j I1
                 + M i I2 * cofactor M j I2 + M i I3 * cofactor M j I3) / mdet M)%Q.
  - field. exact Hd.
  - rewrite adjugate_right. field. exact Hd.
Qed.

Lemma inverse_of_product (F B Fi Bi : mat4) :
  meq (mmul Fi F) mid → meq (mmul Bi B) mid →
  meq (mmul (mmul Bi Fi) (mmul F B)) mid.
Proof.
  intros HF HB.
  eapply meq_trans; [apply mmul_assoc|].
  eapply meq_trans; [|exact HB].
  apply mmul_meq; [apply meq_refl|].
  eapply meq_trans; [apply meq_sym, mmul_assoc|].
  eapply meq_trans; [|apply mmul_id_l].
  apply mmul_meq; [exact HF | apply meq_refl].
Qed.

Lemma product_of_inverse (F B Fi Bi : mat4) :
  meq (mmul F Fi) mid → meq (mmul B Bi) mid →
  meq (mmul (mmul F B) (mmul Bi Fi)) mid.
Proof.
  intros HF HB.
  eapply meq_trans; [apply mmul_assoc|].
  eapply meq_trans; [|exact HF].
  apply mmul_meq; [apply meq_refl|].
  eapply meq_trans; [apply meq_sym, mmul_assoc|].
  eapply meq_trans; [|apply mmul_id_l].
  apply mmul_meq; [exact HB | apply meq_refl].
Qed.


(** ** Unpacking a tensor *)

Lemma unpack2_rows (rows : list (list Q)) :
  length rows ≠ 2 → unpack2 (PyTensor2 rows) = Raise ValueError.
Proof.
  intros H. destruct rows as [|r0 [|r1 [|r2 rows]]]; simpl in *; done.
Qed.


(** ** Holding and releasing the bulb *)

Section BulbLatch.
Context {RelPose : Type} `{!ControlUtils RelPose}.
Import FurnitureSimEnv FurnitureRLSimEnv.
Implicit Types (c : Config RelPose) (s : State).

(** The bulbs in one returning call of [step]. *)
Lemma step_bulbs c s inp o s' :
  step c s inp = Ok (o, s') →
  ∃ sub,
    substeps (sim o) = replicate (sim_steps c) sub
    ∧ env_steps s' = (λ n, wrap32 (n + 1)) <$> env_steps s
    ∧ (furniture_name c ≠ "lamp" ∨ ¬ first_half c s →
       sub = None ∧ _moving_bulbs s' = _moving_bulbs s)
    ∧ (furniture_name c = "lamp" → first_half c s →
       ∃ m m',
         _moving_bulbs s = Some m ∧ _moving_bulbs s' = Some m'
         ∧ (∀ e, e < num_envs c →
              ∃ mv cl, m !! e = Some mv ∧ hand_bulb_close c s e = Some cl
                       ∧ m' !! e = Some (mv || cl)
                       ∧ holds_bulb sub e = negb mv && negb cl)
         ∧ (∀ e, num_envs c ≤ e → holds_bulb sub e = false)).
Proof.
  intros Hstep.
  destruct (step_frame _ _ _ _ _ Hstep)
    as (s1 & s2 & Hsim & _ & _ & _ & _ & _ & Hsteps & Hmov).
  destruct (simulate_step_spec _ _ _ _ _ _ Hsim)
    as (grasp & any_unsettled & rest & s0 & _ & _ & Hb & -> & Hsub).
  exists (bulb_substep any_unsettled rest).
  split; [exact Hsub|]. split; [exact Hsteps|]. simpl in Hmov. split.
  - intros Hclosed. rewrite handle_bulb_closed in Hb by exact Hclosed.
    injection Hb as <- <- <-. split; [reflexivity | exact Hmov].
  - intros Hlamp Hhalf.
    destruct (handle_bulb_open c (set_last_grasp grasp s) _ _ _ Hlamp Hhalf Hb)
      as (m & m' & Hm & -> & _ & _ & Hin & Hout).
    exists m, m'. split; [exact Hm|]. split; [exact Hmov|]. split; [exact Hin|exact Hout].
Qed.

Lemma past_half_stays c s s' :
  counters_fit s 1 →
  env_steps s' = (λ n, wrap32 (n + 1)) <$> env_steps s →
  ¬ first_half c s → ¬ first_half c s'.
Proof.
  unfold first_half, counters_fit. intros Hfit -> Hpast Hhalf. apply Hpast.
  apply Forall_lookup_2. intros i n Hn.
  assert (((λ n, wrap32 (n + 1)) <$> env_steps s) !! i = Some (wrap32 (n + 1))) as Hn'.
  { by rewrite list_lookup_fmap, Hn. }
  eapply Forall_lookup_1 in Hhalf; [|exact Hn'].
  eapply Forall_lookup_1 in Hfit; [|exact Hn].
  simpl in Hhalf, Hfit. unfold wrap32 in Hhalf.
  rewrite Z.mod_small in Hhalf by lia. lia.
Qed.

(** Once released, an environment is not held and stays released. *)
Lemma released_step c s inp o s' e :
  step c s inp = Ok (o, s') → counters_fit s 1 → released c s e →
  Forall (λ sub, holds_bulb sub e = false) (substeps (sim o)) ∧ released c s' e.
Proof.
  intros Hstep Hfit Hrel.
  destruct (step_bulbs _ _ _ _ _ Hstep) as (sub & -> & Hsteps & Hclosed & Hopen).
  destruct (decide (furniture_name c = "lamp")) as [Hlamp|Hlamp].
  2:{ destruct Hclosed as [-> _]; [by left|].
      split; [by apply Forall_replicate | by left]. }
  destruct (decide (first_half c s)) as [Hhalf|Hhalf].
  2:{ destruct Hclosed as [-> _]; [by right|].
      split; [by apply Forall_replicate|]. right. left.
      by eapply past_half_stays. }
  destruct (Hopen Hlamp Hhalf) as (m & m' & Hm & Hm' & Hin & Hout).
  destruct (decide (e < num_envs c)) as [He|He].
  2:{ split; [apply Forall_replicate, Hout; lia|].
      right. right. right. lia. }
  destruct (Hin e He) as (mv & cl & Hmv & _ & Hmv' & Hholds).
  destruct Hrel as [Hr|[Hr|[(m0 & Hm0 & Hbit)|Hr]]]; [done|done| |lia].
  rewrite Hm in Hm0. injection Hm0 as <-. rewrite Hmv in Hbit.
  injection Hbit as ->. simpl in *.
  split; [by apply Forall_replicate|].
  right. right. left. eauto.
Qed.

(** An environment that a call does not hold is released when the call
    returns. *)
Lemma not_held_released c s inp o s' e :
  step c s inp = Ok (o, s') → counters_fit s 1 → 0 < sim_steps c →
  Forall (λ sub, holds_bulb sub e = false) (substeps (sim o)) →
  released c s' e.
Proof.
  intros Hstep Hfit Hn Hnot.
  destruct (step_bulbs _ _ _ _ _ Hstep) as (sub & Hsub & Hsteps & Hclosed & Hopen).
  rewrite Hsub in Hnot.
  assert (holds_bulb sub e = false) as Hsube.
  { destruct (sim_steps c) as [|n]; [lia|]. by inversion Hnot. }
  destruct (decide (furniture_name c = "lamp")) as [Hlamp|Hlamp]; [|by left].
  destruct (decide (first_half c s)) as [Hhalf|Hhalf].
  2:{ right. left. by eapply past_half_stays. }
  destruct (Hopen Hlamp Hhalf) as (m & m' & Hm & Hm' & Hin & Hout).
  destruct (decide (e < num_envs c)) as [He|He]; [|right; right; right; lia].
  destruct (Hin e He) as (mv & cl & Hmv & _ & Hmv' & Hholds).
  right. right. left. exists m'. split; [done|].
  rewrite Hmv'. rewrite Hsube in Hholds. by destruct mv, cl.
Qed.

Lemma counters_fit_step c s inp o s' (n : nat) :
  step c s inp = Ok (o, s') → counters_fit s (S n) →
  counters_fit s 1 ∧ counters_fit s' n.
Proof.
  intros Hstep Hfit.
  destruct (step_bulbs _ _ _ _ _ Hstep) as (_ & _ & Hsteps & _).
  unfold counters_fit in *. rewrite Hsteps. split.
  - eapply Forall_impl; [exact Hfit|]. intros k Hk. simpl in *. lia.
  - apply Forall_fmap. eapply Forall_impl; [exact Hfit|].
    intros k Hk. simpl in *. unfold wrap32. rewrite Z.mod_small by lia. lia.
Qed.

Lemma run_steps_cons c s inp inps outs s' :
  run c s (CallStep <$> inp :: inps) = Ok (outs, s') →
  ∃ o s1 outs1,
    step c s inp = Ok (o, s1) ∧ run c s1 (CallStep <$> inps) = Ok (outs1, s')
    ∧ outs = o :: outs1.
Proof.
  rewrite fmap_cons. cbn [run]. intros H.
  apply bind_Ok in H as ([o s1] & Hstep & H).
  apply bind_Ok in H as ([outs1 s2] & Hrun & H).
  injection H as <- <-. simpl in *.
  exists o, s1, outs1. done.
Qed.

Lemma run_steps_released c : ∀ inps s outs s' e,
  run c s (CallStep <$> inps) = Ok (outs, s') →
  counters_fit s (length inps) → released c s e →
  Forall (λ o, Forall (λ sub, holds_bulb sub e = false) (substeps (sim o))) outs.
Proof.
  induction inps as [|inp inps IH]; intros s outs s' e Hrun Hfit Hrel.
  - simpl in Hrun. injection Hrun as <- _. constructor.
  - apply run_steps_cons in Hrun as (o & s1 & outs1 & Hstep & Hrun & ->).
    destruct (counters_fit_step _ _ _ _ _ _ Hstep Hfit) as [Hfit1 Hfit'].
    destruct (released_step _ _ _ _ _ e Hstep Hfit1 Hrel) as [Hnot Hrel'].
    constructor; [exact Hnot|]. by eapply IH.
Qed.

Lemma run_steps_substeps c : ∀ inps s outs s',
  run c s (CallStep <$> inps) = Ok (outs, s') →
  Forall (λ o, ∃ sub, substeps (sim o) = replicate (sim_steps c) sub) outs.
Proof.
  induction inps as [|inp inps IH]; intros s outs s' Hrun.
  - simpl in Hrun. injection Hrun as <- _. constructor.
  - apply run_steps_cons in Hrun as (o & s1 & outs1 & Hstep & Hrun & ->).
    constructor; [|by eapply IH].
    destruct (step_bulbs _ _ _ _ _ Hstep) as (sub & Hsub & _). eauto.
Qed.

(** The one-way latch: an environment that some call of [step] does not
    hold is held by no later call. *)
Lemma bulb_release_is_final c : ∀ inps s outs s' i j oi oj e,
  run c s (CallStep <$> inps) = Ok (outs, s') →
  counters_fit s (length inps) →
  i ≤ j → outs !! i = Some oi → outs !! j = Some oj →
  Forall (λ sub, holds_bulb sub e = false) (substeps (sim oi)) →
  Forall (λ sub, holds_bulb sub e = false) (substeps (sim oj)).
Proof.
  induction inps as [|inp inps IH]; intros s outs s' i j oi oj e Hrun Hfit Hij Hi Hj Hnot.
  - simpl in Hrun. injection Hrun as <- _. done.
  - pose proof (run_steps_substeps _ _ _ _ _ Hrun) as Hsubs.
    apply run_steps_cons in Hrun as (o & s1 & outs1 & Hstep & Hrun & ->).
    destruct (counters_fit_step _ _ _ _ _ _ Hstep Hfit) as [Hfit1 Hfit'].
    destruct i as [|i]; destruct j as [|j]; simpl in Hi, Hj; try lia.
    + congruence.
    + injection Hi as ->.
      destruct (Nat.eq_dec (sim_steps c) 0) as [H0|Hpos].
      { assert ((oi :: outs1) !! S j = Some oj) as Hj' by exact Hj.
        eapply Forall_lookup_1 in Hsubs as [sub ->]; [|exact Hj'].
        rewrite H0. constructor. }
      assert (released c s1 e) as Hrel.
      { eapply not_held_released; eauto. lia. }
      pose proof (run_steps_released _ _ _ _ _ e Hrun Hfit' Hrel) as Hall.
      by eapply Forall_lookup_1 in Hall.
    + eapply (IH s1 outs1 s' i j); eauto. lia.
Qed.
End BulbLatch.

(** * The claims *)

Section Claims.
Context {RelPose : Type} `{!ControlUtils RelPose}.
Import FurnitureSimEnv FurnitureRLSimEnv.
Implicit Types (c : Config RelPose) (s : State).

(** A latch that is set is still set after any returning sequence of calls,
    unless one of them is a [reset] that names its environment. *)
Lemma latch_kept c calls s outs s' e k :
  length (already_assembled s) = num_envs c →
  length (env_steps s) = num_envs c →
  run c s calls = Ok (outs, s') →
  entry (already_assembled s) e k = Some true →
  entry (already_assembled s') e k = Some true ∨ Exists (resets c e) calls.
Proof.
  revert s outs.
  induction calls as [|cl calls IH]; intros s outs Hlaa Hlsteps Hrun Hbit.
  - simpl in Hrun. injection Hrun as _ <-. by left.
  - destruct cl as [inp|env_idxs rb]; simpl in Hrun.
    + apply bind_Ok in Hrun as ([o s1] & Hstep & Hrun).
      apply bind_Ok in Hrun as ([outs1 s2] & Hrun & Heq).
      injection Heq as _ <-. simpl in Hrun.
      destruct (step_frame _ _ _ _ _ Hstep)
        as (t1 & t2 & _ & Hr & _ & Haa1 & Haa' & _ & Hsteps' & _).
      apply _reward_spec in Hr as (newly & _ & Hl & _ & _ & Hmono & _).
      destruct (IH s1 outs1) as [Hkeep|Hreset]; try done.
      * rewrite Haa', Hl, Haa1. done.
      * rewrite Hsteps', length_fmap. done.
      * rewrite Haa'. apply Hmono. by rewrite Haa1.
      * by left.
      * right. by apply Exists_cons_tl.
    + apply bind_Ok in Hrun as (s1 & Hreset & Hrun).
      destruct (reset_spec _ _ _ _ _ Hreset Hlaa Hlsteps) as (Hl1 & Hl2 & Hrows).
      destruct (names_env_dec (num_envs c) env_idxs e) as [Hn|Hn].
      { right. by apply Exists_cons_hd. }
      destruct (Hrows e) as [_ Hkeep]. destruct (Hkeep Hn) as [Hrow _].
      destruct (IH s1 outs) as [Hk|Hr]; try done.
      * unfold entry. rewrite Hrow. exact Hbit.
      * by left.
      * right. by apply Exists_cons_tl.
Qed.

(** C1: every sequence of well-formed calls of [step] and [reset] returns,
    and a latch of environment [e] that is set when it starts is still set
    when it ends, whatever poses the engine reported in between, unless one
    of the calls is a [reset] that names [e]. *)
Theorem C1_latch_until_reset c calls s e k :
  config_ok c → state_ok c s → Forall (call_ok c) calls →
  entry (already_assembled s) e k = Some true →
  ∃ outs s',
    run c s calls = Ok (outs, s')
    ∧ (entry (already_assembled s') e k = Some true ∨ Exists (resets c e) calls).
Proof.
  intros Hc Hs Hcalls Hbit.
  destruct (run_total c calls s Hc Hs Hcalls) as (outs & s' & Hrun).
  exists outs, s'. split; [exact Hrun|].
  destruct Hs as (_ & Hlaa & _ & Hlsteps & _).
  by eapply latch_kept.
Qed.

(** C2: outside manual-override mode every call of [step] returns, and the
    reward it returns for an environment is 1 if at least one pair to
    assemble went from unassembled to assembled during the call and 0
    otherwise; in particular two pairs that are assembled in the same call
    give reward 1, not 2. *)
Theorem C2_reward_is_transition_indicator c s inp e :
  config_ok c → state_ok c s → input_ok c inp → manual_done c = false →
  e < num_envs c →
  ∃ o s' rewards x,
    step c s inp = Ok (o, s') ∧ reward o = Some rewards
    ∧ length rewards = num_envs c ∧ rewards !! e = Some x
    ∧ (x = 1%Q ↔ ∃ k, newly_assembled s s' e k)
    ∧ (x = 0%Q ↔ ¬ ∃ k, newly_assembled s s' e k)
    ∧ (∀ k1 k2, k1 ≠ k2 → newly_assembled s s' e k1 → newly_assembled s s' e k2 →
                x = 1%Q).
Proof.
  intros Hc Hs Hi Hmanual He.
  destruct (step_total c s inp Hc Hs Hi) as (o & s' & Hstep).
  destruct (step_frame _ _ _ _ _ Hstep)
    as (s1 & s2 & _ & Hr & _ & Haa1 & Haa' & _).
  apply _reward_spec in Hr as (newly & _ & _ & _ & Hln & _ & Hnew & Hrew).
  rewrite Hmanual in Hrew. simpl in Hrew.
  destruct (rewards_of_lookup newly e) as (x & Hx & H1 & H0); [lia|].
  exists o, s', (rewards_of newly), x.
  split; [exact Hstep|]. split; [exact Hrew|].
  split; [unfold rewards_of; by rewrite length_fmap|]. split; [exact Hx|].
  assert (∀ k, entry newly e k = Some true ↔ newly_assembled s s' e k) as Hiff.
  { intros k. unfold newly_assembled. rewrite Haa', <- Haa1. apply Hnew. }
  split; [|split].
  - rewrite H1. split; intros [k Hk]; exists k; by apply Hiff.
  - rewrite H0. split; intros Hn [k Hk]; apply Hn; exists k; by apply Hiff.
  - intros k1 k2 _ Hk1 _. apply H1. exists k1. by apply Hiff.
Qed.

(** C3, as amended: outside manual-override mode every call of [step]
    returns; it reports an environment truncated when its step counter
    equals [max_env_steps - 1] and not truncated when the counter is below
    that, whatever its assembly state; and it reports an environment
    terminated exactly when all its pairs to assemble are latched once the
    call has updated the latches. *)
Theorem C3_done_flags_outside_manual_mode c s inp e n :
  config_ok c → state_ok c s → input_ok c inp → manual_done c = false →
  env_steps s !! e = Some n →
  ∃ o s' tr te,
    step c s inp = Ok (o, s')
    ∧ truncated o !! e = Some tr ∧ terminated o !! e = Some te
    ∧ (n = max_env_steps c - 1 → tr = true)%Z
    ∧ (n < max_env_steps c - 1 → tr = false)%Z
    ∧ (te = true ↔
       ∀ k, k < length (pairs_to_assemble c) →
            entry (already_assembled s') e k = Some true).
Proof.
  intros Hc Hs Hi Hmanual Hn.
  destruct (step_total c s inp Hc Hs Hi) as (o & s' & Hstep).
  destruct (step_frame _ _ _ _ _ Hstep)
    as (s1 & s2 & _ & Hr & Hd & Haa1 & Haa' & Hsteps2 & _).
  unfold _done in Hd. rewrite Hmanual in Hd.
  injection Hd as Hterm Htrunc.
  destruct Hs as (_ & Hlaa & Hraa & Hlsteps & _).
  apply _reward_spec in Hr as (newly & _ & Hl2 & Hrows2 & _).
  rewrite Haa1 in Hl2, Hrows2. specialize (Hrows2 _ Hraa).
  assert (e < length (already_assembled s2)) as He.
  { rewrite Hl2, Hlaa, <- Hlsteps. by eapply lookup_lt_Some. }
  destruct (lookup_lt_is_Some_2 _ _ He) as [row Hrow].
  assert (length row = length (pairs_to_assemble c)) as Hlrow.
  { by eapply Forall_lookup_1 in Hrows2. }
  exists o, s', (max_env_steps c - 1 <=? n)%Z,
    (tensor_sum row =? length (pairs_to_assemble c)).
  split; [exact Hstep|].
  split; [by rewrite Htrunc, Hsteps2, list_lookup_fmap, Hn|].
  split; [by rewrite Hterm, list_lookup_fmap, Hrow|].
  split; [|split].
  - intros ->. apply Z.leb_le. lia.
  - intros Hlt. apply Z.leb_gt. lia.
  - rewrite Nat.eqb_eq, <- Hlrow, tensor_sum_full.
    unfold entry. rewrite Haa', Hrow. simpl. done.
Qed.

(** C6: for any draws, hence any selection mask, the perturbation called with
    both magnitudes 0 hands the engine force and torque tensors whose entries
    are all zero; and called with any magnitudes it hands over tensors in
    which the row of a rigid body that the mask does not select is exactly
    zero. *)
Theorem C6_perturbation_zero_outside_selection c d
    (max_force_magnitude max_torque_magnitude : Q) (b : nat) :
  config_ok c → b < rigid_body_count c → b ∉ selected_bodies c d →
  (∃ forces torques,
     _random_perturbation_of_parts c 0 0 d = Ok (forces, torques)
     ∧ length forces = rigid_body_count c ∧ length torques = rigid_body_count c
     ∧ Forall (Forall (λ x, x == 0)%Q) forces
     ∧ Forall (Forall (λ x, x == 0)%Q) torques)
  ∧ (∃ forces torques,
       _random_perturbation_of_parts c max_force_magnitude max_torque_magnitude d
         = Ok (forces, torques)
       ∧ forces !! b = Some [0; 0; 0]%Q ∧ torques !! b = Some [0; 0; 0]%Q).
Proof.
  intros Hc Hb Hsel. split.
  - destruct (perturbation_total c 0 0 d Hc) as [[forces torques] Hrun].
    exists forces, torques. split; [exact Hrun|].
    apply perturbation_spec in Hrun as (Hlf & Hlt & _ & Hf & Ht).
    split; [done|]. split; [done|]. split.
    + apply Forall_lookup_2. intros b' row Hrow.
      destruct (Hf b' row Hrow) as [->|(e & p & k & ->)].
      * repeat constructor.
      * repeat constructor; ring.
    + apply Forall_lookup_2. intros b' row Hrow.
      destruct (Ht b' row Hrow) as [->|(e & p & k & ->)].
      * repeat constructor.
      * repeat constructor; ring.
  - destruct (perturbation_total c max_force_magnitude max_torque_magnitude d Hc)
      as [[forces torques] Hrun].
    exists forces, torques. split; [exact Hrun|].
    apply perturbation_spec in Hrun as (_ & _ & Hout & _).
    destruct (Hout b Hsel) as [-> ->].
    split; by apply lookup_replicate.
Qed.

(** C7: when the two calibration matrices are invertible (otherwise
    [np.linalg.inv] raises), the simulator-to-tag matrix and the
    tag-to-simulator matrix are inverses of each other, and taking a pose
    matrix from the tag frame to the simulator frame and back returns it.
    Floats are read as rationals, so the round trip is exact. *)
Theorem C7_tag_sim_round_trip c (T : mat4) :
  ¬ (mdet (base_tag_from_robot_mat c) == 0)%Q →
  ¬ (mdet (franka_from_origin_mat c) == 0)%Q →
  ∃ S M,
    sim_to_april_mat c = Ok S
    ∧ meq (mmul S (april_to_sim_mat c)) mid
    ∧ meq (mmul (april_to_sim_mat c) S) mid
    ∧ sim_coord_to_april_coord c (april_coord_to_sim_coord c T) = Ok M
    ∧ meq M T.
Proof.
  intros HB HF.
  destruct (linalg_inv_total _ HB) as [Bi HBi].
  destruct (linalg_inv_total _ HF) as [Fi HFi].
  assert (sim_to_april_mat c = Ok (mmul Bi Fi)) as HS.
  { unfold sim_to_april_mat. rewrite HBi, HFi. reflexivity. }
  assert (meq (mmul (mmul Bi Fi) (april_to_sim_mat c)) mid) as Hleft.
  { apply inverse_of_product; by apply linalg_inv_left. }
  exists (mmul Bi Fi), (mmul (mmul Bi Fi) (april_coord_to_sim_coord c T)).
  split; [exact HS|]. split; [exact Hleft|]. split.
  { apply product_of_inverse; by apply linalg_inv_right. }
  split.
  - unfold sim_coord_to_april_coord. rewrite HS. reflexivity.
  - unfold april_coord_to_sim_coord.
    eapply meq_trans; [apply meq_sym, mmul_assoc|].
    eapply meq_trans; [|apply mmul_id_l].
    apply mmul_meq; [exact Hleft | apply meq_refl].
Qed.
End Claims.

Section ClaimsOnResetAndBulbs.
Context {RelPose : Type} `{!ControlUtils RelPose}.
Import FurnitureSimEnv FurnitureRLSimEnv.
Implicit Types (c : Config RelPose) (s : State).

(** C8, as amended: in the lamp task every call of [step] returns, and it
    rewrites the bulb pose of an environment in every substep exactly when
    no environment's step counter exceeds half of the horizon, the
    environment was not released since the last [reset], and its end
    effector is farther than the threshold from the bulb; and along calls of
    [step] with no [reset] in between (the counters staying within int32),
    an environment whose bulb pose some call does not rewrite has it
    rewritten by no later call. *)
Theorem C8_bulb_held_until_released c s inp s0 inps i j e :
  config_ok c → furniture_name c = "lamp" →
  state_ok c s → input_ok c inp →
  state_ok c s0 → Forall (input_ok c) inps → counters_fit s0 (length inps) →
  i ≤ j →
  (∃ o s1,
     step c s inp = Ok (o, s1)
     ∧ Forall (λ sub, holds_bulb sub e = should_hold c s e) (substeps (sim o)))
  ∧ (∃ outs s',
       run c s0 (CallStep <$> inps) = Ok (outs, s')
       ∧ ∀ oi oj, outs !! i = Some oi → outs !! j = Some oj →
                  not_held oi e → not_held oj e).
Proof.
  intros Hc Hlamp Hs Hi Hs0 Hinps Hfit Hij. split.
  - destruct (step_total c s inp Hc Hs Hi) as (o & s1 & Hstep).
    exists o, s1. split; [exact Hstep|].
    destruct (step_bulbs _ _ _ _ _ Hstep) as (sub & -> & _ & Hclosed & Hopen).
    apply Forall_replicate. unfold should_hold.
    destruct (decide (first_half c s)) as [Hhalf|Hhalf].
    + rewrite bool_decide_eq_true_2 by exact Hhalf. simpl.
      destruct (Hopen Hlamp Hhalf) as (m & m' & Hm & _ & Hin & Hout).
      rewrite Hm. simpl.
      destruct (decide (e < num_envs c)) as [He|He].
      * destruct (Hin e He) as (mv & cl & -> & -> & _ & ->). done.
      * rewrite Hout by lia.
        destruct Hs as (_ & _ & _ & _ & _ & Hlm). rewrite Hm in Hlm.
        rewrite (proj2 (lookup_ge_None m e)) by lia. done.
    + rewrite bool_decide_eq_false_2 by exact Hhalf. simpl.
      destruct Hclosed as [-> _]; [by right|]. done.
  - destruct (run_total c (CallStep <$> inps) s0 Hc Hs0) as (outs & s' & Hrun).
    { apply Forall_fmap. eapply Forall_impl; [exact Hinps|]. done. }
    exists outs, s'. split; [exact Hrun|]. intros oi oj Hoi Hoj.
    by eapply bulb_release_is_final.
Qed.

(** C9: [reset] with an empty index tensor fails its assertion; without an
    argument it resets every environment; with a non-empty tensor of valid
    indices it returns, and it clears the latches and zeroes the step
    counter of an environment that the tensor names and leaves those of any
    other environment as they were. *)
Theorem C9_reset_subset c s rb idxs e :
  0 < num_envs c →
  length (already_assembled s) = num_envs c →
  length (env_steps s) = num_envs c →
  idxs ≠ [] →
  Forall (λ i, - Z.of_nat (num_envs c) ≤ i < Z.of_nat (num_envs c))%Z idxs →
  e < num_envs c →
  reset c s (Some []) rb = Raise AssertionError
  ∧ (∃ s', reset c s None rb = Ok s' ∧ env_cleared s' e)
  ∧ (∃ s', reset c s (Some idxs) rb = Ok s'
           ∧ (names_env (num_envs c) (Some idxs) e → env_cleared s' e)
           ∧ (¬ names_env (num_envs c) (Some idxs) e →
              already_assembled s' !! e = already_assembled s !! e
              ∧ env_steps s' !! e = env_steps s !! e)).
Proof.
  intros HE Hlaa Hlsteps Hne Hvalid He.
  assert (Hcleared : ∀ env_idxs s',
            reset c s env_idxs rb = Ok s' →
            names_env (num_envs c) env_idxs e → env_cleared s' e).
  { intros env_idxs s' Hreset Hn.
    destruct (reset_spec _ _ _ _ _ Hreset Hlaa Hlsteps) as (_ & _ & Hrows).
    destruct (Hrows e) as [Hc _]. destruct (Hc Hn) as [Hrow Hstep].
    destruct (lookup_lt_is_Some_2 (already_assembled s) e) as [row0 Hrow0]; [lia|].
    destruct (lookup_lt_is_Some_2 (env_steps s) e) as [n0 Hn0]; [lia|].
    rewrite Hrow0 in Hrow. rewrite Hn0 in Hstep. split; [|done].
    eexists. split; [exact Hrow|]. apply Forall_forall.
    intros b Hb. apply list_elem_of_In, in_map_iff in Hb as (? & ? & _). done. }
  assert (Htotal : ∀ idxs', idxs' ≠ [] →
            Forall (λ i, - Z.of_nat (num_envs c) ≤ i < Z.of_nat (num_envs c))%Z idxs' →
            ∃ s', reset c s (Some idxs') rb = Ok s').
  { intros idxs' Hne' Hvalid'. unfold reset.
    destruct (Nat.eqb_spec (length idxs') 0) as [H0|_].
    { destruct idxs'; [done|discriminate]. }
    destruct (index_assign_total (map (λ _, false)) idxs' (already_assembled s))
      as [aa ->]; [by rewrite Hlaa|].
    destruct (index_assign_total (λ _, 0%Z) idxs' (env_steps s))
      as [steps ->]; [by rewrite Hlsteps|].
    simpl. eauto. }
  split; [reflexivity|]. split.
  - destruct (Htotal (Z.of_nat <$> seq 0 (num_envs c))) as [s' Hs'].
    + destruct (num_envs c); [lia|discriminate].
    + apply Forall_fmap, Forall_forall. intros e' He'%elem_of_seq. simpl. lia.
    + assert (reset c s None rb = Ok s') as Hnone by exact Hs'.
      exists s'. split; [exact Hnone|].
      apply (Hcleared None s' Hnone). exact He.
  - destruct (Htotal idxs Hne Hvalid) as [s' Hs'].
    exists s'. split; [exact Hs'|]. split; intros Hn.
    + by apply (Hcleared (Some idxs) s' Hs').
    + destruct (reset_spec _ _ _ _ _ Hs' Hlaa Hlsteps) as (_ & _ & Hrows).
      destruct (Hrows e) as [_ Hk]. by apply Hk.
Qed.

(** C10, as amended: in simulator coordinates [get_parts_poses] returns a
    single tensor of shape [(num_envs, num_parts * 7)], not a pair; so when
    [manual_label] is unset the reward of the base class, which unpacks that
    result into two values, raises unless [num_envs] is 2; when
    [manual_label] is set it returns zeros before it reads the poses. *)
Theorem C10_parts_poses_is_one_tensor c s (robot_coord : bool) :
  config_ok c → rb_ok c (rb_states s) →
  (∃ rows, get_parts_poses c (rb_states s) true robot_coord = Ok (PyTensor2 rows)
           ∧ length rows = num_envs c
           ∧ Forall (λ row, length row = num_parts c * 7) rows)
  ∧ (manual_label c = false
     ∧ (num_envs c = 2 ∨ FurnitureSimEnv._reward c s = Raise ValueError)
     ∨ manual_label c = true
       ∧ FurnitureSimEnv._reward c s = Ok (replicate (num_envs c) 0%Q)).
Proof.
  intros Hc Hrb. split; [by apply get_parts_poses_sim|].
  unfold FurnitureSimEnv._reward.
  destruct (manual_label c) eqn:Hlabel; [by right|left].
  split; [done|].
  destruct (decide (num_envs c = 2)) as [HE|HE]; [by left|right].
  destruct (get_parts_poses_sim c (rb_states s) false Hc Hrb)
    as (rows & -> & Hlen & _).
  cbn [mbind result_bind]. rewrite unpack2_rows by lia. reflexivity.
Qed.
End ClaimsOnResetAndBulbs.

(** C4: the code breaks the debounce.  With the gripper commanded open
    (width [max_gripper_width]) by a grasp scalar of -1, two further calls
    whose grasp scalars 0.01 and -0.01 flip sign and stay below the margin
    0.019 in absolute value end with the first environment commanded closed
    (width 0): [simulate_step] stores every grasp scalar as [last_grasp],
    also one within the margin, and the next call takes its command from the
    sign of that stored value. *)
Theorem C4_debounce_broken_by_small_flips :
  let c := Demo.plain in
  let calls :=
    [FurnitureRLSimEnv.CallStep (Demo.step_to (-1) (-1) Demo.apart Demo.apart);
     FurnitureRLSimEnv.CallStep (Demo.step_to (1 # 100) (-1) Demo.apart Demo.apart);
     FurnitureRLSimEnv.CallStep (Demo.step_to (- (1 # 100)) (-1) Demo.apart Demo.apart)] in
  (Qabs (1 # 100) < grasp_margin)%Q ∧ (Qabs (- (1 # 100)) < grasp_margin)%Q
  ∧ ∃ outs s',
      FurnitureRLSimEnv.run c (Demo.ready c) calls = Ok (outs, s')
      ∧ map (λ o, FurnitureSimEnv.grip_sep (FurnitureRLSimEnv.sim o)) outs
        = [[max_gripper_width c; max_gripper_width c];
           [max_gripper_width c; max_gripper_width c];
           [0%Q; max_gripper_width c]].
Proof.
  intros c calls. split; [reflexivity|]. split; [reflexivity|].
  eexists _, _. split; [vm_compute; reflexivity|]. reflexivity.
Qed.

(** C5: the code breaks the claim.  With [manual_done] (and [manual_label])
    set, the call in which both pairs of the first environment become
    assembled returns Python's [None] as its reward, not a tensor of zeros,
    while the done flags are false and the latches advance; and with only
    [manual_label] set, [FurnitureRLSimEnv] suppresses nothing: the same call
    returns reward 1 and terminated for the first environment. *)
Theorem C5_manual_mode_reward_not_zero :
  let inp := Demo.step_to (-1) (-1) Demo.joined Demo.apart in
  (let c := Demo.lamp true true 10 in
   ∃ o s',
     FurnitureRLSimEnv.step c (Demo.ready c) inp = Ok (o, s')
     ∧ FurnitureRLSimEnv.reward o = None
     ∧ FurnitureRLSimEnv.terminated o = [false; false]
     ∧ FurnitureRLSimEnv.truncated o = [false; false]
     ∧ already_assembled s' = [[true; true]; [false; false]])
  ∧ (let c := Demo.lamp true false 10 in
     ∃ o s',
       FurnitureRLSimEnv.step c (Demo.ready c) inp = Ok (o, s')
       ∧ FurnitureRLSimEnv.reward o = Some [1%Q; 0%Q]
       ∧ FurnitureRLSimEnv.terminated o = [true; false]).
Proof.
  intros inp. split.
  - intros c. eexists _, _. split; [vm_compute; reflexivity|].
    repeat split; reflexivity.
  - intros c. eexists _, _. split; [vm_compute; reflexivity|].
    repeat split; reflexivity.
Qed.

(** * The claims at the concrete environment *)

Lemma C1_witness :
  let c := Demo.plain in
  let s := Demo.latched c in
  let calls :=
    [FurnitureRLSimEnv.CallStep (Demo.step_to 1 1 Demo.apart Demo.apart);
     FurnitureRLSimEnv.CallReset (Some [1%Z]) (Demo.bodies Demo.apart Demo.apart);
     FurnitureRLSimEnv.CallStep (Demo.step_to 1 1 Demo.touching Demo.apart)] in
  (config_ok c ∧ state_ok c s ∧ Forall (call_ok c) calls
   ∧ entry (already_assembled s) 0 0 = Some true)
  ∧ ∃ outs s',
      FurnitureRLSimEnv.run c s calls = Ok (outs, s')
      ∧ (entry (already_assembled s') 0 0 = Some true ∨ Exists (resets c 0) calls).
Proof.
  intros c s calls.
  assert (config_ok c) as Hc by (unfold config_ok; solve_shape).
  assert (state_ok c s) as Hs by (unfold state_ok, rb_ok; solve_shape).
  assert (Forall (call_ok c) calls) as Hcalls
    by (unfold call_ok, idxs_ok, input_ok, rb_ok; solve_shape).
  assert (entry (already_assembled s) 0 0 = Some true) as Hbit by reflexivity.
  split; [exact (conj Hc (conj Hs (conj Hcalls Hbit)))|].
  exact (C1_latch_until_reset c calls s 0 0 Hc Hs Hcalls Hbit).
Defined.

Lemma C2_witness :
  let c := Demo.plain in
  let s := Demo.ready c in
  let inp := Demo.step_to (-1) (-1) Demo.joined Demo.apart in
  (config_ok c ∧ state_ok c s ∧ input_ok c inp ∧ manual_done c = false
   ∧ 0 < num_envs c)
  ∧ ∃ o s' rewards x,
      FurnitureRLSimEnv.step c s inp = Ok (o, s')
      ∧ FurnitureRLSimEnv.reward o = Some rewards
      ∧ length rewards = num_envs c ∧ rewards !! 0 = Some x
      ∧ (x = 1%Q ↔ ∃ k, newly_assembled s s' 0 k)
      ∧ (x = 0%Q ↔ ¬ ∃ k, newly_assembled s s' 0 k)
      ∧ (∀ k1 k2, k1 ≠ k2 → newly_assembled s s' 0 k1 → newly_assembled s s' 0 k2 →
                  x = 1%Q).
Proof.
  intros c s inp.
  assert (config_ok c) as Hc by (unfold config_ok; solve_shape).
  assert (state_ok c s) as Hs by (unfold state_ok, rb_ok; solve_shape).
  assert (input_ok c inp) as Hi by (unfold input_ok, rb_ok; solve_shape).
  assert (manual_done c = false) as Hm by reflexivity.
  assert (0 < num_envs c) as He by (simpl; lia).
  split; [exact (conj Hc (conj Hs (conj Hi (conj Hm He))))|].
  exact (C2_reward_is_transition_indicator c s inp 0 Hc Hs Hi Hm He).
Defined.

Lemma C3_witness :
  let c := Demo.plain in
  let s := Demo.ready_at c 9 in
  let inp := Demo.step_to (-1) (-1) Demo.joined Demo.apart in
  (config_ok c ∧ state_ok c s ∧ input_ok c inp ∧ manual_done c = false
   ∧ env_steps s !! 0 = Some 9%Z)
  ∧ ∃ o s' tr te,
      FurnitureRLSimEnv.step c s inp = Ok (o, s')
      ∧ FurnitureRLSimEnv.truncated o !! 0 = Some tr
      ∧ FurnitureRLSimEnv.terminated o !! 0 = Some te
      ∧ (9 = max_env_steps c - 1 → tr = true)%Z
      ∧ (9 < max_env_steps c - 1 → tr = false)%Z
      ∧ (te = true ↔
         ∀ k, k < length (pairs_to_assemble c) →
              entry (already_assembled s') 0 k = Some true).
Proof.
  intros c s inp.
  assert (config_ok c) as Hc by (unfold config_ok; solve_shape).
  assert (state_ok c s) as Hs by (unfold state_ok, rb_ok; solve_shape).
  assert (input_ok c inp) as Hi by (unfold input_ok, rb_ok; solve_shape).
  assert (manual_done c = false) as Hm by reflexivity.
  assert (env_steps s !! 0 = Some 9%Z) as Hn by reflexivity.
  split; [exact (conj Hc (conj Hs (conj Hi (conj Hm Hn))))|].
  exact (C3_done_flags_outside_manual_mode c s inp 0 9 Hc Hs Hi Hm Hn).
Defined.

(** C3 as stated fails in manual-override mode: with [manual_done] set, the
    call made when both counters equal [max_env_steps - 1] (nine steps after
    the reset, for a horizon of ten) reports no environment truncated, and
    reports the first environment not terminated although both its pairs are
    latched. *)
Lemma C3_counterexample :
  let c := Demo.lamp false true 10 in
  let still := Demo.step_to (-1) (-1) Demo.apart Demo.apart in
  let inp := Demo.step_to (-1) (-1) Demo.joined Demo.apart in
  ∃ outs s o s',
    FurnitureRLSimEnv.run c (Demo.ready c)
      (replicate 9 (FurnitureRLSimEnv.CallStep still)) = Ok (outs, s)
    ∧ env_steps s = [max_env_steps c - 1; max_env_steps c - 1]%Z
    ∧ FurnitureRLSimEnv.step c s inp = Ok (o, s')
    ∧ FurnitureRLSimEnv.truncated o = [false; false]
    ∧ FurnitureRLSimEnv.terminated o = [false; false]
    ∧ already_assembled s' = [[true; true]; [false; false]].
Proof.
  intros c still inp. eexists _, _, _, _.
  split; [vm_compute; reflexivity|].
  split; [reflexivity|].
  split; [vm_compute; reflexivity|].
  split; [reflexivity|]. split; reflexivity.
Qed.

Lemma C6_witness :
  let c := Demo.plain in
  let d := Demo.draws in
  (config_ok c ∧ 0 < rigid_body_count c ∧ 0 ∉ selected_bodies c d)
  ∧ (∃ forces torques,
       FurnitureRLSimEnv._random_perturbation_of_parts c 0 0 d = Ok (forces, torques)
       ∧ length forces = rigid_body_count c ∧ length torques = rigid_body_count c
       ∧ Forall (Forall (λ x, x == 0)%Q) forces
       ∧ Forall (Forall (λ x, x == 0)%Q) torques)
  ∧ (∃ forces torques,
       FurnitureRLSimEnv._random_perturbation_of_parts c (1 # 2) (1 # 100) d
         = Ok (forces, torques)
       ∧ forces !! 0 = Some [0; 0; 0]%Q ∧ torques !! 0 = Some [0; 0; 0]%Q).
Proof.
  intros c d.
  assert (config_ok c) as Hc by (unfold config_ok; solve_shape).
  assert (0 < rigid_body_count c) as Hb by (simpl; lia).
  assert (0 ∉ selected_bodies c d) as Hsel.
  { change (selected_bodies c d) with [1].
    intros [H|H]%elem_of_cons; [discriminate | by apply elem_of_nil in H]. }
  split; [exact (conj Hc (conj Hb Hsel))|].
  exact (C6_perturbation_zero_outside_selection c d (1 # 2) (1 # 100) 0 Hc Hb Hsel).
Defined.

Lemma C7_witness :
  let c := Demo.plain in
  let T := Demo.translation 1 2 3 in
  (¬ (mdet (base_tag_from_robot_mat c) == 0)%Q
   ∧ ¬ (mdet (franka_from_origin_mat c) == 0)%Q)
  ∧ ∃ S M,
      FurnitureSimEnv.sim_to_april_mat c = Ok S
      ∧ meq (mmul S (FurnitureSimEnv.april_to_sim_mat c)) mid
      ∧ meq (mmul (FurnitureSimEnv.april_to_sim_mat c) S) mid
      ∧ FurnitureSimEnv.sim_coord_to_april_coord c
          (FurnitureSimEnv.april_coord_to_sim_coord c T) = Ok M
      ∧ meq M T.
Proof.
  intros c T.
  assert (¬ (mdet (base_tag_from_robot_mat c) == 0)%Q) as HB
    by (vm_compute; discriminate).
  assert (¬ (mdet (franka_from_origin_mat c) == 0)%Q) as HF
    by (vm_compute; discriminate).
  split; [exact (conj HB HF)|].
  exact (C7_tag_sim_round_trip c T HB HF).
Defined.

Lemma C8_witness :
  let c := Demo.plain in
  let s := Demo.ready c in
  let still := Demo.step_to (-1) (-1) Demo.apart Demo.apart in
  let inps := [Demo.step_to (-1) (-1) Demo.touching Demo.apart; still; still] in
  (config_ok c ∧ furniture_name c = "lamp" ∧ state_ok c s ∧ input_ok c still
   ∧ state_ok c s ∧ Forall (input_ok c) inps ∧ counters_fit s (length inps)
   ∧ 1 ≤ 2)
  ∧ (∃ o s1,
       FurnitureRLSimEnv.step c s still = Ok (o, s1)
       ∧ Forall (λ sub, holds_bulb sub 0 = should_hold c s 0)
           (FurnitureSimEnv.substeps (FurnitureRLSimEnv.sim o)))
  ∧ (∃ outs s',
       FurnitureRLSimEnv.run c s (FurnitureRLSimEnv.CallStep <$> inps) = Ok (outs, s')
       ∧ ∀ oi oj, outs !! 1 = Some oi → outs !! 2 = Some oj →
                  not_held oi 0 → not_held oj 0).
Proof.
  intros c s still inps.
  assert (config_ok c) as Hc by (unfold config_ok; solve_shape).
  assert (furniture_name c = "lamp") as Hlamp by reflexivity.
  assert (state_ok c s) as Hs by (unfold state_ok, rb_ok; solve_shape).
  assert (input_ok c still) as Hi by (unfold input_ok, rb_ok; solve_shape).
  assert (Forall (input_ok c) inps) as Hinps
    by (unfold input_ok, rb_ok; solve_shape).
  assert (counters_fit s (length inps)) as Hfit
    by (unfold counters_fit; solve_shape).
  assert (1 ≤ 2) as Hij by lia.
  split; [exact (conj Hc (conj Hlamp (conj Hs (conj Hi (conj Hs (conj Hinps
                   (conj Hfit Hij)))))))|].
  exact (C8_bulb_held_until_released c s still s inps 1 2 0
           Hc Hlamp Hs Hi Hs Hinps Hfit Hij).
Defined.

(** C8 as stated fails.  Six calls of [step] after a full reset, environment
    0 alone is reset: its counter is 0, in the first half of the horizon of
    ten, and its end effector is away from its bulb, yet the next call
    rewrites no bulb pose in any substep, because the counter of environment
    1 is 6.  And an environment whose hand touched the bulb and moved away
    again is in the first half and away from the bulb but is not held, while
    the other environment is. *)
Lemma C8_counterexample :
  let c := Demo.plain in
  let still := Demo.step_to (-1) (-1) Demo.apart Demo.apart in
  (∃ outs s o s',
     FurnitureRLSimEnv.run c (Demo.ready c)
       (replicate 6 (FurnitureRLSimEnv.CallStep still)
        ++ [FurnitureRLSimEnv.CallReset (Some [0%Z]) (Demo.bodies Demo.apart Demo.apart)])
       = Ok (outs, s)
     ∧ env_steps s = [0; 6]%Z ∧ max_env_steps c = 10%Z
     ∧ hand_bulb_close c s 0 = Some false
     ∧ FurnitureRLSimEnv.step c s still = Ok (o, s')
     ∧ FurnitureSimEnv.substeps (FurnitureRLSimEnv.sim o) = [None; None])
  ∧ (∃ outs s o s',
       FurnitureRLSimEnv.run c (Demo.ready c)
         [FurnitureRLSimEnv.CallStep (Demo.step_to (-1) (-1) Demo.touching Demo.apart);
          FurnitureRLSimEnv.CallStep still] = Ok (outs, s)
       ∧ env_steps s = [2; 2]%Z
       ∧ hand_bulb_close c s 0 = Some false
       ∧ FurnitureRLSimEnv.step c s still = Ok (o, s')
       ∧ FurnitureSimEnv.substeps (FurnitureRLSimEnv.sim o) = [Some [1]; Some [1]]).
Proof.
  intros c still. split.
  - eexists _, _, _, _. split; [vm_compute; reflexivity|].
    split; [reflexivity|]. split; [reflexivity|]. split; [reflexivity|].
    split; [vm_compute; reflexivity|]. reflexivity.
  - eexists _, _, _, _. split; [vm_compute; reflexivity|].
    split; [reflexivity|]. split; [reflexivity|].
    split; [vm_compute; reflexivity|]. reflexivity.
Qed.

Lemma C9_witness :
  let c := Demo.plain in
  let s := Demo.latched c in
  let rb := Demo.bodies Demo.apart Demo.apart in
  let idxs := [(-1)%Z] in
  (0 < num_envs c
   ∧ length (already_assembled s) = num_envs c
   ∧ length (env_steps s) = num_envs c
   ∧ idxs ≠ []
   ∧ Forall (λ i, - Z.of_nat (num_envs c) ≤ i < Z.of_nat (num_envs c))%Z idxs
   ∧ 1 < num_envs c)
  ∧ FurnitureRLSimEnv.reset c s (Some []) rb = Raise AssertionError
  ∧ (∃ s', FurnitureRLSimEnv.reset c s None rb = Ok s' ∧ env_cleared s' 1)
  ∧ (∃ s', FurnitureRLSimEnv.reset c s (Some idxs) rb = Ok s'
           ∧ (names_env (num_envs c) (Some idxs) 1 → env_cleared s' 1)
           ∧ (¬ names_env (num_envs c) (Some idxs) 1 →
              already_assembled s' !! 1 = already_assembled s !! 1
              ∧ env_steps s' !! 1 = env_steps s !! 1)).
Proof.
  intros c s rb idxs.
  assert (0 < num_envs c) as H0 by (simpl; lia).
  assert (length (already_assembled s) = num_envs c) as H1 by reflexivity.
  assert (length (env_steps s) = num_envs c) as H2 by reflexivity.
  assert (idxs ≠ []) as H3 by discriminate.
  assert (Forall (λ i, - Z.of_nat (num_envs c) ≤ i < Z.of_nat (num_envs c))%Z idxs)
    as H4 by solve_shape.
  assert (1 < num_envs c) as H5 by (simpl; lia).
  split; [exact (conj H0 (conj H1 (conj H2 (conj H3 (conj H4 H5)))))|].
  exact (C9_reset_subset c s rb idxs 1 H0 H1 H2 H3 H4 H5).
Defined.

Lemma C10_witness :
  let c := Demo.solo false in
  let s := Demo.solo_start c in
  (config_ok c ∧ rb_ok c (rb_states s))
  ∧ (∃ rows, FurnitureSimEnv.get_parts_poses c (rb_states s) true false
             = Ok (PyTensor2 rows)
             ∧ length rows = num_envs c
             ∧ Forall (λ row, length row = num_parts c * 7) rows)
  ∧ (manual_label c = false
     ∧ (num_envs c = 2 ∨ FurnitureSimEnv._reward c s = Raise ValueError)
     ∨ manual_label c = true
       ∧ FurnitureSimEnv._reward c s = Ok (replicate (num_envs c) 0%Q)).
Proof.
  intros c s.
  assert (config_ok c) as Hc by (unfold config_ok; solve_shape).
  assert (rb_ok c (rb_states s)) as Hrb by (unfold rb_ok; solve_shape).
  split; [exact (conj Hc Hrb)|].
  exact (C10_parts_poses_is_one_tensor c s false Hc Hrb).
Defined.

(** C10 as stated fails when [manual_label] is set: with a single
    environment the reward of the base class is well defined, a tensor with
    one zero, although [num_envs] is not 2. *)
Lemma C10_counterexample :
  let c := Demo.solo true in
  num_envs c ≠ 2
  ∧ FurnitureSimEnv._reward c (Demo.solo_start c) = Ok [0%Q].
Proof. intros c. split; [discriminate | reflexivity]. Qed.

(** * Further properties *)

(** ** Arithmetic of the float stand-ins *)

Lemma Qlt_bool_iff (a b : Q) : Qlt_bool a b = true ↔ (a < b)%Q.
Proof.
  unfold Qlt_bool. rewrite negb_true_iff. split.
  - intros H. apply Qnot_le_lt. intros Hle. apply Qle_bool_iff in Hle. congruence.
  - intros H. destruct (Qle_bool b a) eqn:E; [|reflexivity].
    apply Qle_bool_iff in E. exfalso. exact (Qlt_not_le _ _ H E).
Qed.

Lemma Qlt_bool_false (a b : Q) : Qlt_bool a b = false ↔ (b <= a)%Q.
Proof.
  unfold Qlt_bool. rewrite negb_false_iff. apply Qle_bool_iff.
Qed.

(** [n] times [x := min(x + a, L)] is [min(x + n * a, L)], for [n > 0]. *)
Lemma capped_sum (a L : Q) (g : Q → Q) (x : Q) (n : nat) :
  (0 <= a)%Q →
  (∀ y, g y = if Qlt_bool L (y + a) then L else (y + a)%Q) →
  let y := Nat.iter (S n) g x in
  let target := (x + inject_Z (Z.of_nat (S n)) * a)%Q in
  (y <= L ∧ (target <= L → y == target) ∧ (L <= target → y == L))%Q.
Proof.
  intros Ha Hg. induction n as [|n IH].
  - cbv zeta. change (inject_Z (Z.of_nat 1)) with 1%Q.
    change (Nat.iter 1 g x) with (g x).
    rewrite Hg. destruct (Qlt_bool L (x + a)) eqn:E.
    + apply Qlt_bool_iff in E. split; [lra|]. split; intros Ht; lra.
    + apply Qlt_bool_false in E. split; [lra|]. split; intros Ht; lra.
  - cbv zeta in IH |- *.
    change (Nat.iter (S (S n)) g x) with (g (Nat.iter (S n) g x)).
    set (y := Nat.iter (S n) g x) in *.
    assert (inject_Z (Z.of_nat (S (S n))) == inject_Z (Z.of_nat (S n)) + 1)%Q as Hn.
    { rewrite (Nat2Z.inj_succ (S n)), <- Z.add_1_r, inject_Z_plus. reflexivity. }
    rewrite Hn. set (k := inject_Z (Z.of_nat (S n))) in *.
    destruct IH as (IH1 & IH2 & IH3).
    rewrite Hg. destruct (Qlt_bool L (y + a)) eqn:E.
    + apply Qlt_bool_iff in E. split; [lra|]. split; intros Ht.
      * destruct (Qlt_le_dec L (x + k * a)) as [Hc|Hc].
        -- specialize (IH3 ltac:(lra)). lra.
        -- specialize (IH2 Hc). lra.
      * lra.
    + apply Qlt_bool_false in E. split; [exact E|]. split; intros Ht.
      * specialize (IH2 ltac:(lra)). lra.
      * destruct (Qlt_le_dec L (x + k * a)) as [Hc|Hc].
        -- specialize (IH3 ltac:(lra)). lra.
        -- specialize (IH2 Hc). lra.
Qed.

Section Randomness.
Import FurnitureRLSimEnv.

Lemma increment_randomness_iter (n : nat) : ∀ s,
  let s' := Nat.iter n increment_randomness s in
  max_force_magnitude s'
    = Nat.iter n (λ y, if Qlt_bool 1 (y + (1 # 100)) then 1 else y + (1 # 100))%Q
        (max_force_magnitude s)
  ∧ max_torque_magnitude s'
    = Nat.iter n (λ y, if Qlt_bool (5 # 100) (y + (5 # 10000)) then 5 # 100
                       else y + (5 # 10000))%Q
        (max_torque_magnitude s)
  ∧ rb_states s' = rb_states s ∧ already_assembled s' = already_assembled s
  ∧ env_steps s' = env_steps s ∧ _moving_bulbs s' = _moving_bulbs s
  ∧ last_grasp s' = last_grasp s.
Proof.
  induction n as [|n IH]; intros s; [done|].
  cbv zeta in IH |- *. destruct (IH s) as (Hf & Ht & <- & <- & <- & <- & <-).
  change (Nat.iter (S n) increment_randomness s)
    with (increment_randomness (Nat.iter n increment_randomness s)).
  set (s0 := Nat.iter n increment_randomness s) in *.
  unfold increment_randomness. cbn [Nat.iter]. simpl. rewrite Hf, Ht. done.
Qed.

(** X1: [increment_randomness] called [n + 1] times leaves the force
    magnitude at [min(f + (n + 1) * 0.01, 1)] and the torque magnitude at
    [min(t + (n + 1) * 0.0005, 0.05)], whatever they were, and touches no
    other attribute. *)
Theorem X1_increment_randomness_saturates s (n : nat) :
  let s' := Nat.iter (S n) increment_randomness s in
  let k := inject_Z (Z.of_nat (S n)) in
  let f := (max_force_magnitude s + k * (1 # 100))%Q in
  let t := (max_torque_magnitude s + k * (5 # 10000))%Q in
  (max_force_magnitude s' <= 1 ∧ max_torque_magnitude s' <= 5 # 100)%Q
  ∧ ((f <= 1 → max_force_magnitude s' == f)
     ∧ (1 <= f → max_force_magnitude s' == 1))%Q
  ∧ ((t <= 5 # 100 → max_torque_magnitude s' == t)
     ∧ (5 # 100 <= t → max_torque_magnitude s' == 5 # 100))%Q
  ∧ rb_states s' = rb_states s ∧ already_assembled s' = already_assembled s
  ∧ env_steps s' = env_steps s ∧ _moving_bulbs s' = _moving_bulbs s
  ∧ last_grasp s' = last_grasp s.
Proof.
  intros s' k f t.
  destruct (increment_randomness_iter (S n) s) as (Hf & Ht & Hrest).
  fold s' in Hf, Ht, Hrest.
  pose proof (capped_sum (1 # 100) 1 _ (max_force_magnitude s) n
                ltac:(lra) (λ y, eq_refl)) as (F1 & F2 & F3).
  pose proof (capped_sum (5 # 10000) (5 # 100) _ (max_torque_magnitude s) n
                ltac:(lra) (λ y, eq_refl)) as (T1 & T2 & T3).
  rewrite <- Hf in F1, F2, F3. rewrite <- Ht in T1, T2, T3.
  split; [split; assumption|]. split; [split; assumption|].
  split; [split; assumption|]. exact Hrest.
Qed.

End Randomness.

(** ** The tables of the constructor *)

Section Tables.
Import FurnitureRLSimEnv.

(** X2: the constructor knows the same furniture names for the force
    multipliers, the torque multipliers and the pairs to assemble (any other
    name raises [ValueError] in all three); for a known name both multiplier
    lists have the same length, the pairs are not empty and hold no
    duplicate, and every pair names two different parts within that
    length. *)
Theorem X2_constructor_tables_agree (name : string) :
  match force_mul_of name, torque_mul_of name, pairs_to_assemble_of name with
  | Ok force_mul, Ok torque_mul, Ok pairs =>
      length force_mul = length torque_mul
      ∧ pairs ≠ [] ∧ NoDup pairs
      ∧ Forall (λ pr : nat * nat,
                  pr.1 < length force_mul ∧ pr.2 < length force_mul ∧ pr.1 ≠ pr.2)
          pairs
  | Raise ValueError, Raise ValueError, Raise ValueError => True
  | _, _, _ => False
  end.
Proof.
  unfold force_mul_of, torque_mul_of, pairs_to_assemble_of.
  repeat (match goal with
          | |- context [String.eqb name ?x] => destruct (String.eqb name x)
          end;
          [ simpl; split; [reflexivity|]; split; [discriminate|];
            split; [apply (bool_decide_unpack _); vm_compute; exact I|];
            repeat (apply Forall_cons; split; [simpl; lia|]); apply Forall_nil
          | ]).
  all: exact I.
Qed.

End Tables.

(** ** Stepping before the first reset *)

Section FirstStep.
Context {RelPose : Type} `{!ControlUtils RelPose}.
Import FurnitureSimEnv FurnitureRLSimEnv.
Implicit Types (c : Config RelPose) (s : State).

Lemma grasp_column_total (a : list (list Q)) :
  Forall (λ row, row ≠ []) a →
  ∃ grasp,
    result_mapM (λ row : list Q, match last row with
                                 | Some g => Ok g
                                 | None => Raise IndexError
                                 end) a = Ok grasp
    ∧ length grasp = length a
    ∧ ∀ e row, a !! e = Some row → ∃ g, last row = Some g ∧ grasp !! e = Some g.
Proof.
  induction 1 as [|row a Hrow _ (grasp & Hg & Hlen & Hlook)].
  - exists []. done.
  - destruct (last row) as [g|] eqn:Hlast.
    + exists (g :: grasp). simpl. rewrite Hlast, Hg. simpl.
      split; [done|]. split; [by rewrite Hlen|].
      intros [|e] row' Hr; simpl in Hr.
      * injection Hr as <-. eauto.
      * apply Hlook in Hr. exact Hr.
    + apply last_None in Hlast. done.
Qed.

(** X3: a lamp environment cannot be stepped before its first [reset]:
    [_moving_bulbs] is only created by [reset], so on the attributes
    [__init__] leaves, [step] raises [AttributeError] for every well-shaped
    action. *)
Theorem X3_lamp_step_before_reset_raises c (r : Randomness) (rb : list (list Q))
    (inp : StepInput) :
  furniture_name c = "lamp" →
  (0 ≤ max_env_steps c)%Z →
  length (action inp) = num_envs c →
  Forall (λ row, row ≠ []) (action inp) →
  step c (init_state c r rb) inp = Raise AttributeError.
Proof.
  intros Hlamp Hmax Hlen Hrows.
  destruct (grasp_column_total (map (map (torch_clamp (-1) 1)) (action inp)))
    as (grasp & Hg & Hglen & _).
  { apply Forall_fmap. eapply Forall_impl; [exact Hrows|].
    intros [|x row] Hne; [done|]. discriminate. }
  unfold step, simulate_step.
  unfold view_rows. rewrite length_map, Hlen, Nat.eqb_refl.
  cbn [mbind result_bind]. rewrite Hg. cbn [mbind result_bind].
  unfold tensor_zip. simpl last_grasp.
  rewrite Hglen, length_map, Hlen, length_replicate, Nat.eqb_refl.
  cbn [mbind result_bind].
  unfold _handle_bulb_rest_pose. rewrite Hlamp. simpl String.eqb. cbn [negb].
  simpl env_steps.
  replace (existsb _ (replicate (num_envs c) 0%Z)) with false.
  2:{ symmetry. apply not_true_iff_false. rewrite existsb_exists.
      intros (n & Hin & Hn). apply list_elem_of_In, elem_of_replicate in Hin as [-> _].
      apply Z.ltb_lt in Hn. lia. }
  reflexivity.
Qed.

End FirstStep.

Lemma X3_witness :
  let c := Demo.plain in
  let inp := Demo.step_to (-1) (-1) Demo.apart Demo.apart in
  (furniture_name c = "lamp"
   ∧ (0 ≤ max_env_steps c)%Z
   ∧ length (FurnitureRLSimEnv.action inp) = num_envs c
   ∧ Forall (λ row, row ≠ []) (FurnitureRLSimEnv.action inp))
  ∧ FurnitureRLSimEnv.step c
      (FurnitureRLSimEnv.init_state c FurnitureRLSimEnv.LOW (Demo.bodies Demo.apart Demo.apart))
      inp = Raise AttributeError.
Proof.
  intros c inp.
  assert (furniture_name c = "lamp") as H1 by reflexivity.
  assert (0 ≤ max_env_steps c)%Z as H2 by (vm_compute; discriminate).
  assert (length (FurnitureRLSimEnv.action inp) = num_envs c) as H3 by reflexivity.
  assert (Forall (λ row, row ≠ []) (FurnitureRLSimEnv.action inp)) as H4.
  { repeat constructor; discriminate. }
  split; [exact (conj H1 (conj H2 (conj H3 H4)))|].
  exact (X3_lamp_step_before_reset_raises c FurnitureRLSimEnv.LOW _ inp H1 H2 H3 H4).
Defined.

(** ** The gripper command *)


Lemma torch_clamp_cases (x : Q) :
  (x < -1 ∧ torch_clamp (-1) 1 x = -1)%Q
  ∨ (1 < x ∧ torch_clamp (-1) 1 x = 1)%Q
  ∨ (-1 <= x ∧ x <= 1 ∧ torch_clamp (-1) 1 x = x)%Q.
Proof.
  unfold torch_clamp.
  destruct (Qlt_bool x (-1)) eqn:E1.
  - apply Qlt_bool_iff in E1. left. split; [exact E1|].
    destruct (Qlt_bool 1 (-1)) eqn:E2; [|reflexivity].
    apply Qlt_bool_iff in E2. lra.
  - apply Qlt_bool_false in E1. destruct (Qlt_bool 1 x) eqn:E2.
    + apply Qlt_bool_iff in E2. right. left. done.
    + apply Qlt_bool_false in E2. right. right. done.
Qed.

Lemma Qlt_bool_0_sign (x : Q) : Qlt_bool x 0 = (torch_sign x =? -1)%Z.
Proof.
  unfold torch_sign. destruct x as [n d].
  destruct (Qlt_bool (n # d) 0) eqn:E.
  - apply Qlt_bool_iff in E. unfold Qlt in E. simpl in E.
    symmetry. apply Z.eqb_eq. simpl. lia.
  - apply Qlt_bool_false in E. unfold Qle in E. simpl in E.
    symmetry. apply Z.eqb_neq. simpl. lia.
Qed.

Lemma torch_clamp_sign (x : Q) : torch_sign (torch_clamp (-1) 1 x) = torch_sign x.
Proof.
  destruct (torch_clamp_cases x) as [[H ->]|[[H ->]|(_ & _ & ->)]]; [| |reflexivity].
  - unfold torch_sign. destruct x as [n d]. unfold Qlt in H. simpl in *. lia.
  - unfold torch_sign. destruct x as [n d]. unfold Qlt in H. simpl in *. lia.
Qed.

Lemma torch_clamp_margin (x : Q) :
  (grasp_margin < Qabs x)%Q → (grasp_margin < Qabs (torch_clamp (-1) 1 x))%Q.
Proof.
  intros H.
  destruct (torch_clamp_cases x) as [[_ ->]|[[_ ->]|(_ & _ & ->)]]; [| |exact H].
  - unfold grasp_margin. reflexivity.
  - unfold grasp_margin. reflexivity.
Qed.

Section Gripper.
Context {RelPose : Type} `{!ControlUtils RelPose}.
Import FurnitureSimEnv FurnitureRLSimEnv.
Implicit Types (c : Config RelPose) (s : State).

(** A command above the margin decides the width by its own sign. *)
Lemma grip_sep_of_decisive c (grasp last : Q) :
  (grasp_margin < Qabs grasp)%Q →
  grip_sep_of c grasp last = if Qlt_bool grasp 0 then max_gripper_width c else 0%Q.
Proof.
  intros Hm. unfold grip_sep_of.
  apply Qlt_bool_iff in Hm. rewrite Hm, andb_true_r.
  destruct (torch_sign grasp =? torch_sign last)%Z eqn:E; [|reflexivity].
  apply Z.eqb_eq in E. simpl. rewrite !Qlt_bool_0_sign, E. reflexivity.
Qed.


(** What [simulate_step] does with the last column of the action. *)
Lemma simulate_step_gripper c s a rb o s1 :
  simulate_step c s a rb = Ok (o, s1) →
  length a = num_envs c
  ∧ length (last_grasp s) = num_envs c
  ∧ length (last_grasp s1) = num_envs c
  ∧ grip_sep o = zip_with (grip_sep_of c) (last_grasp s1) (last_grasp s)
  ∧ gripper_action_mask o = (λ w, Qlt_bool 0 w) <$> grip_sep o
  ∧ ∀ e row, a !! e = Some row →
      ∃ g, last row = Some g ∧ last_grasp s1 !! e = Some (torch_clamp (-1) 1 g).
Proof.
  unfold simulate_step. intros H.
  apply bind_Ok in H as (a' & Hview & H).
  apply view_rows_Ok in Hview as [Hlen ->]. rewrite length_map in Hlen.
  apply bind_Ok in H as (grasp & Hg & H).
  apply bind_Ok in H as (grip & Hgrip & H).
  apply tensor_zip_Ok in Hgrip as [Hlen2 ->].
  destruct (_handle_bulb_rest_pose c (set_last_grasp grasp s))
    as [[[any_unsettled rest] s0]|] eqn:Hb; [|discriminate].
  injection H as <- <-.
  apply handle_bulb_frame in Hb as [mb ->]. simpl.
  pose proof (result_mapM_length _ _ _ Hg) as Hglen. rewrite length_map in Hglen.
  split; [exact Hlen|]. split; [congruence|]. split; [congruence|].
  split; [reflexivity|]. split; [reflexivity|].
  intros e row Hrow.
  assert (map (map (torch_clamp (-1) 1)) a !! e = Some (map (torch_clamp (-1) 1) row))
    as Hrow' by (by rewrite list_lookup_fmap, Hrow).
  destruct (result_mapM_lookup _ _ _ e _ Hg Hrow') as (g' & Hg' & Hmatch).
  rewrite fmap_last in Hmatch.
  destruct (last row) as [g|]; simpl in Hmatch; [|discriminate].
  injection Hmatch as <-. eauto.
Qed.

(** X4: a grasp command whose magnitude is above the hysteresis margin
    always takes effect, whatever the previous command was: the width sent
    for that environment is [max_gripper_width] when the command is negative
    and 0 when it is positive. *)
Theorem X4_grasp_above_margin_decides c s inp (e : nat) (row : list Q) (g : Q) :
  config_ok c → state_ok c s → input_ok c inp →
  action inp !! e = Some row → last row = Some g →
  (grasp_margin < Qabs g)%Q →
  ∃ o s', step c s inp = Ok (o, s')
    ∧ grip_sep (sim o) !! e
      = Some (if Qlt_bool g 0 then max_gripper_width c else 0%Q).
Proof.
  intros Hc Hs Hi Hrow Hlast Hm.
  destruct (step_total c s inp Hc Hs Hi) as (o & s' & Hstep).
  exists o, s'. split; [exact Hstep|].
  apply step_spec in Hstep as (s1 & s2 & Hsim & _).
  apply simulate_step_gripper in Hsim as (Hlen & Hl0 & Hl1 & -> & _ & Hcol).
  destruct (Hcol e row Hrow) as (g' & Hlast' & Hg).
  rewrite Hlast in Hlast'. injection Hlast' as <-.
  assert (e < num_envs c) as He.
  { rewrite <- Hlen. by eapply lookup_lt_Some. }
  destruct (lookup_lt_is_Some_2 (last_grasp s) e ltac:(lia)) as [old Hold].
  apply lookup_zip_with_Some. exists (torch_clamp (-1) 1 g), old.
  split; [|split; [exact Hg|exact Hold]].
  rewrite grip_sep_of_decisive by (by apply torch_clamp_margin).
  rewrite !Qlt_bool_0_sign, torch_clamp_sign. reflexivity.
Qed.

End Gripper.

Lemma X4_witness :
  let c := Demo.plain in
  let s := Demo.ready c in
  let inp := Demo.step_to (1 # 2) (-1) Demo.apart Demo.apart in
  let row := [0; 0; 0; 0; 0; 0; 1 # 2]%Q in
  (config_ok c ∧ state_ok c s ∧ input_ok c inp
   ∧ FurnitureRLSimEnv.action inp !! 0 = Some row ∧ last row = Some (1 # 2)%Q
   ∧ (grasp_margin < Qabs (1 # 2))%Q)
  ∧ ∃ o s', FurnitureRLSimEnv.step c s inp = Ok (o, s')
      ∧ FurnitureSimEnv.grip_sep (FurnitureRLSimEnv.sim o) !! 0
        = Some (if Qlt_bool (1 # 2) 0 then max_gripper_width c else 0%Q).
Proof.
  intros c s inp row.
  assert (config_ok c) as Hc by (unfold config_ok; solve_shape).
  assert (state_ok c s) as Hs by (unfold state_ok, rb_ok; solve_shape).
  assert (input_ok c inp) as Hi by (unfold input_ok, rb_ok; solve_shape).
  assert (FurnitureRLSimEnv.action inp !! 0 = Some row) as Hrow by reflexivity.
  assert (last row = Some (1 # 2)%Q) as Hlast by reflexivity.
  assert (grasp_margin < Qabs (1 # 2))%Q as Hm by reflexivity.
  split; [exact (conj Hc (conj Hs (conj Hi (conj Hrow (conj Hlast Hm)))))|].
  exact (X4_grasp_above_margin_decides c s inp 0 row (1 # 2) Hc Hs Hi Hrow Hlast Hm).
Defined.

Section GripperShape.
Context {RelPose : Type} `{!ControlUtils RelPose}.
Import FurnitureSimEnv FurnitureRLSimEnv.
Implicit Types (c : Config RelPose) (s : State).


End GripperShape.


(** ** Masks, scattered writes and flattened tensors *)

Lemma mask_select_zip {A B : Type} (mask : list bool) : ∀ (l1 : list A) (l2 : list B),
  zip (mask_select mask l1) (mask_select mask l2) = mask_select mask (zip l1 l2).
Proof.
  induction mask as [|b mask IH]; intros [|a l1] [|a2 l2]; simpl; try reflexivity.
  - destruct b; [reflexivity|]. by destruct (mask_select mask l1).
  - destruct b; simpl; by rewrite IH.
Qed.

Lemma elem_of_mask_select {A : Type} (mask : list bool) : ∀ (l : list A) (x : A),
  x ∈ mask_select mask l ↔ ∃ k, mask !! k = Some true ∧ l !! k = Some x.
Proof.
  induction mask as [|b mask IH]; intros [|a l] x; simpl.
  - rewrite elem_of_nil. split; [done|]. by intros (k & ? & ?).
  - rewrite elem_of_nil. split; [done|]. by intros (k & ? & ?).
  - rewrite elem_of_nil. split; [done|]. by intros (k & ? & ?).
  - destruct b.
    + rewrite elem_of_cons, IH. split.
      * intros [->|(k & ? & ?)]; [by exists 0|by exists (S k)].
      * intros ([|k] & Hm & Hl); simpl in *; [left; congruence|right; eauto].
    + rewrite IH. split.
      * intros (k & ? & ?). by exists (S k).
      * intros ([|k] & Hm & Hl); simpl in *; [congruence|eauto].
Qed.

Lemma mask_select_sublist {A : Type} (mask : list bool) : ∀ l : list A,
  mask_select mask l `sublist_of` l.
Proof.
  induction mask as [|b mask IH]; intros [|a l]; simpl; try apply sublist_nil_l.
  destruct b; [apply sublist_skip | apply sublist_cons]; apply IH.
Qed.

(** With distinct indices, a scattered write leaves at each index the value
    paired with it. *)
Lemma foldl_insert_NoDup {A : Type} (kvs : list (nat * A)) : ∀ (t : list A) b x,
  NoDup kvs.*1 → (b, x) ∈ kvs → b < length t →
  foldl (λ acc kv, <[kv.1 := kv.2]> acc) t kvs !! b = Some x.
Proof.
  induction kvs as [|[k v] kvs IH]; intros t b x Hnd Hin Hb.
  - by apply elem_of_nil in Hin.
  - simpl in Hnd. apply NoDup_cons in Hnd as [Hk Hnd]. simpl.
    apply elem_of_cons in Hin as [[= -> ->]|Hin].
    + destruct (foldl_insert_spec kvs (<[k:=v]> t) k) as (_ & Hout & _).
      rewrite Hout by exact Hk. by apply list_lookup_insert_eq.
    + apply IH; [exact Hnd|exact Hin|by rewrite length_insert].
Qed.

Lemma zip_fst_sublist {A B : Type} (l1 : list A) : ∀ l2 : list B,
  (zip l1 l2).*1 `sublist_of` l1.
Proof.
  induction l1 as [|i l1 IH]; intros [|v l2]; simpl; try apply sublist_nil_l.
  apply sublist_skip, IH.
Qed.

Lemma index_put_NoDup {A : Type} (idxs : list nat) (vals : list A) (t t' : list A) k b x :
  index_put idxs vals t = Ok t' → NoDup idxs →
  idxs !! k = Some b → vals !! k = Some x → t' !! b = Some x.
Proof.
  unfold index_put. destruct (forallb _ idxs) eqn:Hall; [|discriminate].
  intros [= <-] Hnd Hb Hx.
  assert (b < length t) as Hlt.
  { rewrite forallb_forall in Hall. apply Nat.ltb_lt, Hall.
    apply list_elem_of_In, list_elem_of_lookup. eauto. }
  apply foldl_insert_NoDup; [|apply list_elem_of_lookup; exists k|exact Hlt].
  - exact (sublist_NoDup _ _ Hnd (zip_fst_sublist _ _)).
  - apply lookup_zip_with_Some. eauto.
Qed.

(** Row [e], column [p] of a matrix with rows of width [w] sits at position
    [e * w + p] of its flattening. *)
Lemma concat_lookup_uniform {A : Type} (w : nat) (ll : list (list A)) : ∀ e p row x,
  Forall (λ r, length r = w) ll → ll !! e = Some row → row !! p = Some x →
  concat ll !! (e * w + p) = Some x.
Proof.
  induction ll as [|r ll IH]; intros e p row x Hw Hrow Hx; [done|].
  apply Forall_cons in Hw as [Hr Hw]. destruct e as [|e]; simpl in *.
  - injection Hrow as ->. rewrite lookup_app_l by (by eapply lookup_lt_Some). exact Hx.
  - rewrite lookup_app_r by lia.
    replace (w + e * w + p - length r) with (e * w + p) by lia. eauto.
Qed.

(** ** The perturbation, body by body *)

Section PerturbationRows.
Context {RelPose : Type} `{!ControlUtils RelPose}.
Import FurnitureRLSimEnv.
Implicit Types (c : Config RelPose) (s : State).

(** X6: whatever the draws and the magnitudes, every force the perturbation
    sends lies in the xy plane (its z entry is 0) and every torque is about
    the z axis (its x and y entries are 0). *)
Theorem X6_perturbation_is_planar c (maxf maxt : Q) (d : Draws) (b : nat) :
  config_ok c → b < rigid_body_count c →
  ∃ forces torques fx fy fz tz,
    _random_perturbation_of_parts c maxf maxt d = Ok (forces, torques)
    ∧ forces !! b = Some [fx; fy; fz] ∧ (fz == 0)%Q
    ∧ torques !! b = Some [0; 0; tz]%Q.
Proof.
  intros Hc Hb.
  destruct (perturbation_total c maxf maxt d Hc) as [[forces torques] Hp].
  pose proof (perturbation_spec _ _ _ _ _ _ Hp) as (Hlf & Hlt & _ & Hf & Ht).
  destruct (lookup_lt_is_Some_2 forces b ltac:(lia)) as [frow Hfrow].
  destruct (lookup_lt_is_Some_2 torques b ltac:(lia)) as [trow Htrow].
  destruct (Hf b frow Hfrow) as [->|(e & p & k & ->)];
    destruct (Ht b trow Htrow) as [->|(e' & p' & k' & ->)];
    eexists forces, torques, _, _, _, _;
    (split; [exact Hp|]); (split; [exact Hfrow|]); (split; [|exact Htrow]);
    try reflexivity; ring.
Qed.

(** X7: when no rigid body is listed twice, the body of part [p] of
    environment [e] receives exactly its own draw: if its mask draw is below
    0.01, the force [u_force * max_force * (cos, sin, 0)] scaled by the force
    multiplier of part [p] and the torque [max_torque * (2 * u_torque - 1)]
    about z scaled by its torque multiplier; otherwise zero force and zero
    torque. *)
Theorem X7_perturbation_applies_own_draw c (maxf maxt : Q) (d : Draws)
    (e p b : nat) (row : list nat) (fm tm : Q) :
  config_ok c → NoDup (concat (rigid_body_index_by_env c)) →
  rigid_body_index_by_env c !! e = Some row → row !! p = Some b →
  force_multiplier c !! p = Some fm → torque_multiplier c !! p = Some tm →
  ∃ forces torques,
    _random_perturbation_of_parts c maxf maxt d = Ok (forces, torques)
    ∧ forces !! b
      = Some (if Qlt_bool (u_mask d (e * length (force_multiplier c) + p)) (1 # 100)
              then [u_force d e p * maxf * cos_2pi (u_theta d e p) * fm;
                    u_force d e p * maxf * sin_2pi (u_theta d e p) * fm;
                    0 * fm]%Q
              else [0; 0; 0]%Q)
    ∧ torques !! b
      = Some (if Qlt_bool (u_mask d (e * length (force_multiplier c) + p)) (1 # 100)
              then [0; 0; maxt * (u_torque d e p * 2 - 1) * tm]%Q
              else [0; 0; 0]%Q).
Proof.
  intros Hc Hnd Hrow Hb Hfm Htm.
  destruct (perturbation_total c maxf maxt d Hc) as [[forces torques] Hp].
  exists forces, torques. split; [exact Hp|].
  pose proof (perturbation_spec _ _ _ _ _ _ Hp) as (Hlf & Hlt & Hout & _).
  destruct Hc as (_ & _ & _ & _ & _ & Hshape).
  set (w := length (force_multiplier c)) in *.
  set (k := e * w + p).
  assert (Forall (λ r : list nat, length r = w) (rigid_body_index_by_env c)) as Hw.
  { eapply Forall_impl; [exact Hshape|]. by intros r (? & _). }
  assert (concat (rigid_body_index_by_env c) !! k = Some b) as Hk.
  { eapply concat_lookup_uniform; eauto. }
  assert (b < rigid_body_count c) as Hbc.
  { eapply Forall_lookup_1 in Hshape as (_ & _ & Hr); [|exact Hrow].
    eapply Forall_lookup_1 in Hr; [exact Hr|exact Hb]. }
  assert (k < length (concat (rigid_body_index_by_env c))) as Hklt
    by (by eapply lookup_lt_Some).
  destruct (Qlt_bool (u_mask d k) (1 # 100)) eqn:Hmask.
  - (* selected *)
    unfold _random_perturbation_of_parts in Hp.
    apply bind_Ok in Hp as (fz & Hfz & Hp).
    apply bind_Ok in Hp as (tz & Htz & Hp).
    apply bind_Ok in Hp as (af & Haf & Hp).
    apply bind_Ok in Hp as (at' & Hat & Hp).
    injection Hp as <- <-.
    set (mask := (λ k0, Qlt_bool (u_mask d k0) (1 # 100))
                   <$> seq 0 (length (concat (rigid_body_index_by_env c)))) in *.
    assert (mask !! k = Some true) as Hmk.
    { unfold mask. rewrite list_lookup_fmap, lookup_seq_lt by exact Hklt.
      simpl. by rewrite Hmask. }
    assert (∀ (A : Type) (vals : list A) (t t' : list A) x,
              index_put (mask_select mask (concat (rigid_body_index_by_env c)))
                (mask_select mask vals) t = Ok t' →
              vals !! k = Some x → t' !! b = Some x) as Hput.
    { intros A vals t t' x Hput Hx.
      unfold index_put in Hput. destruct (forallb _ _) eqn:Hall; [|discriminate].
      injection Hput as <-. rewrite mask_select_zip.
      apply foldl_insert_NoDup.
      - rewrite <- mask_select_zip.
        eapply sublist_NoDup; [|apply zip_fst_sublist].
        eapply sublist_NoDup; [exact Hnd|apply mask_select_sublist].
      - apply elem_of_mask_select. exists k. split; [exact Hmk|].
        apply lookup_zip_with_Some. eauto.
      - rewrite forallb_forall in Hall. apply Nat.ltb_lt, Hall.
        apply list_elem_of_In, elem_of_mask_select. eauto. }
    split.
    + eapply Hput; [exact Haf|].
      apply result_mapM_Ok in Hfz.
      match type of Hfz with Forall2 _ ?l _ =>
        assert (∃ x, l !! e = Some x) as [x0 Hx0]
          by (rewrite list_lookup_imap, Hrow; simpl; eauto);
        pose proof Hx0 as Hx0';
        rewrite list_lookup_imap, Hrow in Hx0'; simpl in Hx0';
        injection Hx0' as Hx0' end.
      destruct (Forall2_lookup_l _ _ _ _ _ Hfz Hx0) as (zrow & Hz & Hzip).
      apply tensor_zip_Ok in Hzip as [_ ->]. subst x0.
      eapply (concat_lookup_uniform w); [|exact Hz|].
      * apply Forall_lookup_2. intros e' zrow Hz'.
        destruct (Forall2_lookup_r _ _ _ _ _ Hfz Hz') as (frow & Hfrow & Hzip).
        apply tensor_zip_Ok in Hzip as [Hl ->].
        rewrite length_zip_with, <- Hl. fold w. lia.
      * apply lookup_zip_with_Some. eexists _, fm. split; [|split; [|exact Hfm]].
        2:{ rewrite list_lookup_imap, Hb. reflexivity. }
        reflexivity.
    + eapply Hput; [exact Hat|].
      apply result_mapM_Ok in Htz.
      match type of Htz with Forall2 _ ?l _ =>
        assert (∃ x, l !! e = Some x) as [x0 Hx0]
          by (rewrite list_lookup_imap, Hrow; simpl; eauto);
        pose proof Hx0 as Hx0';
        rewrite list_lookup_imap, Hrow in Hx0'; simpl in Hx0';
        injection Hx0' as Hx0' end.
      destruct (Forall2_lookup_l _ _ _ _ _ Htz Hx0) as (zrow & Hz & Hzip).
      apply tensor_zip_Ok in Hzip as [_ ->]. subst x0.
      rewrite list_lookup_fmap.
      assert (concat tz !! k = Some (maxt * (u_torque d e p * 2 - 1) * tm)%Q) as ->;
        [|reflexivity].
      eapply (concat_lookup_uniform w); [|exact Hz|].
      * apply Forall_lookup_2. intros e' zrow Hz'.
        destruct (Forall2_lookup_r _ _ _ _ _ Htz Hz') as (trow & Htrow & Hzip).
        apply tensor_zip_Ok in Hzip as [Hl ->].
        apply list_lookup_imap_Some in Htrow as (irow & Hirow & ->).
        eapply Forall_lookup_1 in Hshape as (Hlf' & Hlt' & _); [|exact Hirow].
        rewrite length_zip_with, length_imap. fold w in Hlf'. lia.
      * apply lookup_zip_with_Some. eexists _, tm. split; [|split; [|exact Htm]].
        2:{ rewrite list_lookup_imap, Hb. reflexivity. }
        reflexivity.
  - (* not selected *)
    assert (b ∉ selected_bodies c d) as Hsel.
    { unfold selected_bodies. intros Hin.
      apply elem_of_mask_select in Hin as (k' & Hm' & Hk').
      assert (k' = k) as -> by (eapply NoDup_lookup; eauto).
      rewrite list_lookup_fmap, lookup_seq_lt in Hm' by exact Hklt.
      simpl in Hm'. congruence. }
    destruct (Hout b Hsel) as [-> ->].
    rewrite lookup_replicate_2 by exact Hbc. done.
Qed.

End PerturbationRows.

Lemma X6_witness :
  let c := Demo.plain in
  (config_ok c ∧ 1 < rigid_body_count c)
  ∧ ∃ forces torques fx fy fz tz,
      FurnitureRLSimEnv._random_perturbation_of_parts c (1 # 2) (1 # 100) Demo.draws
        = Ok (forces, torques)
      ∧ forces !! 1 = Some [fx; fy; fz] ∧ (fz == 0)%Q
      ∧ torques !! 1 = Some [0; 0; tz]%Q.
Proof.
  intros c.
  assert (config_ok c) as Hc by (unfold config_ok; solve_shape).
  assert (1 < rigid_body_count c) as Hb by (simpl; lia).
  split; [exact (conj Hc Hb)|].
  exact (X6_perturbation_is_planar c (1 # 2) (1 # 100) Demo.draws 1 Hc Hb).
Defined.

Lemma X7_witness :
  let c := Demo.plain in
  let d := Demo.draws in
  (config_ok c ∧ NoDup (concat (rigid_body_index_by_env c))
   ∧ rigid_body_index_by_env c !! 0 = Some [0; 1; 2] ∧ [0; 1; 2] !! 1 = Some 1
   ∧ force_multiplier c !! 1 = Some 15%Q ∧ torque_multiplier c !! 1 = Some 20%Q)
  ∧ ∃ forces torques,
      FurnitureRLSimEnv._random_perturbation_of_parts c (1 # 2) (1 # 100) d
        = Ok (forces, torques)
      ∧ forces !! 1
        = Some (if Qlt_bool (FurnitureRLSimEnv.u_mask d
                               (0 * length (force_multiplier c) + 1)) (1 # 100)
                then [FurnitureRLSimEnv.u_force d 0 1 * (1 # 2)
                        * cos_2pi (FurnitureRLSimEnv.u_theta d 0 1) * 15;
                      FurnitureRLSimEnv.u_force d 0 1 * (1 # 2)
                        * sin_2pi (FurnitureRLSimEnv.u_theta d 0 1) * 15;
                      0 * 15]%Q
                else [0; 0; 0]%Q)
      ∧ torques !! 1
        = Some (if Qlt_bool (FurnitureRLSimEnv.u_mask d
                               (0 * length (force_multiplier c) + 1)) (1 # 100)
                then [0; 0; (1 # 100) * (FurnitureRLSimEnv.u_torque d 0 1 * 2 - 1) * 20]%Q
                else [0; 0; 0]%Q).
Proof.
  intros c d.
  assert (config_ok c) as Hc by (unfold config_ok; solve_shape).
  assert (NoDup (concat (rigid_body_index_by_env c))) as Hnd.
  { apply (bool_decide_unpack _). vm_compute. exact I. }
  assert (rigid_body_index_by_env c !! 0 = Some [0; 1; 2]) as Hrow by reflexivity.
  assert ([0; 1; 2] !! 1 = Some 1) as Hb by reflexivity.
  assert (force_multiplier c !! 1 = Some 15%Q) as Hfm by reflexivity.
  assert (torque_multiplier c !! 1 = Some 20%Q) as Htm by reflexivity.
  split; [exact (conj Hc (conj Hnd (conj Hrow (conj Hb (conj Hfm Htm)))))|].
  exact (X7_perturbation_applies_own_draw c (1 # 2) (1 # 100) d 0 1 1 [0; 1; 2] 15 20
           Hc Hnd Hrow Hb Hfm Htm).
Defined.

(** ** Frames, the other way round *)

Section Frames.
Context {RelPose : Type} `{!ControlUtils RelPose}.
Import FurnitureSimEnv.
Implicit Types (c : Config RelPose).


End Frames.


(** ** When a pair latches *)

Lemma view_chunks_concat {A : Type} (w : nat) (poses : list (list A)) :
  Forall (λ p, length p = w) poses →
  view_chunks w (length poses) (concat poses) = poses.
Proof.
  induction 1 as [|p poses Hp _ IH]; simpl; [done|].
  rewrite take_app_length' by (by symmetry). rewrite drop_app_length' by (by symmetry).
  by rewrite IH.
Qed.

Section LatchCriterion.
Context {RelPose : Type} `{!ControlUtils RelPose}.
Import FurnitureSimEnv FurnitureRLSimEnv.
Implicit Types (c : Config RelPose) (s : State).

(** One pair: the latch of column [i] becomes [old || match], where [match]
    is what [assembled_any] answers for the environment. *)
Lemma reward_pair_match c pp newly aa i pr newly' aa' :
  reward_pair c pp (newly, aa) (i, pr) = Ok (newly', aa') →
  ∃ any_match,
    result_mapM (assembled_any c i pr) pp = Ok any_match
    ∧ ∀ e old, entry aa e i = Some old →
        ∃ m, any_match !! e = Some m ∧ entry aa' e i = Some (old || m).
Proof.
  unfold reward_pair. intros H.
  apply bind_Ok in H as (any_match & Hm & H).
  apply bind_Ok in H as (old & Hold & H).
  apply bind_Ok in H as (new & Hnew & H).
  apply bind_Ok in H as (newly1 & Hset1 & H).
  apply bind_Ok in H as (new' & Hnew' & H).
  apply bind_Ok in H as (upd & Hupd & H).
  apply bind_Ok in H as (aa1 & Hset2 & H).
  injection H as <- <-.
  exists any_match. split; [exact Hm|]. intros e o Ho.
  apply get_col_lookup in Hold as [Hlen_old Hold].
  apply tensor_zip_Ok in Hnew as [Hlen_m ->].
  apply set_col_entry in Hset1 as [Hlen1 Hent1].
  apply get_col_lookup in Hnew' as [Hlen_new' Hnew'].
  apply tensor_zip_Ok in Hupd as [Hlen_u ->].
  apply set_col_entry in Hset2 as [Hlen2 Hent2].
  assert (old !! e = Some o) as Holde by (rewrite Hold; exact Ho).
  assert (e < length any_match) as He.
  { rewrite Hlen_m, length_fmap. by eapply lookup_lt_Some. }
  destruct (lookup_lt_is_Some_2 _ _ He) as [m Hmm].
  exists m. split; [exact Hmm|].
  rewrite Hent2, decide_True by reflexivity.
  apply lookup_zip_with_Some. exists o, (m && negb o).
  split; [by destruct o, m|]. split; [exact Holde|].
  rewrite Hnew', Hent1, decide_True by reflexivity.
  apply lookup_zip_with_Some. exists m, (negb o).
  rewrite list_lookup_fmap, Holde. done.
Qed.

Lemma reward_loop_match c pp pairs : ∀ j i newly0 aa0 newly aa pr e old,
  result_foldM (reward_pair c pp) (zip (seq j (length pairs)) pairs) (newly0, aa0)
    = Ok (newly, aa) →
  pairs !! i = Some pr → entry aa0 e (j + i) = Some old →
  ∃ any_match m,
    result_mapM (assembled_any c (j + i) pr) pp = Ok any_match
    ∧ any_match !! e = Some m ∧ entry aa e (j + i) = Some (old || m).
Proof.
  induction pairs as [|pr0 pairs IH]; intros j i newly0 aa0 newly aa pr e old H Hi Hold;
    [done|].
  simpl in H. apply bind_Ok in H as ([newly1 aa1] & Hbody & H).
  destruct i as [|i]; simpl in Hi.
  - injection Hi as ->. rewrite Nat.add_0_r in *.
    apply reward_pair_match in Hbody as (any_match & Hany & Hbody).
    destruct (Hbody e old Hold) as (m & Hm & Hent).
    exists any_match, m. split; [exact Hany|]. split; [exact Hm|].
    apply reward_loop_spec in H as (_ & _ & _ & _ & Hrest).
    specialize (Hrest e j). rewrite decide_False in Hrest by lia.
    destruct Hrest as [_ ->]. exact Hent.
  - apply reward_pair_spec in Hbody as (_ & _ & _ & _ & Hbody).
    specialize (Hbody e (j + S i)). rewrite decide_False in Hbody by lia.
    destruct Hbody as [_ Hsame].
    replace (j + S i) with (S j + i) in * by lia.
    eapply IH; [exact H|exact Hi|]. by rewrite Hsame.
Qed.

(** The poses [_reward] compares are the first seven numbers of the rigid
    body rows of the parts. *)
Lemma gather_poses_lookup (rb : list (list Q)) (idxs : list (list nat)) pp e env_poses :
  gather_poses rb idxs = Ok pp → pp !! e = Some env_poses →
  ∃ row, idxs !! e = Some row
    ∧ Forall2 (λ i pose, ∃ body, rb !! i = Some body ∧ pose = take 7 body) row env_poses.
Proof.
  unfold gather_poses. intros H He. apply result_mapM_Ok in H.
  destruct (Forall2_lookup_r _ _ _ _ _ H He) as (row & Hrow & Hrowm).
  exists row. split; [exact Hrow|].
  apply result_mapM_Ok in Hrowm. eapply Forall2_impl; [exact Hrowm|].
  intros i pose Hget. simpl in Hget.
  apply fmap_Ok in Hget as (body & Hbody%index_get_Ok & ->). eauto.
Qed.

Lemma _reward_latch c s r s' e k pr old :
  config_ok c → state_ok c s → _reward c s = Ok (r, s') →
  e < num_envs c → pairs_to_assemble c !! k = Some pr →
  entry (already_assembled s) e k = Some old →
  ∃ row env_poses m,
    furniture_rb_indices c !! e = Some row
    ∧ Forall2 (λ i pose, ∃ body, rb_states s !! i = Some body ∧ pose = take 7 body)
        row env_poses
    ∧ assembled_any c k pr env_poses = Ok m
    ∧ entry (already_assembled s') e k = Some (old || m).
Proof.
  intros Hc Hs H He Hk Hold. pose proof Hc as (Hlen & Hrows & _).
  pose proof Hs as ((Hrb & Hrb13) & _).
  unfold _reward, get_parts_poses in H.
  destruct (gather_poses_total (rb_states s) (furniture_rb_indices c)) as [pp Hpp].
  { eapply Forall_impl; [exact Hrows|]. intros row [_ Hrow]. by rewrite Hrb. }
  rewrite Hpp in H. cbn [mbind result_bind] in H.
  destruct (gather_poses_shape _ _ pp (num_parts c) Hpp Hrb13) as [Hl Hshape].
  { eapply Forall_impl; [exact Hrows|]. by intros row [? _]. }
  unfold reshape_rows, view_rows in H.
  rewrite length_map, Hl, Hlen, Nat.eqb_refl in H.
  cbn [fmap result_fmap mbind result_bind] in H.
  set (rows := map (λ env_poses, concat env_poses) pp) in *.
  set (np := length (default [] (head rows)) / 7) in *.
  assert (np = num_parts c) as Hnp.
  { destruct pp as [|ep0 pp']; [simpl in Hl; lia|].
    change (length (concat ep0) / 7 = num_parts c).
    apply Forall_cons in Hshape as [[Hn H7] _].
    rewrite (concat_length_uniform 7) by exact H7. rewrite Hn.
    apply Nat.div_mul. done. }
  assert (result_mapM (λ row, if length row =? np * 7
                              then Ok (view_chunks 7 np row)
                              else Raise RuntimeError) rows = Ok pp) as Hview.
  { rewrite view_mapM_total.
    - f_equal. unfold rows. rewrite map_map. rewrite <- (map_id pp) at 2.
      apply map_ext_Forall. eapply Forall_impl; [exact Hshape|].
      intros env_poses [Hn H7]. simpl. rewrite Hnp, <- Hn.
      by apply view_chunks_concat.
    - unfold rows. apply Forall_fmap. eapply Forall_impl; [exact Hshape|].
      intros env_poses [Hn H7]. simpl.
      rewrite (concat_length_uniform 7) by exact H7. by rewrite Hn, Hnp. }
  rewrite Hview in H. cbn [mbind result_bind] in H.
  apply bind_Ok in H as ([newly aa] & Hloop & H).
  rewrite imap_pairs in Hloop.
  assert (already_assembled s' = aa) as ->.
  { simpl in H. destruct (manual_done c && _); injection H as _ <-; done. }
  destruct (reward_loop_match _ _ _ 0 k _ _ _ _ pr e old Hloop Hk Hold)
    as (any_match & m & Hany & Hm & Hent).
  simpl in Hany, Hent.
  apply result_mapM_Ok in Hany.
  destruct (Forall2_lookup_r _ _ _ _ _ Hany Hm) as (env_poses & Hep & Hmatch).
  destruct (gather_poses_lookup _ _ _ _ _ Hpp Hep) as (row & Hrow & Hposes).
  exists row, env_poses, m. done.
Qed.

(** X9: the latch of pair [k] of environment [e] after a step is its value
    before the step or'ed with the answer of the pose test on the rigid body
    tensor the engine returns for that step: taking as pose of each part of
    the environment the first seven numbers of its rigid body row, the
    relative pose of the two parts of the pair matches one of the pair's
    assembled poses. *)
Theorem X9_latch_follows_engine_poses c s inp (e k : nat) (pr : nat * nat) :
  config_ok c → state_ok c s → input_ok c inp →
  e < num_envs c → pairs_to_assemble c !! k = Some pr →
  ∃ o s' old row env_poses m,
    step c s inp = Ok (o, s')
    ∧ entry (already_assembled s) e k = Some old
    ∧ furniture_rb_indices c !! e = Some row
    ∧ Forall2 (λ i pose, ∃ body, engine_rb inp !! i = Some body ∧ pose = take 7 body)
        row env_poses
    ∧ assembled_any c k pr env_poses = Ok m
    ∧ entry (already_assembled s') e k = Some (old || m).
Proof.
  intros Hc Hs Hi He Hk.
  destruct (step_total c s inp Hc Hs Hi) as (o & s' & Hstep).
  pose proof (step_frame _ _ _ _ _ Hstep) as
    (s1 & s2 & Hsim & Hrew & _ & Haa1 & Haa' & _).
  assert (state_ok c s1 ∧ rb_states s1 = engine_rb inp) as [Hs1 Hrb1].
  { pose proof (simulate_step_spec _ _ _ _ _ _ Hsim)
      as (grasp & any_u & rest & s0 & Hgl & _ & Hb & -> & _).
    split; [|reflexivity].
    pose proof (handle_bulb_moving_ok _ _ _ _ _ Hb) as Hmv.
    apply handle_bulb_frame in Hb as [mb ->].
    destruct Hs as (_ & ? & ? & ? & ? & Hm), Hi as (_ & _ & ?).
    unfold state_ok. simpl in *.
    split; [done|]. split; [done|]. split; [done|]. split; [done|].
    split; [done|]. by apply Hmv. }
  assert (∃ old, entry (already_assembled s) e k = Some old) as [old Hold].
  { destruct Hs as (_ & Hl & Hr & _).
    destruct (lookup_lt_is_Some_2 (already_assembled s) e ltac:(lia)) as [arow Harow].
    eapply Forall_lookup_1 in Hr; [|exact Harow]. simpl in Hr.
    apply lookup_lt_Some in Hk.
    destruct (lookup_lt_is_Some_2 arow k ltac:(lia)) as [old Hold].
    exists old. unfold entry. rewrite Harow. exact Hold. }
  rewrite <- Haa1 in Hold.
  destruct (_reward_latch c s1 _ s2 e k pr old Hc Hs1 Hrew He Hk Hold)
    as (row & env_poses & m & Hrow & Hposes & Hany & Hent).
  rewrite Hrb1 in Hposes. rewrite Haa1 in Hold. rewrite <- Haa' in Hent.
  exists o, s', old, row, env_poses, m. done.
Qed.

End LatchCriterion.

(** ** Episodes: reward budget, termination, horizon *)

Lemma tensor_sum_cons (b : bool) (r : list bool) :
  tensor_sum (b :: r) = (if b then 1 else 0) + tensor_sum r.
Proof.
  unfold tensor_sum. destruct b.
  - rewrite filter_cons_True by done. reflexivity.
  - rewrite filter_cons_False by done. reflexivity.
Qed.

Lemma tensor_sum_le_length (r : list bool) : tensor_sum r ≤ length r.
Proof.
  induction r as [|b r IH]; [done|]. rewrite tensor_sum_cons. destruct b; simpl; lia.
Qed.

(** Setting bits only raises the count, strictly when a bit is new. *)
Lemma tensor_sum_mono (r : list bool) : ∀ r',
  length r = length r' →
  (∀ k, r !! k = Some true → r' !! k = Some true) →
  tensor_sum r ≤ tensor_sum r'
  ∧ ∀ k, r !! k = Some false → r' !! k = Some true → tensor_sum r < tensor_sum r'.
Proof.
  induction r as [|b r IH]; intros [|b' r'] Hlen Hkeep; try discriminate.
  - split; [done|]. intros k Hk. done.
  - simpl in Hlen. destruct (IH r') as [Hle Hlt]; [lia| |].
    { intros k Hk. exact (Hkeep (S k) Hk). }
    rewrite !tensor_sum_cons. split.
    + destruct b.
      * pose proof (Hkeep 0 eq_refl) as H0. injection H0 as ->. simpl. lia.
      * destruct b'; simpl; lia.
    + intros [|k] Hk Hk'; simpl in Hk, Hk'.
      * injection Hk as ->. injection Hk' as ->. simpl. lia.
      * specialize (Hlt k Hk Hk').
        destruct b; [|destruct b'; simpl; lia].
        pose proof (Hkeep 0 eq_refl) as H0. injection H0 as ->. simpl. lia.
Qed.

Section Episodes.
Context {RelPose : Type} `{!ControlUtils RelPose}.
Import FurnitureSimEnv FurnitureRLSimEnv.
Implicit Types (c : Config RelPose) (s : State).

(** What one step does to the latches of an environment, row by row. *)
Lemma step_rows c s inp o s' e :
  state_ok c s → e < num_envs c → step c s inp = Ok (o, s') →
  ∃ row row' nrow,
    already_assembled s !! e = Some row ∧ already_assembled s' !! e = Some row'
    ∧ length row = length (pairs_to_assemble c) ∧ length row' = length row
    ∧ (∀ k, row !! k = Some true → row' !! k = Some true)
    ∧ (∀ k, nrow !! k = Some true ↔ row !! k = Some false ∧ row' !! k = Some true)
    ∧ terminated o
      = (if manual_done c then replicate (num_envs c) false
         else (λ r, tensor_sum r =? length (pairs_to_assemble c)) <$> already_assembled s')
    ∧ truncated o
      = (if manual_done c then replicate (num_envs c) false
         else (λ n, (max_env_steps c - 1 <=? n)%Z) <$> env_steps s)
    ∧ env_steps s' = (λ n, wrap32 (n + 1)) <$> env_steps s
    ∧ (reward o = None ∧ manual_done c = true
       ∨ reward o ≫= (.!! e) = Some (if tensor_any nrow then 1%Q else 0%Q)).
Proof.
  intros (_ & Hlaa & Hraa & _) He Hstep.
  destruct (step_frame _ _ _ _ _ Hstep)
    as (s1 & s2 & _ & Hr & Hd & Haa1 & Haa' & Hsteps2 & Hsteps' & _).
  apply _reward_spec in Hr as (newly & Hs2 & Hl2 & Hrows2 & Hln & Hkeep & Hnew & Hrew).
  rewrite Haa1 in Hl2, Hrows2, Hkeep, Hnew. rewrite <- Haa' in Hl2, Hrows2, Hkeep, Hnew.
  specialize (Hrows2 _ Hraa).
  destruct (lookup_lt_is_Some_2 (already_assembled s) e ltac:(lia)) as [row Hrow].
  destruct (lookup_lt_is_Some_2 (already_assembled s') e ltac:(lia)) as [row' Hrow'].
  destruct (lookup_lt_is_Some_2 newly e ltac:(lia)) as [nrow Hnrow].
  exists row, row', nrow.
  pose proof (Forall_lookup_1 _ _ _ _ Hraa Hrow) as Hlr.
  pose proof (Forall_lookup_1 _ _ _ _ Hrows2 Hrow') as Hlr'. simpl in Hlr, Hlr'.
  split; [exact Hrow|]. split; [exact Hrow'|]. split; [exact Hlr|].
  split; [congruence|]. split; [|split; [|split; [|split; [|split; [exact Hsteps'|]]]]].
  - intros k Hk. specialize (Hkeep e k). unfold entry in Hkeep.
    rewrite Hrow, Hrow' in Hkeep. by apply Hkeep.
  - intros k. specialize (Hnew e k). unfold entry in Hnew.
    rewrite Hrow, Hrow', Hnrow in Hnew. exact Hnew.
  - unfold _done in Hd. rewrite <- Haa' in Hd.
    destruct (manual_done c); by injection Hd as -> _.
  - unfold _done in Hd. rewrite Hsteps2 in Hd.
    destruct (manual_done c); by injection Hd as _ ->.
  - rewrite Hrew. destruct (manual_done c && _) eqn:E.
    + left. split; [reflexivity|]. by apply andb_true_iff in E as [-> _].
    + right. simpl. unfold rewards_of. by rewrite list_lookup_fmap, Hnrow.
Qed.

Lemma step_earned c s inp o s' e :
  state_ok c s → e < num_envs c → step c s inp = Ok (o, s') →
  earned o e + latched_count s e ≤ latched_count s' e.
Proof.
  intros Hs He Hstep.
  destruct (step_rows _ _ _ _ _ e Hs He Hstep)
    as (row & row' & nrow & Hrow & Hrow' & _ & Hlen & Hkeep & Hnew & _ & _ & _ & Hrew).
  unfold latched_count, earned. rewrite Hrow, Hrow'. simpl.
  destruct (tensor_sum_mono row row' ltac:(lia) Hkeep) as [Hle Hlt].
  destruct Hrew as [[-> _]| ->]; [simpl; lia|].
  destruct (tensor_any nrow) eqn:Hany; [|simpl; lia].
  unfold tensor_any in Hany. apply existsb_exists in Hany as (b & Hin & Hb).
  unfold id in Hb. subst b.
  apply list_elem_of_In, list_elem_of_lookup in Hin as [k Hk].
  apply Hnew in Hk as [Hk Hk']. specialize (Hlt k Hk Hk').
  change (Qeq_bool 1 1) with true. simpl. lia.
Qed.

Lemma run_steps_total c : ∀ inps s,
  config_ok c → state_ok c s → Forall (input_ok c) inps →
  ∃ outs s', run c s (CallStep <$> inps) = Ok (outs, s') ∧ length outs = length inps.
Proof.
  induction inps as [|inp inps IH]; intros s Hc Hs Hin.
  - exists [], s. done.
  - apply Forall_cons in Hin as [Hi Hin].
    destruct (step_total c s inp Hc Hs Hi) as (o & s1 & Hstep).
    pose proof (step_state_ok _ _ _ _ _ Hs Hi Hstep) as Hs1.
    destruct (IH s1 Hc Hs1 Hin) as (outs & s' & Hrun & Hlen).
    exists (o :: outs), s'. split; [|simpl; by rewrite Hlen].
    rewrite fmap_cons. cbn [run]. rewrite Hstep. cbn [mbind result_bind fst snd].
    rewrite Hrun. reflexivity.
Qed.

(** X10: between two resets an environment is paid at most once per pair:
    over any sequence of step calls, the number of calls that pay
    environment [e] a reward of 1 is at most the number of pairs latched
    during the sequence, hence at most the number of pairs to assemble minus
    those latched at the start. *)
Theorem X10_reward_budget c s (inps : list StepInput) (e : nat) :
  config_ok c → state_ok c s → Forall (input_ok c) inps → e < num_envs c →
  ∃ outs s',
    run c s (CallStep <$> inps) = Ok (outs, s')
    ∧ length outs = length inps
    ∧ sum_list ((λ o, earned o e) <$> outs) + latched_count s e ≤ latched_count s' e
    ∧ latched_count s' e ≤ length (pairs_to_assemble c).
Proof.
  intros Hc Hs Hin He. revert s Hs.
  induction Hin as [|inp inps Hi _ IH]; intros s Hs.
  - exists [], s. split; [reflexivity|]. split; [reflexivity|]. split; [simpl; lia|].
    unfold latched_count. destruct Hs as (_ & Hl & Hr & _).
    destruct (already_assembled s !! e) as [row|] eqn:Hrow; simpl; [|unfold tensor_sum; simpl; lia].
    eapply Forall_lookup_1 in Hr; [|exact Hrow]. simpl in Hr.
    rewrite <- Hr. apply tensor_sum_le_length.
  - destruct (step_total c s inp Hc Hs Hi) as (o & s1 & Hstep).
    pose proof (step_state_ok _ _ _ _ _ Hs Hi Hstep) as Hs1.
    destruct (IH s1 Hs1) as (outs & s' & Hrun & Hlen & Hsum & Hbound).
    exists (o :: outs), s'. split.
    { rewrite fmap_cons. cbn [run]. rewrite Hstep. cbn [mbind result_bind fst snd].
      rewrite Hrun. reflexivity. }
    split; [simpl; by rewrite Hlen|]. split; [|exact Hbound].
    pose proof (step_earned _ _ _ _ _ e Hs He Hstep).
    change (sum_list ((λ o, earned o e) <$> o :: outs))
      with (earned o e + sum_list ((λ o, earned o e) <$> outs)).
    lia.
Qed.

(** All pairs of environment [e] are latched. *)
Lemma step_all_latched c s inp o s' e :
  state_ok c s → e < num_envs c → manual_done c = false →
  step c s inp = Ok (o, s') →
  ∃ te, terminated o !! e = Some te
    ∧ (te = true ↔ latched_count s' e = length (pairs_to_assemble c))
    ∧ (latched_count s e = length (pairs_to_assemble c) →
       te = true ∧ ∃ r, reward o = Some r ∧ r !! e = Some 0%Q).
Proof.
  intros Hs He Hman Hstep.
  destruct (step_rows _ _ _ _ _ e Hs He Hstep)
    as (row & row' & nrow & Hrow & Hrow' & Hlr & Hlen & Hkeep & Hnew & Hterm & _ & _ & Hrew).
  rewrite Hman in Hterm.
  exists (tensor_sum row' =? length (pairs_to_assemble c)).
  split; [by rewrite Hterm, list_lookup_fmap, Hrow'|].
  unfold latched_count. rewrite Hrow, Hrow'. simpl.
  split; [apply Nat.eqb_eq|]. intros Hfull.
  destruct (tensor_sum_mono row row' ltac:(lia) Hkeep) as [Hle Hlt].
  pose proof (tensor_sum_le_length row') as Hmax.
  split; [apply Nat.eqb_eq; lia|].
  destruct Hrew as [[_ Hm]|Hrew]; [congruence|].
  destruct (reward o) as [r|]; [|discriminate]. exists r. split; [reflexivity|].
  simpl in Hrew. rewrite Hrew. f_equal.
  destruct (tensor_any nrow) eqn:Hany; [|reflexivity]. exfalso.
  unfold tensor_any in Hany. apply existsb_exists in Hany as (b & Hin & Hb).
  unfold id in Hb. subst b.
  apply list_elem_of_In, list_elem_of_lookup in Hin as [k Hk].
  apply Hnew in Hk as [Hk Hk']. specialize (Hlt k Hk Hk'). lia.
Qed.

Lemma run_steps_all_latched c : ∀ inps s outs s' e,
  state_ok c s → Forall (input_ok c) inps → e < num_envs c → manual_done c = false →
  run c s (CallStep <$> inps) = Ok (outs, s') →
  latched_count s e = length (pairs_to_assemble c) →
  Forall (λ o, terminated o !! e = Some true
               ∧ ∃ r, reward o = Some r ∧ r !! e = Some 0%Q) outs.
Proof.
  induction inps as [|inp inps IH]; intros s outs s' e Hs Hin He Hman Hrun Hfull.
  - simpl in Hrun. injection Hrun as <- _. constructor.
  - apply run_steps_cons in Hrun as (o & s1 & outs1 & Hstep & Hrun & ->).
    apply Forall_cons in Hin as [Hi Hin].
    destruct (step_all_latched _ _ _ _ _ e Hs He Hman Hstep) as (te & Hte & Hiff & Hkeep).
    destruct (Hkeep Hfull) as [-> Hr].
    constructor; [done|].
    eapply (IH s1 outs1 s' e);
      [eapply step_state_ok; eauto|exact Hin|exact He|exact Hman|exact Hrun
      |by apply Hiff].
Qed.

(** X11: outside manual-override mode, once a step call reports environment
    [e] terminated, every later step call (as long as nothing is reset)
    reports it terminated again and pays it reward 0. *)
Theorem X11_terminated_is_absorbing c s (inps : list StepInput) (e i j : nat) :
  config_ok c → state_ok c s → Forall (input_ok c) inps →
  manual_done c = false → e < num_envs c → i < j →
  ∃ outs s',
    run c s (CallStep <$> inps) = Ok (outs, s')
    ∧ ∀ oi oj, outs !! i = Some oi → outs !! j = Some oj →
        terminated oi !! e = Some true →
        terminated oj !! e = Some true
        ∧ ∃ r, reward oj = Some r ∧ r !! e = Some 0%Q.
Proof.
  intros Hc Hs Hin Hman He Hij.
  destruct (run_total c (CallStep <$> inps) s Hc Hs) as (outs & s' & Hrun).
  { apply Forall_fmap. eapply Forall_impl; [exact Hin|]. done. }
  exists outs, s'. split; [exact Hrun|]. clear Hc.
  revert s outs i j Hs Hin Hij Hrun.
  induction inps as [|inp inps IH]; intros s outs i j Hs Hin Hij Hrun oi oj Hi Hj Hterm.
  - simpl in Hrun. injection Hrun as <- _. done.
  - apply run_steps_cons in Hrun as (o & s1 & outs1 & Hstep & Hrun & ->).
    apply Forall_cons in Hin as [Hinp Hin].
    pose proof (step_state_ok _ _ _ _ _ Hs Hinp Hstep) as Hs1.
    destruct j as [|j]; [lia|]. simpl in Hj.
    destruct i as [|i]; simpl in Hi.
    + injection Hi as ->.
      destruct (step_all_latched _ _ _ _ _ e Hs He Hman Hstep) as (te & Hte & Hiff & _).
      rewrite Hterm in Hte. injection Hte as <-.
      pose proof (run_steps_all_latched _ _ _ _ _ e Hs1 Hin He Hman Hrun
                    (proj1 Hiff eq_refl)) as Hall.
      by eapply Forall_lookup_1 in Hall.
    + eapply (IH s1 outs1 i j); eauto. lia.
Qed.

Lemma run_steps_counter c : ∀ inps s outs s' e n,
  state_ok c s → Forall (input_ok c) inps → e < num_envs c → manual_done c = false →
  run c s (CallStep <$> inps) = Ok (outs, s') →
  counters_fit s (length inps) → env_steps s !! e = Some n →
  env_steps s' !! e = Some (n + Z.of_nat (length inps))%Z
  ∧ ∀ i o, outs !! i = Some o →
      truncated o !! e = Some (max_env_steps c - 1 <=? n + Z.of_nat i)%Z.
Proof.
  induction inps as [|inp inps IH]; intros s outs s' e n Hs Hin He Hman Hrun Hfit Hn.
  - simpl in Hrun. injection Hrun as <- <-. simpl. rewrite Z.add_0_r. done.
  - apply run_steps_cons in Hrun as (o & s1 & outs1 & Hstep & Hrun & ->).
    apply Forall_cons in Hin as [Hinp Hin].
    pose proof (step_state_ok _ _ _ _ _ Hs Hinp Hstep) as Hs1.
    destruct (counters_fit_step _ _ _ _ _ _ Hstep Hfit) as [Hfit1 Hfit'].
    destruct (step_rows _ _ _ _ _ e Hs He Hstep)
      as (row & row' & nrow & _ & _ & _ & _ & _ & _ & _ & Htrunc & Hsteps & _).
    rewrite Hman in Htrunc.
    assert (env_steps s1 !! e = Some (n + 1)%Z) as Hn1.
    { rewrite Hsteps, list_lookup_fmap, Hn. simpl. f_equal.
      eapply Forall_lookup_1 in Hfit1; [|exact Hn]. simpl in Hfit1.
      unfold wrap32. rewrite Z.mod_small by lia. lia. }
    destruct (IH s1 outs1 s' e (n + 1)%Z Hs1 Hin He Hman Hrun Hfit' Hn1) as [Hend Hall].
    split.
    + rewrite Hend. f_equal. cbn [length]. lia.
    + intros [|i] oi Hi; simpl in Hi.
      * injection Hi as Hio. subst oi. rewrite Htrunc, list_lookup_fmap, Hn. simpl.
        by rewrite Z.add_0_r.
      * rewrite (Hall i oi Hi). do 2 f_equal. lia.
Qed.

(** X12: outside manual-override mode the step counter of an environment
    counts the step calls since it was last set: the call number [i] (from 0)
    of a sequence started with the counter at [n] reports the environment
    truncated exactly when [n + i >= max_env_steps - 1], and the sequence
    leaves the counter at [n] plus its length. Nothing but [reset] takes the
    counter back, so truncation is reported again on every later call. *)
Theorem X12_truncation_counts_steps c s (inps : list StepInput) (e i : nat) (n : Z) :
  config_ok c → state_ok c s → Forall (input_ok c) inps → manual_done c = false →
  counters_fit s (length inps) → env_steps s !! e = Some n → i < length inps →
  ∃ outs s' o,
    run c s (CallStep <$> inps) = Ok (outs, s')
    ∧ outs !! i = Some o
    ∧ truncated o !! e = Some (max_env_steps c - 1 <=? n + Z.of_nat i)%Z
    ∧ env_steps s' !! e = Some (n + Z.of_nat (length inps))%Z.
Proof.
  intros Hc Hs Hin Hman Hfit Hn Hi.
  destruct (run_steps_total c inps s Hc Hs Hin) as (outs & s' & Hrun & Hlen).
  assert (e < num_envs c) as He.
  { destruct Hs as (_ & _ & _ & <- & _). by eapply lookup_lt_Some. }
  destruct (run_steps_counter _ _ _ _ _ e n Hs Hin He Hman Hrun Hfit Hn) as [Hend Hall].
  destruct (lookup_lt_is_Some_2 outs i ltac:(lia)) as [o Ho].
  exists outs, s', o. split; [exact Hrun|]. split; [exact Ho|].
  split; [by apply Hall|exact Hend].
Qed.

End Episodes.

(** ** Reset and the bulbs *)

Section ResetBulbs.
Context {RelPose : Type} `{!ControlUtils RelPose}.
Import FurnitureSimEnv FurnitureRLSimEnv.
Implicit Types (c : Config RelPose) (s : State).

Lemma hand_bulb_close_total c s e :
  config_ok c → furniture_name c = "lamp" → rb_ok c (rb_states s) → e < num_envs c →
  ∃ cl, hand_bulb_close c s e = Some cl.
Proof.
  intros (_ & _ & _ & _ & Hlamp & _) Hname [Hrb _] He.
  destruct (Hlamp Hname) as (Hlb & Hbb & Hle & Heb).
  unfold hand_bulb_close.
  destruct (lookup_lt_is_Some_2 (lamp_bulb_rb_indices c) e ltac:(lia)) as [kb Hkb].
  destruct (lookup_lt_is_Some_2 (ee_idxs c) e ltac:(lia)) as [kh Hkh].
  rewrite Hkb, Hkh. simpl.
  eapply Forall_lookup_1 in Hbb; [|exact Hkb].
  eapply Forall_lookup_1 in Heb; [|exact Hkh]. simpl in Hbb, Heb.
  destruct (lookup_lt_is_Some_2 (rb_states s) kb ltac:(lia)) as [lb ->].
  destruct (lookup_lt_is_Some_2 (rb_states s) kh ltac:(lia)) as [hand ->].
  simpl. eauto.
Qed.

Lemma reset_lamp_moving c s env_idxs rb s1 :
  furniture_name c = "lamp" → reset c s env_idxs rb = Ok s1 →
  _moving_bulbs s1 = Some (replicate (num_envs c) false) ∧ rb_states s1 = rb.
Proof.
  intros Hname H. unfold reset in H.
  destruct (length _ =? 0); [discriminate|].
  apply bind_Ok in H as (aa & _ & H). apply bind_Ok in H as (steps & _ & H).
  injection H as <-. rewrite Hname. done.
Qed.

(** X13: in the lamp task any call of [reset], whichever environments it
    names, re-arms the rest pose of every bulb: on the next step the bulb of
    every environment [e], also one that was released before and is not named
    in the reset, is rewritten in each substep exactly when no step counter is
    past half of the horizon and the hand of [e] is away from its bulb. *)
Theorem X13_reset_rearms_every_bulb c s (env_idxs : option (list Z))
    (rb : list (list Q)) (inp : StepInput) (e : nat) :
  config_ok c → furniture_name c = "lamp" → state_ok c s →
  idxs_ok (num_envs c) env_idxs → rb_ok c rb → input_ok c inp → e < num_envs c →
  ∃ s1 o s2 cl,
    reset c s env_idxs rb = Ok s1
    ∧ step c s1 inp = Ok (o, s2)
    ∧ hand_bulb_close c s1 e = Some cl
    ∧ Forall (λ sub, holds_bulb sub e = bool_decide (first_half c s1) && negb cl)
        (substeps (sim o)).
Proof.
  intros Hc Hname Hs Hidx Hrb Hi He.
  pose proof Hs as (_ & Hlaa & _ & Hlst & _).
  destruct (reset_total c s env_idxs rb Hlaa Hlst Hidx) as [s1 Hreset].
  pose proof (reset_state_ok _ _ _ _ _ Hs Hrb Hreset) as Hs1.
  destruct (reset_lamp_moving _ _ _ _ _ Hname Hreset) as [Hmv Hrb1].
  destruct (step_total c s1 inp Hc Hs1 Hi) as (o & s2 & Hstep).
  destruct (hand_bulb_close_total c s1 e Hc Hname (proj1 Hs1) He) as [cl Hcl].
  exists s1, o, s2, cl. split; [exact Hreset|]. split; [exact Hstep|].
  split; [exact Hcl|].
  destruct (step_bulbs _ _ _ _ _ Hstep) as (sub & -> & _ & Hclosed & Hopen).
  apply Forall_replicate.
  destruct (decide (first_half c s1)) as [Hhalf|Hhalf].
  - rewrite bool_decide_eq_true_2 by exact Hhalf.
    destruct (Hopen Hname Hhalf) as (m & m' & Hm & _ & Hall & _).
    destruct (Hall e He) as (mv & cl' & Hmve & Hcl' & _ & ->).
    rewrite Hmv in Hm. injection Hm as <-.
    apply lookup_replicate in Hmve as [-> _].
    rewrite Hcl in Hcl'. injection Hcl' as <-. reflexivity.
  - rewrite bool_decide_eq_false_2 by exact Hhalf.
    destruct (Hclosed (or_intror Hhalf)) as [-> _]. reflexivity.
Qed.

End ResetBulbs.

Lemma X9_witness :
  let c := Demo.plain in
  let s := Demo.ready c in
  let inp := Demo.step_to (-1) (-1) Demo.bulb_in Demo.apart in
  (config_ok c ∧ state_ok c s ∧ input_ok c inp ∧ 0 < num_envs c
   ∧ pairs_to_assemble c !! 0 = Some (0, 1))
  ∧ ∃ o s' old row env_poses m,
      FurnitureRLSimEnv.step c s inp = Ok (o, s')
      ∧ entry (already_assembled s) 0 0 = Some old
      ∧ furniture_rb_indices c !! 0 = Some row
      ∧ Forall2 (λ i pose, ∃ body, FurnitureRLSimEnv.engine_rb inp !! i = Some body
                                   ∧ pose = take 7 body) row env_poses
      ∧ FurnitureRLSimEnv.assembled_any c 0 (0, 1) env_poses = Ok m
      ∧ entry (already_assembled s') 0 0 = Some (old || m).
Proof.
  intros c s inp.
  assert (config_ok c) as Hc by (unfold config_ok; solve_shape).
  assert (state_ok c s) as Hs by (unfold state_ok, rb_ok; solve_shape).
  assert (input_ok c inp) as Hi by (unfold input_ok, rb_ok; solve_shape).
  assert (0 < num_envs c) as He by (simpl; lia).
  assert (pairs_to_assemble c !! 0 = Some (0, 1)) as Hk by reflexivity.
  split; [exact (conj Hc (conj Hs (conj Hi (conj He Hk))))|].
  exact (X9_latch_follows_engine_poses c s inp 0 0 (0, 1) Hc Hs Hi He Hk).
Defined.

Lemma X10_witness :
  let c := Demo.plain in
  let s := Demo.ready c in
  let inps := [Demo.step_to (-1) (-1) Demo.bulb_in Demo.apart;
               Demo.step_to (-1) (-1) Demo.apart Demo.apart;
               Demo.step_to (-1) (-1) Demo.joined Demo.apart] in
  (config_ok c ∧ state_ok c s ∧ Forall (input_ok c) inps ∧ 0 < num_envs c)
  ∧ ∃ outs s',
      FurnitureRLSimEnv.run c s (FurnitureRLSimEnv.CallStep <$> inps) = Ok (outs, s')
      ∧ length outs = length inps
      ∧ sum_list ((λ o, earned o 0) <$> outs) + latched_count s 0 ≤ latched_count s' 0
      ∧ latched_count s' 0 ≤ length (pairs_to_assemble c).
Proof.
  intros c s inps.
  assert (config_ok c) as Hc by (unfold config_ok; solve_shape).
  assert (state_ok c s) as Hs by (unfold state_ok, rb_ok; solve_shape).
  assert (Forall (input_ok c) inps) as Hinps by (unfold input_ok, rb_ok; solve_shape).
  assert (0 < num_envs c) as He by (simpl; lia).
  split; [exact (conj Hc (conj Hs (conj Hinps He)))|].
  exact (X10_reward_budget c s inps 0 Hc Hs Hinps He).
Defined.

Lemma X11_witness :
  let c := Demo.plain in
  let s := Demo.ready c in
  let inps := [Demo.step_to (-1) (-1) Demo.joined Demo.apart;
               Demo.step_to (-1) (-1) Demo.apart Demo.apart] in
  (config_ok c ∧ state_ok c s ∧ Forall (input_ok c) inps
   ∧ manual_done c = false ∧ 0 < num_envs c ∧ 0 < 1)
  ∧ ∃ outs s',
      FurnitureRLSimEnv.run c s (FurnitureRLSimEnv.CallStep <$> inps) = Ok (outs, s')
      ∧ ∀ oi oj, outs !! 0 = Some oi → outs !! 1 = Some oj →
          FurnitureRLSimEnv.terminated oi !! 0 = Some true →
          FurnitureRLSimEnv.terminated oj !! 0 = Some true
          ∧ ∃ r, FurnitureRLSimEnv.reward oj = Some r ∧ r !! 0 = Some 0%Q.
Proof.
  intros c s inps.
  assert (config_ok c) as Hc by (unfold config_ok; solve_shape).
  assert (state_ok c s) as Hs by (unfold state_ok, rb_ok; solve_shape).
  assert (Forall (input_ok c) inps) as Hinps by (unfold input_ok, rb_ok; solve_shape).
  assert (manual_done c = false) as Hm by reflexivity.
  assert (0 < num_envs c) as He by (simpl; lia).
  assert (0 < 1) as Hij by lia.
  split; [exact (conj Hc (conj Hs (conj Hinps (conj Hm (conj He Hij)))))|].
  exact (X11_terminated_is_absorbing c s inps 0 0 1 Hc Hs Hinps Hm He Hij).
Defined.

Lemma X12_witness :
  let c := Demo.plain in
  let s := Demo.ready_at c 8 in
  let still := Demo.step_to (-1) (-1) Demo.apart Demo.apart in
  let inps := [still; still; still] in
  (config_ok c ∧ state_ok c s ∧ Forall (input_ok c) inps ∧ manual_done c = false
   ∧ counters_fit s (length inps) ∧ env_steps s !! 0 = Some 8%Z ∧ 1 < length inps)
  ∧ ∃ outs s' o,
      FurnitureRLSimEnv.run c s (FurnitureRLSimEnv.CallStep <$> inps) = Ok (outs, s')
      ∧ outs !! 1 = Some o
      ∧ FurnitureRLSimEnv.truncated o !! 0
        = Some (max_env_steps c - 1 <=? 8 + Z.of_nat 1)%Z
      ∧ env_steps s' !! 0 = Some (8 + Z.of_nat (length inps))%Z.
Proof.
  intros c s still inps.
  assert (config_ok c) as Hc by (unfold config_ok; solve_shape).
  assert (state_ok c s) as Hs by (unfold state_ok, rb_ok; solve_shape).
  assert (Forall (input_ok c) inps) as Hinps by (unfold input_ok, rb_ok; solve_shape).
  assert (manual_done c = false) as Hm by reflexivity.
  assert (counters_fit s (length inps)) as Hfit by (unfold counters_fit; solve_shape).
  assert (env_steps s !! 0 = Some 8%Z) as Hn by reflexivity.
  assert (1 < length inps) as Hi by (simpl; lia).
  split; [exact (conj Hc (conj Hs (conj Hinps (conj Hm (conj Hfit (conj Hn Hi))))))|].
  exact (X12_truncation_counts_steps c s inps 0 1 8 Hc Hs Hinps Hm Hfit Hn Hi).
Defined.

Lemma X13_witness :
  let c := Demo.plain in
  let s := (Demo.outcome c (Demo.ready c)
              [FurnitureRLSimEnv.CallStep
                 (Demo.step_to (-1) (-1) Demo.touching Demo.apart)]).2 in
  let rb := Demo.bodies Demo.apart Demo.apart in
  let inp := Demo.step_to (-1) (-1) Demo.apart Demo.apart in
  (config_ok c ∧ furniture_name c = "lamp" ∧ state_ok c s
   ∧ idxs_ok (num_envs c) (Some [1%Z]) ∧ rb_ok c rb ∧ input_ok c inp
   ∧ 0 < num_envs c)
  ∧ ∃ s1 o s2 cl,
      FurnitureRLSimEnv.reset c s (Some [1%Z]) rb = Ok s1
      ∧ FurnitureRLSimEnv.step c s1 inp = Ok (o, s2)
      ∧ hand_bulb_close c s1 0 = Some cl
      ∧ Forall (λ sub, holds_bulb sub 0 = bool_decide (first_half c s1) && negb cl)
          (FurnitureSimEnv.substeps (FurnitureRLSimEnv.sim o)).
Proof.
  intros c s rb inp.
  assert (config_ok c) as Hc by (unfold config_ok; solve_shape).
  assert (furniture_name c = "lamp") as Hlamp by reflexivity.
  assert (state_ok c s) as Hs by (unfold state_ok, rb_ok; solve_shape).
  assert (idxs_ok (num_envs c) (Some [1%Z])) as Hidx by (unfold idxs_ok; solve_shape).
  assert (rb_ok c rb) as Hrb by (unfold rb_ok; solve_shape).
  assert (input_ok c inp) as Hi by (unfold input_ok, rb_ok; solve_shape).
  assert (0 < num_envs c) as He by (simpl; lia).
  split; [exact (conj Hc (conj Hlamp (conj Hs (conj Hidx (conj Hrb (conj Hi He))))))|].
  exact (X13_reset_rearms_every_bulb c s (Some [1%Z]) rb inp 0
           Hc Hlamp Hs Hidx Hrb Hi He).
Defined.

(** ** Writes into the actor buffers *)

Lemma norm_indices_spec (n : nat) (idxs : list Z) (ks : list nat) :
  result_mapM (norm_index n) idxs = Ok ks →
  length ks = length idxs ∧ Forall (λ k, k < n) ks
  ∧ ∀ e, e ∈ ks ↔ names_env n (Some idxs) e.
Proof.
  intros H. split; [by eapply result_mapM_length|].
  apply result_mapM_Ok in H. split.
  - apply Forall_lookup_2. intros i k Hk.
    destruct (Forall2_lookup_r _ _ _ _ _ H Hk) as (z & _ & Hz).
    by eapply norm_index_bound.
  - intros e. simpl. rewrite Exists_exists. split.
    + intros [i Hi]%list_elem_of_lookup.
      destruct (Forall2_lookup_r _ _ _ _ _ H Hi) as (z & Hz & Hn).
      exists z. split; [|exact Hn]. apply list_elem_of_lookup. eauto.
    + intros (z & [i Hi]%list_elem_of_lookup & Hn).
      destruct (Forall2_lookup_l _ _ _ _ _ H Hi) as (k & Hk & Hn').
      rewrite Hn in Hn'. injection Hn' as <-. apply list_elem_of_lookup. eauto.
Qed.

Lemma norm_indices_total (n : nat) (idxs : list Z) :
  Forall (λ i, - Z.of_nat n ≤ i < Z.of_nat n)%Z idxs →
  ∃ ks, result_mapM (norm_index n) idxs = Ok ks.
Proof.
  intros H. apply result_mapM_total. eapply Forall_impl; [exact H|].
  intros i Hi. by apply norm_index_total.
Qed.

(** Rows computed one by one from the tensor and written back at their
    indices. *)
Lemma scatter_rows_spec {A V : Type} (f : nat * V → result A) (ks : list nat)
    (vals : list V) (t t' rows : list A) :
  result_mapM f (zip ks vals) = Ok rows → index_put ks rows t = Ok t' →
  length vals = length ks →
  length t' = length t
  ∧ (∀ e, e ∉ ks → t' !! e = t !! e)
  ∧ (NoDup ks → ∀ i e v, ks !! i = Some e → vals !! i = Some v →
       ∃ r, f (e, v) = Ok r ∧ t' !! e = Some r).
Proof.
  intros Hrows Hput Hlen.
  pose proof (index_put_spec _ _ _ _ Hput) as (Hl & Hout & _).
  split; [exact Hl|]. split; [exact Hout|].
  intros Hnd i e v Hi Hv.
  assert (zip ks vals !! i = Some (e, v)) as Hz.
  { apply lookup_zip_with_Some. eauto. }
  destruct (result_mapM_lookup _ _ _ _ _ Hrows Hz) as (r & Hr & Hf).
  exists r. split; [exact Hf|]. by eapply index_put_NoDup.
Qed.

Lemma scatter_rows_total {A V : Type} (f : nat * V → result A) (ks : list nat)
    (vals : list V) (t : list A) :
  Forall (λ k, k < length t) ks →
  (∀ i e v, ks !! i = Some e → vals !! i = Some v → ∃ r, f (e, v) = Ok r) →
  ∃ rows t', result_mapM f (zip ks vals) = Ok rows ∧ index_put ks rows t = Ok t'.
Proof.
  intros Hks Hf.
  destruct (result_mapM_total f (zip ks vals)) as [rows Hrows].
  { apply Forall_lookup_2. intros i [e v] Hz.
    apply lookup_zip_with_Some in Hz as (e' & v' & [= -> ->] & He & Hv). eauto. }
  destruct (index_put_total ks rows t Hks) as [t' Ht']. eauto.
Qed.

Lemma index_assign_grid_spec {A : Type} (ks cols : list nat) (vals : list (list A))
    (t t' : list (list A)) :
  index_assign_grid ks cols vals t = Ok t' →
  length t' = length t ∧ length vals = length ks
  ∧ (∀ e, e ∉ ks → t' !! e = t !! e)
  ∧ (NoDup ks → ∀ i e v, ks !! i = Some e → vals !! i = Some v →
       ∃ row row', t !! e = Some row ∧ length v = length cols
                   ∧ index_put cols v row = Ok row' ∧ t' !! e = Some row').
Proof.
  unfold index_assign_grid. intros H.
  destruct (length vals =? length ks) eqn:Hlen; [|discriminate].
  apply Nat.eqb_eq in Hlen. cbn [negb] in H.
  apply bind_Ok in H as (rows & Hrows & Hput).
  destruct (scatter_rows_spec _ _ _ _ _ _ Hrows Hput Hlen) as (Hl & Hout & Hin).
  split; [exact Hl|]. split; [exact Hlen|]. split; [exact Hout|].
  intros Hnd i e v Hi Hv. destruct (Hin Hnd i e v Hi Hv) as (r & Hf & Hr).
  simpl in Hf. apply bind_Ok in Hf as (row & Hrow%index_get_Ok & Hf).
  destruct (length v =? length cols) eqn:Hv'; [|discriminate].
  apply Nat.eqb_eq in Hv'. exists row, r. done.
Qed.

(** The rows keep their lengths. *)
Lemma index_assign_grid_row_length {A : Type} (ks cols : list nat)
    (vals : list (list A)) (t t' : list (list A)) (e : nat) (row' : list A) :
  index_assign_grid ks cols vals t = Ok t' → NoDup ks → t' !! e = Some row' →
  ∃ row, t !! e = Some row ∧ length row' = length row.
Proof.
  intros H Hnd He.
  destruct (index_assign_grid_spec _ _ _ _ _ H) as (_ & Hlen & Hout & Hin).
  destruct (decide (e ∈ ks)) as [Hek|Hek].
  - apply list_elem_of_lookup in Hek as [i Hi].
    destruct (lookup_lt_is_Some_2 vals i) as [v Hv].
    { rewrite Hlen. by eapply lookup_lt_Some. }
    destruct (Hin Hnd i e v Hi Hv) as (row & r & Hrow & _ & Hput & Hr).
    rewrite He in Hr. injection Hr as <-.
    exists row. split; [exact Hrow|].
    by destruct (index_put_spec _ _ _ _ Hput) as [-> _].
  - rewrite (Hout e Hek) in He. eauto.
Qed.

Lemma index_assign_grid_total {A : Type} (ks cols : list nat) (vals : list (list A))
    (t : list (list A)) :
  Forall (λ k, k < length t) ks → length vals = length ks →
  Forall (λ v, length v = length cols) vals →
  Forall (λ row, Forall (λ j, j < length row) cols) t →
  ∃ t', index_assign_grid ks cols vals t = Ok t'.
Proof.
  intros Hks Hlen Hvals Hcols. unfold index_assign_grid.
  rewrite Hlen, Nat.eqb_refl. cbn [negb].
  edestruct (scatter_rows_total
               (λ kv : nat * list A,
                  row ← index_get t kv.1;
                  if negb (length kv.2 =? length cols) then Raise RuntimeError
                  else index_put cols kv.2 row) ks vals t Hks)
    as (rows & t' & Hrows & Hput).
  { intros i e v Hi Hv. simpl.
    eapply Forall_lookup_1 in Hks; [|exact Hi]. simpl in Hks.
    destruct (index_get_total t e Hks) as [row Hrow]. rewrite Hrow. simpl.
    eapply Forall_lookup_1 in Hvals; [|exact Hv]. simpl in Hvals.
    rewrite Hvals, Nat.eqb_refl. simpl.
    apply index_put_total. apply index_get_Ok in Hrow.
    by eapply Forall_lookup_1 in Hcols. }
  rewrite Hrows. simpl. eauto.
Qed.

Lemma index_assign_cols_spec {A : Type} (ks : list nat) (w : nat) (vals : list (list A))
    (t t' : list (list A)) :
  index_assign_cols ks w vals t = Ok t' →
  length t' = length t
  ∧ (∀ e, e ∉ ks → t' !! e = t !! e)
  ∧ (NoDup ks → ∀ i e v, ks !! i = Some e → vals !! i = Some v →
       ∃ row, t !! e = Some row ∧ length v = Nat.min w (length row)
              ∧ t' !! e = Some (v ++ drop w row)).
Proof.
  unfold index_assign_cols. intros H.
  destruct (length vals =? length ks) eqn:Hlen; [|discriminate].
  apply Nat.eqb_eq in Hlen. cbn [negb] in H.
  apply bind_Ok in H as (rows & Hrows & Hput).
  destruct (scatter_rows_spec _ _ _ _ _ _ Hrows Hput Hlen) as (Hl & Hout & Hin).
  split; [exact Hl|]. split; [exact Hout|].
  intros Hnd i e v Hi Hv. destruct (Hin Hnd i e v Hi Hv) as (r & Hf & Hr).
  simpl in Hf. apply bind_Ok in Hf as (row & Hrow%index_get_Ok & Hf).
  destruct (length v =? Nat.min w (length row)) eqn:Hv'; [|discriminate].
  apply Nat.eqb_eq in Hv'. simpl in Hf. injection Hf as <-. exists row. done.
Qed.

Lemma index_assign_cols_total {A : Type} (ks : list nat) (w : nat) (vals : list (list A))
    (t : list (list A)) (m : nat) :
  Forall (λ k, k < length t) ks → length vals = length ks →
  Forall (λ row, length row = m) t → Forall (λ v, length v = Nat.min w m) vals →
  ∃ t', index_assign_cols ks w vals t = Ok t'.
Proof.
  intros Hks Hlen Hrows Hvals. unfold index_assign_cols.
  rewrite Hlen, Nat.eqb_refl. cbn [negb].
  edestruct (scatter_rows_total
               (λ kv : nat * list A,
                  row ← index_get t kv.1;
                  if negb (length kv.2 =? Nat.min w (length row)) then Raise RuntimeError
                  else Ok (kv.2 ++ drop w row)) ks vals t Hks)
    as (rows & t' & Hr & Hput).
  { intros i e v Hi Hv. simpl.
    eapply Forall_lookup_1 in Hks; [|exact Hi]. simpl in Hks.
    destruct (index_get_total t e Hks) as [row Hrow]. rewrite Hrow. simpl.
    apply index_get_Ok in Hrow.
    eapply Forall_lookup_1 in Hrows; [|exact Hrow]. simpl in Hrows.
    eapply Forall_lookup_1 in Hvals; [|exact Hv]. simpl in Hvals.
    rewrite Hvals, Hrows, Nat.eqb_refl. simpl. eauto. }
  rewrite Hr. simpl. eauto.
Qed.

Lemma result_mapM_map {A B : Type} (f : A → result B) (g : A → B) (l : list A) :
  Forall (λ x, f x = Ok (g x)) l → result_mapM f l = Ok (g <$> l).
Proof.
  induction 1 as [|x l Hx _ IH]; [done|]. simpl. rewrite Hx. simpl. rewrite IH. done.
Qed.

Lemma rand_offset_bound (u r : Q) :
  (0 <= u → u <= 1 → 0 <= r → - r <= u * 2 * r - r ∧ u * 2 * r - r <= r)%Q.
Proof. intros H0 H1 Hr. split; nra. Qed.

Lemma rand_sym_bound (u r : Q) :
  (0 <= u → u <= 1 → 0 <= r → - r <= (u * 2 - 1) * r ∧ (u * 2 - 1) * r <= r)%Q.
Proof. intros H0 H1 Hr. split; nra. Qed.

Section ResetFrankas.
Context {RelPose : Type} `{!ControlUtils RelPose} `{!QuatUtils}.
Import FurnitureRLSimEnv FurnitureRLSimEnvReset.
Implicit Types (c : Config RelPose) (a : Actors) (b : Buffers).

(** The joint row [_reset_frankas] writes for the i-th named environment. *)
Lemma joint_row_lookup a (d : ResetDraws) (i : nat) :
  length (default_dof_pos a) = 9 →
  let row :=
    zip_with Qplus (take 7 (default_dof_pos a))
      ((λ j, u_joint d i j * 2 * franka_joint_rand_lim_deg a
             - franka_joint_rand_lim_deg a)%Q <$> seq 0 7)
    ++ drop 7 (default_dof_pos a) in
  length row = 9
  ∧ (∀ j dflt, j < 7 → default_dof_pos a !! j = Some dflt →
       row !! j = Some (dflt + (u_joint d i j * 2 * franka_joint_rand_lim_deg a
                                - franka_joint_rand_lim_deg a))%Q)
  ∧ (∀ j, 7 ≤ j → row !! j = default_dof_pos a !! j).
Proof.
  intros Hd row.
  assert (length (zip_with Qplus (take 7 (default_dof_pos a))
            ((λ j, u_joint d i j * 2 * franka_joint_rand_lim_deg a
                   - franka_joint_rand_lim_deg a)%Q <$> seq 0 7)) = 7) as Hl7.
  { rewrite length_zip_with, length_take, length_fmap, length_seq. lia. }
  split; [|split].
  - unfold row. rewrite length_app, Hl7, length_drop. lia.
  - intros j dflt Hj Hdf. unfold row. rewrite lookup_app_l by lia.
    apply lookup_zip_with_Some. eexists dflt, _. split; [reflexivity|]. split.
    + rewrite lookup_take_lt by lia. exact Hdf.
    + rewrite list_lookup_fmap, lookup_seq_lt by lia. reflexivity.
  - intros j Hj. unfold row. rewrite lookup_app_r by lia. rewrite Hl7, lookup_drop.
    f_equal. lia.
Qed.

(** What [_reset_frankas] writes and hands over; see X14. *)
Lemma reset_frankas_spec c a b (env_idxs : list Z) (d : ResetDraws)
    (ks : list nat) :
  actors_ok c a → buffers_ok c a b → env_idxs_ok (num_envs c) env_idxs →
  draws_ok d → (0 <= franka_joint_rand_lim_deg a)%Q →
  result_mapM (norm_index (num_envs c)) env_idxs = Ok ks → NoDup ks →
  _reset_frankas c a b env_idxs d false true = Raise AssertionError
  ∧ _reset_frankas c a b env_idxs d true false = Raise AssertionError
  ∧ ∃ b' pushed,
      _reset_frankas c a b env_idxs d true true = Ok (b', pushed)
      ∧ root_pos b' = root_pos b ∧ root_quat b' = root_quat b
      ∧ length pushed = length env_idxs
      ∧ (∀ e, e ∉ ks →
           dof_pos b' !! e = dof_pos b !! e ∧ dof_vel b' !! e = dof_vel b !! e)
      ∧ ∀ i e, ks !! i = Some e →
          ∃ row,
            dof_pos b' !! e = Some row ∧ length row = 9
            ∧ (∀ j dflt, j < 7 → default_dof_pos a !! j = Some dflt →
                 ∃ x, row !! j = Some x
                   ∧ x = (dflt + (u_joint d i j * 2 * franka_joint_rand_lim_deg a
                                  - franka_joint_rand_lim_deg a))%Q
                   ∧ (dflt - franka_joint_rand_lim_deg a <= x
                      ∧ x <= dflt + franka_joint_rand_lim_deg a)%Q)
            ∧ (∀ j, 7 ≤ j → row !! j = default_dof_pos a !! j)
            ∧ dof_vel b' !! e = Some (replicate 9 0%Q)
            ∧ ∃ act, franka_actor_idxs_all_t a !! e = Some act ∧ pushed !! i = Some act.
Proof.
  intros (HF & HD & _ & _ & _ & _ & _ & Hfa & _) (Hlp & Hrp & Hlv & Hrv & _)
    Hidx [Hu _] Hr Hks Hnd.
  pose proof (norm_indices_spec _ _ _ Hks) as (Hlks & Hbks & _).
  set (n := length env_idxs) in *.
  set (rowf := λ i : nat,
        zip_with Qplus (take 7 (default_dof_pos a))
          ((λ j, u_joint d i j * 2 * franka_joint_rand_lim_deg a
                 - franka_joint_rand_lim_deg a)%Q <$> seq 0 7)
        ++ drop 7 (default_dof_pos a)).
  assert (∀ s1 s2,
    _reset_frankas c a b env_idxs d s1 s2 =
      (pos ← index_assign_cols ks 9 (rowf <$> seq 0 n) (dof_pos b);
       vel ← index_assign_cols ks 9 (replicate n (replicate 9 0%Q)) (dof_vel b);
       actor_idx ← result_mapM (index_get (franka_actor_idxs_all_t a)) ks;
       if negb s1 then Raise AssertionError
       else if negb s2 then Raise AssertionError
       else Ok (set_dof pos vel b, actor_idx))) as Hunfold.
  { intros s1 s2. unfold _reset_frankas. fold n.
    erewrite (result_mapM_map _
                (λ ro : list Q * list Q, zip_with Qplus (take 7 ro.1) ro.2 ++ drop 7 ro.1)).
    2:{ apply Forall_lookup_2. intros i [r0 off] Hz.
        apply lookup_zip_with_Some in Hz as (r0' & off' & [= -> ->] & Hr0 & Hoff).
        apply lookup_replicate in Hr0 as [-> _].
        apply list_lookup_fmap_Some in Hoff as (i' & -> & _). simpl.
        rewrite tensor_zip_total; [done|].
        rewrite length_take, HD. reflexivity. }
    cbn [mbind result_bind].
    replace ((λ ro : list Q * list Q, zip_with Qplus (take 7 ro.1) ro.2 ++ drop 7 ro.1)
               <$> zip (replicate n (default_dof_pos a))
                     ((λ i, (λ j, u_joint d i j * 2 * franka_joint_rand_lim_deg a
                                  - franka_joint_rand_lim_deg a)%Q <$> seq 0 7)
                        <$> seq 0 n))
      with (rowf <$> seq 0 n).
    2:{ apply list_eq. intros i. rewrite !list_lookup_fmap.
        destruct (decide (i < n)) as [Hi|Hi].
        - rewrite lookup_seq_lt by exact Hi.
          match goal with |- _ = _ <$> (?z !! i) =>
            assert (z !! i
                    = Some (default_dof_pos a,
                            (λ j, u_joint d i j * 2 * franka_joint_rand_lim_deg a
                                  - franka_joint_rand_lim_deg a)%Q <$> seq 0 7)) as ->
          end; [|reflexivity].
          apply lookup_zip_with_Some. eexists _, _. split; [reflexivity|]. split.
          + by apply lookup_replicate_2.
          + rewrite list_lookup_fmap, lookup_seq_lt by exact Hi. reflexivity.
        - rewrite lookup_seq_ge by lia.
          match goal with |- _ = _ <$> (?z !! i) => assert (z !! i = None) as -> end;
            [|reflexivity].
          apply lookup_zip_with_None. left. apply lookup_replicate_None. lia. }
    rewrite Hlp, Hks. cbn [mbind result_bind]. rewrite HF.
    destruct (index_assign_cols ks 9 _ (dof_pos b)); [|reflexivity].
    cbn [mbind result_bind]. rewrite Hlv, Hks, HD. cbn [mbind result_bind].
    destruct (index_assign_cols ks 9 _ (dof_vel b)); [|reflexivity].
    cbn [mbind result_bind]. rewrite Hfa, Hks. reflexivity. }
  destruct (index_assign_cols_total ks 9 (rowf <$> seq 0 n) (dof_pos b) 9)
    as [pos Hpos].
  { by rewrite Hlp. } { rewrite length_fmap, length_seq. lia. } { exact Hrp. }
  { apply Forall_fmap, Forall_forall. intros i _.
    exact (proj1 (joint_row_lookup a d i HD)). }
  destruct (index_assign_cols_total ks 9 (replicate n (replicate 9 0%Q)) (dof_vel b) 9)
    as [vel Hvel].
  { by rewrite Hlv. } { rewrite length_replicate. lia. } { exact Hrv. }
  { apply Forall_replicate. by rewrite length_replicate. }
  destruct (result_mapM_total (index_get (franka_actor_idxs_all_t a)) ks)
    as [acts Hacts].
  { eapply Forall_impl; [exact Hbks|]. intros k Hk. apply index_get_total.
    rewrite Hfa. exact Hk. }
  rewrite !Hunfold, Hpos, Hvel, Hacts. cbn [mbind result_bind negb].
  split; [reflexivity|]. split; [reflexivity|].
  exists (set_dof pos vel b), acts. split; [reflexivity|].
  split; [reflexivity|]. split; [reflexivity|].
  split; [rewrite (result_mapM_length _ _ _ Hacts); exact Hlks|].
  destruct (index_assign_cols_spec _ _ _ _ _ Hpos) as (_ & Hpout & Hpin).
  destruct (index_assign_cols_spec _ _ _ _ _ Hvel) as (_ & Hvout & Hvin).
  split.
  { intros e He. simpl. split; [by apply Hpout|by apply Hvout]. }
  intros i e Hi. simpl.
  assert (i < n) as Hin by (rewrite <- Hlks; by eapply lookup_lt_Some).
  destruct (Hpin Hnd i e (rowf i)) as (old & Hold & _ & Hnew); [exact Hi| |].
  { rewrite list_lookup_fmap, lookup_seq_lt by exact Hin. reflexivity. }
  destruct (Hvin Hnd i e (replicate 9 0%Q)) as (oldv & Holdv & _ & Hnewv);
    [exact Hi|by apply lookup_replicate_2|].
  eapply Forall_lookup_1 in Hrp; [|exact Hold].
  eapply Forall_lookup_1 in Hrv; [|exact Holdv]. simpl in Hrp, Hrv.
  rewrite drop_ge, app_nil_r in Hnew by lia.
  rewrite drop_ge, app_nil_r in Hnewv by lia.
  destruct (joint_row_lookup a d i HD) as (Hlen & Hfirst & Hlast).
  exists (rowf i). split; [exact Hnew|]. split; [exact Hlen|].
  split; [|split; [exact Hlast|split; [exact Hnewv|]]].
  - intros j dflt Hj Hdf. eexists. split; [by apply Hfirst|]. split; [reflexivity|].
    destruct (Hu i j) as [H0 H1].
    destruct (rand_offset_bound _ _ H0 H1 Hr). split; lra.
  - destruct (result_mapM_lookup _ _ _ _ _ Hacts Hi) as (act & Hact & Hget).
    apply index_get_Ok in Hget. eauto.
Qed.

(** X14: [_reset_frankas] called on an index tensor without duplicates
    writes, for the i-th named environment, the default joint positions plus
    the i-th row of random offsets into the first seven DoFs (each within
    [franka_joint_rand_lim_deg] of its default), the default finger positions
    into the last two, and zero velocities; it leaves the rows of every other
    environment and the root buffers alone, and hands the engine the Franka
    actors of the named environments. If the engine reports a failure the
    call ends in an [AssertionError]. *)
Theorem X14_reset_frankas_rows c a b (env_idxs : list Z) (d : ResetDraws)
    (ks : list nat) :
  actors_ok c a → buffers_ok c a b → env_idxs_ok (num_envs c) env_idxs →
  draws_ok d → (0 <= franka_joint_rand_lim_deg a)%Q →
  result_mapM (norm_index (num_envs c)) env_idxs = Ok ks → NoDup ks →
  _reset_frankas c a b env_idxs d false true = Raise AssertionError
  ∧ _reset_frankas c a b env_idxs d true false = Raise AssertionError
  ∧ ∃ b' pushed,
      _reset_frankas c a b env_idxs d true true = Ok (b', pushed)
      ∧ root_pos b' = root_pos b ∧ root_quat b' = root_quat b
      ∧ length pushed = length env_idxs
      ∧ (∀ e, e ∉ ks →
           dof_pos b' !! e = dof_pos b !! e ∧ dof_vel b' !! e = dof_vel b !! e)
      ∧ ∀ i e, ks !! i = Some e →
          ∃ row,
            dof_pos b' !! e = Some row ∧ length row = 9
            ∧ (∀ j dflt, j < 7 → default_dof_pos a !! j = Some dflt →
                 ∃ x, row !! j = Some x
                   ∧ x = (dflt + (u_joint d i j * 2 * franka_joint_rand_lim_deg a
                                  - franka_joint_rand_lim_deg a))%Q
                   ∧ (dflt - franka_joint_rand_lim_deg a <= x
                      ∧ x <= dflt + franka_joint_rand_lim_deg a)%Q)
            ∧ (∀ j, 7 ≤ j → row !! j = default_dof_pos a !! j)
            ∧ dof_vel b' !! e = Some (replicate 9 0%Q)
            ∧ ∃ act, franka_actor_idxs_all_t a !! e = Some act ∧ pushed !! i = Some act.
Proof.
  intros Ha Hb Hidx Hd Hr Hks Hnd.
  destruct (reset_frankas_spec c a b env_idxs d ks Ha Hb Hidx Hd Hr Hks Hnd)
    as (Hfail1 & Hfail2 & b' & pushed & Hok & Hrest).
  split; [exact Hfail1|]. split; [exact Hfail2|].
  exists b', pushed. split; [exact Hok|]. exact Hrest.
Qed.

(** X15: with the default DoF positions [create_envs] builds (the reset
    joints followed by half of the maximal gripper width for each finger),
    every environment named in a [_reset_frankas] call ends with its gripper
    fully open in the buffer: [gripper_width()] reads [max_gripper_width]. *)
Theorem X15_reset_frankas_opens_gripper c a b (env_idxs : list Z) (d : ResetDraws)
    (ks : list nat) (reset_joints : list Q) (i e : nat) :
  actors_ok c a → buffers_ok c a b → env_idxs_ok (num_envs c) env_idxs →
  draws_ok d → (0 <= franka_joint_rand_lim_deg a)%Q →
  result_mapM (norm_index (num_envs c)) env_idxs = Ok ks → NoDup ks →
  default_dof_pos_of (franka_num_dofs a) reset_joints (max_gripper_width c)
    = Ok (default_dof_pos a) →
  ks !! i = Some e →
  ∃ b' pushed x,
    _reset_frankas c a b env_idxs d true true = Ok (b', pushed)
    ∧ FurnitureSimEnvBuffers.gripper_width b' !! e = Some [x]
    ∧ (x == max_gripper_width c)%Q.
Proof.
  intros Ha Hb Hidx Hd Hr Hks Hnd Hdef Hi.
  destruct (reset_frankas_spec c a b env_idxs d ks Ha Hb Hidx Hd Hr Hks Hnd)
    as (_ & _ & b' & pushed & Hreset & _ & _ & _ & _ & Hin).
  destruct (Hin i e Hi) as (row & Hrow & Hlen & _ & Hlast & _).
  destruct Ha as (HF & HD & _).
  unfold default_dof_pos_of in Hdef. rewrite HF in Hdef.
  apply bind_Ok in Hdef as (first7 & Hfirst & Hdef). injection Hdef as Hdef.
  assert (length first7 = 7) as Hrj.
  { destruct (Nat.eqb_spec (length reset_joints) (Nat.min 7 9)) as [Hl|_].
    - injection Hfirst as <-. exact Hl.
    - destruct reset_joints as [|x [|? ?]]; try discriminate.
      injection Hfirst as <-. reflexivity. }
  assert (∀ j, 7 ≤ j < 9 → row !! j = Some (max_gripper_width c / 2)%Q) as Hfinger.
  { intros j Hj. rewrite Hlast by lia. rewrite <- Hdef.
    rewrite lookup_app_r by lia. rewrite Hrj.
    destruct (decide (j = 7)) as [->|]; [reflexivity|].
    replace j with 8 by lia. reflexivity. }
  exists b', pushed, (max_gripper_width c / 2 + max_gripper_width c / 2)%Q.
  split; [exact Hreset|]. split; [|field].
  unfold FurnitureSimEnvBuffers.gripper_width. rewrite list_lookup_fmap, Hrow. simpl.
  f_equal.
  rewrite (drop_S row (max_gripper_width c / 2)%Q 7) by (apply Hfinger; lia).
  rewrite (drop_S row (max_gripper_width c / 2)%Q 8) by (apply Hfinger; lia).
  reflexivity.
Qed.

End ResetFrankas.

Section ResetParts.
Context {RelPose : Type} `{!ControlUtils RelPose} `{!QuatUtils}.
Import FurnitureRLSimEnv FurnitureRLSimEnvReset.
Implicit Types (c : Config RelPose) (a : Actors) (b : Buffers).

(** What [_reset_part_poses] writes outside the factory tasks; see X16. *)
Lemma reset_part_poses_spec c a b (env_idxs : list Z) (d : ResetDraws) (ks : list nat) :
  actors_ok c a → buffers_ok c a b → env_idxs_ok (num_envs c) env_idxs →
  str_contains "factory" (furniture_name c) = false →
  NoDup (parts_idx_list a ++ obstacles_idx_list a) →
  result_mapM (norm_index (num_envs c)) env_idxs = Ok ks → NoDup ks →
  ∃ b' pushed,
    _reset_part_poses c a b env_idxs d = Ok (b', pushed)
    ∧ dof_pos b' = dof_pos b ∧ dof_vel b' = dof_vel b
    ∧ lb_rest_poses b' = lb_rest_poses b
    ∧ length (root_pos b') = num_envs c ∧ length (root_quat b') = num_envs c
    ∧ (∀ e, e ∉ ks →
         root_pos b' !! e = root_pos b !! e ∧ root_quat b' !! e = root_quat b !! e)
    ∧ ∀ i e, ks !! i = Some e →
        ∃ env_pos env_quat old_pos old_quat,
          root_pos b' !! e = Some env_pos ∧ root_quat b' !! e = Some env_quat
          ∧ root_pos b !! e = Some old_pos ∧ root_quat b !! e = Some old_quat
          ∧ length env_pos = length old_pos ∧ length env_quat = length old_quat
          ∧ (∀ p actor, parts_idx_list a !! p = Some actor →
               env_pos !! actor = parts_initial_pos a !! p
               ∧ env_quat !! actor = parts_initial_ori a !! p)
          ∧ (∀ j actor init, obstacles_idx_list a !! j = Some actor →
               obstacle_initial_pos a !! j = Some init →
               env_pos !! actor = Some (zip_with Qplus init (obstacle_offset a d i)))
          ∧ (∀ actor, actor ∉ parts_idx_list a → actor ∉ obstacles_idx_list a →
               env_pos !! actor = old_pos !! actor)
          ∧ (∀ actor, actor ∉ parts_idx_list a → env_quat !! actor = old_quat !! actor)
          ∧ ∃ acts, actor_idx_by_env a !! e = Some acts ∧ acts ⊆ pushed.
Proof.
  intros (_ & _ & HNP & Hlpp & Hlpo & Hlo & Hloi & _ & Hla & _)
    (_ & _ & _ & _ & Hlrp & Hlrq & Hcols) Hidx Hfac Hndc Hks Hnd.
  pose proof (norm_indices_spec _ _ _ Hks) as (Hlks & Hbks & _).
  apply NoDup_app in Hndc as (Hndp & Hdisj & Hndo).
  apply Forall_app in Hcols as [Hcp Hcq].
  set (n := length env_idxs) in *.
  unfold _reset_part_poses. rewrite Hfac. cbn [mbind result_bind fst snd].
  fold n. rewrite Hlrp, Hks. cbn [mbind result_bind].
  destruct (index_assign_grid_total ks (parts_idx_list a)
              (replicate n (parts_initial_pos a)) (root_pos b)) as [rp1 Hrp1].
  { by rewrite Hlrp. } { rewrite length_replicate. lia. }
  { by apply Forall_replicate. }
  { eapply Forall_impl; [exact Hcp|]. intros env He. simpl in He.
    by apply Forall_app in He as [? _]. }
  rewrite Hrp1. cbn [mbind result_bind]. rewrite Hlrq, Hks. cbn [mbind result_bind].
  destruct (index_assign_grid_total ks (parts_idx_list a)
              (replicate n (parts_initial_ori a)) (root_quat b)) as [rq Hrq].
  { by rewrite Hlrq. } { rewrite length_replicate. lia. }
  { by apply Forall_replicate. }
  { eapply Forall_impl; [exact Hcq|]. intros env He. simpl in He.
    by apply Forall_app in He as [? _]. }
  rewrite Hrq. cbn [mbind result_bind].
  set (obstacles := (λ off, (λ p, zip_with Qplus p off) <$> obstacle_initial_pos a)
                      <$> _).
  assert (obstacles
          = (λ i, (λ p, zip_with Qplus p (obstacle_offset a d i))
                    <$> obstacle_initial_pos a) <$> seq 0 n) as Hobs.
  { unfold obstacles. rewrite <- list_fmap_compose. reflexivity. }
  pose proof (index_assign_grid_spec _ _ _ _ _ Hrp1) as (Hl1 & _ & Hout1 & Hin1).
  destruct (index_assign_grid_total ks (obstacles_idx_list a) obstacles rp1)
    as [rp2 Hrp2].
  { rewrite Hl1, Hlrp. exact Hbks. }
  { rewrite Hobs, length_fmap, length_seq. lia. }
  { rewrite Hobs. apply Forall_fmap, Forall_forall. intros i _. simpl.
    rewrite length_fmap. lia. }
  { apply Forall_lookup_2. intros e row' He.
    destruct (index_assign_grid_row_length _ _ _ _ _ _ _ Hrp1 Hnd He)
      as (row & Hrow & ->).
    eapply Forall_lookup_1 in Hcp; [|exact Hrow]. simpl in Hcp.
    apply Forall_app in Hcp as [_ Hcp]. by apply Forall_app in Hcp as [? _]. }
  rewrite Hrp2. cbn [mbind result_bind]. rewrite Hla, Hks. cbn [mbind result_bind].
  destruct (result_mapM_total (index_get (actor_idx_by_env a)) ks) as [acts Hacts].
  { eapply Forall_impl; [exact Hbks|]. intros k Hk. apply index_get_total.
    rewrite Hla. exact Hk. }
  rewrite Hacts. cbn [mbind result_bind].
  pose proof (index_assign_grid_spec _ _ _ _ _ Hrq) as (Hlq & _ & Houtq & Hinq).
  pose proof (index_assign_grid_spec _ _ _ _ _ Hrp2) as (Hl2 & _ & Hout2 & Hin2).
  eexists _, _. split; [reflexivity|]. simpl.
  split; [reflexivity|]. split; [reflexivity|]. split; [reflexivity|].
  split; [congruence|]. split; [congruence|]. split.
  { intros e He. rewrite (Hout2 e He), (Hout1 e He), (Houtq e He). done. }
  intros i e Hi.
  assert (i < n) as Hin by (rewrite <- Hlks; by eapply lookup_lt_Some).
  destruct (Hin1 Hnd i e (parts_initial_pos a) Hi (lookup_replicate_2 _ _ _ Hin))
    as (old_pos & row1 & Hold & _ & Hput1 & Hrow1).
  destruct (Hinq Hnd i e (parts_initial_ori a) Hi (lookup_replicate_2 _ _ _ Hin))
    as (old_quat & rowq & Holdq & _ & Hputq & Hrowq).
  destruct (Hin2 Hnd i e ((λ p, zip_with Qplus p (obstacle_offset a d i))
                            <$> obstacle_initial_pos a) Hi)
    as (row1' & row2 & Hrow1' & _ & Hput2 & Hrow2).
  { rewrite Hobs, list_lookup_fmap, lookup_seq_lt by exact Hin. reflexivity. }
  rewrite Hrow1 in Hrow1'. injection Hrow1' as <-.
  pose proof (index_put_spec _ _ _ _ Hput1) as (Hlen1 & Hpout1 & _).
  pose proof (index_put_spec _ _ _ _ Hputq) as (Hlenq & Hpoutq & _).
  pose proof (index_put_spec _ _ _ _ Hput2) as (Hlen2 & Hpout2 & _).
  exists row2, rowq, old_pos, old_quat.
  split; [exact Hrow2|]. split; [exact Hrowq|]. split; [exact Hold|].
  split; [exact Holdq|]. split; [congruence|]. split; [exact Hlenq|].
  split; [|split; [|split; [|split]]].
  - intros p actor Hp.
    assert (actor ∉ obstacles_idx_list a) as Hno.
    { intros Ho. eapply Hdisj; [|exact Ho]. apply list_elem_of_lookup. eauto. }
    rewrite (Hpout2 actor Hno).
    destruct (lookup_lt_is_Some_2 (parts_initial_pos a) p) as [pos Hpos].
    { rewrite Hlpp. by eapply lookup_lt_Some. }
    destruct (lookup_lt_is_Some_2 (parts_initial_ori a) p) as [ori Hori].
    { rewrite Hlpo. by eapply lookup_lt_Some. }
    rewrite Hpos, Hori. split; by eapply index_put_NoDup.
  - intros j actor init Hj Hinit.
    eapply index_put_NoDup; [exact Hput2|exact Hndo|exact Hj|].
    by rewrite list_lookup_fmap, Hinit.
  - intros actor Hnp Hno. rewrite (Hpout2 actor Hno). by apply Hpout1.
  - intros actor Hnp. by apply Hpoutq.
  - destruct (result_mapM_lookup _ _ _ _ _ Hacts Hi) as (act & Hact & Hget).
    apply index_get_Ok in Hget. exists act. split; [exact Hget|].
    intros x Hx. apply list_elem_of_In, in_concat. exists act.
    split; apply list_elem_of_In; [|exact Hx].
    apply list_elem_of_lookup. eauto.
Qed.

(** X16: outside the factory tasks [_reset_part_poses], called on an index
    tensor without duplicates, puts every part of every named environment
    exactly at its initial position and orientation (nothing is drawn for the
    parts), leaves every actor that is neither a part nor an obstacle where
    it was, leaves the environments it does not name and the DoF buffers
    untouched, and hands the engine the obstacle and part actors of the named
    environments. *)
Theorem X16_reset_part_poses_restores_parts c a b (env_idxs : list Z)
    (d : ResetDraws) (ks : list nat) :
  actors_ok c a → buffers_ok c a b → env_idxs_ok (num_envs c) env_idxs →
  str_contains "factory" (furniture_name c) = false →
  NoDup (parts_idx_list a ++ obstacles_idx_list a) →
  result_mapM (norm_index (num_envs c)) env_idxs = Ok ks → NoDup ks →
  ∃ b' pushed,
    _reset_part_poses c a b env_idxs d = Ok (b', pushed)
    ∧ dof_pos b' = dof_pos b ∧ dof_vel b' = dof_vel b
    ∧ (∀ e, e ∉ ks →
         root_pos b' !! e = root_pos b !! e ∧ root_quat b' !! e = root_quat b !! e)
    ∧ ∀ i e, ks !! i = Some e →
        ∃ env_pos env_quat old_pos old_quat,
          root_pos b' !! e = Some env_pos ∧ root_quat b' !! e = Some env_quat
          ∧ root_pos b !! e = Some old_pos ∧ root_quat b !! e = Some old_quat
          ∧ (∀ p actor, parts_idx_list a !! p = Some actor →
               env_pos !! actor = parts_initial_pos a !! p
               ∧ env_quat !! actor = parts_initial_ori a !! p)
          ∧ (∀ actor, actor ∉ parts_idx_list a → actor ∉ obstacles_idx_list a →
               env_pos !! actor = old_pos !! actor
               ∧ env_quat !! actor = old_quat !! actor)
          ∧ ∃ acts, actor_idx_by_env a !! e = Some acts ∧ acts ⊆ pushed.
Proof.
  intros Ha Hb Hidx Hfac Hndc Hks Hnd.
  destruct (reset_part_poses_spec c a b env_idxs d ks Ha Hb Hidx Hfac Hndc Hks Hnd)
    as (b' & pushed & Hreset & Hdp & Hdv & _ & _ & _ & Hout & Hin).
  exists b', pushed. split; [exact Hreset|]. split; [exact Hdp|]. split; [exact Hdv|].
  split; [exact Hout|]. intros i e Hi.
  destruct (Hin i e Hi) as (env_pos & env_quat & old_pos & old_quat & H1 & H2 & H3 & H4
                            & _ & _ & Hparts & _ & Hother & Hotherq & Hacts).
  exists env_pos, env_quat, old_pos, old_quat.
  split; [exact H1|]. split; [exact H2|]. split; [exact H3|]. split; [exact H4|].
  split; [exact Hparts|]. split; [|exact Hacts].
  intros actor Hnp Hno. split; [by apply Hother|by apply Hotherq].
Qed.


End ResetParts.

Section SetBulbPoses.
Context {RelPose : Type} `{!ControlUtils RelPose} `{!QuatUtils}.
Import FurnitureRLSimEnv FurnitureRLSimEnvReset.
Implicit Types (c : Config RelPose) (a : Actors) (b : Buffers).

(** What [_set_bulb_poses] writes; see X18. *)
Lemma set_bulb_poses_spec c a b (env_idxs : list Z) (ks : list nat)
    (rest : list (list Q)) :
  actors_ok c a → buffers_ok c a b → env_idxs_ok (num_envs c) env_idxs →
  env_idxs ≠ [] → NoDup (bulb_idx_list a) →
  lb_rest_poses b = Some rest → length rest = num_envs c →
  result_mapM (norm_index (num_envs c)) env_idxs = Ok ks → NoDup ks →
  ∃ b' pushed,
    _set_bulb_poses c a b env_idxs = Ok (b', Some pushed)
    ∧ dof_pos b' = dof_pos b ∧ dof_vel b' = dof_vel b
    ∧ lb_rest_poses b' = lb_rest_poses b
    ∧ (∀ e, e ∉ ks →
         root_pos b' !! e = root_pos b !! e ∧ root_quat b' !! e = root_quat b !! e)
    ∧ ∀ i e, ks !! i = Some e →
        ∃ env_pos env_quat old_pos old_quat pose,
          root_pos b' !! e = Some env_pos ∧ root_quat b' !! e = Some env_quat
          ∧ root_pos b !! e = Some old_pos ∧ root_quat b !! e = Some old_quat
          ∧ rest !! e = Some pose
          ∧ (∀ actor, actor ∈ bulb_idx_list a →
               env_pos !! actor = Some (take 3 pose)
               ∧ env_quat !! actor = Some (take 4 (drop 3 pose)))
          ∧ (∀ actor, actor ∉ bulb_idx_list a →
               env_pos !! actor = old_pos !! actor
               ∧ env_quat !! actor = old_quat !! actor)
          ∧ ∃ acts, bulb_actor_idx_by_env a !! e = Some acts ∧ acts ⊆ pushed.
Proof.
  intros (_ & _ & _ & _ & _ & _ & _ & _ & _ & Hlba & _)
    (_ & _ & _ & _ & Hlrp & Hlrq & Hcols) Hidx Hne Hndb Hrest Hlrest Hks Hnd.
  pose proof (norm_indices_spec _ _ _ Hks) as (Hlks & Hbks & _).
  apply Forall_app in Hcols as [Hcp Hcq].
  unfold _set_bulb_poses.
  destruct env_idxs as [|z0 env_idxs']; [done|].
  set (env_idxs := z0 :: env_idxs') in *.
  change (length env_idxs =? 0) with false. cbn iota.
  rewrite Hrest. cbn [mbind result_bind]. rewrite Hlrest, Hks. cbn [mbind result_bind].
  destruct (result_mapM_total (index_get rest) ks) as [poses Hposes].
  { eapply Forall_impl; [exact Hbks|]. intros k Hk. apply index_get_total.
    rewrite Hlrest. exact Hk. }
  rewrite Hposes. cbn [mbind result_bind]. rewrite Hlrp, Hks. cbn [mbind result_bind].
  pose proof (result_mapM_length _ _ _ Hposes) as Hlposes.
  set (nb := length (bulb_idx_list a)).
  destruct (index_assign_grid_total ks (bulb_idx_list a)
              ((λ pose, replicate nb (take 3 pose)) <$> poses) (root_pos b))
    as [rp Hrp].
  { by rewrite Hlrp. } { by rewrite length_fmap. }
  { apply Forall_fmap, Forall_forall. intros pose _. simpl.
    by rewrite length_replicate. }
  { eapply Forall_impl; [exact Hcp|]. intros env He. simpl in He.
    apply Forall_app in He as [_ He]. by apply Forall_app in He as [_ ?]. }
  rewrite Hrp. cbn [mbind result_bind]. rewrite Hlrq, Hks. cbn [mbind result_bind].
  destruct (index_assign_grid_total ks (bulb_idx_list a)
              ((λ pose, replicate nb (take 4 (drop 3 pose))) <$> poses) (root_quat b))
    as [rq Hrq].
  { by rewrite Hlrq. } { by rewrite length_fmap. }
  { apply Forall_fmap, Forall_forall. intros pose _. simpl.
    by rewrite length_replicate. }
  { eapply Forall_impl; [exact Hcq|]. intros env He. simpl in He.
    apply Forall_app in He as [_ He]. by apply Forall_app in He as [_ ?]. }
  rewrite Hrq. cbn [mbind result_bind]. rewrite Hlba, Hks. cbn [mbind result_bind].
  destruct (result_mapM_total (index_get (bulb_actor_idx_by_env a)) ks)
    as [acts Hacts].
  { eapply Forall_impl; [exact Hbks|]. intros k Hk. apply index_get_total.
    rewrite Hlba. exact Hk. }
  rewrite Hacts. cbn [mbind result_bind].
  pose proof (index_assign_grid_spec _ _ _ _ _ Hrp) as (_ & _ & Houtp & Hinp).
  pose proof (index_assign_grid_spec _ _ _ _ _ Hrq) as (_ & _ & Houtq & Hinq).
  eexists _, _. split; [reflexivity|]. simpl.
  split; [reflexivity|]. split; [reflexivity|]. split; [exact Hrest|]. split.
  { intros e He. split; [by apply Houtp|by apply Houtq]. }
  intros i e Hi.
  destruct (result_mapM_lookup _ _ _ _ _ Hposes Hi) as (pose & Hpose & Hget).
  apply index_get_Ok in Hget.
  destruct (Hinp Hnd i e (replicate nb (take 3 pose)) Hi)
    as (old_pos & env_pos & Hold & _ & Hputp & Hnew).
  { by rewrite list_lookup_fmap, Hpose. }
  destruct (Hinq Hnd i e (replicate nb (take 4 (drop 3 pose))) Hi)
    as (old_quat & env_quat & Holdq & _ & Hputq & Hnewq).
  { by rewrite list_lookup_fmap, Hpose. }
  pose proof (index_put_spec _ _ _ _ Hputp) as (_ & Hpout & _).
  pose proof (index_put_spec _ _ _ _ Hputq) as (_ & Hqout & _).
  exists env_pos, env_quat, old_pos, old_quat, pose.
  split; [exact Hnew|]. split; [exact Hnewq|]. split; [exact Hold|].
  split; [exact Holdq|]. split; [exact Hget|]. split; [|split].
  - intros actor [j Hj]%list_elem_of_lookup.
    assert (j < nb) as Hjn by (by eapply lookup_lt_Some).
    split; (eapply index_put_NoDup; [eassumption|exact Hndb|exact Hj|]);
      by apply lookup_replicate_2.
  - intros actor Hna. split; [by apply Hpout|by apply Hqout].
  - destruct (result_mapM_lookup _ _ _ _ _ Hacts Hi) as (act & Hact & Hgeta).
    apply index_get_Ok in Hgeta. exists act. split; [exact Hgeta|].
    intros x Hx. apply list_elem_of_In, in_concat. exists act.
    split; apply list_elem_of_In; [|exact Hx].
    apply list_elem_of_lookup. eauto.
Qed.

(** X18: [_set_bulb_poses] called with an empty index tensor changes nothing
    and hands nothing to the engine; called before a lamp [reset] has stored
    the rest poses it raises [AttributeError]; otherwise it writes, for every
    named environment, the stored rest pose of that environment (position and
    quaternion) into the root state of its bulb actors and nothing else, and
    hands the engine the bulb actors of the named environments. *)
Theorem X18_set_bulb_poses_writes_rest_pose c a b (env_idxs : list Z)
    (ks : list nat) (rest : list (list Q)) :
  actors_ok c a → buffers_ok c a b → env_idxs_ok (num_envs c) env_idxs →
  env_idxs ≠ [] → NoDup (bulb_idx_list a) →
  lb_rest_poses b = Some rest → length rest = num_envs c →
  result_mapM (norm_index (num_envs c)) env_idxs = Ok ks → NoDup ks →
  _set_bulb_poses c a b [] = Ok (b, None)
  ∧ _set_bulb_poses c a (set_lb_rest_poses None b) env_idxs = Raise AttributeError
  ∧ ∃ b' pushed,
      _set_bulb_poses c a b env_idxs = Ok (b', Some pushed)
      ∧ dof_pos b' = dof_pos b ∧ dof_vel b' = dof_vel b
      ∧ (∀ e, e ∉ ks →
           root_pos b' !! e = root_pos b !! e ∧ root_quat b' !! e = root_quat b !! e)
      ∧ ∀ i e, ks !! i = Some e →
          ∃ env_pos env_quat old_pos old_quat pose,
            root_pos b' !! e = Some env_pos ∧ root_quat b' !! e = Some env_quat
            ∧ root_pos b !! e = Some old_pos ∧ root_quat b !! e = Some old_quat
            ∧ rest !! e = Some pose
            ∧ (∀ actor, actor ∈ bulb_idx_list a →
                 env_pos !! actor = Some (take 3 pose)
                 ∧ env_quat !! actor = Some (take 4 (drop 3 pose)))
            ∧ (∀ actor, actor ∉ bulb_idx_list a →
                 env_pos !! actor = old_pos !! actor
                 ∧ env_quat !! actor = old_quat !! actor)
            ∧ ∃ acts, bulb_actor_idx_by_env a !! e = Some acts ∧ acts ⊆ pushed.
Proof.
  intros Ha Hb Hidx Hne Hndb Hrest Hlrest Hks Hnd.
  split; [reflexivity|]. split.
  { unfold _set_bulb_poses. destruct env_idxs; [done|]. reflexivity. }
  destruct (set_bulb_poses_spec c a b env_idxs ks rest Ha Hb Hidx Hne Hndb Hrest
              Hlrest Hks Hnd) as (b' & pushed & H1 & H2 & H3 & _ & H4 & H5).
  exists b', pushed. done.
Qed.

End SetBulbPoses.

(** Distinct rows of a table without repeated entries hold distinct
    entries. *)
Lemma NoDup_concat_rows {A : Type} (w : nat) (ll rows : list (list A)) (ks : list nat) :
  Forall (λ r, length r = w) ll → NoDup (concat ll) → NoDup ks →
  Forall2 (λ k row, ll !! k = Some row) ks rows →
  NoDup (concat rows).
Proof.
  intros Hw Hnd Hks Hrows.
  assert (Forall (λ r, length r = w) rows) as Hw'.
  { apply Forall_lookup_2. intros i row Hi.
    destruct (Forall2_lookup_r _ _ _ _ _ Hrows Hi) as (k & _ & Hk).
    by eapply Forall_lookup_1 in Hw. }
  assert (∀ l : list (list A), concat l = mjoin l) as Hj.
  { induction l as [|r l IH]; [done|]. simpl. by rewrite IH. }
  rewrite Hj in *.
  apply NoDup_alt. intros k1 k2 x H1 H2.
  apply (join_lookup_Some_same_length w) in H1 as (i1 & r1 & p1 & Hr1 & Hp1 & ->);
    [|exact Hw'].
  apply (join_lookup_Some_same_length w) in H2 as (i2 & r2 & p2 & Hr2 & Hp2 & ->);
    [|exact Hw'].
  destruct (Forall2_lookup_r _ _ _ _ _ Hrows Hr1) as (e1 & He1 & Hl1).
  destruct (Forall2_lookup_r _ _ _ _ _ Hrows Hr2) as (e2 & He2 & Hl2).
  assert (mjoin ll !! (e1 * w + p1) = Some x) as Hx1.
  { apply (join_lookup_Some_same_length w); [exact Hw|]. eauto 10. }
  assert (mjoin ll !! (e2 * w + p2) = Some x) as Hx2.
  { apply (join_lookup_Some_same_length w); [exact Hw|]. eauto 10. }
  pose proof (NoDup_lookup _ _ _ _ Hnd Hx1 Hx2) as Heq.
  assert (p1 < w) as Hp1w.
  { eapply Forall_lookup_1 in Hw'; [|exact Hr1]. simpl in Hw'. rewrite <- Hw'.
    by eapply lookup_lt_Some. }
  assert (p2 < w) as Hp2w.
  { eapply Forall_lookup_1 in Hw'; [|exact Hr2]. simpl in Hw'. rewrite <- Hw'.
    by eapply lookup_lt_Some. }
  assert (e1 = e2) as ->.
  { destruct (Nat.lt_trichotomy e1 e2) as [Hlt|[Heq'|Hlt]]; [|done|]; nia. }
  assert (p1 = p2) as -> by lia.
  assert (i1 = i2) as -> by (eapply NoDup_lookup; eauto).
  reflexivity.
Qed.

Section ApplyForces.
Context {RelPose : Type} `{!ControlUtils RelPose} `{!QuatUtils}.
Import FurnitureRLSimEnv FurnitureRLSimEnvReset.
Implicit Types (c : Config RelPose).

(** What [_apply_forces_to_parts] sends; see X19. *)
Lemma apply_forces_spec c (env_idxs : list Z) (maxf maxt : Q) (d : Draws)
    (ks : list nat) :
  config_ok c → length (rigid_body_index_by_env c) = num_envs c →
  env_idxs_ok (num_envs c) env_idxs →
  result_mapM (norm_index (num_envs c)) env_idxs = Ok ks →
  ∃ forces torques,
    _apply_forces_to_parts c env_idxs maxf maxt d = Ok (forces, torques)
    ∧ length forces = rigid_body_count c ∧ length torques = rigid_body_count c
    ∧ (∀ b, b < rigid_body_count c →
         (∀ e row, e ∈ ks → rigid_body_index_by_env c !! e = Some row → b ∉ row) →
         forces !! b = Some [0; 0; 0]%Q ∧ torques !! b = Some [0; 0; 0]%Q)
    ∧ (NoDup (concat (rigid_body_index_by_env c)) → NoDup ks →
       ∀ i e p row b fm tm,
        ks !! i = Some e → rigid_body_index_by_env c !! e = Some row →
        row !! p = Some b →
        force_multiplier c !! p = Some fm → torque_multiplier c !! p = Some tm →
        forces !! b
          = Some [u_force d i p * maxf * cos_2pi (u_theta d i p) * fm;
                  u_force d i p * maxf * sin_2pi (u_theta d i p) * fm;
                  0 * fm]%Q
        ∧ torques !! b = Some [0; 0; maxt * (u_torque d i p * 2 - 1) * tm]%Q).
Proof.
  intros (_ & _ & _ & _ & _ & Hshape) Hlr Hidx Hks.
  pose proof (norm_indices_spec _ _ _ Hks) as (Hlks & Hbks & _).
  set (w := length (force_multiplier c)) in *.
  assert (Forall (λ r : list nat, length r = w) (rigid_body_index_by_env c)) as Hw.
  { eapply Forall_impl; [exact Hshape|]. by intros r (? & _). }
  unfold _apply_forces_to_parts. rewrite Hlr, Hks. cbn [mbind result_bind].
  destruct (result_mapM_total (index_get (rigid_body_index_by_env c)) ks)
    as [rows Hrows].
  { eapply Forall_impl; [exact Hbks|]. intros k Hk. apply index_get_total.
    rewrite Hlr. exact Hk. }
  rewrite Hrows. cbn [mbind result_bind].
  assert (Forall2 (λ k row, rigid_body_index_by_env c !! k = Some row) ks rows) as Hsel.
  { apply result_mapM_Ok in Hrows. eapply Forall2_impl; [exact Hrows|].
    intros k row Hk. by apply index_get_Ok. }
  assert (Forall (λ row : list nat,
                    length row = w ∧ length row = length (torque_multiplier c)
                    ∧ Forall (λ k, k < rigid_body_count c) row) rows) as Hshape'.
  { apply Forall_lookup_2. intros i row Hi.
    destruct (Forall2_lookup_r _ _ _ _ _ Hsel Hi) as (k & _ & Hk).
    by eapply Forall_lookup_1 in Hshape. }
  match goal with |- context [result_mapM ?f ?l ≫= _] =>
    destruct (result_mapM_total f l) as [fz Hfz] end.
  { apply Forall_lookup_2. intros i frow Hfrow.
    apply list_lookup_imap_Some in Hfrow as (irow & Hirow & ->).
    eapply Forall_lookup_1 in Hshape' as (Hlf & _ & _); [|exact Hirow].
    rewrite tensor_zip_total by (by rewrite length_imap). eauto. }
  rewrite Hfz. cbn [mbind result_bind].
  match goal with |- context [result_mapM ?f ?l ≫= _] =>
    destruct (result_mapM_total f l) as [tz Htz] end.
  { apply Forall_lookup_2. intros i trow Htrow.
    apply list_lookup_imap_Some in Htrow as (irow & Hirow & ->).
    eapply Forall_lookup_1 in Hshape' as (_ & Hlt & _); [|exact Hirow].
    rewrite tensor_zip_total by (by rewrite length_imap). eauto. }
  rewrite Htz. cbn [mbind result_bind].
  assert (Forall (λ k, k < rigid_body_count c) (concat rows)) as Hidxs.
  { apply Forall_concat. eapply Forall_impl; [exact Hshape'|]. by intros row (_ & _ & ?). }
  match goal with |- context [index_put ?i ?v ?t ≫= _] =>
    destruct (index_put_total i v t) as [at' Hat] end.
  { by rewrite length_replicate. }
  rewrite Hat. cbn [mbind result_bind].
  match goal with |- context [index_put ?i ?v ?t ≫= _] =>
    destruct (index_put_total i v t) as [af Haf] end.
  { by rewrite length_replicate. }
  rewrite Haf. cbn [mbind result_bind].
  exists af, at'. split; [reflexivity|].
  pose proof (index_put_spec _ _ _ _ Haf) as (Hlf & Hfout & _).
  pose proof (index_put_spec _ _ _ _ Hat) as (Hlt & Htout & _).
  rewrite length_replicate in Hlf, Hlt.
  split; [exact Hlf|]. split; [exact Hlt|]. split.
  - intros b Hb Hnot.
    assert (b ∉ concat rows) as Hnin.
    { intros Hin. apply list_elem_of_In, in_concat in Hin as (row & Hrow & Hin).
      apply list_elem_of_In, list_elem_of_lookup in Hrow as [i Hi].
      destruct (Forall2_lookup_r _ _ _ _ _ Hsel Hi) as (e & He & Hk).
      eapply Hnot; [apply list_elem_of_lookup; eauto|exact Hk|].
      by apply list_elem_of_In. }
    rewrite (Hfout b Hnin), (Htout b Hnin), lookup_replicate_2 by exact Hb. done.
  - intros Hndc Hnd i e p row b fm tm Hi Hrow Hp Hfm Htm.
    assert (rows !! i = Some row) as Hri.
    { destruct (Forall2_lookup_l _ _ _ _ _ Hsel Hi) as (row' & Hr' & Hk).
      congruence. }
    assert (NoDup (concat rows)) as Hndr by (by eapply (NoDup_concat_rows w)).
    assert (Forall (λ r : list nat, length r = w) rows) as Hw'.
    { eapply Forall_impl; [exact Hshape'|]. by intros r (? & _). }
    assert (concat rows !! (i * w + p) = Some b) as Hk.
    { eapply concat_lookup_uniform; eauto. }
    split.
    + eapply index_put_NoDup; [exact Haf|exact Hndr|exact Hk|].
      apply result_mapM_Ok in Hfz.
      match type of Hfz with Forall2 _ ?l _ =>
        assert (∃ x, l !! i = Some x) as [x0 Hx0]
          by (rewrite list_lookup_imap, Hri; simpl; eauto);
        pose proof Hx0 as Hx0';
        rewrite list_lookup_imap, Hri in Hx0'; simpl in Hx0';
        injection Hx0' as Hx0' end.
      destruct (Forall2_lookup_l _ _ _ _ _ Hfz Hx0) as (zrow & Hz & Hzip).
      apply tensor_zip_Ok in Hzip as [_ ->]. subst x0.
      eapply (concat_lookup_uniform w); [|exact Hz|].
      * apply Forall_lookup_2. intros e' zrow Hz'.
        destruct (Forall2_lookup_r _ _ _ _ _ Hfz Hz') as (frow & Hfrow & Hzip).
        apply tensor_zip_Ok in Hzip as [Hl ->].
        rewrite length_zip_with, <- Hl. fold w. lia.
      * apply lookup_zip_with_Some. eexists _, fm. split; [|split; [|exact Hfm]].
        2:{ rewrite list_lookup_imap, Hp. reflexivity. }
        reflexivity.
    + eapply index_put_NoDup; [exact Hat|exact Hndr|exact Hk|].
      apply result_mapM_Ok in Htz.
      match type of Htz with Forall2 _ ?l _ =>
        assert (∃ x, l !! i = Some x) as [x0 Hx0]
          by (rewrite list_lookup_imap, Hri; simpl; eauto);
        pose proof Hx0 as Hx0';
        rewrite list_lookup_imap, Hri in Hx0'; simpl in Hx0';
        injection Hx0' as Hx0' end.
      destruct (Forall2_lookup_l _ _ _ _ _ Htz Hx0) as (zrow & Hz & Hzip).
      apply tensor_zip_Ok in Hzip as [_ ->]. subst x0.
      rewrite list_lookup_fmap.
      assert (concat tz !! (i * w + p)
              = Some (maxt * (u_torque d i p * 2 - 1) * tm)%Q) as ->; [|reflexivity].
      eapply (concat_lookup_uniform w); [|exact Hz|].
      * apply Forall_lookup_2. intros e' zrow Hz'.
        destruct (Forall2_lookup_r _ _ _ _ _ Htz Hz') as (trow & Htrow & Hzip).
        apply tensor_zip_Ok in Hzip as [Hl ->].
        apply list_lookup_imap_Some in Htrow as (irow & Hirow & ->).
        eapply Forall_lookup_1 in Hshape' as (Hlf' & Hlt' & _); [|exact Hirow].
        rewrite length_zip_with, length_imap. lia.
      * apply lookup_zip_with_Some. eexists _, tm. split; [|split; [|exact Htm]].
        2:{ rewrite list_lookup_imap, Hp. reflexivity. }
        reflexivity.
Qed.

(** X19: the push [_apply_forces_to_parts] computes, which
    [_reset_parts_multiple] hands to the engine after placing the parts, acts
    on the parts of the named environments only: every rigid body that is
    not a part of a named environment gets zero force and zero torque, and
    part [p] of the i-th named environment gets the planar force
    [u_force * max_force * (cos, sin, 0)] scaled by the force multiplier of
    [p] and the torque [max_torque * (2 * u_torque - 1)] about z scaled by its
    torque multiplier, drawn at position [(i, p)]. (Unlike
    [_random_perturbation_of_parts] no mask is drawn: every part of a named
    environment is pushed.) *)
Theorem X19_reset_push_acts_on_named_parts c (env_idxs : list Z) (maxf maxt : Q)
    (d : Draws) (ks : list nat) :
  config_ok c → length (rigid_body_index_by_env c) = num_envs c →
  env_idxs_ok (num_envs c) env_idxs →
  NoDup (concat (rigid_body_index_by_env c)) →
  result_mapM (norm_index (num_envs c)) env_idxs = Ok ks → NoDup ks →
  ∃ forces torques,
    _apply_forces_to_parts c env_idxs maxf maxt d = Ok (forces, torques)
    ∧ length forces = rigid_body_count c ∧ length torques = rigid_body_count c
    ∧ (∀ b, b < rigid_body_count c →
         (∀ e row, e ∈ ks → rigid_body_index_by_env c !! e = Some row → b ∉ row) →
         forces !! b = Some [0; 0; 0]%Q ∧ torques !! b = Some [0; 0; 0]%Q)
    ∧ ∀ i e p row b fm tm,
        ks !! i = Some e → rigid_body_index_by_env c !! e = Some row →
        row !! p = Some b →
        force_multiplier c !! p = Some fm → torque_multiplier c !! p = Some tm →
        forces !! b
          = Some [u_force d i p * maxf * cos_2pi (u_theta d i p) * fm;
                  u_force d i p * maxf * sin_2pi (u_theta d i p) * fm;
                  0 * fm]%Q
        ∧ torques !! b = Some [0; 0; maxt * (u_torque d i p * 2 - 1) * tm]%Q.
Proof.
  intros Hc Hlr Hidx Hndc Hks Hnd.
  destruct (apply_forces_spec c env_idxs maxf maxt d ks Hc Hlr Hidx Hks)
    as (forces & torques & H1 & H2 & H3 & H4 & H5).
  exists forces, torques. split; [exact H1|]. split; [exact H2|]. split; [exact H3|].
  split; [exact H4|]. exact (H5 Hndc Hnd).
Qed.

End ApplyForces.

Lemma length_by_lookup {A : Type} (l l' : list A) :
  (∀ e, is_Some (l' !! e) ↔ is_Some (l !! e)) → length l' = length l.
Proof.
  intros H.
  destruct (Nat.lt_trichotomy (length l') (length l)) as [Hlt|[Heq|Hlt]]; [|done|].
  - apply lookup_lt_is_Some_2, H, lookup_lt_is_Some_1 in Hlt. lia.
  - apply lookup_lt_is_Some_2, H, lookup_lt_is_Some_1 in Hlt. lia.
Qed.

Section ResetBuffers.
Context {RelPose : Type} `{!ControlUtils RelPose} `{!QuatUtils}.
Import FurnitureRLSimEnvReset.
Implicit Types (c : Config RelPose) (a : Actors) (b : Buffers) (s : State).

(** [_reset_frankas] keeps the shapes of the buffers. *)
Lemma reset_frankas_buffers_ok c a b (env_idxs : list Z) (d : ResetDraws)
    (ks : list nat) b' pushed :
  actors_ok c a → buffers_ok c a b → env_idxs_ok (num_envs c) env_idxs →
  draws_ok d → (0 <= franka_joint_rand_lim_deg a)%Q →
  result_mapM (norm_index (num_envs c)) env_idxs = Ok ks → NoDup ks →
  _reset_frankas c a b env_idxs d true true = Ok (b', pushed) →
  buffers_ok c a b' ∧ root_pos b' = root_pos b ∧ root_quat b' = root_quat b.
Proof.
  intros Ha Hb Hidx Hd Hr Hks Hnd Hreset.
  destruct (reset_frankas_spec c a b env_idxs d ks Ha Hb Hidx Hd Hr Hks Hnd)
    as (_ & _ & b'' & pushed'' & Heq & Hrp & Hrq & _ & Hout & Hin).
  rewrite Hreset in Heq. injection Heq as <- <-.
  split; [|done].
  pose proof (norm_indices_spec _ _ _ Hks) as (_ & Hbks & _).
  destruct Hb as (Hlp & Hrowp & Hlv & Hrowv & Hlrp & Hlrq & Hcols).
  assert (∀ e, e ∈ ks → e < num_envs c) as Hlt.
  { intros e He. by eapply Forall_forall in Hbks. }
  unfold buffers_ok. rewrite Hrp, Hrq.
  split.
  { rewrite <- Hlp. apply length_by_lookup. intros e.
    destruct (decide (e ∈ ks)) as [He|He].
    - pose proof (Hlt e He) as Hlte.
      apply list_elem_of_lookup in He as [i Hi].
      destruct (Hin i e Hi) as (row & -> & _). split; intros _; [|eauto].
      apply lookup_lt_is_Some_2. by rewrite Hlp.
    - by rewrite (proj1 (Hout e He)). }
  split.
  { apply Forall_lookup_2. intros e row Hrow.
    destruct (decide (e ∈ ks)) as [He|He].
    - apply list_elem_of_lookup in He as [i Hi].
      destruct (Hin i e Hi) as (row' & Hrow' & Hlen & _). congruence.
    - rewrite (proj1 (Hout e He)) in Hrow. by eapply Forall_lookup_1 in Hrowp. }
  split.
  { rewrite <- Hlv. apply length_by_lookup. intros e.
    destruct (decide (e ∈ ks)) as [He|He].
    - pose proof (Hlt e He) as Hlte.
      apply list_elem_of_lookup in He as [i Hi].
      destruct (Hin i e Hi) as (row & _ & _ & _ & _ & -> & _). split; intros _; [|eauto].
      apply lookup_lt_is_Some_2. by rewrite Hlv.
    - by rewrite (proj2 (Hout e He)). }
  split.
  { apply Forall_lookup_2. intros e row Hrow.
    destruct (decide (e ∈ ks)) as [He|He].
    - apply list_elem_of_lookup in He as [i Hi].
      destruct (Hin i e Hi) as (row' & _ & _ & _ & _ & Hv & _).
      rewrite Hv in Hrow. injection Hrow as <-. reflexivity.
    - rewrite (proj2 (Hout e He)) in Hrow. by eapply Forall_lookup_1 in Hrowv. }
  done.
Qed.

(** [_reset_part_poses] keeps the shapes of the buffers. *)
Lemma reset_part_poses_buffers_ok c a b (env_idxs : list Z) (d : ResetDraws)
    (ks : list nat) b' pushed :
  actors_ok c a → buffers_ok c a b → env_idxs_ok (num_envs c) env_idxs →
  str_contains "factory" (furniture_name c) = false →
  NoDup (parts_idx_list a ++ obstacles_idx_list a) →
  result_mapM (norm_index (num_envs c)) env_idxs = Ok ks → NoDup ks →
  _reset_part_poses c a b env_idxs d = Ok (b', pushed) →
  buffers_ok c a b'.
Proof.
  intros Ha Hb Hidx Hfac Hndc Hks Hnd Hreset.
  destruct (reset_part_poses_spec c a b env_idxs d ks Ha Hb Hidx Hfac Hndc Hks Hnd)
    as (b'' & pushed'' & Heq & Hdp & Hdv & _ & Hlp' & Hlq' & Hout & Hin).
  rewrite Hreset in Heq. injection Heq as <- <-.
  destruct Hb as (Hlp & Hrowp & Hlv & Hrowv & Hlrp & Hlrq & Hcols).
  apply Forall_app in Hcols as [Hcp Hcq].
  unfold buffers_ok. rewrite Hdp, Hdv.
  split; [done|]. split; [done|]. split; [done|]. split; [done|].
  split; [done|]. split; [done|].
  apply Forall_app. split.
  - apply Forall_lookup_2. intros e env He.
    destruct (decide (e ∈ ks)) as [Hek|Hek].
    + apply list_elem_of_lookup in Hek as [i Hi].
      destruct (Hin i e Hi) as (env_pos & env_quat & old_pos & old_quat & H1 & H2 & H3
                                & H4 & Hl1 & Hl2 & _).
      rewrite H1 in He. injection He as <-. rewrite Hl1.
      by eapply Forall_lookup_1 in Hcp.
    + rewrite (proj1 (Hout e Hek)) in He. by eapply Forall_lookup_1 in Hcp.
  - apply Forall_lookup_2. intros e env He.
    destruct (decide (e ∈ ks)) as [Hek|Hek].
    + apply list_elem_of_lookup in Hek as [i Hi].
      destruct (Hin i e Hi) as (env_pos & env_quat & old_pos & old_quat & H1 & H2 & H3
                                & H4 & Hl1 & Hl2 & _).
      rewrite H2 in He. injection He as <-. rewrite Hl2.
      by eapply Forall_lookup_1 in Hcq.
    + rewrite (proj2 (Hout e Hek)) in He. by eapply Forall_lookup_1 in Hcq.
Qed.

End ResetBuffers.

Section ResetLamp.
Context {RelPose : Type} `{!ControlUtils RelPose} `{!QuatUtils}.
Import FurnitureRLSimEnvReset.
Implicit Types (c : Config RelPose) (a : Actors) (b : Buffers) (s : State).

(** X20: a lamp [reset] that the engine accepts, whatever environments it
    names, stores as bulb rest pose of EVERY environment the first seven
    numbers the engine reports for its bulb after the ten settling refreshes
    (also for the environments the call does not reset); in the named
    environments it leaves the bulb actors at that rest pose and every other
    part at its initial pose, and hands the bulb actors to the engine; the
    root rows of the other environments are untouched. The episode state it
    leaves is the one of [FurnitureRLSimEnv.reset]. *)
Theorem X20_lamp_reset_stores_rest_poses c a s b (env_idxs : option (list Z))
    (inp : ResetInput) (ks : list nat) :
  config_ok c → actors_ok c a → buffers_ok c a b →
  length (already_assembled s) = num_envs c → length (env_steps s) = num_envs c →
  furniture_name c = "lamp" →
  idxs_ok (num_envs c) env_idxs →
  result_mapM (norm_index (num_envs c)) (reset_idxs c env_idxs) = Ok ks → NoDup ks →
  NoDup (parts_idx_list a ++ obstacles_idx_list a) → NoDup (bulb_idx_list a) →
  draws_ok (draws inp) → (0 <= franka_joint_rand_lim_deg a)%Q →
  rb_ok c (rb_settled inp) →
  success1 inp = true → success2 inp = true →
  ∃ s' b' out rest,
    reset c a s b env_idxs inp = Ok (s', b', out)
    ∧ FurnitureRLSimEnv.reset c s env_idxs (rb_final inp) = Ok s'
    ∧ lb_rest_poses b' = Some rest
    ∧ (∀ e k, lamp_bulb_rb_indices c !! e = Some k →
         ∃ row, rb_settled inp !! k = Some row ∧ rest !! e = Some (take 7 row))
    ∧ (∀ e, e ∉ ks →
         root_pos b' !! e = root_pos b !! e ∧ root_quat b' !! e = root_quat b !! e)
    ∧ ∀ e, e ∈ ks →
        ∃ env_pos env_quat pose,
          root_pos b' !! e = Some env_pos ∧ root_quat b' !! e = Some env_quat
          ∧ rest !! e = Some pose
          ∧ (∀ actor, actor ∈ bulb_idx_list a →
               env_pos !! actor = Some (take 3 pose)
               ∧ env_quat !! actor = Some (take 4 (drop 3 pose)))
          ∧ (∀ p actor, parts_idx_list a !! p = Some actor →
               actor ∉ bulb_idx_list a →
               env_pos !! actor = parts_initial_pos a !! p
               ∧ env_quat !! actor = parts_initial_ori a !! p)
          ∧ ∃ acts pushed, bulb_actor_idx_by_env a !! e = Some acts
                           ∧ bulbs_pushed out = Some pushed ∧ acts ⊆ pushed.
Proof.
  intros Hc Ha Hb Hlaa Hlsteps Hlamp Hok Hks Hnd Hndc Hndb Hd Hr Hrb Hs1 Hs2.
  assert (reset_idxs c env_idxs ≠ []
          ∧ env_idxs_ok (num_envs c) (reset_idxs c env_idxs)) as [Hne Hidx].
  { destruct env_idxs as [l|]; simpl in *; [exact Hok|]. split.
    - destruct (num_envs c); [lia|discriminate].
    - apply Forall_fmap, Forall_forall. intros e He%elem_of_seq. simpl. lia. }
  assert (str_contains "factory" (furniture_name c) = false) as Hfac
    by (rewrite Hlamp; reflexivity).
  unfold reset, FurnitureRLSimEnv.reset.
  change (match env_idxs with
          | Some idxs => idxs
          | None => Z.of_nat <$> seq 0 (num_envs c)
          end) with (reset_idxs c env_idxs).
  set (idxs := reset_idxs c env_idxs) in *.
  destruct (Nat.eqb_spec (length idxs) 0) as [H0|_]; [by destruct idxs|].
  destruct (index_assign_total (map (λ _, false)) idxs (already_assembled s))
    as [aa Haa]; [by rewrite Hlaa|].
  destruct (index_assign_total (λ _, 0%Z) idxs (env_steps s))
    as [steps Hsteps]; [by rewrite Hlsteps|].
  rewrite Haa, Hsteps. cbn [mbind result_bind].
  (* the robots *)
  destruct (reset_frankas_spec c a b idxs (draws inp) ks Ha Hb Hidx Hd Hr Hks Hnd)
    as (_ & _ & b1 & pushed1 & Hf & _).
  destruct (reset_frankas_buffers_ok c a b idxs (draws inp) ks b1 pushed1
              Ha Hb Hidx Hd Hr Hks Hnd Hf) as (Hb1 & Hrp1 & Hrq1).
  rewrite Hs1, Hs2, Hf. cbn [mbind result_bind fst snd].
  (* the parts *)
  unfold _reset_parts_multiple.
  destruct (reset_part_poses_spec c a b1 idxs (draws inp) ks Ha Hb1 Hidx Hfac Hndc Hks Hnd)
    as (b2 & pushed2 & Hp & _ & _ & _ & _ & _ & Hout2 & Hin2).
  pose proof (reset_part_poses_buffers_ok c a b1 idxs (draws inp) ks b2 pushed2
                Ha Hb1 Hidx Hfac Hndc Hks Hnd Hp) as Hb2.
  rewrite Hp. cbn [mbind result_bind fst snd].
  assert (length (rigid_body_index_by_env c) = num_envs c) as Hlr
    by (by destruct Ha as (_ & _ & _ & _ & _ & _ & _ & _ & _ & _ & ?)).
  destruct (apply_forces_spec c idxs (max_force_magnitude s) (max_torque_magnitude s)
              (push inp) ks Hc Hlr Hidx Hks) as (forces & torques & Hfo & _).
  rewrite Hfo. cbn [mbind result_bind fst snd].
  (* the bulbs *)
  rewrite Hlamp. change (String.eqb "lamp" "lamp") with true. cbv iota.
  destruct Hc as (_ & _ & _ & _ & Hlampc & _).
  destruct (Hlampc Hlamp) as (Hlb & Hbb & _).
  destruct Hrb as [Hlrb _].
  set (rest := (λ k, take 7 (default [] (rb_settled inp !! k)))
                 <$> lamp_bulb_rb_indices c).
  assert (result_mapM (λ k, take 7 <$> index_get (rb_settled inp) k)
            (lamp_bulb_rb_indices c) = Ok rest) as Hrest.
  { apply result_mapM_map. eapply Forall_impl; [exact Hbb|]. intros k Hk. simpl in Hk.
    rewrite <- Hlrb in Hk. destruct (lookup_lt_is_Some_2 _ _ Hk) as [row Hrow].
    rewrite Hrow. apply index_get_Ok in Hrow. rewrite Hrow. reflexivity. }
  assert (length rest = num_envs c) as Hlrest by (unfold rest; by rewrite length_fmap).
  rewrite Hrest. cbn [mbind result_bind].
  unfold view_rows. rewrite Hlrest, Nat.eqb_refl. cbn [mbind result_bind].
  destruct (set_bulb_poses_spec c a (set_lb_rest_poses (Some rest) b2) idxs ks rest
              Ha Hb2 Hidx Hne Hndb eq_refl Hlrest Hks Hnd)
    as (b3 & pushed3 & Hbulb & _ & _ & Hrest3 & Hout3 & Hin3).
  rewrite Hbulb. cbn [mbind result_bind fst snd].
  eexists _, _, _, rest. split; [reflexivity|]. split; [reflexivity|].
  cbn [lb_rest_poses set_dof root_pos root_quat bulbs_pushed].
  split; [exact Hrest3|]. split.
  { intros e k Hk. eapply Forall_lookup_1 in Hbb; [|exact Hk]. simpl in Hbb.
    rewrite <- Hlrb in Hbb. destruct (lookup_lt_is_Some_2 _ _ Hbb) as [row Hrow].
    exists row. split; [exact Hrow|]. unfold rest. rewrite list_lookup_fmap, Hk. simpl.
    by rewrite Hrow. }
  split.
  { intros e He. destruct (Hout3 e He) as [-> ->]. cbn [set_lb_rest_poses root_pos root_quat].
    destruct (Hout2 e He) as [-> ->]. by rewrite Hrp1, Hrq1. }
  intros e [i Hi]%list_elem_of_lookup.
  destruct (Hin3 i e Hi) as (env_pos & env_quat & old_pos & old_quat & pose & H1 & H2
                             & H3 & H4 & Hpose & Hbulbs & Hothers & acts & Hacts & Hsub).
  cbn [set_lb_rest_poses root_pos root_quat] in H3, H4.
  destruct (Hin2 i e Hi) as (env_pos2 & env_quat2 & _ & _ & H1' & H2' & _ & _ & _ & _
                             & Hparts & _).
  rewrite H1' in H3. injection H3 as <-. rewrite H2' in H4. injection H4 as <-.
  exists env_pos, env_quat, pose.
  split; [exact H1|]. split; [exact H2|]. split; [exact Hpose|].
  split; [exact Hbulbs|]. split.
  - intros p actor Hp' Hnb. destruct (Hothers actor Hnb) as [-> ->].
    by apply Hparts.
  - exists acts, pushed3. done.
Qed.

End ResetLamp.

(** ** The robot state dictionary *)

Lemma dict_get_set {V : Type} (d : dict V) (k : string) (v : V) (k' : string) :
  dict_get (dict_set k v d) k' = if String.eqb k k' then Return v else dict_get d k'.
Proof.
  induction d as [|[k0 v0] d IH]; simpl.
  - reflexivity.
  - destruct (String.eqb_spec k0 k) as [->|Hne]; simpl.
    + by destruct (String.eqb k k').
    + rewrite IH.
      destruct (String.eqb_spec k0 k') as [->|]; [|done].
      by destruct (String.eqb_spec k k') as [->|].
Qed.

Lemma dict_mem_get {V : Type} (d : dict V) (k : string) :
  dict_mem d k = match dict_get d k with Return _ => true | _ => false end.
Proof.
  unfold dict_mem. induction d as [|[k0 v0] d IH]; simpl; [done|].
  by destruct (String.eqb k0 k).
Qed.

Lemma dict_mem_keys {V : Type} (d : dict V) (k : string) :
  dict_mem d k = true ↔ k ∈ d.*1.
Proof.
  unfold dict_mem. induction d as [|[k0 v0] d IH]; simpl.
  - split; [done|]. by intros ?%elem_of_nil.
  - rewrite elem_of_cons, orb_true_iff, IH.
    destruct (String.eqb_spec k0 k) as [->|Hne]; [tauto|].
    split; (intros [H|H]; [|by right]); [done|]. by subst.
Qed.

Lemma dict_get_missing {V : Type} (d : dict V) (k : string) :
  dict_mem d k = false → dict_get d k = ThrowKeyError k.
Proof.
  unfold dict_mem. induction d as [|[k0 v0] d IH]; simpl; [done|].
  destruct (String.eqb k0 k); [done|]. exact IH.
Qed.

(** [{k: d[k] for k in keys}]. *)
Lemma select_keys_Return {V : Type} (d : dict V) (keys : list string) : ∀ acc,
  Forall (λ k, dict_mem d k = true) keys →
  ∃ out,
    foldl (λ acc k, out ← acc; v ← dict_get d k; Return (dict_set k v out))
      (Return acc) keys = Return out
    ∧ ∀ k, dict_get out k
           = if bool_decide (k ∈ keys) then dict_get d k else dict_get acc k.
Proof.
  induction keys as [|k0 keys IH]; intros acc Hall.
  - exists acc. split; [reflexivity|]. intros k. reflexivity.
  - apply Forall_cons in Hall as [Hk0 Hall]. simpl.
    rewrite dict_mem_get in Hk0.
    destruct (dict_get d k0) as [v| |] eqn:Hv; try discriminate. simpl.
    destruct (IH (dict_set k0 v acc) Hall) as (out & Hout & Hget).
    exists out. split; [exact Hout|]. intros k. rewrite Hget, dict_get_set.
    destruct (decide (k ∈ keys)) as [Hin|Hin].
    + rewrite !bool_decide_eq_true_2; [done| |done]. by apply elem_of_cons; right.
    + rewrite (bool_decide_eq_false_2 (k ∈ keys)) by done.
      destruct (String.eqb_spec k0 k) as [->|Hne].
      * rewrite bool_decide_eq_true_2 by (apply elem_of_cons; by left). by rewrite Hv.
      * rewrite bool_decide_eq_false_2; [done|].
        intros [->|?]%elem_of_cons; done.
Qed.

Lemma select_keys_KeyError {V : Type} (d : dict V) (pre : list string) (k : string)
    (post : list string) (acc : dict V) :
  Forall (λ k, dict_mem d k = true) pre → dict_mem d k = false →
  foldl (λ acc k, out ← acc; v ← dict_get d k; Return (dict_set k v out))
    (Return acc) (pre ++ k :: post) = ThrowKeyError k.
Proof.
  intros Hpre Hk. rewrite foldl_app.
  destruct (select_keys_Return d pre acc Hpre) as (out & -> & _). simpl.
  rewrite (dict_get_missing d k Hk). simpl.
  induction post as [|k' post IH]; [reflexivity|exact IH].
Qed.

Section RobotState.
Context {RelPose : Type} `{!ControlUtils RelPose}.
Import FurnitureSimEnvBuffers.
Implicit Types (c : Config RelPose) (b : Buffers) (oc : ObsConfig).

Lemma robot_state_dict_spec c oc b (forces rb : list (list Q)) :
  rb_ok c rb → robot_idxs_ok c oc →
  ∃ full ee_pos ee_quat,
    robot_state_dict c oc b forces rb = Ok full
    ∧ full.*1 = robot_state_dict_keys
    ∧ dict_get full "ee_pos" = Return ee_pos
    ∧ dict_get full "ee_quat" = Return ee_quat
    ∧ dict_get full "gripper_width" = Return (gripper_width b)
    ∧ ∀ e k kb row rowb,
        ee_idxs c !! e = Some k → base_idxs oc !! e = Some kb →
        rb !! k = Some row → rb !! kb = Some rowb →
        ee_quat !! e = Some (canonical_quat row)
        ∧ ee_pos !! e = Some (zip_with Qminus (take 3 row) (take 3 rowb)).
Proof.
  intros [Hlrb Hrows] (Hlen & Hee & Hbase).
  unfold robot_state_dict, get_ee_pose.
  destruct (result_mapM_total (index_get rb) (ee_idxs c)) as [hand Hhand].
  { eapply Forall_impl; [exact Hee|]. intros k Hk. apply index_get_total. by rewrite Hlrb. }
  destruct (result_mapM_total (index_get rb) (base_idxs oc)) as [base Hb].
  { eapply Forall_impl; [exact Hbase|]. intros k Hk. apply index_get_total.
    by rewrite Hlrb. }
  rewrite Hhand. cbn [mbind result_bind]. rewrite Hb. cbn [mbind result_bind].
  pose proof (result_mapM_length _ _ _ Hhand) as Hlh.
  pose proof (result_mapM_length _ _ _ Hb) as Hlb.
  rewrite tensor_zip_total by (rewrite !length_fmap; lia).
  cbn [mbind result_bind fst snd].
  assert (Forall (λ r : list Q, length r = 13) hand) as Hhrows.
  { apply Forall_lookup_2. intros e r Hr.
    apply result_mapM_Ok in Hhand.
    destruct (Forall2_lookup_r _ _ _ _ _ Hhand Hr) as (k & _ & Hk).
    apply index_get_Ok in Hk. by eapply Forall_lookup_1 in Hrows. }
  set (quat := (λ r : list Q, take 4 (drop 3 r)) <$> hand).
  set (mask := (λ r : list Q, Qlt_bool (default 0%Q (take 4 (drop 3 r) !! 3)) 0) <$> hand).
  assert (result_mapM (λ q : list Q, (λ w, Qlt_bool w 0) <$> index_get q 3) quat
          = Ok mask) as Hmask.
  { unfold quat, mask. apply result_mapM_Ok. apply Forall2_fmap.
    apply Forall_Forall2_diag. eapply Forall_impl; [exact Hhrows|].
    intros r Hr. simpl in Hr.
    destruct (lookup_lt_is_Some_2 (take 4 (drop 3 r)) 3) as [w Hw].
    { rewrite length_take, length_drop. lia. }
    rewrite Hw. apply index_get_Ok in Hw. rewrite Hw. reflexivity. }
  rewrite Hmask. cbn [mbind result_bind].
  eexists _, _, _. split; [reflexivity|]. split; [reflexivity|].
  split; [reflexivity|]. split; [reflexivity|]. split; [reflexivity|].
  intros e k kb row rowb He Hkb Hrow Hrowb.
  assert (hand !! e = Some row) as Hhe.
  { destruct (result_mapM_lookup _ _ _ _ _ Hhand He) as (r & Hr & Hget).
    apply index_get_Ok in Hget. congruence. }
  assert (base !! e = Some rowb) as Hbe.
  { destruct (result_mapM_lookup _ _ _ _ _ Hb Hkb) as (r & Hr & Hget).
    apply index_get_Ok in Hget. congruence. }
  split.
  - apply lookup_zip_with_Some. eexists _, _. split; [|split].
    2:{ unfold mask. rewrite list_lookup_fmap, Hhe. reflexivity. }
    2:{ unfold quat. rewrite list_lookup_fmap, Hhe. reflexivity. }
    unfold canonical_quat.
    destruct (take 4 (drop 3 row) !! 3) as [w|] eqn:Hw; simpl; [done|].
    destruct (Qlt_bool 0 0) eqn:H0; [|done]. by vm_compute in H0.
  - apply lookup_zip_with_Some. eexists _, _. split; [reflexivity|].
    rewrite !list_lookup_fmap, Hhe, Hbe. done.
Qed.

Lemma robot_state_keys_mem (full : dict (list (list Q))) (keys : list string) :
  full.*1 = robot_state_dict_keys →
  Forall (λ k, k ∈ robot_state_dict_keys) keys →
  Forall (λ k, dict_mem full k = true) keys.
Proof.
  intros Hkeys Hall. eapply Forall_impl; [exact Hall|]. intros k Hk. simpl in Hk.
  apply dict_mem_keys. by rewrite Hkeys.
Qed.

(** What [_read_robot_state] returns; see X21 and X22. *)
Lemma read_robot_state_spec c oc b (forces rb : list (list Q)) :
  rb_ok c rb → robot_idxs_ok c oc →
  Forall (λ k, k ∈ robot_state_dict_keys) (robot_state_keys oc) →
  ∃ full d,
    robot_state_dict c oc b forces rb = Ok full
    ∧ _read_robot_state c oc b forces rb = Return d
    ∧ ∀ k, dict_get d k
           = if bool_decide (k ∈ robot_state_keys oc) then dict_get full k
             else ThrowKeyError k.
Proof.
  intros Hrb Hidx Hall.
  destruct (robot_state_dict_spec c oc b forces rb Hrb Hidx)
    as (full & ee_pos & ee_quat & Hfull & Hkeys & _).
  destruct (select_keys_Return full (robot_state_keys oc) []
              (robot_state_keys_mem full _ Hkeys Hall)) as (d & Hd & Hget).
  exists full, d. split; [exact Hfull|]. split; [|exact Hget].
  unfold _read_robot_state. rewrite Hfull. exact Hd.
Qed.

(** X21: the end-effector quaternion of the robot state has a non-negative
    real part: for every environment [_read_robot_state] reports the
    quaternion the engine holds for the hand (numbers 3 to 6 of its rigid
    body row) or its negation, which is the same rotation, whichever has
    [w >= 0]. *)
Theorem X21_ee_quat_real_part_nonnegative c oc b (forces rb : list (list Q))
    (e k : nat) (row : list Q) :
  rb_ok c rb → robot_idxs_ok c oc →
  Forall (λ k, k ∈ robot_state_dict_keys) (robot_state_keys oc) →
  "ee_quat" ∈ robot_state_keys oc →
  ee_idxs c !! e = Some k → rb !! k = Some row →
  ∃ d ee_quat q w,
    _read_robot_state c oc b forces rb = Return d
    ∧ dict_get d "ee_quat" = Return ee_quat
    ∧ ee_quat !! e = Some q
    ∧ (q = take 4 (drop 3 row) ∨ q = map (λ x, x * -1)%Q (take 4 (drop 3 row)))
    ∧ q !! 3 = Some w ∧ (0 <= w)%Q.
Proof.
  intros Hrb Hidx Hall Hin He Hrow.
  destruct (robot_state_dict_spec c oc b forces rb Hrb Hidx)
    as (full & ee_pos & ee_quat & Hfull & Hkeys & _ & Hq & _ & Hrows).
  destruct (read_robot_state_spec c oc b forces rb Hrb Hidx Hall)
    as (full' & d & Hfull' & Hd & Hget).
  rewrite Hfull in Hfull'. injection Hfull' as <-.
  destruct Hidx as (Hlen & _ & Hbase).
  destruct (lookup_lt_is_Some_2 (base_idxs oc) e) as [kb Hkb].
  { rewrite <- Hlen. by eapply lookup_lt_Some. }
  destruct Hrb as [Hlrb Hrb].
  destruct (lookup_lt_is_Some_2 rb kb) as [rowb Hrowb].
  { rewrite Hlrb. by eapply Forall_lookup_1 in Hbase. }
  destruct (Hrows e k kb row rowb He Hkb Hrow Hrowb) as [Hqe _].
  eapply Forall_lookup_1 in Hrb; [|exact Hrow]. simpl in Hrb.
  destruct (lookup_lt_is_Some_2 (take 4 (drop 3 row)) 3) as [w0 Hw0].
  { rewrite length_take, length_drop. lia. }
  unfold canonical_quat in Hqe. rewrite Hw0 in Hqe.
  destruct (Qlt_bool w0 0) eqn:Hsign.
  - exists d, ee_quat, (map (λ x, x * -1)%Q (take 4 (drop 3 row))), (w0 * -1)%Q.
    split; [exact Hd|]. split.
    { rewrite Hget, bool_decide_eq_true_2 by exact Hin. exact Hq. }
    split; [exact Hqe|]. split; [by right|]. split.
    + change (map (λ x, x * -1)%Q (take 4 (drop 3 row)))
        with ((λ x, x * -1)%Q <$> take 4 (drop 3 row)).
      by rewrite list_lookup_fmap, Hw0.
    + apply Qlt_bool_iff in Hsign. lra.
  - exists d, ee_quat, (take 4 (drop 3 row)), w0.
    split; [exact Hd|]. split.
    { rewrite Hget, bool_decide_eq_true_2 by exact Hin. exact Hq. }
    split; [exact Hqe|]. split; [by left|]. split; [exact Hw0|].
    by apply Qlt_bool_false.
Qed.

(** X22: [_read_robot_state] returns exactly the entries named by
    [robot_state_keys]: a named key holds the value of the full dictionary,
    any other lookup fails; if [robot_state_keys] holds a key that is not one
    of the ten of the dictionary, the call raises [KeyError] for the first
    such key. *)
Theorem X22_read_robot_state_selects_keys c oc b (forces rb : list (list Q)) :
  rb_ok c rb → robot_idxs_ok c oc →
  (Forall (λ k, k ∈ robot_state_dict_keys) (robot_state_keys oc) →
   ∃ full d,
     robot_state_dict c oc b forces rb = Ok full
     ∧ _read_robot_state c oc b forces rb = Return d
     ∧ ∀ k, dict_get d k
            = if bool_decide (k ∈ robot_state_keys oc) then dict_get full k
              else ThrowKeyError k)
  ∧ ∀ pre k post,
      robot_state_keys oc = pre ++ k :: post →
      Forall (λ k, k ∈ robot_state_dict_keys) pre → k ∉ robot_state_dict_keys →
      _read_robot_state c oc b forces rb = ThrowKeyError k.
Proof.
  intros Hrb Hidx. split; [by apply read_robot_state_spec|].
  intros pre k post Hsplit Hpre Hk.
  destruct (robot_state_dict_spec c oc b forces rb Hrb Hidx)
    as (full & ee_pos & ee_quat & Hfull & Hkeys & _).
  unfold _read_robot_state. rewrite Hfull, Hsplit. simpl.
  apply select_keys_KeyError.
  - by apply robot_state_keys_mem.
  - destruct (dict_mem full k) eqn:Hmem; [|done].
    apply dict_mem_keys in Hmem. by rewrite Hkeys in Hmem.
Qed.




End RobotState.

Lemma fill_cols_full {A : Type} (w : nat) (v : list A) (t : list (list A)) :
  Forall (λ row, length row = w) t → length v = w →
  fill_cols w v t = Ok (replicate (length t) v).
Proof.
  intros Hrows Hv. unfold fill_cols.
  rewrite (result_mapM_map _ (λ _, v)).
  - f_equal. by apply const_fmap.
  - eapply Forall_impl; [exact Hrows|]. intros row Hrow. simpl in Hrow.
    rewrite Hrow, Nat.min_id, Hv, Nat.eqb_refl.
    rewrite drop_ge by lia. by rewrite app_nil_r.
Qed.

Section ResetFranka.
Context {RelPose : Type} `{!ControlUtils RelPose}.
Import FurnitureSimEnvBuffers.
Implicit Types (a : Actors) (b : Buffers).

(** X24: [_reset_franka], although it is called for one environment,
    overwrites the DoF buffer rows of EVERY environment with the given DoF
    positions (the default ones if none are given) and zero velocities,
    exactly as [_reset_franka_all] does; the two differ only in the actors
    they hand to the engine: the one of [env_idx] (negative indices count from
    the end), or all of them. *)
Theorem X24_reset_franka_rewrites_every_row a b (env_idx : Z)
    (dof_pos_arg : option (list Q)) (k : nat) :
  franka_num_dofs a = 9 → length (default_dof_pos a) = 9 →
  Forall (λ row, length row = 9) (dof_pos b) →
  Forall (λ row, length row = 9) (dof_vel b) →
  length (default (default_dof_pos a) dof_pos_arg) = 9 →
  norm_index (length (franka_actor_idxs_all_t a)) env_idx = Ok k →
  ∃ b' act,
    _reset_franka a b env_idx dof_pos_arg = Ok (b', [act])
    ∧ franka_actor_idxs_all_t a !! k = Some act
    ∧ _reset_franka_all a b dof_pos_arg = Ok (b', franka_actor_idxs_all_t a)
    ∧ dof_pos b'
      = replicate (length (dof_pos b)) (default (default_dof_pos a) dof_pos_arg)
    ∧ dof_vel b' = replicate (length (dof_vel b)) (replicate 9 0%Q)
    ∧ root_pos b' = root_pos b ∧ root_quat b' = root_quat b.
Proof.
  intros HF HD Hp Hv Harg Hk.
  pose proof (norm_index_bound _ _ _ Hk) as Hlt.
  destruct (lookup_lt_is_Some_2 _ _ Hlt) as [act Hact].
  unfold _reset_franka, _reset_franka_all, _update_franka_dof_state_buffer.
  rewrite HF, HD.
  change (match dof_pos_arg with
          | Some p => p
          | None => default_dof_pos a
          end) with (default (default_dof_pos a) dof_pos_arg).
  rewrite (fill_cols_full 9 _ (dof_pos b) Hp Harg).
  rewrite (fill_cols_full 9 (replicate 9 0%Q) (dof_vel b) Hv eq_refl).
  cbn [mbind result_bind]. rewrite Hk. cbn [mbind result_bind].
  apply index_get_Ok in Hact as Hget. rewrite Hget. cbn [mbind result_bind].
  eexists _, act. split; [reflexivity|]. split; [exact Hact|]. done.
Qed.

End ResetFranka.

(** ** The factory tasks *)

Lemma zip_rows_total {A B C : Type} (f : A → B → C) (init : list A)
    (offs : nat → list B) (n : nat) : ∀ s,
  (∀ i, length (offs i) = length init) →
  result_mapM (λ ro : list A * list B, tensor_zip f ro.1 ro.2)
    (zip (replicate n init) (offs <$> seq s n))
  = Ok ((λ i, zip_with f init (offs i)) <$> seq s n).
Proof.
  induction n as [|n IH]; intros s Hlen; [reflexivity|].
  cbn [replicate seq fmap list_fmap zip zip_with result_mapM fst snd].
  rewrite tensor_zip_total by (by rewrite Hlen). cbn [mbind result_bind].
  change (zip_with pair (replicate n init) (list_fmap nat (list B) offs (seq (S s) n)))
    with (zip (replicate n init) (offs <$> seq (S s) n)).
  rewrite (IH (S s) Hlen). reflexivity.
Qed.

Section ResetPartsFactory.
Context {RelPose : Type} `{!ControlUtils RelPose} `{!QuatUtils}.
Import FurnitureRLSimEnv FurnitureRLSimEnvReset.
Implicit Types (c : Config RelPose) (a : Actors) (b : Buffers).

(** What [_reset_part_poses] writes for the parts on the factory tasks; see
    X25. *)
Lemma reset_part_poses_factory_spec c a b (env_idxs : list Z) (d : ResetDraws)
    (ks : list nat) :
  actors_ok c a → buffers_ok c a b → env_idxs_ok (num_envs c) env_idxs →
  str_contains "factory" (furniture_name c) = true →
  NoDup (parts_idx_list a ++ obstacles_idx_list a) →
  result_mapM (norm_index (num_envs c)) env_idxs = Ok ks → NoDup ks →
  ∃ b' pushed,
    _reset_part_poses c a b env_idxs d = Ok (b', pushed)
    ∧ ∀ i e, ks !! i = Some e →
        ∃ env_pos env_quat,
          root_pos b' !! e = Some env_pos ∧ root_quat b' !! e = Some env_quat
          ∧ ∀ p actor pos ori, parts_idx_list a !! p = Some actor →
              parts_initial_pos a !! p = Some pos →
              parts_initial_ori a !! p = Some ori →
              env_pos !! actor
              = Some (zip_with Qplus pos
                        [(u_part_pos d i p 0 * 2 - 1) * (1 # 100);
                         (u_part_pos d i p 1 * 2 - 1) * (1 # 100); 0]%Q)
              ∧ env_quat !! actor
                = Some (quaternion_multiply ori
                          (axis_angle_to_quaternion
                             [0; 0; (u_part_yaw d i p 2 * 2 - 1) * deg2rad_45]%Q)).
Proof.
  intros (_ & _ & HNP & Hlpp & Hlpo & Hlo & Hloi & _ & Hla & _)
    (_ & _ & _ & _ & Hlrp & Hlrq & Hcols) Hidx Hfac Hndc Hks Hnd.
  pose proof (norm_indices_spec _ _ _ Hks) as (Hlks & Hbks & _).
  apply NoDup_app in Hndc as (Hndp & Hdisj & Hndo).
  apply Forall_app in Hcols as [Hcp Hcq].
  set (n := length env_idxs) in *.
  set (P := length (parts_idx_list a)) in *.
  unfold _reset_part_poses. rewrite Hfac. fold n. rewrite HNP. fold P.
  rewrite (zip_rows_total (λ p o : list Q, zip_with Qplus p o))
    by (intros i; by rewrite length_fmap, length_seq).
  cbn [mbind result_bind].
  rewrite (zip_rows_total
             (λ q y : list Q, quaternion_multiply q (axis_angle_to_quaternion y)))
    by (intros i; by rewrite length_fmap, length_seq).
  cbn [mbind result_bind fst snd]. rewrite Hlrp, Hks. cbn [mbind result_bind].
  set (posv := (λ i, zip_with _ (parts_initial_pos a) _) <$> seq 0 n).
  set (oriv := (λ i, zip_with _ (parts_initial_ori a) _) <$> seq 0 n).
  destruct (index_assign_grid_total ks (parts_idx_list a) posv (root_pos b))
    as [rp1 Hrp1].
  { by rewrite Hlrp. } { unfold posv. rewrite length_fmap, length_seq. lia. }
  { unfold posv. apply Forall_fmap, Forall_forall. intros i _. simpl.
    rewrite length_zip_with, length_fmap, length_seq. fold P. lia. }
  { eapply Forall_impl; [exact Hcp|]. intros env He. simpl in He.
    by apply Forall_app in He as [? _]. }
  rewrite Hrp1. cbn [mbind result_bind]. rewrite Hlrq, Hks. cbn [mbind result_bind].
  destruct (index_assign_grid_total ks (parts_idx_list a) oriv (root_quat b))
    as [rq Hrq].
  { by rewrite Hlrq. } { unfold oriv. rewrite length_fmap, length_seq. lia. }
  { unfold oriv. apply Forall_fmap, Forall_forall. intros i _. simpl.
    rewrite length_zip_with, length_fmap, length_seq. fold P. lia. }
  { eapply Forall_impl; [exact Hcq|]. intros env He. simpl in He.
    by apply Forall_app in He as [? _]. }
  rewrite Hrq. cbn [mbind result_bind].
  set (obstacles := (λ off, (λ p, zip_with Qplus p off) <$> obstacle_initial_pos a)
                      <$> _).
  pose proof (index_assign_grid_spec _ _ _ _ _ Hrp1) as (Hl1 & _ & Hout1 & Hin1).
  destruct (index_assign_grid_total ks (obstacles_idx_list a) obstacles rp1)
    as [rp2 Hrp2].
  { rewrite Hl1, Hlrp. exact Hbks. }
  { unfold obstacles. rewrite !length_fmap, length_seq. lia. }
  { unfold obstacles. apply Forall_fmap, Forall_fmap, Forall_forall. intros i _. simpl.
    rewrite length_fmap. lia. }
  { apply Forall_lookup_2. intros e row' He.
    destruct (index_assign_grid_row_length _ _ _ _ _ _ _ Hrp1 Hnd He)
      as (row & Hrow & ->).
    eapply Forall_lookup_1 in Hcp; [|exact Hrow]. simpl in Hcp.
    apply Forall_app in Hcp as [_ Hcp]. by apply Forall_app in Hcp as [? _]. }
  rewrite Hrp2. cbn [mbind result_bind]. rewrite Hla, Hks. cbn [mbind result_bind].
  destruct (result_mapM_total (index_get (actor_idx_by_env a)) ks) as [acts Hacts].
  { eapply Forall_impl; [exact Hbks|]. intros k Hk. apply index_get_total.
    rewrite Hla. exact Hk. }
  rewrite Hacts. cbn [mbind result_bind].
  pose proof (index_assign_grid_spec _ _ _ _ _ Hrq) as (Hlq & _ & Houtq & Hinq).
  pose proof (index_assign_grid_spec _ _ _ _ _ Hrp2) as (Hl2 & Hlv2 & Hout2 & Hin2).
  eexists _, _. split; [reflexivity|]. simpl.
  intros i e Hi.
  assert (i < n) as Hin by (rewrite <- Hlks; by eapply lookup_lt_Some).
  edestruct (Hin1 Hnd i e) as (old_pos & row1 & Hold & _ & Hput1 & Hrow1);
    [exact Hi| |].
  { unfold posv. rewrite list_lookup_fmap, lookup_seq_lt by exact Hin. reflexivity. }
  edestruct (Hinq Hnd i e) as (old_quat & rowq & Holdq & _ & Hputq & Hrowq);
    [exact Hi| |].
  { unfold oriv. rewrite list_lookup_fmap, lookup_seq_lt by exact Hin. reflexivity. }
  destruct (lookup_lt_is_Some_2 obstacles i) as [obst Hobst].
  { unfold obstacles. rewrite !length_fmap, length_seq. exact Hin. }
  destruct (Hin2 Hnd i e obst Hi Hobst) as (row1' & row2 & Hrow1' & _ & Hput2 & Hrow2).
  rewrite Hrow1 in Hrow1'. injection Hrow1' as <-.
  pose proof (index_put_spec _ _ _ _ Hput2) as (Hlen2 & Hpout2 & _).
  exists row2, rowq. split; [exact Hrow2|]. split; [exact Hrowq|].
  intros p actor pos ori Hp Hpos Hori.
  assert (p < P) as HpP by (by eapply lookup_lt_Some).
  assert (actor ∉ obstacles_idx_list a) as Hno.
  { intros Ho. eapply Hdisj; [|exact Ho]. apply list_elem_of_lookup. eauto. }
  rewrite (Hpout2 actor Hno). split.
  - eapply index_put_NoDup; [exact Hput1|exact Hndp|exact Hp|].
    apply lookup_zip_with_Some. eexists pos, _. split; [reflexivity|].
    split; [exact Hpos|].
    rewrite list_lookup_fmap, lookup_seq_lt by exact HpP. reflexivity.
  - eapply index_put_NoDup; [exact Hputq|exact Hndp|exact Hp|].
    apply lookup_zip_with_Some. eexists ori, _. split; [reflexivity|].
    split; [exact Hori|].
    rewrite list_lookup_fmap, lookup_seq_lt by exact HpP. reflexivity.
Qed.

(** X25: on the factory tasks [_reset_part_poses] places every part of every
    named environment within one centimetre of its initial position in x and
    in y, at its initial height, and turns its initial orientation about the
    z axis only, by an angle of at most [np.deg2rad(45)] either way. *)
Theorem X25_factory_reset_jitters_parts c a b (env_idxs : list Z) (d : ResetDraws)
    (ks : list nat) (i e p actor : nat) (x y z : Q) (ori : list Q) :
  actors_ok c a → buffers_ok c a b → env_idxs_ok (num_envs c) env_idxs →
  part_draws_ok d → (0 <= deg2rad_45)%Q →
  str_contains "factory" (furniture_name c) = true →
  NoDup (parts_idx_list a ++ obstacles_idx_list a) →
  result_mapM (norm_index (num_envs c)) env_idxs = Ok ks → NoDup ks →
  ks !! i = Some e → parts_idx_list a !! p = Some actor →
  parts_initial_pos a !! p = Some [x; y; z] →
  parts_initial_ori a !! p = Some ori →
  ∃ b' pushed env_pos env_quat dx dy yaw,
    _reset_part_poses c a b env_idxs d = Ok (b', pushed)
    ∧ root_pos b' !! e = Some env_pos ∧ root_quat b' !! e = Some env_quat
    ∧ env_pos !! actor = Some [x + dx; y + dy; z + 0]%Q
    ∧ (- (1 # 100) <= dx ∧ dx <= 1 # 100)%Q
    ∧ (- (1 # 100) <= dy ∧ dy <= 1 # 100)%Q
    ∧ env_quat !! actor
      = Some (quaternion_multiply ori (axis_angle_to_quaternion [0; 0; yaw]%Q))
    ∧ (- deg2rad_45 <= yaw ∧ yaw <= deg2rad_45)%Q.
Proof.
  intros Ha Hb Hidx [Hup Huy] H45 Hfac Hndc Hks Hnd Hi Hp Hpos Hori.
  destruct (reset_part_poses_factory_spec c a b env_idxs d ks Ha Hb Hidx Hfac Hndc
              Hks Hnd) as (b' & pushed & Hreset & Hin).
  destruct (Hin i e Hi) as (env_pos & env_quat & H1 & H2 & Hparts).
  destruct (Hparts p actor _ ori Hp Hpos Hori) as [Hpa Hqa].
  exists b', pushed, env_pos, env_quat,
    ((u_part_pos d i p 0 * 2 - 1) * (1 # 100))%Q,
    ((u_part_pos d i p 1 * 2 - 1) * (1 # 100))%Q,
    ((u_part_yaw d i p 2 * 2 - 1) * deg2rad_45)%Q.
  split; [exact Hreset|]. split; [exact H1|]. split; [exact H2|].
  split; [exact Hpa|].
  destruct (Hup i p 0) as [H00 H01]. destruct (Hup i p 1) as [H10 H11].
  destruct (Huy i p 2) as [H20 H21].
  split; [apply rand_sym_bound; lra|]. split; [apply rand_sym_bound; lra|].
  split; [exact Hqa|]. by apply rand_sym_bound.
Qed.

End ResetPartsFactory.

(** ** The theorems above at the two-environment lamp *)

Ltac witness_side :=
  solve
    [ reflexivity
    | cbv beta delta [actors_ok buffers_ok env_idxs_ok idxs_ok rb_ok config_ok
                      robot_idxs_ok]; solve_shape
    | apply (bool_decide_unpack _); vm_compute; exact I
    | split; (let m := fresh in let n := fresh in
              intros m n; split; destruct n; by vm_compute)
    | split; intros; split; by vm_compute
    | by vm_compute
    | intros ?; cbn; rewrite !elem_of_cons, !elem_of_nil; tauto ].

Section LampResetParts.
Import FurnitureRLSimEnv FurnitureRLSimEnvReset.

Lemma X14_witness :
  let c := Demo.plain in
  let a := DemoReset.actors in
  let b := DemoReset.buffers in
  let env_idxs := [1; -2]%Z in
  let d := DemoReset.reset_draws in
  let ks := [1; 0] in
  (actors_ok c a
   ∧ buffers_ok c a b
   ∧ env_idxs_ok (num_envs c) env_idxs
   ∧ draws_ok d
   ∧ (0 <= franka_joint_rand_lim_deg a)%Q
   ∧ result_mapM (norm_index (num_envs c)) env_idxs = Ok ks
   ∧ NoDup ks)
  ∧ (_reset_frankas c a b env_idxs d false true = Raise AssertionError
     ∧ _reset_frankas c a b env_idxs d true false = Raise AssertionError
     ∧ ∃ b' pushed,
         _reset_frankas c a b env_idxs d true true = Ok (b', pushed)
         ∧ root_pos b' = root_pos b ∧ root_quat b' = root_quat b
         ∧ length pushed = length env_idxs
         ∧ (∀ e, e ∉ ks →
              dof_pos b' !! e = dof_pos b !! e ∧ dof_vel b' !! e = dof_vel b !! e)
         ∧ ∀ i e, ks !! i = Some e →
             ∃ row,
               dof_pos b' !! e = Some row ∧ length row = 9
               ∧ (∀ j dflt, j < 7 → default_dof_pos a !! j = Some dflt →
                    ∃ x, row !! j = Some x
                      ∧ x = (dflt + (u_joint d i j * 2 * franka_joint_rand_lim_deg a
                                     - franka_joint_rand_lim_deg a))%Q
                      ∧ (dflt - franka_joint_rand_lim_deg a <= x
                         ∧ x <= dflt + franka_joint_rand_lim_deg a)%Q)
               ∧ (∀ j, 7 ≤ j → row !! j = default_dof_pos a !! j)
               ∧ dof_vel b' !! e = Some (replicate 9 0%Q)
               ∧ ∃ act, franka_actor_idxs_all_t a !! e = Some act ∧ pushed !! i = Some act).
Proof.
  intros c a b env_idxs d ks.
  assert (actors_ok c a) as H0 by witness_side.
  assert (buffers_ok c a b) as H1 by witness_side.
  assert (env_idxs_ok (num_envs c) env_idxs) as H2 by witness_side.
  assert (draws_ok d) as H3 by witness_side.
  assert ((0 <= franka_joint_rand_lim_deg a)%Q) as H4 by witness_side.
  assert (result_mapM (norm_index (num_envs c)) env_idxs = Ok ks) as H5 by witness_side.
  assert (NoDup ks) as H6 by witness_side.
  split; [exact (conj H0 (conj H1 (conj H2 (conj H3 (conj H4 (conj H5 H6))))))|].
  exact (X14_reset_frankas_rows c a b env_idxs d ks H0 H1 H2 H3 H4 H5 H6).
Defined.

Lemma X15_witness :
  let c := Demo.plain in
  let a := DemoReset.actors in
  let b := DemoReset.buffers in
  let env_idxs := [1; -2]%Z in
  let d := DemoReset.reset_draws in
  let ks := [1; 0] in
  let reset_joints := DemoReset.reset_joints in
  let i := 0 in
  let e := 1 in
  (actors_ok c a
   ∧ buffers_ok c a b
   ∧ env_idxs_ok (num_envs c) env_idxs
   ∧ draws_ok d
   ∧ (0 <= franka_joint_rand_lim_deg a)%Q
   ∧ result_mapM (norm_index (num_envs c)) env_idxs = Ok ks
   ∧ NoDup ks
   ∧ default_dof_pos_of (franka_num_dofs a) reset_joints (max_gripper_width c) = Ok (default_dof_pos a)
   ∧ ks !! i = Some e)
  ∧ (∃ b' pushed x,
     _reset_frankas c a b env_idxs d true true = Ok (b', pushed)
     ∧ FurnitureSimEnvBuffers.gripper_width b' !! e = Some [x]
     ∧ (x == max_gripper_width c)%Q).
Proof.
  intros c a b env_idxs d ks reset_joints i e.
  assert (actors_ok c a) as H0 by witness_side.
  assert (buffers_ok c a b) as H1 by witness_side.
  assert (env_idxs_ok (num_envs c) env_idxs) as H2 by witness_side.
  assert (draws_ok d) as H3 by witness_side.
  assert ((0 <= franka_joint_rand_lim_deg a)%Q) as H4 by witness_side.
  assert (result_mapM (norm_index (num_envs c)) env_idxs = Ok ks) as H5 by witness_side.
  assert (NoDup ks) as H6 by witness_side.
  assert (default_dof_pos_of (franka_num_dofs a) reset_joints (max_gripper_width c) = Ok (default_dof_pos a)) as H7
    by witness_side.
  assert (ks !! i = Some e) as H8 by witness_side.
  split.
  { exact (conj H0 (conj H1 (conj H2 (conj H3 (conj H4 (conj H5 (conj H6 (conj H7 H8)))))))). }
  exact (X15_reset_frankas_opens_gripper c a b env_idxs d ks reset_joints i e
           H0 H1 H2 H3 H4 H5 H6 H7 H8).
Defined.

Lemma X16_witness :
  let c := Demo.plain in
  let a := DemoReset.actors in
  let b := DemoReset.buffers in
  let env_idxs := [1; -2]%Z in
  let d := DemoReset.reset_draws in
  let ks := [1; 0] in
  (actors_ok c a
   ∧ buffers_ok c a b
   ∧ env_idxs_ok (num_envs c) env_idxs
   ∧ str_contains "factory" (furniture_name c) = false
   ∧ NoDup (parts_idx_list a ++ obstacles_idx_list a)
   ∧ result_mapM (norm_index (num_envs c)) env_idxs = Ok ks
   ∧ NoDup ks)
  ∧ (∃ b' pushed,
     _reset_part_poses c a b env_idxs d = Ok (b', pushed)
     ∧ dof_pos b' = dof_pos b ∧ dof_vel b' = dof_vel b
     ∧ (∀ e, e ∉ ks →
          root_pos b' !! e = root_pos b !! e ∧ root_quat b' !! e = root_quat b !! e)
     ∧ ∀ i e, ks !! i = Some e →
         ∃ env_pos env_quat old_pos old_quat,
           root_pos b' !! e = Some env_pos ∧ root_quat b' !! e = Some env_quat
           ∧ root_pos b !! e = Some old_pos ∧ root_quat b !! e = Some old_quat
           ∧ (∀ p actor, parts_idx_list a !! p = Some actor →
                env_pos !! actor = parts_initial_pos a !! p
                ∧ env_quat !! actor = parts_initial_ori a !! p)
           ∧ (∀ actor, actor ∉ parts_idx_list a → actor ∉ obstacles_idx_list a →
                env_pos !! actor = old_pos !! actor
                ∧ env_quat !! actor = old_quat !! actor)
           ∧ ∃ acts, actor_idx_by_env a !! e = Some acts ∧ acts ⊆ pushed).
Proof.
  intros c a b env_idxs d ks.
  assert (actors_ok c a) as H0 by witness_side.
  assert (buffers_ok c a b) as H1 by witness_side.
  assert (env_idxs_ok (num_envs c) env_idxs) as H2 by witness_side.
  assert (str_contains "factory" (furniture_name c) = false) as H3 by witness_side.
  assert (NoDup (parts_idx_list a ++ obstacles_idx_list a)) as H4 by witness_side.
  assert (result_mapM (norm_index (num_envs c)) env_idxs = Ok ks) as H5 by witness_side.
  assert (NoDup ks) as H6 by witness_side.
  split; [exact (conj H0 (conj H1 (conj H2 (conj H3 (conj H4 (conj H5 H6))))))|].
  exact (X16_reset_part_poses_restores_parts c a b env_idxs d ks H0 H1 H2 H3 H4 H5 H6).
Defined.


Lemma X18_witness :
  let c := Demo.plain in
  let a := DemoReset.actors in
  let b := DemoReset.rested in
  let env_idxs := [1; -2]%Z in
  let ks := [1; 0] in
  let rest := DemoReset.rest_poses in
  (actors_ok c a
   ∧ buffers_ok c a b
   ∧ env_idxs_ok (num_envs c) env_idxs
   ∧ env_idxs ≠ []
   ∧ NoDup (bulb_idx_list a)
   ∧ lb_rest_poses b = Some rest
   ∧ length rest = num_envs c
   ∧ result_mapM (norm_index (num_envs c)) env_idxs = Ok ks
   ∧ NoDup ks)
  ∧ (_set_bulb_poses c a b [] = Ok (b, None)
     ∧ _set_bulb_poses c a (set_lb_rest_poses None b) env_idxs = Raise AttributeError
     ∧ ∃ b' pushed,
         _set_bulb_poses c a b env_idxs = Ok (b', Some pushed)
         ∧ dof_pos b' = dof_pos b ∧ dof_vel b' = dof_vel b
         ∧ (∀ e, e ∉ ks →
              root_pos b' !! e = root_pos b !! e ∧ root_quat b' !! e = root_quat b !! e)
         ∧ ∀ i e, ks !! i = Some e →
             ∃ env_pos env_quat old_pos old_quat pose,
               root_pos b' !! e = Some env_pos ∧ root_quat b' !! e = Some env_quat
               ∧ root_pos b !! e = Some old_pos ∧ root_quat b !! e = Some old_quat
               ∧ rest !! e = Some pose
               ∧ (∀ actor, actor ∈ bulb_idx_list a →
                    env_pos !! actor = Some (take 3 pose)
                    ∧ env_quat !! actor = Some (take 4 (drop 3 pose)))
               ∧ (∀ actor, actor ∉ bulb_idx_list a →
                    env_pos !! actor = old_pos !! actor
                    ∧ env_quat !! actor = old_quat !! actor)
               ∧ ∃ acts, bulb_actor_idx_by_env a !! e = Some acts ∧ acts ⊆ pushed).
Proof.
  intros c a b env_idxs ks rest.
  assert (actors_ok c a) as H0 by witness_side.
  assert (buffers_ok c a b) as H1 by witness_side.
  assert (env_idxs_ok (num_envs c) env_idxs) as H2 by witness_side.
  assert (env_idxs ≠ []) as H3 by witness_side.
  assert (NoDup (bulb_idx_list a)) as H4 by witness_side.
  assert (lb_rest_poses b = Some rest) as H5 by witness_side.
  assert (length rest = num_envs c) as H6 by witness_side.
  assert (result_mapM (norm_index (num_envs c)) env_idxs = Ok ks) as H7 by witness_side.
  assert (NoDup ks) as H8 by witness_side.
  split.
  { exact (conj H0 (conj H1 (conj H2 (conj H3 (conj H4 (conj H5 (conj H6 (conj H7 H8)))))))). }
  exact (X18_set_bulb_poses_writes_rest_pose c a b env_idxs ks rest
           H0 H1 H2 H3 H4 H5 H6 H7 H8).
Defined.

Lemma X19_witness :
  let c := Demo.plain in
  let env_idxs := [1; -2]%Z in
  let maxf := (1 # 2)%Q in
  let maxt := (1 # 100)%Q in
  let d := Demo.draws in
  let ks := [1; 0] in
  (config_ok c
   ∧ length (rigid_body_index_by_env c) = num_envs c
   ∧ env_idxs_ok (num_envs c) env_idxs
   ∧ NoDup (concat (rigid_body_index_by_env c))
   ∧ result_mapM (norm_index (num_envs c)) env_idxs = Ok ks
   ∧ NoDup ks)
  ∧ (∃ forces torques,
     _apply_forces_to_parts c env_idxs maxf maxt d = Ok (forces, torques)
     ∧ length forces = rigid_body_count c ∧ length torques = rigid_body_count c
     ∧ (∀ b, b < rigid_body_count c →
          (∀ e row, e ∈ ks → rigid_body_index_by_env c !! e = Some row → b ∉ row) →
          forces !! b = Some [0; 0; 0]%Q ∧ torques !! b = Some [0; 0; 0]%Q)
     ∧ ∀ i e p row b fm tm,
         ks !! i = Some e → rigid_body_index_by_env c !! e = Some row →
         row !! p = Some b →
         force_multiplier c !! p = Some fm → torque_multiplier c !! p = Some tm →
         forces !! b
           = Some [u_force d i p * maxf * cos_2pi (u_theta d i p) * fm;
                   u_force d i p * maxf * sin_2pi (u_theta d i p) * fm;
                   0 * fm]%Q
         ∧ torques !! b = Some [0; 0; maxt * (u_torque d i p * 2 - 1) * tm]%Q).
Proof.
  intros c env_idxs maxf maxt d ks.
  assert (config_ok c) as H0 by witness_side.
  assert (length (rigid_body_index_by_env c) = num_envs c) as H1 by witness_side.
  assert (env_idxs_ok (num_envs c) env_idxs) as H2 by witness_side.
  assert (NoDup (concat (rigid_body_index_by_env c))) as H3 by witness_side.
  assert (result_mapM (norm_index (num_envs c)) env_idxs = Ok ks) as H4 by witness_side.
  assert (NoDup ks) as H5 by witness_side.
  split; [exact (conj H0 (conj H1 (conj H2 (conj H3 (conj H4 H5)))))|].
  exact (X19_reset_push_acts_on_named_parts c env_idxs maxf maxt d ks H0 H1 H2 H3 H4 H5).
Defined.

Lemma X25_witness :
  let c := DemoReset.factory in
  let a := DemoReset.actors in
  let b := DemoReset.buffers in
  let env_idxs := [1; -2]%Z in
  let d := DemoReset.reset_draws in
  let ks := [1; 0] in
  let i := 0 in
  let e := 1 in
  let p := 1 in
  let actor := 8 in
  let x := 0%Q in
  let y := (2 # 10)%Q in
  let z := (4 # 10)%Q in
  let ori := [1; 0; 0; 0]%Q in
  (actors_ok c a
   ∧ buffers_ok c a b
   ∧ env_idxs_ok (num_envs c) env_idxs
   ∧ part_draws_ok d
   ∧ (0 <= deg2rad_45)%Q
   ∧ str_contains "factory" (furniture_name c) = true
   ∧ NoDup (parts_idx_list a ++ obstacles_idx_list a)
   ∧ result_mapM (norm_index (num_envs c)) env_idxs = Ok ks
   ∧ NoDup ks
   ∧ ks !! i = Some e
   ∧ parts_idx_list a !! p = Some actor
   ∧ parts_initial_pos a !! p = Some [x; y; z]
   ∧ parts_initial_ori a !! p = Some ori)
  ∧ (∃ b' pushed env_pos env_quat dx dy yaw,
     _reset_part_poses c a b env_idxs d = Ok (b', pushed)
     ∧ root_pos b' !! e = Some env_pos ∧ root_quat b' !! e = Some env_quat
     ∧ env_pos !! actor = Some [x + dx; y + dy; z + 0]%Q
     ∧ (- (1 # 100) <= dx ∧ dx <= 1 # 100)%Q
     ∧ (- (1 # 100) <= dy ∧ dy <= 1 # 100)%Q
     ∧ env_quat !! actor
       = Some (quaternion_multiply ori (axis_angle_to_quaternion [0; 0; yaw]%Q))
     ∧ (- deg2rad_45 <= yaw ∧ yaw <= deg2rad_45)%Q).
Proof.
  intros c a b env_idxs d ks i e p actor x y z ori.
  assert (actors_ok c a) as H0 by witness_side.
  assert (buffers_ok c a b) as H1 by witness_side.
  assert (env_idxs_ok (num_envs c) env_idxs) as H2 by witness_side.
  assert (part_draws_ok d) as H3 by witness_side.
  assert ((0 <= deg2rad_45)%Q) as H4 by witness_side.
  assert (str_contains "factory" (furniture_name c) = true) as H5 by witness_side.
  assert (NoDup (parts_idx_list a ++ obstacles_idx_list a)) as H6 by witness_side.
  assert (result_mapM (norm_index (num_envs c)) env_idxs = Ok ks) as H7 by witness_side.
  assert (NoDup ks) as H8 by witness_side.
  assert (ks !! i = Some e) as H9 by witness_side.
  assert (parts_idx_list a !! p = Some actor) as H10 by witness_side.
  assert (parts_initial_pos a !! p = Some [x; y; z]) as H11 by witness_side.
  assert (parts_initial_ori a !! p = Some ori) as H12 by witness_side.
  split.
  { exact (conj H0 (conj H1 (conj H2 (conj H3 (conj H4 (conj H5 (conj H6 (conj H7 (conj H8 (conj H9 (conj H10 (conj H11 H12)))))))))))). }
  exact (X25_factory_reset_jitters_parts c a b env_idxs d ks i e p actor x y z ori
           H0 H1 H2 H3 H4 H5 H6 H7 H8 H9 H10 H11 H12).
Defined.

End LampResetParts.

Section LampResetCall.
Import FurnitureRLSimEnvReset.

Lemma X20_witness :
  let c := Demo.plain in
  let a := DemoReset.actors in
  let s := Demo.ready Demo.plain in
  let b := DemoReset.buffers in
  let env_idxs := Some [1%Z] in
  let inp := DemoReset.reset_input in
  let ks := [1] in
  (config_ok c
   ∧ actors_ok c a
   ∧ buffers_ok c a b
   ∧ length (already_assembled s) = num_envs c
   ∧ length (env_steps s) = num_envs c
   ∧ furniture_name c = "lamp"
   ∧ idxs_ok (num_envs c) env_idxs
   ∧ result_mapM (norm_index (num_envs c)) (reset_idxs c env_idxs) = Ok ks
   ∧ NoDup ks
   ∧ NoDup (parts_idx_list a ++ obstacles_idx_list a)
   ∧ NoDup (bulb_idx_list a)
   ∧ draws_ok (draws inp)
   ∧ (0 <= franka_joint_rand_lim_deg a)%Q
   ∧ rb_ok c (rb_settled inp)
   ∧ success1 inp = true
   ∧ success2 inp = true)
  ∧ (∃ s' b' out rest,
     reset c a s b env_idxs inp = Ok (s', b', out)
     ∧ FurnitureRLSimEnv.reset c s env_idxs (rb_final inp) = Ok s'
     ∧ lb_rest_poses b' = Some rest
     ∧ (∀ e k, lamp_bulb_rb_indices c !! e = Some k →
          ∃ row, rb_settled inp !! k = Some row ∧ rest !! e = Some (take 7 row))
     ∧ (∀ e, e ∉ ks →
          root_pos b' !! e = root_pos b !! e ∧ root_quat b' !! e = root_quat b !! e)
     ∧ ∀ e, e ∈ ks →
         ∃ env_pos env_quat pose,
           root_pos b' !! e = Some env_pos ∧ root_quat b' !! e = Some env_quat
           ∧ rest !! e = Some pose
           ∧ (∀ actor, actor ∈ bulb_idx_list a →
                env_pos !! actor = Some (take 3 pose)
                ∧ env_quat !! actor = Some (take 4 (drop 3 pose)))
           ∧ (∀ p actor, parts_idx_list a !! p = Some actor →
                actor ∉ bulb_idx_list a →
                env_pos !! actor = parts_initial_pos a !! p
                ∧ env_quat !! actor = parts_initial_ori a !! p)
           ∧ ∃ acts pushed, bulb_actor_idx_by_env a !! e = Some acts
                            ∧ bulbs_pushed out = Some pushed ∧ acts ⊆ pushed).
Proof.
  intros c a s b env_idxs inp ks.
  assert (config_ok c) as H0 by witness_side.
  assert (actors_ok c a) as H1 by witness_side.
  assert (buffers_ok c a b) as H2 by witness_side.
  assert (length (already_assembled s) = num_envs c) as H3 by witness_side.
  assert (length (env_steps s) = num_envs c) as H4 by witness_side.
  assert (furniture_name c = "lamp") as H5 by witness_side.
  assert (idxs_ok (num_envs c) env_idxs) as H6 by witness_side.
  assert (result_mapM (norm_index (num_envs c)) (reset_idxs c env_idxs) = Ok ks) as H7
    by witness_side.
  assert (NoDup ks) as H8 by witness_side.
  assert (NoDup (parts_idx_list a ++ obstacles_idx_list a)) as H9 by witness_side.
  assert (NoDup (bulb_idx_list a)) as H10 by witness_side.
  assert (draws_ok (draws inp)) as H11 by witness_side.
  assert ((0 <= franka_joint_rand_lim_deg a)%Q) as H12 by witness_side.
  assert (rb_ok c (rb_settled inp)) as H13 by witness_side.
  assert (success1 inp = true) as H14 by witness_side.
  assert (success2 inp = true) as H15 by witness_side.
  split.
  { exact (conj H0 (conj H1 (conj H2 (conj H3 (conj H4 (conj H5 (conj H6 (conj H7 (conj H8 (conj H9 (conj H10 (conj H11 (conj H12 (conj H13 (conj H14 H15))))))))))))))). }
  exact (X20_lamp_reset_stores_rest_poses c a s b env_idxs inp ks
           H0 H1 H2 H3 H4 H5 H6 H7 H8 H9 H10 H11 H12 H13 H14 H15).
Defined.

End LampResetCall.

Section LampRobotState.
Import FurnitureSimEnvBuffers.

Lemma X21_witness :
  let c := Demo.plain in
  let oc := DemoReset.obs in
  let b := DemoReset.buffers in
  let forces := DemoReset.dof_forces in
  let rb := DemoReset.turned in
  let e := 1 in
  let k := 7 in
  let row := [9; 0; 0; 0; 1; 0; - (1 # 2); 0; 0; 0; 0; 0; 0]%Q in
  (rb_ok c rb
   ∧ robot_idxs_ok c oc
   ∧ Forall (λ k, k ∈ robot_state_dict_keys) (robot_state_keys oc)
   ∧ "ee_quat" ∈ robot_state_keys oc
   ∧ ee_idxs c !! e = Some k
   ∧ rb !! k = Some row)
  ∧ (∃ d ee_quat q w,
     _read_robot_state c oc b forces rb = Return d
     ∧ dict_get d "ee_quat" = Return ee_quat
     ∧ ee_quat !! e = Some q
     ∧ (q = take 4 (drop 3 row) ∨ q = map (λ x, x * -1)%Q (take 4 (drop 3 row)))
     ∧ q !! 3 = Some w ∧ (0 <= w)%Q).
Proof.
  intros c oc b forces rb e k row.
  assert (rb_ok c rb) as H0 by witness_side.
  assert (robot_idxs_ok c oc) as H1 by witness_side.
  assert (Forall (λ k, k ∈ robot_state_dict_keys) (robot_state_keys oc)) as H2
    by witness_side.
  assert ("ee_quat" ∈ robot_state_keys oc) as H3 by witness_side.
  assert (ee_idxs c !! e = Some k) as H4 by witness_side.
  assert (rb !! k = Some row) as H5 by witness_side.
  split; [exact (conj H0 (conj H1 (conj H2 (conj H3 (conj H4 H5)))))|].
  exact (X21_ee_quat_real_part_nonnegative c oc b forces rb e k row H0 H1 H2 H3 H4 H5).
Defined.

Lemma X22_witness :
  let c := Demo.plain in
  let oc := DemoReset.obs in
  let b := DemoReset.buffers in
  let forces := DemoReset.dof_forces in
  let rb := DemoReset.turned in
  (rb_ok c rb
   ∧ robot_idxs_ok c oc)
  ∧ ((Forall (λ k, k ∈ robot_state_dict_keys) (robot_state_keys oc) →
      ∃ full d,
        robot_state_dict c oc b forces rb = Ok full
        ∧ _read_robot_state c oc b forces rb = Return d
        ∧ ∀ k, dict_get d k
               = if bool_decide (k ∈ robot_state_keys oc) then dict_get full k
                 else ThrowKeyError k)
     ∧ ∀ pre k post,
         robot_state_keys oc = pre ++ k :: post →
         Forall (λ k, k ∈ robot_state_dict_keys) pre → k ∉ robot_state_dict_keys →
         _read_robot_state c oc b forces rb = ThrowKeyError k).
Proof.
  intros c oc b forces rb.
  assert (rb_ok c rb) as H0 by witness_side.
  assert (robot_idxs_ok c oc) as H1 by witness_side.
  split; [exact (conj H0 H1)|].
  exact (X22_read_robot_state_selects_keys c oc b forces rb H0 H1).
Defined.


Lemma X24_witness :
  let a := DemoReset.actors in
  let b := DemoReset.buffers in
  let env_idx := (-1)%Z in
  let dof_pos_arg := @None (list Q) in
  let k := 1 in
  (franka_num_dofs a = 9
   ∧ length (default_dof_pos a) = 9
   ∧ Forall (λ row, length row = 9) (dof_pos b)
   ∧ Forall (λ row, length row = 9) (dof_vel b)
   ∧ length (default (default_dof_pos a) dof_pos_arg) = 9
   ∧ norm_index (length (franka_actor_idxs_all_t a)) env_idx = Ok k)
  ∧ (∃ b' act,
     _reset_franka a b env_idx dof_pos_arg = Ok (b', [act])
     ∧ franka_actor_idxs_all_t a !! k = Some act
     ∧ _reset_franka_all a b dof_pos_arg = Ok (b', franka_actor_idxs_all_t a)
     ∧ dof_pos b'
       = replicate (length (dof_pos b)) (default (default_dof_pos a) dof_pos_arg)
     ∧ dof_vel b' = replicate (length (dof_vel b)) (replicate 9 0%Q)
     ∧ root_pos b' = root_pos b ∧ root_quat b' = root_quat b).
Proof.
  intros a b env_idx dof_pos_arg k.
  assert (franka_num_dofs a = 9) as H0 by witness_side.
  assert (length (default_dof_pos a) = 9) as H1 by witness_side.
  assert (Forall (λ row, length row = 9) (dof_pos b)) as H2 by witness_side.
  assert (Forall (λ row, length row = 9) (dof_vel b)) as H3 by witness_side.
  assert (length (default (default_dof_pos a) dof_pos_arg) = 9) as H4 by witness_side.
  assert (norm_index (length (franka_actor_idxs_all_t a)) env_idx = Ok k) as H5
    by witness_side.
  split; [exact (conj H0 (conj H1 (conj H2 (conj H3 (conj H4 H5)))))|].
  exact (X24_reset_franka_rewrites_every_row a b env_idx dof_pos_arg k H0 H1 H2 H3 H4 H5).
Defined.

End LampRobotState.
